(* ===== verification/_CoqProject ===== *)
-Q . S2P
Prelude.v
Timer.v
FdManager.v
Sys.v
Executor.v
Info.v
Scheduler.v
SchedulerInv.v
SchedulerThm.v
UContext.v
RemoteTaskList.v
IOManager.v
IOManagerThm.v
Wakeup.v
IOThread.v
CoIO.v
CoIOThm.v
EventLoop.v
EventLoopInv.v
EventLoopThm.v
Pool.v
Hook.v
Libc.v
ServerLoop.v
Runner.v
Text.v
Print.v
LogStream.v
WritableFile.v
Address.v
Pattern.v
Logger.v
FileFlusher.v
LogManager.v
Flusher.v
Random.v
Balancer.v
Base.v
Config.v
RunnerConfig.v
LogConvert.v
Socket.v
WorkBalancer.v
TcpServer.v
TcpServerThm.v
