(* ===== verification/Prelude.v ===== *)
(** * net_base: a verification of the coroutine network library

    net_base is a C++17 library for network servers on Linux: coroutines
    ("executors"), one scheduler per thread, an epoll-based IO manager with
    timers, coroutine versions of the blocking system calls that replace the
    ones of the C library, balancers that spread tasks over threads, sockets and
    a TCP server, and a logging system with its configuration.  Paths below are
    relative to the repository (include/... and src/...).

    ** The parts and their files

    - Prelude.v (this file): outcomes of C++ code ([Ok], [Throw], [Fault]),
      machine integers, characters, transition sequences, shared list facts and
      automation.
    - Timer.v: include/base/timer.h.  [TimerManager] is the multiset of timers
      as a sorted list, and the clock as a stream of readings.
    - FdManager.v: include/io/fd_manager.h.  The table of descriptor contexts with
      its heap; refined by a finite map over any sequence of calls.
    - Sys.v: src/base/epoll_helper.h, and the interface of the kernel: epoll, pipes
      and errno are the classes [EpollKernel] and [EpollLaws], with a small
      kernel as instance.
    - Info.v, Print.v: include/base/info.h, src/base/info.cpp (host name, thread
      information, backtraces), include/base/print_helper.h and
      include/base/chrono_helper.h (printing of values, stop watches).
    - Executor.v: include/coroutine/executor.h, src/coroutine/executor.cpp.  The
      executors of a thread, their states, stacks and contexts; a context is a
      one-shot continuation (the build on fcontext).
    - Scheduler.v, SchedulerInv.v, SchedulerThm.v: include/coroutine/scheduler.h,
      src/coroutine/scheduler.cpp.  The scheduling loop and user coroutines as a
      machine, its invariant, and what whole runs guarantee; a call of the IO
      manager is a transition with any answer.
    - UContext.v: the same executors built on ucontext, and the scheduler's machine
      over an interface [ContextBuild] of both builds.
    - RemoteTaskList.v: the lock-free list through which other threads hand over
      executors (scheduler.h), one transition per atomic access, refined by the
      atomic operations of Scheduler.v.
    - IOManager.v, IOManagerThm.v: include/io/io_manager.h, src/io/io_manager.cpp.
      Event registration, [blockPending] (what the scheduler's loop calls when it
      has nothing to do), wake-ups and timers, over Scheduler.v, Timer.v, Sys.v.
    - Wakeup.v: handing over to a thread that waits, one access at a time: the list,
      the spin lock and the pipe of [addRemoteTask] against the owner's loop.
    - IOThread.v: the constructor of the IO manager, the manager of the thread,
      and the soundness of all operations from construction on.
    - CoIO.v, CoIOThm.v: src/io/co_io_function.cpp.  The coroutine versions of
      sleep, read, write, accept, connect, socket, fcntl, ...; a call is cut at
      its yield, the system calls underneath are the class [IoCalls].
    - EventLoop.v, EventLoopInv.v, EventLoopThm.v: the thread as a whole.  The
      machine of Scheduler.v run with the IO manager in place: [loop_step] executes
      coroutine code, answers its calls with the operations of IOManager.v and
      CoIO.v and blocks in [blockPending]; the functions of co_io_function.cpp
      appear as the code a coroutine runs.
    - Pool.v: the threads of a process, interleaved over one kernel, one table of
      descriptors and one pair of executor counters.
    - Hook.v, Libc.v: include/io/hook.h, src/io/hook.cpp.  Which function a hooked
      call reaches, and the hooked calls as coroutine code.
    - ServerLoop.v: the accepting coroutine of the TCP server as code of the loop.
    - Runner.v, RunnerConfig.v: the example programs of src/runner on these machines.
    - Text.v, LogStream.v, WritableFile.v, Pattern.v: string helpers
      (src/base/string_piece.cpp, include/base/lstring.h, include/base/bytes.h), the
      log buffer (include/logging/LogSStream.h), the buffered file
      (include/base/file.h), the pattern parser (src/base/string_parsers.h).
    - Address.v: include/net/address.h, src/net/address.cpp.
    - Logger.v, LogManager.v, FileFlusher.v, Flusher.v: include/logger.h,
      src/logger.cpp, src/logging, include/logging/logger_flusher.h.  Records, the
      manager, the direct flushers down to the files they write, the
      asynchronous flushers as interleaved threads.
    - Balancer.v: include/balancer/io, src/balancer/io, against the interface
      [RemoteSink], which IOManager.v implements.
    - Random.v: include/base/random.h, the numbers the balancers draw.
    - Base.v: include/base/singleton.h, expection.h and typedef.h,
      include/coroutine/blancer.h, src/initer.cpp.
    - Config.v, LogConvert.v: include/config.h, include/base.h, and the converters
      of include/logging/logger_data_convert.h, over classes of JSON and YAML
      documents; the loggers the main configuration names.
    - Socket.v: src/net/socket.cpp, src/net/socket_opt.cpp,
      src/net/tcp/connection.cpp, over the class [NetCalls] of socket calls; close
      goes through the hooked close, with the IO manager and the descriptors.
    - WorkBalancer.v, TcpServer.v, TcpServerThm.v: src/net/tcp/tcp_server.cpp, over
      the interface [IOWorkBalancer], which the balancers of Balancer.v implement.
      Accepting coroutines run turn by turn, in any order.

    ** How code is represented

    A C++ function is a Rocq function on the state it changes; one that may throw
    or run into undefined behaviour (an index out of range, a null or dangling
    pointer, an indeterminate buffer, a failed assert, a division by zero) returns
    an [outcome]; in coroutine code a failed assertion is the call [IoAbort], which
    ends the machine with a fault.  Integers
    are [Z] with their wrap-around written out.  Objects that are shared live in
    explicit heaps.  Code that runs concurrently is a step function per thread,
    and a theorem quantifies over all interleavings, which are sequentially
    consistent.  Loops that the code does not bound take fuel: [invokeNoIntr]
    (repeated system calls) and the write loop of WritableFile.v are shown to
    return when the fuel exceeds the number of interruptions; parsers get the
    length of their input, which is shown to be enough; the scheduler's loop is
    unbounded and is a transition relation.  In coroutine code the loop of
    [ioInner] and the endless loops of the example programs are unrolled a number
    of times that is a parameter: the theorems hold for every number.  External code (the kernel,
    yaml-cpp, nlohmann::json, strftime, inet_pton, getaddrinfo, the random
    generator) is a class or a section variable with its documented laws; every
    class with laws has a small executable instance, on which the theorems that
    use it are evaluated.

    ** What the theorems show

    - Scheduling: in every reachable configuration of a program of [managed] tasks
      (they leave switching to the scheduler and register for one wake-up) one
      executor runs, nothing faults and suspended executors resume in their own
      code ([scheduler_safe]); a round runs every ready task in order
      ([scheduling_round]); a stopping scheduler switches to every queued task,
      new or suspended, in queue order and returns ([stop_drains]); the builds on
      fcontext and ucontext reach the same configurations ([builds_agree]).
    - Between threads: the lock-free list is atomic and loses nothing
      ([remote_list_linearizable], [remote_list_conserves]), a thread that waits is
      told of every task handed over and takes all of them ([no_lost_wakeup]),
      handing over to another thread cannot deadlock ([handover_progress]), and a
      process of any number of threads over shared kernel, descriptors and counters
      is safe, with executor ids that are unique in the process ([pool_safe]).
    - The event loop: a thread with an IO manager is at every moment where the
      scheduler's machine can be, so its safety carries over, whatever kernel,
      clock and other threads do ([event_loop_refines]); a call that had to wait
      returns the answer of the repeated system call once its event is reported
      ([call_completes]) and reports the timeout when it is not
      ([call_times_out]), a coroutine that calls sleep is suspended and goes on
      when its deadline has passed ([sleep_completes]), a server that waits takes
      the connection and queues its task ([connection_accepted]): each of these
      from a moment at which nothing else is ready and no other event or timer is
      due; the example programs keep to the interface ([programs_safe]).
    - IO: registering and delivering events, of registrations for one and for
      every wake-up, keep table and kernel in agreement and wake exactly the
      executors registered ([registerEvent_spec], [blockPending_delivers]; whether
      an event stays registered depends on the first entry of the batch, as in the
      code); from construction on, no operation used within its contract faults or
      leaves the manager ill-formed ([io_manager_sound]; [removeEvent] is within it
      only where it has nothing to remove); a call that would block suspends with
      its socket's timeout armed, other calls are passed on ([ioInner_suspends]).
    - The TCP server: its sockets are open, distinct and listening until it is
      stopped ([server_binds]), every accepted connection reaches the balancer
      once ([server_serves]); stopping closes exactly its sockets when nobody waits
      for one, and fails an assertion when a coroutine waits in accept
      ([server_stops]).
    - Hooks: each of the 21 hooked calls reaches the function of its own name
      ([hook_dispatch]).
    - Executors: state machine and resumption; timers: saturating deadlines,
      order, expiry, re-arming; descriptor table: refinement of a map.
    - Logging: patterns, records, buffers and files round-trip or concatenate as
      they should; what is logged reaches the files of the logger
      ([logs_reach_files]); the asynchronous flusher neither loses, duplicates
      nor reorders messages ([async_fifo]), and delivers when it is notified
      while waiting, under every schedule, the destructor included
      ([async_delivers]); the file of the main configuration gives exactly the
      loggers it describes, but for their levels ([configured_loggers]).
    - Balancing is fair or respects priorities; addresses print and parse back;
      configuration keys resolve to values or remembered defaults, or throw.
    - Lemmas such as [removeEvent_forgets_all], [lost_wakeup],
      [reuse_does_not_restart], [restart_spins], [bindOne_leaks],
      [fatal_record_lost], [yaml_type_lost], [stopped_call_lost],
      [self_handover_blocks], [second_connection_faults], [yaml_through_scalar],
      [long_date_undefined] or [server_bind_all_returns] record where the code
      departs from its intention or its documentation.

    ** Not modelled

    The text of a double (sprintf) and the parsing of JSON and YAML are given from
    outside; headers of aliases and macros, the example programs that only print
    and those that use yaml-cpp directly are left out.
    In Pool.v a hand-over is one step and an executor belongs to the thread it is
    handed to; Wakeup.v and RemoteTaskList.v have the single accesses.
    Locks of TimerManager and FdManager are not modelled: their operations are
    atomic steps.  Weak memory is not modelled.  Log lines written by the library
    itself are dropped. *)

From stdpp Require Export base tactics numbers list gmap sorting strings.
From Stdlib Require Export ZArith Ascii Lia.
From stdpp Require Import options.

Open Scope Z_scope.

(** ** Outcomes of C++ code

    A call either produces a value, leaves with an exception, or runs into a
    state the language gives no meaning to (or an [assert], active unless
    [NDEBUG] is defined, aborts the process).  [Hang] stands for a loop that has
    used up the number of iterations it was given. *)

Inductive exn :=
| InvalidArgument
| BadAlloc
| ExecFailed
| KeyNotFound
| ConvertFailed
| BadAnyCast
| BadSubscript
| ParseError.

Inductive fault :=
| OutOfBounds
| UseAfterFree
| NullDeref
| AssertFailed
| DivByZero
| ProcessExit
| IndeterminateValue
| Hang.

Inductive outcome (A : Type) :=
| Ok (a : A)
| Throw (e : exn)
| Fault (f : fault).
Arguments Ok {A} _.
Arguments Throw {A} _.
Arguments Fault {A} _.

#[global] Instance exn_eq_dec : EqDecision exn.
Proof. solve_decision. Defined.
#[global] Instance fault_eq_dec : EqDecision fault.
Proof. solve_decision. Defined.

#[global] Instance outcome_ret : MRet outcome := @Ok.
#[global] Instance outcome_bind : MBind outcome := λ A B f m,
  match m with
  | Ok a => f a
  | Throw e => Throw e
  | Fault x => Fault x
  end.

Definition assert_ (b : bool) : outcome unit :=
  if b then Ok tt else Fault AssertFailed.

Definition of_option {A} (f : fault) (o : option A) : outcome A :=
  match o with Some a => Ok a | None => Fault f end.

Lemma bind_step {A B} (m : outcome A) (k : A → outcome B) a : m = Ok a → (m ≫= k) = k a.
Proof. by intros ->. Qed.

Lemma bind_Ok {A B} (m : outcome A) (k : A → outcome B) b :
  m ≫= k = Ok b ↔ ∃ a, m = Ok a ∧ k a = Ok b.
Proof.
  split; [destruct m; simpl; [eauto | discriminate..]|].
  intros (a & -> & H); exact H.
Qed.

Lemma of_option_Ok {A} f (o : option A) a : of_option f o = Ok a ↔ o = Some a.
Proof. destruct o; simpl; split; congruence. Qed.

Lemma assert_Ok b u : assert_ b = Ok u ↔ b = true.
Proof. destruct b, u; simpl; split; congruence. Qed.

(** A loop over a list whose body may fail. *)
Fixpoint ofold {A B} (f : B → A → outcome A) (l : list B) (a : A) : outcome A :=
  match l with
  | [] => Ok a
  | b :: l => a ← f b a; ofold f l a
  end.

(** ** Machine integers

    Unsigned values are kept in [0, 2^w); a signed conversion keeps the low
    bits and reinterprets them. *)

Definition u8 (z : Z) : Z := z mod 2 ^ 8.
Definition u16 (z : Z) : Z := z mod 2 ^ 16.
Definition u32 (z : Z) : Z := z mod 2 ^ 32.
Definition u64 (z : Z) : Z := z mod 2 ^ 64.
Definition i32 (z : Z) : Z :=
  let m := z mod 2 ^ 32 in if m <? 2 ^ 31 then m else m - 2 ^ 32.

(** [static_cast<size_t>(-1)] *)
Definition size_max : Z := 2 ^ 64 - 1.

Definition is_u64 (z : Z) : Prop := 0 <= z < 2 ^ 64.

Lemma u64_small z : 0 <= z < 2 ^ 64 → u64 z = z.
Proof. apply Z.mod_small. Qed.

Lemma u32_small z : 0 <= z < 2 ^ 32 → u32 z = z.
Proof. apply Z.mod_small. Qed.

Lemma u64_bound z : 0 <= u64 z < 2 ^ 64.
Proof. apply Z.mod_pos_bound; lia. Qed.

Lemma u32_bound z : 0 <= u32 z < 2 ^ 32.
Proof. apply Z.mod_pos_bound; lia. Qed.

Lemma i32_small z : - 2 ^ 31 <= z < 2 ^ 31 → i32 z = z.
Proof.
  intros H. unfold i32. destruct (Z.ltb_spec (z mod 2 ^ 32) (2 ^ 31)) as [Hl|Hl];
    destruct (Z_lt_le_dec z 0) as [Hz|Hz].
  - rewrite <- (Z.mod_add z 1) in Hl by lia.
    rewrite Z.mod_small in Hl by lia. lia.
  - apply Z.mod_small; lia.
  - rewrite <- (Z.mod_add z 1) by lia. rewrite Z.mod_small by lia. lia.
  - rewrite Z.mod_small in Hl by lia. lia.
Qed.

Lemma i32_u64 z : i32 (u64 z) = i32 z.
Proof.
  unfold i32, u64. replace ((z mod 2 ^ 64) mod 2 ^ 32) with (z mod 2 ^ 32); [done|].
  replace (2 ^ 64) with (2 ^ 32 * 2 ^ 32) by lia.
  rewrite Z.rem_mul_r by lia. rewrite Z.mul_comm, Z.mod_add by lia.
  by rewrite Z.mod_mod by lia.
Qed.

(** ** Character data

    C++ strings, string views and buffers are lists of characters. *)

Abbreviation cstr := (list ascii).

Definition str (s : string) : cstr := String.list_ascii_of_string s.

(** The numeric value of an (unsigned) character. *)
Definition chr (c : ascii) : Z := Z.of_N (N_of_ascii c).
Definition ch (z : Z) : ascii := ascii_of_N (Z.to_N z).

Lemma chr_ch z : 0 <= z < 256 → chr (ch z) = z.
Proof.
  intros H. unfold chr, ch. rewrite N_ascii_embedding by lia. lia.
Qed.

Lemma ch_chr c : ch (chr c) = c.
Proof. unfold chr, ch. rewrite N2Z.id. apply ascii_N_embedding. Qed.

Lemma chr_inj c d : chr c = chr d → c = d.
Proof. intros H. rewrite <- (ch_chr c), <- (ch_chr d). by rewrite H. Qed.

Lemma chr_bound c : 0 <= chr c < 256.
Proof. unfold chr. pose proof (N_ascii_bounded c). lia. Qed.

(** ** Finite transition sequences *)

Inductive star {A} (R : A → A → Prop) : A → A → Prop :=
| star_refl a : star R a a
| star_step a b c : R a b → star R b c → star R a c.

Lemma star_one {A} (R : A → A → Prop) a b : R a b → star R a b.
Proof. eauto using star. Qed.

Lemma star_trans {A} (R : A → A → Prop) a b c :
  star R a b → star R b c → star R a c.
Proof. induction 1; eauto using star. Qed.

(** An invariant established by one state and kept by every transition holds
    in every reachable state. *)
Lemma star_invariant {A} (R : A → A → Prop) (I : A → Prop) a b :
  (∀ x y, I x → R x y → I y) → I a → star R a b → I b.
Proof. intros Hstep Ha Hs. induction Hs; eauto. Qed.

(** [P] is reached on every path of [R]: no path ends before, none goes on for
    ever without. *)
Inductive eventually {A} (R : A → A → Prop) (P : A → Prop) (a : A) : Prop :=
| ev_now : P a → eventually R P a
| ev_step : (∃ b, R a b) → (∀ b, R a b → eventually R P b) → eventually R P a.

Lemma eventually_bind {A} (R : A → A → Prop) (P Q : A → Prop) a :
  eventually R P a → (∀ b, P b → eventually R Q b) → eventually R Q a.
Proof. intros He HPQ. induction He; eauto using eventually. Qed.

Lemma eventually_mono {A} (R : A → A → Prop) (P Q : A → Prop) a :
  eventually R P a → (∀ b, P b → Q b) → eventually R Q a.
Proof. intros He HPQ. eapply eventually_bind; eauto using eventually. Qed.

Lemma eventually_star {A} (R : A → A → Prop) (P : A → Prop) a :
  eventually R P a → ∃ b, star R a b ∧ P b.
Proof.
  induction 1 as [a Ha|a (b & Hb) _ IH]; [eauto using star|].
  destruct (IH b Hb) as (c & ? & ?). eauto using star.
Qed.

(** ** Lists *)

Lemma Forall_app_1 {A} (P : A → Prop) l k :
  Forall P l → Forall P k → Forall P (l ++ k).
Proof. intros. by apply Forall_app. Qed.

Lemma filter_all {A} (P : A → Prop) `{∀ x, Decision (P x)} l :
  Forall P l → filter P l = l.
Proof.
  induction 1 as [|x l Hx Hl IH]; [done|]. rewrite filter_cons_True by done. by rewrite IH.
Qed.

Lemma filter_none {A} (P : A → Prop) `{∀ x, Decision (P x)} l :
  Forall (λ x, ¬ P x) l → filter P l = [].
Proof.
  induction 1 as [|x l Hx Hl IH]; [done|]. by rewrite filter_cons_False.
Qed.

Lemma filter_subset_Forall {A} (P Q : A → Prop) `{∀ x, Decision (Q x)} l :
  Forall P l → Forall P (filter Q l).
Proof.
  induction 1 as [|x l Hx Hl IH]; [constructor|]. rewrite filter_cons.
  case_decide; [by constructor|done].
Qed.

(** A descriptor that is not in use. *)
Definition next_fd {A} (m : gmap Z A) : Z := 1 + map_fold (λ k _ x, Z.max k x) 2 m.

Lemma next_fd_above {A} (m : gmap Z A) fd : is_Some (m !! fd) → fd < next_fd m.
Proof.
  unfold next_fd. revert fd. apply (map_fold_weak_ind (λ r m, ∀ fd, is_Some (m !! fd) → fd < 1 + r)).
  - intros fd [x Hx]. by rewrite lookup_empty in Hx.
  - intros k x m' r Hk IH fd [y Hy]. apply lookup_insert_Some in Hy as [(-> & _)|(_ & Hy)]; [lia|].
    specialize (IH fd (mk_is_Some _ _ Hy)). lia.
Qed.

Lemma next_fd_pos {A} (m : gmap Z A) : 0 <= next_fd m.
Proof.
  unfold next_fd. assert (2 <= map_fold (λ k _ x, Z.max k x) 2 m); [|lia].
  apply (map_fold_weak_ind (λ r m, 2 <= r)); intros; lia.
Qed.

Lemma next_fd_fresh {A} (m : gmap Z A) : m !! next_fd m = None.
Proof.
  destruct (m !! next_fd m) as [x|] eqn:Hx; [|done].
  pose proof (next_fd_above m (next_fd m) (mk_is_Some _ _ Hx)). lia.
Qed.

(** ** Automation

    [obind] inverts the success of a monadic computation; [bdestr] splits the
    boolean tests of the code into propositions. *)

Ltac obind :=
  repeat match goal with
  | H : _ ≫= _ = Ok _ |- _ =>
      apply bind_Ok in H; let x := fresh "x" in let E := fresh "E" in
      destruct H as (x & E & H)
  | H : of_option _ _ = Ok _ |- _ => apply of_option_Ok in H
  | H : assert_ _ = Ok _ |- _ => apply assert_Ok in H
  end.

Ltac bdestr :=
  repeat match goal with
  | H : context [ (?a <? ?b) ] |- _ => destruct (Z.ltb_spec a b)
  | |- context [ (?a <? ?b) ] => destruct (Z.ltb_spec a b)
  | H : context [ (?a <=? ?b) ] |- _ => destruct (Z.leb_spec a b)
  | |- context [ (?a <=? ?b) ] => destruct (Z.leb_spec a b)
  | H : context [ (?a =? ?b) ] |- _ => destruct (Z.eqb_spec a b)
  | |- context [ (?a =? ?b) ] => destruct (Z.eqb_spec a b)
  end.

Create HintDb netbase discriminated.
#[export] Hint Resolve u64_bound u32_bound chr_bound Forall_app_1 : netbase.
#[export] Hint Constructors star : netbase.
