(* ===== verification/Timer.v ===== *)
(** * Timers (include/base/timer.h, currentMs of include/base/info.h)

    [Timer] and [TimerManager]: the manager keeps a [std::multiset] of shared
    pointers ordered by expiry time only, modelled as the sequence the multiset
    iterates over.  Each pointer has an identity ([addr]), which [removeTimer]
    is given but the multiset's order does not look at.  The system clock is a
    parameter: the stream of [gettimeofday] readings, consumed one per call. *)

From S2P Require Import Prelude.
From stdpp Require Import options.

Section Timer.
Context {C : Type}.

(** The successive results (tv_sec, tv_usec) of [gettimeofday]. *)
Variable gettimeofday : nat → Z * Z.

Record Timer := mkTimer {
  addr : nat;
  repeat : bool;
  target_timestamp : Z;
  interval : Z;
  callback : option C
}.

Record TimerManager := mkManager {
  timers_ : list Timer;
  ticks : nat;          (* clock readings made so far *)
  next_addr : nat       (* next fresh pointer *)
}.

Definition Comparator (lhs rhs : Timer) : bool :=
  target_timestamp lhs <? target_timestamp rhs.

(** One call of [currentMs]: the reading, and the clock moved on. *)
Definition clock (n : nat) : Z :=
  u64 ((gettimeofday n).1 * 1000 + (gettimeofday n).2 ÷ 1000).

Definition currentMs (m : TimerManager) : Z * TimerManager :=
  (clock (ticks m), mkManager (timers_ m) (S (ticks m)) (next_addr m)).

(** The target of [Timer(interval, callback, repeat)] built at [cur_ms]. *)
Definition Timer_target (cur_ms _interval : Z) : Z :=
  if size_max - cur_ms <? _interval then size_max else u64 (_interval + cur_ms).

(** [std::make_shared<Timer>(interval, callback, repeat)] *)
Definition make_Timer (m : TimerManager) (_interval : Z) (_callback : option C)
    (_repeat : bool) : Timer * TimerManager :=
  let '(cur_ms, m) := currentMs m in
  (mkTimer (next_addr m) _repeat (Timer_target cur_ms _interval) _interval _callback,
   mkManager (timers_ m) (ticks m) (S (next_addr m))).

(** [std::multiset::insert]: after the elements that are not greater. *)
Fixpoint ms_insert (t : Timer) (l : list Timer) : list Timer :=
  match l with
  | [] => [t]
  | x :: l' => if Comparator t x then t :: x :: l' else x :: ms_insert t l'
  end.

(** The longest prefix on which [p] holds, and the rest: where an iterator
    that advances while [p] stops. *)
Fixpoint advance (p : Timer → bool) (l : list Timer) : list Timer * list Timer :=
  match l with
  | [] => ([], [])
  | x :: l' => if p x then let '(a, b) := advance p l' in (x :: a, b) else ([], l)
  end.

(** [std::multiset::lower_bound]: the first element not less than [t]. *)
Definition lower_bound (t : Timer) (l : list Timer) : list Timer * list Timer :=
  advance (λ x, Comparator x t) l.

Definition insert (t : Timer) (m : TimerManager) : TimerManager :=
  mkManager (ms_insert t (timers_ m)) (ticks m) (next_addr m).

Definition addTimer (timer : option Timer) (m : TimerManager) : outcome TimerManager :=
  match timer with
  | None => Fault AssertFailed
  | Some t =>
      match callback t with
      | None => Fault AssertFailed
      | Some _ => Ok (insert t m)
      end
  end.

(** Re-arming of one timer of the expired list. *)
Definition rearm (m : TimerManager) (timer : Timer) : TimerManager :=
  if repeat timer
  then let '(t, m) := make_Timer m (interval timer) (callback timer) true in insert t m
  else m.

Definition takeExpiredTimers (m : TimerManager) : list Timer * TimerManager :=
  let '(cur_ms, m) := currentMs m in
  let current_timer := mkTimer (next_addr m) false cur_ms 0 None in
  let '(before, from) := lower_bound current_timer (timers_ m) in
  let '(equal, rest) := advance (λ t, target_timestamp t =? cur_ms) from in
  let result := before ++ equal in
  (result, foldl rearm (mkManager rest (ticks m) (S (next_addr m))) result).

Definition getNextInterval (m : TimerManager) : Z * TimerManager :=
  match timers_ m with
  | [] => (size_max, m)
  | t :: _ =>
      let '(now, m) := currentMs m in
      if target_timestamp t <? now then (0, m)
      else let '(now, m) := currentMs m in (u64 (target_timestamp t - now), m)
  end.

(** The timer argument is only set when a timer was taken. *)
Definition takeFirstIfExpired (m : TimerManager) (cur_ms : Z)
    : bool * option Timer * TimerManager :=
  match timers_ m with
  | [] => (false, None, m)
  | t :: rest =>
      if target_timestamp t <=? cur_ms then
        let m := mkManager rest (ticks m) (next_addr m) in
        let m := rearm m t in
        match callback t with
        | None => (false, Some t, m)
        | Some _ => (true, Some t, m)
        end
      else (false, None, m)
  end.

(** [find] yields the first element equivalent to the key; [erase] of the end
    iterator has no meaning. *)
Definition removeTimer (timer : option Timer) (m : TimerManager) : outcome TimerManager :=
  match timer with
  | None => Ok m
  | Some t =>
      let '(before, from) := lower_bound t (timers_ m) in
      match from with
      | x :: rest =>
          if Comparator t x then Fault OutOfBounds
          else Ok (mkManager (before ++ rest) (ticks m) (next_addr m))
      | [] => Fault OutOfBounds
      end
  end.

(** ** The order of the multiset *)

Definition tle (a b : Timer) : Prop := target_timestamp a <= target_timestamp b.

Definition timers_sorted (m : TimerManager) : Prop := StronglySorted tle (timers_ m).

Lemma ms_insert_perm t l : ms_insert t l ≡ₚ t :: l.
Proof.
  induction l as [|x l IH]; simpl; [done|].
  destruct (Comparator t x); [done|]. rewrite IH. apply Permutation_swap.
Qed.

Lemma ms_insert_sorted t l : StronglySorted tle l → StronglySorted tle (ms_insert t l).
Proof.
  induction 1 as [|x l Hs IH Hx]; simpl; [repeat constructor|].
  unfold Comparator. bdestr.
  - constructor; [by constructor|]. constructor; [unfold tle; lia|].
    eapply Forall_impl; [exact Hx|]. unfold tle; simpl; intros; lia.
  - constructor; [done|]. rewrite ms_insert_perm. constructor; [unfold tle; lia|done].
Qed.

Lemma advance_app p l : (advance p l).1 ++ (advance p l).2 = l.
Proof.
  induction l as [|x l IH]; simpl; [done|]. destruct (p x); [|done].
  destruct (advance p l); simpl in *. by rewrite IH.
Qed.

(** On a sorted sequence a test that can only turn from true to false splits
    it into the elements that pass and those that do not. *)
Lemma advance_filter (p : Timer → bool) l :
  StronglySorted tle l →
  (∀ a b, tle a b → p b = true → p a = true) →
  advance p l = (filter (λ x, p x = true) l, filter (λ x, p x = false) l).
Proof.
  intros Hs Hp. induction Hs as [|x l Hs IH Hx]; [done|]. simpl.
  destruct (p x) eqn:E.
  - rewrite IH. rewrite filter_cons_True by done.
    rewrite filter_cons_False by congruence. done.
  - rewrite filter_cons_False by congruence. rewrite filter_cons_True by done.
    assert (Hall : Forall (λ y, p y = false) l).
    { eapply Forall_impl; [exact Hx|]. intros y Hy. apply not_true_iff_false.
      intros Ht. pose proof (Hp _ _ Hy Ht). congruence. }
    rewrite (filter_all _ _ Hall).
    rewrite (filter_none (λ y, p y = true)); [done|].
    eapply Forall_impl; [exact Hall|]. simpl; congruence.
Qed.

Lemma StronglySorted_filter (P : Timer → Prop) `{∀ x, Decision (P x)} l :
  StronglySorted tle l → StronglySorted tle (filter P l).
Proof.
  induction 1 as [|x l Hs IH Hx]; [constructor|]. rewrite filter_cons.
  case_decide; [|done]. constructor; [done|]. by apply filter_subset_Forall.
Qed.

(** The two cursor movements of [takeExpiredTimers] together stop at the first
    timer that is strictly later than the clock. *)
Lemma expired_split now a l :
  StronglySorted tle l →
  let '(before, from) := lower_bound (mkTimer a false now 0 None) l in
  let '(equal, rest) := advance (λ t, target_timestamp t =? now) from in
  before ++ equal = filter (λ t, target_timestamp t <= now) l ∧
  rest = filter (λ t, now < target_timestamp t) l.
Proof.
  induction 1 as [|x l Hs IH Hx]; [done|].
  unfold lower_bound in *; simpl. unfold Comparator at 1; simpl.
  destruct (Z.ltb_spec (target_timestamp x) now) as [Hl|Hl].
  - rewrite filter_cons_True by lia. rewrite filter_cons_False by lia.
    destruct (advance _ l) as [before from]; simpl in *.
    destruct (advance _ from) as [equal rest]; simpl. destruct IH as [<- <-]. done.
  - simpl. destruct (Z.eqb_spec (target_timestamp x) now) as [He|He].
    + rewrite filter_cons_True by lia. rewrite filter_cons_False by lia.
      assert (Hn : (advance (λ t, Comparator t (mkTimer a false now 0 None)) l).1 = []).
      { destruct l as [|y l]; [done|]. simpl. inversion Hx as [|?? Hy]; subst.
        unfold tle in Hy. unfold Comparator at 1; simpl.
        destruct (Z.ltb_spec (target_timestamp y) (target_timestamp x)); [lia|done]. }
      pose proof (advance_app (λ t, Comparator t (mkTimer a false now 0 None)) l) as Happ.
      destruct (advance (λ t, Comparator t _) l) as [before from]; simpl in *. subst before.
      simpl in Happ. subst from. destruct (advance _ l) as [equal rest]; simpl in *.
      destruct IH as [<- <-]. done.
    + rewrite filter_cons_False by lia. rewrite filter_cons_True by lia. simpl. split.
      * symmetry. apply filter_none. eapply Forall_impl; [exact Hx|].
        unfold tle; simpl; intros; lia.
      * f_equal. symmetry. apply filter_all. eapply Forall_impl; [exact Hx|].
        unfold tle; simpl; intros; lia.
Qed.

(** What re-arming makes of one repeating timer: same interval and callback,
    a target computed from a later clock reading. *)
Definition rearmed_from (k0 : nat) (old new : Timer) : Prop :=
  interval new = interval old ∧ callback new = callback old ∧ repeat new = true ∧
  ∃ k, (k0 <= k)%nat ∧ target_timestamp new = Timer_target (clock k) (interval old).

Lemma rearmed_from_mono k0 k1 a b :
  (k0 <= k1)%nat → rearmed_from k1 a b → rearmed_from k0 a b.
Proof. 
  intros Hk (? & ? & ? & k & ? & ?). repeat split; auto. exists k. split; [lia|done].
Qed.

Lemma foldl_rearm l m :
  timers_sorted m →
  timers_sorted (foldl rearm m l) ∧
  ∃ fresh, timers_ (foldl rearm m l) ≡ₚ timers_ m ++ fresh ∧
    Forall2 (rearmed_from (ticks m)) (filter (λ t, repeat t = true) l) fresh.
Proof.
  revert m. induction l as [|x l IH]; intros m Hs.
  { simpl. split; [done|]. exists []. rewrite app_nil_r. auto. }
  simpl. rewrite filter_cons. unfold rearm at 2 4. destruct (repeat x) eqn:Ex.
  - rewrite decide_True by done. unfold make_Timer; simpl.
    set (t := mkTimer _ _ _ _ _). set (m1 := insert t _).
    destruct (IH m1) as [Hs1 (fresh & Hp & Hf)].
    { apply ms_insert_sorted, Hs. }
    split; [exact Hs1|]. exists (t :: fresh). split.
    + rewrite Hp. unfold m1; simpl. rewrite ms_insert_perm.
      by rewrite <- Permutation_middle.
    + constructor.
      * unfold rearmed_from, t; simpl. repeat split. exists (ticks m). split; [lia|done].
      * eapply Forall2_impl; [exact Hf|]. intros a b. apply rearmed_from_mono.
        unfold m1; simpl; lia.
  - rewrite decide_False by congruence. apply IH, Hs.
Qed.

Lemma advance_stop (p : Timer → bool) l k :
  Forall (λ x, p x = true) l →
  match k with [] => True | x :: _ => p x = false end →
  advance p (l ++ k) = (l, k).
Proof.
  intros Hl Hk. induction Hl as [|x l Hx Hl IH]; simpl.
  - destruct k as [|x k]; [done|]. simpl. by rewrite Hk.
  - by rewrite Hx, IH.
Qed.

(** In a sorted sequence the timers before [t] with another expiry are earlier. *)
Lemma sorted_before l t r :
  StronglySorted tle (l ++ t :: r) →
  Forall (λ x, target_timestamp x ≠ target_timestamp t) l →
  Forall (λ x, Comparator x t = true) l.
Proof.
  intros Hs Hne. induction l as [|x l IH]; [constructor|].
  simpl in Hs. apply StronglySorted_inv in Hs as [Hs Hx].
  inversion Hne as [|?? Hn Hne']; subst. constructor; [|by apply IH].
  apply Forall_app in Hx as [_ Hx]. inversion Hx as [|?? Ht]; subst.
  unfold Comparator, tle in *. apply Z.ltb_lt. lia.
Qed.

(** [removeTimer] erases the first timer with the same expiry time, whichever
    timer that is. *)
Lemma removeTimer_first m t a l r :
  timers_sorted m → timers_ m = l ++ a :: r →
  target_timestamp a = target_timestamp t →
  Forall (λ x, target_timestamp x ≠ target_timestamp a) l →
  removeTimer (Some t) m = Ok (mkManager (l ++ r) (ticks m) (next_addr m)).
Proof.
  intros Hs Hm Ha Hl. unfold removeTimer, timers_sorted in *. rewrite Hm in *.
  unfold lower_bound. rewrite advance_stop.
  - unfold Comparator. rewrite Ha. by rewrite Z.ltb_irrefl.
  - eapply Forall_impl; [by eapply sorted_before|]. unfold Comparator. by rewrite Ha.
  - unfold Comparator. rewrite Ha. apply Z.ltb_irrefl.
Qed.

Lemma takeExpired_run m :
  timers_sorted m →
  let now := clock (ticks m) in
  let r := takeExpiredTimers m in
  r.1 = filter (λ t, target_timestamp t <= now) (timers_ m) ∧
  StronglySorted tle r.1 ∧ timers_sorted r.2 ∧
  ∃ fresh,
    timers_ r.2 ≡ₚ filter (λ t, now < target_timestamp t) (timers_ m) ++ fresh ∧
    Forall2 (rearmed_from (S (ticks m))) (filter (λ t, repeat t = true) r.1) fresh.
Proof.
  intros Hs. unfold takeExpiredTimers; simpl.
  pose proof (expired_split (clock (ticks m)) (next_addr m) _ Hs) as Hsplit.
  destruct (lower_bound _ _) as [before from]. destruct (advance _ from) as [equal rest].
  destruct Hsplit as [Hres Hrest]. simpl.
  destruct (foldl_rearm (before ++ equal) (mkManager rest (S (ticks m)) (S (next_addr m))))
    as [Hs' (fresh & Hp & Hf)].
  { unfold timers_sorted; simpl. subst rest. by apply StronglySorted_filter. }
  simpl in *. split; [done|]. split; [rewrite Hres; by apply StronglySorted_filter|].
  split; [done|]. exists fresh. by rewrite <- Hrest.
Qed.

(** ** Properties *)

(** C25: the timer constructor saturates instead of wrapping: for a clock and an
    interval that are [size_t] values the target is [min (now + interval) (2^64-1)],
    so it is never earlier than the moment the timer was made. *)
Theorem Timer_target_saturates cur_ms _interval :
  is_u64 cur_ms → is_u64 _interval →
  Timer_target cur_ms _interval = Z.min (cur_ms + _interval) size_max ∧
  cur_ms <= Timer_target cur_ms _interval < 2 ^ 64.
Proof.
  unfold is_u64, Timer_target, size_max. intros H1 H2.
  destruct (Z.ltb_spec (2 ^ 64 - 1 - cur_ms) _interval); [lia|].
  rewrite u64_small by lia. lia.
Qed.

(** [addTimer] keeps the multiset ordered by expiry and adds exactly the
    given timer; a null timer or a null callback trips the assertion. *)
Lemma addTimer_spec m t :
  timers_sorted m →
  match callback t with
  | Some _ => ∃ m', addTimer (Some t) m = Ok m' ∧ timers_sorted m' ∧
                    timers_ m' ≡ₚ t :: timers_ m
  | None => addTimer (Some t) m = Fault AssertFailed
  end ∧ addTimer None m = Fault AssertFailed.
Proof.
  intros Hs. unfold addTimer. destruct (callback t); split; try done.
  eexists; split; [done|]. split; [by apply ms_insert_sorted|apply ms_insert_perm].
Qed.

(** C26: [takeExpiredTimers] returns exactly the timers whose time has come, in
    expiry order, and no others; what stays is the later timers plus one fresh
    copy of every repeating timer returned, re-armed from a later clock
    reading; the multiset stays ordered. *)
Theorem takeExpiredTimers_spec m :
  timers_sorted m →
  let now := clock (ticks m) in
  let r := takeExpiredTimers m in
  r.1 = filter (λ t, target_timestamp t <= now) (timers_ m) ∧
  StronglySorted tle r.1 ∧ timers_sorted r.2 ∧
  ∃ fresh,
    timers_ r.2 ≡ₚ filter (λ t, now < target_timestamp t) (timers_ m) ++ fresh ∧
    Forall2 (rearmed_from (S (ticks m))) (filter (λ t, repeat t = true) r.1) fresh.
Proof. apply takeExpired_run. Qed.

(** The epoll timeout computed from [getNextInterval] (converted to [int] by
    [IOManager::blockPending]) is the exact number of milliseconds to the first
    timer whenever that timer is not yet due at either clock reading and less
    than 2^31 ms away; it is 0 for a timer already due at the first reading,
    and -1 (wait for events only) when there is no timer. *)
Lemma getNextInterval_timeout m t l :
  timers_ m = t :: l → is_u64 (target_timestamp t) →
  (target_timestamp t < clock (ticks m) → i32 (getNextInterval m).1 = 0) ∧
  (clock (ticks m) <= target_timestamp t →
   clock (S (ticks m)) <= target_timestamp t < clock (S (ticks m)) + 2 ^ 31 →
   i32 (getNextInterval m).1 = target_timestamp t - clock (S (ticks m))) ∧
  i32 (getNextInterval (mkManager [] (ticks m) (next_addr m))).1 = -1.
Proof.
  intros Ht Hu. unfold getNextInterval. rewrite Ht. simpl. split_and!.
  - intros Hl. destruct (Z.ltb_spec (target_timestamp t) (clock (ticks m))); [done|lia].
  - intros Hc Hn. destruct (Z.ltb_spec (target_timestamp t) (clock (ticks m))); [lia|].
    simpl. rewrite i32_u64. apply i32_small. lia.
  - reflexivity.
Qed.

(** The clock is read twice: when it moves past the first timer between the two
    readings the difference wraps, and the timeout handed to epoll is negative,
    which waits for an event and ignores the timer. *)
Lemma getNextInterval_tick_race m t l :
  timers_ m = t :: l →
  clock (ticks m) <= target_timestamp t < clock (S (ticks m)) →
  clock (S (ticks m)) <= target_timestamp t + 2 ^ 31 →
  i32 (getNextInterval m).1 < 0.
Proof.
  intros Ht Hc Hd. unfold getNextInterval. rewrite Ht. simpl.
  destruct (Z.ltb_spec (target_timestamp t) (clock (ticks m))); [lia|].
  simpl. rewrite i32_u64, i32_small; lia.
Qed.

(** [takeFirstIfExpired] answers true exactly when the earliest timer is due
    (for managers whose timers all have a callback, as [addTimer] demands), hands
    that timer out, and removes it; otherwise nothing changes. *)
Lemma takeFirstIfExpired_spec m cur_ms :
  timers_sorted m → Forall (λ t, is_Some (callback t)) (timers_ m) →
  match filter (λ t, target_timestamp t <= cur_ms) (timers_ m) with
  | [] => takeFirstIfExpired m cur_ms = (false, None, m)
  | t :: _ => ∃ m', takeFirstIfExpired m cur_ms = (true, Some t, m') ∧
      timers_sorted m' ∧ Forall (tle t) (timers_ m) ∧
      (repeat t = false → timers_ m ≡ₚ t :: timers_ m')
  end.
Proof.
  intros Hs Hc. unfold takeFirstIfExpired. unfold timers_sorted in *.
  destruct (timers_ m) as [|t l] eqn:Et; [done|].
  apply StronglySorted_inv in Hs as [Hs Hl]. inversion Hc as [|?? [c Hct] Hcl]; subst.
  rewrite filter_cons. destruct (Z.leb_spec (target_timestamp t) cur_ms) as [H|H].
  - rewrite decide_True by done. rewrite Hct.
    pose proof (foldl_rearm [t] (mkManager l (ticks m) (next_addr m)) Hs) as [Hs' _].
    simpl in Hs'. eexists; split; [done|]. split; [done|]. split.
    + constructor; [unfold tle; lia|done].
    + intros Hr. unfold rearm. by rewrite Hr.
  - rewrite decide_False by lia. rewrite filter_none; [done|].
    eapply Forall_impl; [exact Hl|]. unfold tle; simpl; intros; lia.
Qed.

(** C27: [removeTimer] of a timer whose expiry time no other timer shares removes
    that timer and nothing else; null is ignored; and when no registered timer
    has that expiry time (the timer has already been taken) the code erases the
    end iterator, which has no defined meaning. *)
Theorem removeTimer_unique m t :
  timers_sorted m →
  removeTimer None m = Ok m ∧
  (Forall (λ x, target_timestamp x ≠ target_timestamp t) (timers_ m) →
   removeTimer (Some t) m = Fault OutOfBounds) ∧
  (∀ l r, timers_ m = l ++ t :: r →
     Forall (λ x, target_timestamp x ≠ target_timestamp t) (l ++ r) →
     ∃ m', removeTimer (Some t) m = Ok m' ∧ timers_ m' = l ++ r).
Proof.
  intros Hs. split; [done|]. split.
  - intros Hne. unfold removeTimer, lower_bound. rewrite advance_filter; [|exact Hs|].
    + destruct (filter _ _) as [|x k] eqn:E; [done|].
      assert (Hin : x ∈ x :: k) by constructor. rewrite <- E in Hin.
      apply list_elem_of_filter in Hin as [Hx Hin].
      pose proof (proj1 (Forall_forall _ _) Hne x Hin) as Hn.
      unfold Comparator in *. apply Z.ltb_ge in Hx. simpl in Hn.
      destruct (Z.ltb_spec (target_timestamp t) (target_timestamp x)); [done|lia].
    + unfold tle, Comparator. intros a b. rewrite !Z.ltb_lt. lia.
  - intros l r Hm Hne. apply Forall_app in Hne as [Hl Hr].
    erewrite removeTimer_first; [|done|exact Hm|done|done]. eauto.
Qed.

End Timer.

Arguments Timer : clear implicits.
Arguments TimerManager : clear implicits.

(** Cancelling the second of two timers that expire in the same millisecond
    takes the first one out and leaves the cancelled one armed. *)
Lemma removeTimer_wrong_timer :
  let t1 := mkTimer 1 false 100 50 (Some tt) in
  let t2 := mkTimer 2 false 100 50 (Some tt) in
  removeTimer (Some t2) (mkManager [t1; t2] 0 3) = Ok (mkManager [t2] 0 3).
Proof. reflexivity. Qed.

(** ** Witnesses *)

Module TimerEx.
Definition tod (n : nat) : Z * Z := (1, Z.of_nat n * 1000).
Definition ta := mkTimer 0 false 900 0 (Some tt).
Definition tb := mkTimer 1 true 1000 25 (Some tt).
Definition tc := mkTimer 2 false 2000 0 (Some tt).
Definition m0 := mkManager [ta; tb; tc] 0 3.

Lemma m0_sorted : timers_sorted m0.
Proof. unfold timers_sorted, m0, tle; repeat constructor; simpl; lia. Qed.

Lemma Timer_target_saturates_witness :
  Timer_target 1000 (2 ^ 64 - 1) = 2 ^ 64 - 1.
Proof.
  destruct (Timer_target_saturates 1000 (2 ^ 64 - 1)) as [H _];
    [unfold is_u64; lia..|exact H].
Defined.

Lemma addTimer_spec_witness :
  ∃ m', addTimer (Some tb) m0 = Ok m' ∧ timers_sorted m' ∧ timers_ m' ≡ₚ tb :: timers_ m0.
Proof. exact (proj1 (addTimer_spec m0 tb m0_sorted)). Defined.

Lemma takeExpiredTimers_spec_witness :
  (takeExpiredTimers tod m0).1 = [ta; tb] ∧ timers_sorted (takeExpiredTimers tod m0).2.
Proof.
  destruct (takeExpiredTimers_spec tod m0 m0_sorted) as (H1 & _ & H2 & _).
  split; [exact H1|exact H2].
Defined.

Lemma getNextInterval_timeout_witness :
  i32 (getNextInterval tod (mkManager [tc] 0 3)).1 = 999.
Proof.
  destruct (getNextInterval_timeout tod (mkManager [tc] 0 3) tc []) as (_ & H & _);
    [reflexivity | unfold is_u64; simpl; lia |].
  apply H; [vm_compute; discriminate|split; [vm_compute; discriminate|vm_compute; reflexivity]].
Defined.

Lemma takeFirstIfExpired_spec_witness :
  ∃ m', takeFirstIfExpired tod m0 1000 = (true, Some ta, m') ∧ timers_sorted m'.
Proof.
  destruct (takeFirstIfExpired_spec tod m0 1000 m0_sorted) as (m' & H & Hs & _).
  - repeat constructor; eauto.
  - exists m'. split; [exact H|exact Hs].
Defined.

Lemma removeTimer_unique_witness :
  ∃ m', removeTimer (Some tb) m0 = Ok m' ∧ timers_ m' = [ta; tc].
Proof.
  destruct (removeTimer_unique m0 tb m0_sorted) as (_ & _ & H).
  apply (H [ta] [tc]); [reflexivity|repeat constructor; discriminate].
Defined.
End TimerEx.
