(* ===== verification/FdManager.v ===== *)
(** * Per-descriptor contexts (include/io/fd_manager.h)

    [_FdManager] keeps a vector of pointers to heap-allocated [FdContext]s,
    indexed by descriptor.  Callers receive the pointers and write through
    them, so the heap is explicit: pointers are numbers, cells live in a map.
    The reader/writer lock is not modelled: each operation is one atomic step. *)

From S2P Require Import Prelude.
From stdpp Require Import options.

Record FdContext := mkFdContext {
  is_socket : bool;
  is_initialized : bool;
  is_user_non_block : bool;
  is_sys_non_block : bool;
  readTimeout : Z;
  writeTimeout : Z
}.

(** [FdContext(bool)]; the timeouts default to [size_t(-1)]. *)
Definition FdContext_of (_is_socket : bool) : FdContext :=
  mkFdContext _is_socket true false false size_max size_max.

Record FdManager := mkFdManager {
  contexts_ : list (option nat);
  heap : gmap nat FdContext;
  next_ptr : nat
}.

Definition FdManager_init : FdManager := mkFdManager [] ∅ 0.

(** [contexts_[fd]] with an [int] index. *)
Definition at_fd {A} (l : list A) (fd : Z) : option A :=
  if 0 <=? fd then l !! Z.to_nat fd else None.

(** [static_cast<size_t>(fd * 1.5)] for a non-negative [fd] (exact in [double]). *)
Definition grown_size (fd : Z) : nat := Z.to_nat (fd * 3 / 2).

Definition len_int {A} (l : list A) : Z := i32 (Z.of_nat (length l)).

Definition setContext (fd : Z) (context : FdContext) (m : FdManager) : outcome FdManager :=
  let cs := if len_int (contexts_ m) <=? fd
            then resize (grown_size fd) None (contexts_ m) else contexts_ m in
  match at_fd cs fd with
  | None => Fault OutOfBounds
  | Some _ =>
      Ok (mkFdManager (<[Z.to_nat fd := Some (next_ptr m)]> cs)
                      (<[next_ptr m := context]> (heap m)) (S (next_ptr m)))
  end.

Definition getContext (fd : Z) (m : FdManager) : outcome (option nat) :=
  if fd <? len_int (contexts_ m)
  then of_option OutOfBounds (at_fd (contexts_ m) fd)
  else Ok None.

Definition hasFd (fd : Z) (m : FdManager) : outcome bool :=
  if fd <? len_int (contexts_ m)
  then p ← of_option OutOfBounds (at_fd (contexts_ m) fd);
       Ok (match p with Some _ => true | None => false end)
  else Ok false.

(** [delete p] *)
Definition free (p : nat) (h : gmap nat FdContext) : outcome (gmap nat FdContext) :=
  match h !! p with
  | Some _ => Ok (delete p h)
  | None => Fault UseAfterFree
  end.

Definition delContext (fd : Z) (m : FdManager) : outcome FdManager :=
  if fd <? len_int (contexts_ m) then
    p ← of_option OutOfBounds (at_fd (contexts_ m) fd);
    match p with
    | Some p =>
        h ← free p (heap m);
        Ok (mkFdManager (<[Z.to_nat fd := None]> (contexts_ m)) h (next_ptr m))
    | None => Ok m
    end
  else Ok m.

(** [~_FdManager] *)
Fixpoint destroy (cs : list (option nat)) (h : gmap nat FdContext)
    : outcome (gmap nat FdContext) :=
  match cs with
  | [] => Ok h
  | Some p :: cs => h ← free p h; destroy cs h
  | None :: cs => destroy cs h
  end.

(** A write through a pointer obtained from [getContext]. *)
Definition write_through (p : nat) (f : FdContext → FdContext) (m : FdManager)
    : outcome FdManager :=
  match heap m !! p with
  | Some c => Ok (mkFdManager (contexts_ m) (<[p := f c]> (heap m)) (next_ptr m))
  | None => Fault UseAfterFree
  end.

(** ** Abstract view and invariant *)

(** The context a descriptor has: what the manager promises its clients. *)
Definition ctx_of (m : FdManager) (fd : Z) : option FdContext :=
  match at_fd (contexts_ m) fd with
  | Some (Some p) => heap m !! p
  | _ => None
  end.

Record fd_inv (m : FdManager) : Prop := {
  inv_live : ∀ i p, contexts_ m !! i = Some (Some p) → is_Some (heap m !! p);
  inv_distinct : ∀ i j p, contexts_ m !! i = Some (Some p) →
                          contexts_ m !! j = Some (Some p) → i = j;
  inv_fresh : ∀ p, is_Some (heap m !! p) → (p < next_ptr m)%nat;
  inv_len : Z.of_nat (length (contexts_ m)) < 2 ^ 31
}.

Lemma fd_inv_init : fd_inv FdManager_init.
Proof.
  constructor; simpl; try set_solver; try lia.
  intros p [c Hc]. by rewrite lookup_empty in Hc.
Qed.

Lemma len_int_small {A} (l : list A) :
  Z.of_nat (length l) < 2 ^ 31 → len_int l = Z.of_nat (length l).
Proof. intros. apply i32_small. lia. Qed.

Lemma at_fd_lookup {A} (l : list A) fd : 0 <= fd → at_fd l fd = l !! Z.to_nat fd.
Proof. intros. unfold at_fd. by destruct (Z.leb_spec 0 fd); [|lia]. Qed.

Lemma at_fd_neg {A} (l : list A) fd : fd < 0 → at_fd l fd = None.
Proof. intros. unfold at_fd. by destruct (Z.leb_spec 0 fd); [lia|]. Qed.

(** The descriptors for which growing by half makes room: all but 0 and 1. *)
Lemma grown_size_room fd : 2 <= fd → fd < Z.of_nat (grown_size fd).
Proof.
  intros. unfold grown_size. rewrite Z2Nat.id by (apply Z.div_pos; lia).
  pose proof (Z.div_mod (fd * 3) 2). pose proof (Z.mod_pos_bound (fd * 3) 2). lia.
Qed.

(** The vector [setContext] stores into. *)
Definition grown (fd : Z) (cs : list (option nat)) : list (option nat) :=
  if len_int cs <=? fd then resize (grown_size fd) None cs else cs.

Lemma grown_room fd cs :
  Z.of_nat (length cs) < 2 ^ 31 → 0 <= fd →
  (fd < Z.of_nat (length cs) ∨ 2 <= fd) → (Z.to_nat fd < length (grown fd cs))%nat.
Proof.
  intros Hl H0 Hfd. unfold grown. rewrite len_int_small by done. bdestr; [|lia].
  rewrite length_resize. pose proof (grown_size_room fd). lia.
Qed.

Lemma lookup_grown fd cs i p :
  Z.of_nat (length cs) < 2 ^ 31 →
  (fd < Z.of_nat (length cs) ∨ 2 <= fd) →
  grown fd cs !! i = Some (Some p) ↔ cs !! i = Some (Some p).
Proof.
  intros Hl Hfd. unfold grown. rewrite len_int_small by done. bdestr; [|done].
  assert (length cs <= grown_size fd)%nat.
  { destruct Hfd; [lia|]. pose proof (grown_size_room fd). lia. }
  rewrite resize_ge by lia. rewrite lookup_app.
  destruct (cs !! i) eqn:E; [done|]. split; [|done].
  intros H'. apply lookup_replicate in H' as [? _]. done.
Qed.

Lemma setContext_run fd c m :
  fd_inv m → 0 <= fd → (fd < Z.of_nat (length (contexts_ m)) ∨ 2 <= fd) →
  setContext fd c m =
  Ok (mkFdManager (<[Z.to_nat fd := Some (next_ptr m)]> (grown fd (contexts_ m)))
                  (<[next_ptr m := c]> (heap m)) (S (next_ptr m))).
Proof.
  intros Hi H0 Hfd. unfold setContext. fold (grown fd (contexts_ m)).
  rewrite at_fd_lookup by done.
  destruct (lookup_lt_is_Some_2 (grown fd (contexts_ m)) (Z.to_nat fd)) as [x ->]; [|done].
  apply grown_room; [apply Hi|done|done].
Qed.

Lemma heap_fresh_ne m p : fd_inv m → is_Some (heap m !! p) → p ≠ next_ptr m.
Proof. intros Hi Hp ->. pose proof (inv_fresh m Hi _ Hp). lia. Qed.

Lemma setContext_inv fd c m m' :
  fd_inv m → 0 <= fd < 2 ^ 30 → (fd < Z.of_nat (length (contexts_ m)) ∨ 2 <= fd) →
  setContext fd c m = Ok m' → fd_inv m'.
Proof.
  intros Hi H0 Hfd Hs. rewrite setContext_run in Hs by (auto; lia). injection Hs as <-.
  assert (Hold : ∀ i p, i ≠ Z.to_nat fd →
    <[Z.to_nat fd := Some (next_ptr m)]> (grown fd (contexts_ m)) !! i = Some (Some p) →
    contexts_ m !! i = Some (Some p)).
  { intros i p Hne. rewrite list_lookup_insert_ne by done.
    apply lookup_grown; [apply Hi|done]. }
  assert (Hnew : ∀ p,
    <[Z.to_nat fd := Some (next_ptr m)]> (grown fd (contexts_ m)) !! Z.to_nat fd = Some (Some p) →
    p = next_ptr m).
  { intros p. rewrite list_lookup_insert_eq; [congruence|].
    apply grown_room; [apply Hi|lia|done]. }
  constructor; simpl.
  - intros i p Hp. destruct (decide (i = Z.to_nat fd)) as [->|Hne].
    + apply Hnew in Hp as ->. rewrite lookup_insert_eq. eauto.
    + pose proof (inv_live m Hi _ _ (Hold _ _ Hne Hp)) as Hl.
      rewrite lookup_insert_ne; [done|]. apply not_eq_sym. by apply heap_fresh_ne.
  - intros i j p Hp Hq.
    destruct (decide (i = Z.to_nat fd)) as [->|Hi'], (decide (j = Z.to_nat fd)) as [->|Hj'].
    + done.
    + apply Hnew in Hp as ->. apply (Hold _ _ Hj') in Hq.
      exfalso. by apply (heap_fresh_ne m (next_ptr m)); [|apply (inv_live m Hi j)|].
    + apply Hnew in Hq as ->. apply (Hold _ _ Hi') in Hp.
      exfalso. by apply (heap_fresh_ne m (next_ptr m)); [|apply (inv_live m Hi i)|].
    + apply (inv_distinct m Hi i j p); eauto.
  - intros p. destruct (decide (p = next_ptr m)) as [->|Hne]; [lia|].
    rewrite lookup_insert_ne by done. intros Hp. pose proof (inv_fresh m Hi p Hp). lia.
  - rewrite length_insert. unfold grown. pose proof (inv_len m Hi). case_match; [|lia].
    rewrite length_resize. unfold grown_size.
    rewrite Z2Nat.id by (apply Z.div_pos; lia). apply Z.div_lt_upper_bound; lia.
Qed.

Lemma getContext_run fd m :
  fd_inv m → 0 <= fd →
  getContext fd m = Ok (match contexts_ m !! Z.to_nat fd with Some (Some p) => Some p | _ => None end).
Proof.
  intros Hi H0. unfold getContext. rewrite len_int_small by apply Hi.
  bdestr.
  - rewrite at_fd_lookup by done.
    destruct (lookup_lt_is_Some_2 (contexts_ m) (Z.to_nat fd)) as [[p|] ->]; [lia|done..].
  - by rewrite lookup_ge_None_2 by lia.
Qed.

Lemma delContext_run fd m :
  fd_inv m → 0 <= fd →
  delContext fd m =
  Ok (match contexts_ m !! Z.to_nat fd with
      | Some (Some p) =>
          mkFdManager (<[Z.to_nat fd := None]> (contexts_ m)) (delete p (heap m)) (next_ptr m)
      | _ => m
      end).
Proof.
  intros Hi H0. unfold delContext. rewrite len_int_small by apply Hi. bdestr.
  - rewrite at_fd_lookup by done.
    destruct (contexts_ m !! Z.to_nat fd) as [[p|]|] eqn:E; simpl; [|done|].
    + unfold free. destruct (inv_live m Hi _ _ E) as [c ->]. done.
    + apply lookup_ge_None_1 in E. lia.
  - by rewrite lookup_ge_None_2 by lia.
Qed.

Lemma delContext_inv fd m m' :
  fd_inv m → 0 <= fd → delContext fd m = Ok m' → fd_inv m'.
Proof.
  intros Hi H0 Hd. rewrite delContext_run in Hd by done. injection Hd as <-.
  destruct (contexts_ m !! Z.to_nat fd) as [[p|]|] eqn:E; [|done|done].
  assert (Hold : ∀ i q, <[Z.to_nat fd := None]> (contexts_ m) !! i = Some (Some q) →
    contexts_ m !! i = Some (Some q) ∧ q ≠ p).
  { intros i q Hq. destruct (decide (i = Z.to_nat fd)) as [->|Hne].
    - rewrite list_lookup_insert_eq in Hq by (by eapply lookup_lt_Some). done.
    - rewrite list_lookup_insert_ne in Hq by done. split; [done|]. intros ->.
      by apply Hne, (inv_distinct m Hi _ _ p). }
  constructor; simpl.
  - intros i q [Hq Hne]%Hold. rewrite lookup_delete_ne by done. by apply (inv_live m Hi i).
  - intros i j q [Hq _]%Hold [Hq' _]%Hold. by apply (inv_distinct m Hi i j q).
  - intros q [c Hq]. rewrite lookup_delete_Some in Hq. destruct Hq as [_ Hq].
    apply (inv_fresh m Hi). eauto.
  - rewrite length_insert. apply Hi.
Qed.

Lemma destroy_Ok cs h :
  (∀ i p, cs !! i = Some (Some p) → is_Some (h !! p)) →
  (∀ i j p, cs !! i = Some (Some p) → cs !! j = Some (Some p) → i = j) →
  ∃ h', destroy cs h = Ok h' ∧
    ∀ p, h' !! p = if decide (Some p ∈ cs) then None else h !! p.
Proof.
  revert h. induction cs as [|[p|] cs IH]; intros h Hl Hd; simpl.
  - exists h. split; [done|]. by intros p.
  - destruct (Hl 0%nat p eq_refl) as [c Hc]. unfold free. rewrite Hc. simpl.
    destruct (IH (delete p h)) as (h' & E & Hh).
    + intros i q Hq. rewrite lookup_delete_ne; [by apply (Hl (S i))|]. intros ->.
      pose proof (Hd 0%nat (S i) q eq_refl Hq). lia.
    + intros i j q Hq Hq'. pose proof (Hd (S i) (S j) q Hq Hq'). lia.
    + exists h'. split; [done|]. intros q. rewrite Hh, lookup_delete.
      repeat case_decide; set_solver.
  - destruct (IH h) as (h' & E & Hh).
    + intros i q Hq. by apply (Hl (S i)).
    + intros i j q Hq Hq'. pose proof (Hd (S i) (S j) q Hq Hq'). lia.
    + exists h'. split; [done|]. intros q. rewrite Hh. repeat case_decide; set_solver.
Qed.

Lemma ctx_of_neg m fd : fd < 0 → ctx_of m fd = None.
Proof. intros. unfold ctx_of. by rewrite at_fd_neg. Qed.

Lemma setContext_map fd c m :
  fd_inv m → 0 <= fd < 2 ^ 30 → (fd < Z.of_nat (length (contexts_ m)) ∨ 2 <= fd) →
  ∃ m', setContext fd c m = Ok m' ∧ fd_inv m' ∧
    ∀ g, ctx_of m' g = if decide (g = fd) then Some c else ctx_of m g.
Proof.
  intros Hi H0 Hfd. eexists. split; [apply setContext_run; auto; lia|].
  split; [eapply setContext_inv; [done|exact H0|done|apply setContext_run; auto; lia]|].
  intros g. destruct (Z_lt_le_dec g 0) as [Hg|Hg].
  { rewrite !ctx_of_neg by done. case_decide; [lia|done]. }
  unfold ctx_of; simpl. rewrite !at_fd_lookup by done. case_decide as Hgf.
  - subst g. rewrite list_lookup_insert_eq by (apply grown_room; [apply Hi|lia|done]).
    by rewrite lookup_insert_eq.
  - rewrite list_lookup_insert_ne by lia.
    assert (Hiff : ∀ p, grown fd (contexts_ m) !! Z.to_nat g = Some (Some p) ↔
                        contexts_ m !! Z.to_nat g = Some (Some p)).
    { intros p. apply lookup_grown; [apply Hi|done]. }
    destruct (grown fd (contexts_ m) !! Z.to_nat g) as [[p|]|] eqn:E;
      destruct (contexts_ m !! Z.to_nat g) as [[q|]|] eqn:E'; try done.
    + pose proof (proj1 (Hiff p) eq_refl). simplify_eq. rewrite lookup_insert_ne; [done|].
      apply not_eq_sym, heap_fresh_ne; [done|]. by eapply (inv_live m Hi).
    + by pose proof (proj1 (Hiff p) eq_refl).
    + by pose proof (proj1 (Hiff p) eq_refl).
    + by pose proof (proj2 (Hiff q) eq_refl).
    + by pose proof (proj2 (Hiff q) eq_refl).
Qed.

Lemma getContext_map fd m :
  fd_inv m → 0 <= fd →
  ∃ o, getContext fd m = Ok o ∧
       hasFd fd m = Ok (match o with Some _ => true | None => false end) ∧
       (o ≫= λ p, heap m !! p) = ctx_of m fd ∧ (o = None ↔ ctx_of m fd = None).
Proof.
  intros Hi H0. eexists. split; [by apply getContext_run|]. unfold hasFd, ctx_of.
  rewrite len_int_small by apply Hi. rewrite !at_fd_lookup by done.
  bdestr.
  - destruct (contexts_ m !! Z.to_nat fd) as [[p|]|] eqn:E; simpl; [|done|].
    + destruct (inv_live m Hi _ _ E) as [c ->]. naive_solver.
    + apply lookup_ge_None_1 in E. lia.
  - by rewrite lookup_ge_None_2 by lia.
Qed.

Lemma delContext_map fd m :
  fd_inv m → 0 <= fd →
  ∃ m', delContext fd m = Ok m' ∧ fd_inv m' ∧
    ∀ g, ctx_of m' g = if decide (g = fd) then None else ctx_of m g.
Proof.
  intros Hi H0. eexists. split; [by apply delContext_run|].
  split; [eapply delContext_inv; [done|exact H0|by apply delContext_run]|].
  intros g. destruct (Z_lt_le_dec g 0) as [Hg|Hg].
  { rewrite !ctx_of_neg by done. by case_decide. }
  destruct (contexts_ m !! Z.to_nat fd) as [[p|]|] eqn:E;
    unfold ctx_of; simpl; rewrite !at_fd_lookup by done; case_decide as Hgf;
    try (subst g; by rewrite E); try done.
  - subst g. by rewrite list_lookup_insert_eq by (by eapply lookup_lt_Some).
  - rewrite list_lookup_insert_ne by lia.
    destruct (contexts_ m !! Z.to_nat g) as [[q|]|] eqn:E'; [|done|done].
    rewrite lookup_delete_ne; [done|]. intros ->.
    pose proof (inv_distinct m Hi _ _ _ E E'). lia.
Qed.

(** ** The abstract table *)

Inductive fd_op :=
| OpSet (fd : Z) (c : FdContext)
| OpGet (fd : Z)
| OpHas (fd : Z)
| OpDel (fd : Z).

(** What the caller sees: the context behind the returned pointer, or a truth
    value. *)
Inductive fd_answer := AnsNone | AnsCtx (o : option FdContext) | AnsBool (b : bool).

Definition fd_exec (op : fd_op) (m : FdManager) : outcome (fd_answer * FdManager) :=
  match op with
  | OpSet fd c => m ← setContext fd c m; Ok (AnsNone, m)
  | OpGet fd => o ← getContext fd m; Ok (AnsCtx (o ≫= λ p, heap m !! p), m)
  | OpHas fd => b ← hasFd fd m; Ok (AnsBool b, m)
  | OpDel fd => m ← delContext fd m; Ok (AnsNone, m)
  end.

Fixpoint fd_run (ops : list fd_op) (m : FdManager) : outcome (list fd_answer * FdManager) :=
  match ops with
  | [] => Ok ([], m)
  | op :: ops => p ← fd_exec op m; q ← fd_run ops p.2; Ok (p.1 :: q.1, q.2)
  end.

Definition spec_exec (op : fd_op) (t : gmap Z FdContext) : fd_answer * gmap Z FdContext :=
  match op with
  | OpSet fd c => (AnsNone, <[fd := c]> t)
  | OpGet fd => (AnsCtx (t !! fd), t)
  | OpHas fd => (AnsBool (bool_decide (is_Some (t !! fd))), t)
  | OpDel fd => (AnsNone, delete fd t)
  end.

Fixpoint spec_run (ops : list fd_op) (t : gmap Z FdContext) : list fd_answer * gmap Z FdContext :=
  match ops with
  | [] => ([], t)
  | op :: ops => let p := spec_exec op t in let q := spec_run ops p.2 in (p.1 :: q.1, q.2)
  end.

(** Descriptors as the kernel hands them out, above the standard ones. *)
Definition fd_valid (op : fd_op) : Prop :=
  match op with
  | OpSet fd _ => 2 <= fd < 2 ^ 30
  | OpGet fd | OpHas fd | OpDel fd => 0 <= fd
  end.

Definition represents (m : FdManager) (t : gmap Z FdContext) : Prop :=
  fd_inv m ∧ ∀ g, ctx_of m g = t !! g.

Lemma fd_exec_refines op m t :
  represents m t → fd_valid op →
  ∃ m', fd_exec op m = Ok ((spec_exec op t).1, m') ∧ represents m' (spec_exec op t).2.
Proof.
  intros [Hi Ht] Hv. destruct op as [fd c|fd|fd|fd]; simpl in Hv |- *.
  - destruct (setContext_map fd c m Hi) as (m' & -> & Hi' & Hg); [lia|lia|]. exists m'. split; [done|].
    split; [done|]. intros g. rewrite Hg, Ht. case_decide; [subst; by rewrite lookup_insert_eq|].
    by rewrite lookup_insert_ne.
  - destruct (getContext_map fd m Hi Hv) as (o & -> & _ & Ho & _). exists m. simpl. by rewrite Ho, Ht.
  - destruct (getContext_map fd m Hi Hv) as (o & _ & -> & _ & Ho). exists m. simpl. split; [|done].
    rewrite Ht in Ho. do 3 f_equal. destruct o as [p|]; symmetry.
    + apply bool_decide_eq_true. destruct (t !! fd); [by eexists|]. discriminate (proj2 Ho eq_refl).
    + apply bool_decide_eq_false. rewrite (proj1 Ho eq_refl). by intros [? [=]].
  - destruct (delContext_map fd m Hi Hv) as (m' & -> & Hi' & Hg). exists m'. split; [done|].
    split; [done|]. intros g. rewrite Hg, Ht. case_decide; [subst; by rewrite lookup_delete_eq|].
    by rewrite lookup_delete_ne.
Qed.

(** The destructor releases every context the vector refers to, each once. *)
Lemma destroy_frees_all m :
  fd_inv m →
  ∃ h, destroy (contexts_ m) (heap m) = Ok h ∧
    ∀ fd c, ctx_of m fd = Some c →
      ∃ p, at_fd (contexts_ m) fd = Some (Some p) ∧ h !! p = None.
Proof.
  intros Hi. destruct (destroy_Ok (contexts_ m) (heap m)) as (h & E & Hh).
  { apply Hi. } { apply Hi. }
  exists h. split; [done|]. intros fd c. unfold ctx_of.
  destruct (at_fd (contexts_ m) fd) as [[p|]|] eqn:Ef; try done. intros _.
  exists p. split; [done|]. rewrite Hh. case_decide as Hn; [done|].
  destruct Hn. unfold at_fd in Ef. destruct (0 <=? fd); [|done].
  by eapply list_elem_of_lookup_2.
Qed.

(** ** Properties *)

(** C28: the descriptor table implements a map: whatever the sequence of valid
    calls on a new manager, every call returns, every lookup answers what a map
    would, the manager ends in a state that holds exactly the map's contexts
    with live, unshared pointers, and its destructor frees each of them once. *)
Theorem fd_manager_refines ops :
  Forall fd_valid ops →
  ∃ m, fd_run ops FdManager_init = Ok ((spec_run ops ∅).1, m) ∧ fd_inv m ∧
    (∀ g, ctx_of m g = (spec_run ops ∅).2 !! g) ∧
    ∃ h, destroy (contexts_ m) (heap m) = Ok h ∧
      ∀ fd c, ctx_of m fd = Some c → ∃ p, at_fd (contexts_ m) fd = Some (Some p) ∧ h !! p = None.
Proof.
  intros Hv. cut (∃ m, fd_run ops FdManager_init = Ok ((spec_run ops ∅).1, m) ∧ represents m (spec_run ops ∅).2).
  { intros (m & Hr & Hi & Hg). exists m. eauto using destroy_frees_all. }
  revert Hv. assert (H0 : represents FdManager_init ∅).
  { split; [apply fd_inv_init|]. intros g. rewrite lookup_empty. unfold ctx_of, at_fd. simpl.
    by destruct (0 <=? g). }
  revert H0. generalize FdManager_init (∅ : gmap Z FdContext).
  induction ops as [|op ops IH]; intros m t Hr Hv; [by exists m|].
  apply Forall_cons in Hv as [Hop Hv]. destruct (fd_exec_refines op m t Hr Hop) as (m1 & He & Hr1).
  destruct (IH m1 _ Hr1 Hv) as (m' & Hrun & Hi). exists m'. simpl. rewrite He. simpl. rewrite Hrun. done.
Qed.

(** For descriptors 0 and 1 the grown vector has no room for the index. *)
Lemma setContext_low_fd c fd :
  fd = 0 ∨ fd = 1 → setContext fd c FdManager_init = Fault OutOfBounds.
Proof. intros [-> | ->]; reflexivity. Qed.

(** A negative descriptor passes the upper-bound test and is used as an index. *)
Lemma getContext_negative fd m :
  fd_inv m → fd < 0 →
  getContext fd m = Fault OutOfBounds ∧ hasFd fd m = Fault OutOfBounds ∧
  delContext fd m = Fault OutOfBounds.
Proof.
  intros Hi Hfd. unfold getContext, hasFd, delContext.
  rewrite len_int_small by apply Hi. bdestr; [|lia]. by rewrite at_fd_neg.
Qed.

(** Storing over an existing context leaks it: the old cell stays allocated and
    no entry of the vector refers to it any more. *)
Lemma setContext_leaks fd c c' m p :
  fd_inv m → 0 <= fd → at_fd (contexts_ m) fd = Some (Some p) → heap m !! p = Some c' →
  ∃ m', setContext fd c m = Ok m' ∧ heap m' !! p = Some c' ∧ Some p ∉ contexts_ m'.
Proof.
  intros Hi H0 Hp Hc. rewrite at_fd_lookup in Hp by done.
  pose proof (lookup_lt_Some _ _ _ Hp). eexists.
  split; [apply setContext_run; auto; lia|]. simpl.
  assert (p ≠ next_ptr m) by (apply heap_fresh_ne; eauto).
  split; [by rewrite lookup_insert_ne|]. rewrite list_elem_of_lookup. intros [i Hl].
  destruct (decide (i = Z.to_nat fd)) as [->|Hne].
  - rewrite list_lookup_insert_eq in Hl by (apply grown_room; [apply Hi|lia|left; lia]).
    congruence.
  - rewrite list_lookup_insert_ne in Hl by done.
    apply lookup_grown in Hl; [|apply Hi|left; lia].
    by apply Hne, (inv_distinct m Hi _ _ p).
Qed.

(** ** Witnesses *)

Module FdManagerEx.
Definition c0 := FdContext_of true.
Definition m1 : FdManager :=
  match setContext 5 c0 FdManager_init with Ok m => m | _ => FdManager_init end.

Lemma fd_manager_refines_witness :
  ∃ m, fd_run [OpSet 5 c0; OpSet 7 c0; OpDel 5; OpGet 5; OpGet 7; OpHas 100] FdManager_init =
    Ok ([AnsNone; AnsNone; AnsNone; AnsCtx None; AnsCtx (Some c0); AnsBool false], m) ∧ ctx_of m 7 = Some c0.
Proof.
  destruct (fd_manager_refines [OpSet 5 c0; OpSet 7 c0; OpDel 5; OpGet 5; OpGet 7; OpHas 100])
    as (m & H & _ & Hg & _); [repeat constructor; simpl; lia|].
  exists m. split; [exact H|]. rewrite Hg. reflexivity.
Defined.

Lemma m1_inv : fd_inv m1.
Proof. apply (setContext_inv 5 c0 FdManager_init); [apply fd_inv_init|lia|lia|reflexivity]. Qed.

Lemma destroy_frees_all_witness : ∃ h, destroy (contexts_ m1) (heap m1) = Ok h.
Proof. destruct (destroy_frees_all m1 m1_inv) as (h & H & _). exists h. exact H. Defined.
End FdManagerEx.
