(* ===== verification/Sys.v ===== *)
(** * System calls (src/base/epoll_helper.h) and the epoll interface

    The kernel is not part of the program: a type of kernel states with the calls
    the library makes, and their documented behaviour as the laws of a class.
    The components that use epoll are verified against the laws; an executable
    kernel at the end of the file is an instance. *)

From S2P Require Import Prelude.
From stdpp Require Import options.

(** A call returns a non-negative value, or -1 and sets errno. *)
Inductive sysres := Ret (r : Z) | Err (errno : Z).
#[global] Instance sysres_eq_dec : EqDecision sysres.
Proof. solve_decision. Defined.

Definition EPERM := 1.
Definition ENOENT := 2.
Definition EINTR := 4.
Definition EAGAIN := 11.
Definition EEXIST := 17.
Definition EINVAL := 22.

Definition EPOLLIN := 1.
Definition EPOLLOUT := 4.
Definition EPOLLERR := 8.
Definition EPOLLHUP := 16.
Definition EPOLLET := 2 ^ 31.

Inductive ctl_op := EPOLL_CTL_ADD | EPOLL_CTL_DEL | EPOLL_CTL_MOD.

(** [events & mask] as a condition. *)
Definition has (events mask : Z) : bool := negb (Z.land events mask =? 0).

(** [invokeNoIntr] on a call that changes the state [K]. *)
Fixpoint invokeNoIntr {K R} (errno_of : R → option Z) (fuel : nat) (func : K → R * K) (k : K)
    : outcome (R * K) :=
  match fuel with
  | O => Fault Hang
  | S fuel =>
      let '(ret, k) := func k in
      if decide (errno_of ret = Some EINTR) then invokeNoIntr errno_of fuel func k
      else Ok (ret, k)
  end.

Definition errno (r : sysres) : option Z :=
  match r with Ret _ => None | Err e => Some e end.

(** The call is interrupted [n] times in a row and then returns. *)
Fixpoint interrupted {K R} (errno_of : R → option Z) (n : nat) (func : K → R * K) (k : K)
    : option (R * K) :=
  match n with
  | O => if decide (errno_of (func k).1 = Some EINTR) then None else Some (func k)
  | S n => if decide (errno_of (func k).1 = Some EINTR)
           then interrupted errno_of n func (func k).2 else None
  end.

Lemma invokeNoIntr_interrupted {K R} (errno_of : R → option Z) (func : K → R * K) n : ∀ fuel k p,
  interrupted errno_of n func k = Some p → (n < fuel)%nat →
  invokeNoIntr errno_of fuel func k = Ok p.
Proof.
  induction n as [|n IH]; intros [|fuel] k p; simpl; try lia; intros H Hf;
    destruct (func k) as [r k'] eqn:Hk; simpl in *; case_decide; simplify_eq; try done.
  apply IH; [done|lia].
Qed.

Lemma invokeNoIntr_once {K R} (errno_of : R → option Z) (func : K → R * K) fuel k :
  errno_of (func k).1 ≠ Some EINTR → (0 < fuel)%nat →
  invokeNoIntr errno_of fuel func k = Ok (func k).
Proof.
  intros H Hf. apply (invokeNoIntr_interrupted _ _ 0); [|done]. simpl. by rewrite decide_False.
Qed.

(** The call that returned was made in a state reached by interrupted calls. *)
Lemma interrupted_last {K R} (errno_of : R → option Z) (func : K → R * K) (P : K → Prop) n : ∀ k p,
  interrupted errno_of n func k = Some p → (∀ k, P k → P (func k).2) → P k →
  ∃ k0, P k0 ∧ func k0 = p.
Proof.
  induction n as [|n IH]; intros k p; simpl; case_decide; intros Hi HP Hk; simplify_eq; eauto.
Qed.

(** [invokeNoIntr] hides interruptions: whatever it returns is the result of
    a call that was not interrupted, all earlier calls having failed with EINTR;
    and it returns as soon as such a call is made. *)
Lemma invokeNoIntr_spec {K R} (errno_of : R → option Z) (func : K → R * K) k p :
  (∃ fuel, invokeNoIntr errno_of fuel func k = Ok p) ↔
  (∃ n, interrupted errno_of n func k = Some p).
Proof.
  split.
  - intros (fuel & H). revert k H. induction fuel as [|fuel IH]; intros k H; simpl in H; [done|].
    destruct (func k) as [r k'] eqn:Hk. case_decide as Hd.
    + destruct (IH k' H) as (n & Hn). exists (S n). simpl. rewrite Hk. simpl.
      by rewrite decide_True.
    + exists 0%nat. simpl. rewrite Hk. simpl. rewrite decide_False by done. congruence.
  - intros (n & H). exists (S n). eapply invokeNoIntr_interrupted; [done|lia].
Qed.

(** ** The kernel *)

Record epoll_event := mkEvent { data_fd : Z; events : Z }.

Class EpollKernel (K : Type) := {
  epoll_ctl : Z → ctl_op → Z → Z → K → sysres * K;
  (* the ready list, or errno *)
  epoll_wait : Z → nat → Z → K → (list epoll_event + Z) * K;
  write_byte : Z → K → sysres * K;
  read_bytes : Z → nat → K → sysres * K;
  (* what epoll instance [epfd] watches on a file descriptor *)
  interest : K → Z → Z → option Z;
  (* file descriptors that are open and can be watched *)
  pollable : K → Z → bool;
  (* bytes that can be read *)
  readable : K → Z → nat;
  (* the read end of the pipe a descriptor is the write end of *)
  pipe_end : K → Z → option Z
}.

(** The capacity of a pipe, pipe(7). *)
Definition pipe_capacity : Z := 65536.

(** epoll_ctl(2), epoll_wait(2), pipe(7), read(2), write(2).  The write end of the
    wakeup pipe is in blocking mode: the laws say what a write of one byte does
    while the pipe has room. *)
Class EpollLaws (K : Type) `{EpollKernel K} := {
  ctl_add ep fd ev k : pollable k fd = true → interest k ep fd = None →
    ∃ r, (epoll_ctl ep EPOLL_CTL_ADD fd ev k).1 = Ret r ∧
      interest (epoll_ctl ep EPOLL_CTL_ADD fd ev k).2 ep fd = Some ev;
  ctl_mod ep fd ev k : interest k ep fd ≠ None →
    ∃ r, (epoll_ctl ep EPOLL_CTL_MOD fd ev k).1 = Ret r ∧
      interest (epoll_ctl ep EPOLL_CTL_MOD fd ev k).2 ep fd = Some ev;
  ctl_del ep fd ev k : interest k ep fd ≠ None →
    ∃ r, (epoll_ctl ep EPOLL_CTL_DEL fd ev k).1 = Ret r ∧
      interest (epoll_ctl ep EPOLL_CTL_DEL fd ev k).2 ep fd = None;
  ctl_add_exists ep fd ev k : interest k ep fd ≠ None →
    (epoll_ctl ep EPOLL_CTL_ADD fd ev k).1 = Err EEXIST;
  ctl_absent ep op fd ev k : interest k ep fd = None → op ≠ EPOLL_CTL_ADD →
    (epoll_ctl ep op fd ev k).1 = Err ENOENT;
  ctl_other ep op fd ev k fd' : fd' ≠ fd →
    interest (epoll_ctl ep op fd ev k).2 ep fd' = interest k ep fd';
  ctl_pollable ep op fd ev k fd' :
    pollable (epoll_ctl ep op fd ev k).2 fd' = pollable k fd';
  ctl_readable ep op fd ev k fd' :
    readable (epoll_ctl ep op fd ev k).2 fd' = readable k fd';
  wait_interest ep n t k fd : interest (epoll_wait ep n t k).2 ep fd = interest k ep fd;
  wait_pollable ep n t k fd : pollable (epoll_wait ep n t k).2 fd = pollable k fd;
  wait_max ep n t k l : (epoll_wait ep n t k).1 = inl l → (length l <= n)%nat;
  (* one entry per descriptor *)
  wait_nodup ep n t k l : (epoll_wait ep n t k).1 = inl l → NoDup (data_fd <$> l);
  (* only watched descriptors, and only the events asked for, errors and hang-ups *)
  wait_watched ep n t k l e : (epoll_wait ep n t k).1 = inl l → e ∈ l →
    ∃ w, interest k ep (data_fd e) = Some w ∧
      (has (events e) EPOLLIN = true → has w EPOLLIN = true) ∧
      (has (events e) EPOLLOUT = true → has w EPOLLOUT = true);
  read_some fd n k : (0 < n)%nat → (0 < readable k fd)%nat →
    (read_bytes fd n k).1 = Ret (Z.of_nat (n `min` readable k fd)) ∧
    readable (read_bytes fd n k).2 fd = (readable k fd - n)%nat;
  read_none fd n k : readable k fd = 0%nat → read_bytes fd n k = (Err EAGAIN, k);
  write_pipe fd r k : pipe_end k fd = Some r → Z.of_nat (readable k r) < pipe_capacity →
    (write_byte fd k).1 = Ret 1 ∧ readable (write_byte fd k).2 r = S (readable k r);
  write_pipe_end fd k fd' : pipe_end (write_byte fd k).2 fd' = pipe_end k fd';
  write_interest ep fd k fd' : interest (write_byte fd k).2 ep fd' = interest k ep fd';
  write_pollable fd k fd' : pollable (write_byte fd k).2 fd' = pollable k fd';
  read_interest ep fd n k fd' : interest (read_bytes fd n k).2 ep fd' = interest k ep fd';
  read_pollable fd n k fd' : pollable (read_bytes fd n k).2 fd' = pollable k fd';
  ctl_pipe_end ep op fd ev k fd' : pipe_end (epoll_ctl ep op fd ev k).2 fd' = pipe_end k fd';
  wait_pipe_end ep n t k fd' : pipe_end (epoll_wait ep n t k).2 fd' = pipe_end k fd';
  read_pipe_end fd n k fd' : pipe_end (read_bytes fd n k).2 fd' = pipe_end k fd'
}.

Section Calls.
Context {K : Type} `{EpollKernel K}.

(** [epollOperation] under [invokeNoIntr] and the check of the result, as in
    [epollAdd], [epollMod] and [epollDel]. *)
Definition epollOperation (epfd : Z) (op : ctl_op) (events fd : Z) (k : K) : sysres * K :=
  epoll_ctl epfd op fd events k.

Definition epoll_do (fuel : nat) (epfd : Z) (op : ctl_op) (events fd : Z) (k : K) : outcome K :=
  p ← invokeNoIntr errno fuel (epollOperation epfd op events fd) k;
  match p.1 with
  | Ret _ => Ok p.2
  | Err _ => Fault AssertFailed
  end.

Lemma epoll_do_Ret fuel epfd op ev fd k r :
  (0 < fuel)%nat → (epoll_ctl epfd op fd ev k).1 = Ret r →
  epoll_do fuel epfd op ev fd k = Ok (epoll_ctl epfd op fd ev k).2.
Proof.
  intros Hf Hr. unfold epoll_do, epollOperation.
  rewrite invokeNoIntr_once; simpl; [|by rewrite Hr|done]. by rewrite Hr.
Qed.

Lemma epoll_do_Err fuel epfd op ev fd k e :
  (0 < fuel)%nat → (epoll_ctl epfd op fd ev k).1 = Err e → e ≠ EINTR →
  epoll_do fuel epfd op ev fd k = Fault AssertFailed.
Proof.
  intros Hf Hr He. unfold epoll_do, epollOperation.
  rewrite invokeNoIntr_once; simpl; [|rewrite Hr; simpl; congruence|done]. by rewrite Hr.
Qed.
End Calls.

(** ** An executable kernel *)

Module SimpleKernel.
Record kernel := mkKernel {
  watch : gmap (Z * Z) Z;
  openfds : list Z;
  pending : list epoll_event;
  bytes : gmap Z nat;
  pipes : list (Z * Z);       (* write end, read end *)
  flags : gmap Z Z            (* status flags of open descriptors *)
}.

Definition set_watch (w : gmap (Z * Z) Z) (k : kernel) : kernel :=
  mkKernel w (openfds k) (pending k) (bytes k) (pipes k) (flags k).
Definition set_bytes (b : gmap Z nat) (k : kernel) : kernel :=
  mkKernel (watch k) (openfds k) (pending k) b (pipes k) (flags k).
Definition count (fd : Z) (k : kernel) : nat := default 0%nat (bytes k !! fd).

Definition ctl (ep : Z) (op : ctl_op) (fd ev : Z) (k : kernel) : sysres * kernel :=
  match op, watch k !! (ep, fd) with
  | EPOLL_CTL_ADD, Some _ => (Err EEXIST, k)
  | EPOLL_CTL_ADD, None =>
      if bool_decide (fd ∈ openfds k) then (Ret 0, set_watch (<[(ep, fd) := ev]> (watch k)) k)
      else (Err EPERM, k)
  | EPOLL_CTL_MOD, Some _ => (Ret 0, set_watch (<[(ep, fd) := ev]> (watch k)) k)
  | EPOLL_CTL_DEL, Some _ => (Ret 0, set_watch (delete (ep, fd) (watch k)) k)
  | _, None => (Err ENOENT, k)
  end.

Definition reportable (ep : Z) (k : kernel) (e : epoll_event) : bool :=
  match watch k !! (ep, data_fd e) with
  | Some w => implb (has (events e) EPOLLIN) (has w EPOLLIN) &&
              implb (has (events e) EPOLLOUT) (has w EPOLLOUT)
  | None => false
  end.

Fixpoint report (ep : Z) (k : kernel) (seen : list Z) (l : list epoll_event) : list epoll_event :=
  match l with
  | [] => []
  | e :: l =>
      if bool_decide (data_fd e ∈ seen) then report ep k seen l
      else if reportable ep k e then e :: report ep k (data_fd e :: seen) l
      else report ep k seen l
  end.

Definition find_pipe (k : kernel) (fd : Z) : option Z :=
  match list_find (λ p : Z * Z, p.1 = fd) (pipes k) with
  | Some (_, p) => Some p.2
  | None => None
  end.

#[export] Instance simple_kernel : EpollKernel kernel := {
  epoll_ctl := ctl;
  epoll_wait ep n t k := (inl (take n (report ep k [] (pending k))), k);
  write_byte fd k :=
    match find_pipe k fd with
    | Some r => (Ret 1, set_bytes (<[r := S (count r k)]> (bytes k)) k)
    | None => (Err EINVAL, k)
    end;
  read_bytes fd n k :=
    if decide (count fd k = 0%nat) then (Err EAGAIN, k)
    else (Ret (Z.of_nat (n `min` count fd k)), set_bytes (<[fd := (count fd k - n)%nat]> (bytes k)) k);
  interest k ep fd := watch k !! (ep, fd);
  pollable k fd := bool_decide (fd ∈ openfds k);
  readable k fd := count fd k;
  pipe_end := find_pipe
}.

Lemma report_spec ep k l : ∀ seen,
  NoDup (data_fd <$> report ep k seen l) ∧
  (∀ e, e ∈ report ep k seen l → data_fd e ∉ seen ∧ reportable ep k e = true).
Proof.
  induction l as [|e l IH]; intros seen; simpl; [split; [constructor|set_solver]|].
  case_bool_decide as Hd; [apply IH|]. destruct (reportable ep k e) eqn:Hr; [|apply IH].
  destruct (IH (data_fd e :: seen)) as (H1 & H2). split.
  - simpl. constructor; [|done]. intros (x & Hx & Hin)%list_elem_of_fmap.
    destruct (H2 x Hin) as (H3 & _). set_solver.
  - intros x [->|Hx]%elem_of_cons; [done|]. destruct (H2 x Hx). set_solver.
Qed.

#[export] Instance simple_laws : EpollLaws kernel.
Proof.
  split; simpl; unfold ctl, count; intros.
  - case_match; [done|]. rewrite bool_decide_eq_true in *. rewrite bool_decide_eq_true_2 by done.
    exists 0. simpl. by rewrite lookup_insert_eq.
  - case_match; [|done]. exists 0. simpl. by rewrite lookup_insert_eq.
  - case_match; [|done]. exists 0. simpl. by rewrite lookup_delete_eq.
  - by case_match.
  - by destruct op; case_match.
  - destruct op; repeat case_match; simpl; try done;
      rewrite ?lookup_insert_ne, ?lookup_delete_ne; congruence.
  - by destruct op; repeat case_match.
  - by destruct op; repeat case_match.
  - done.
  - done.
  - simplify_eq. rewrite length_take. lia.
  - simplify_eq. rewrite fmap_take. eapply sublist_NoDup; [|apply (sublist_take _ n)].
    apply report_spec.
  - simplify_eq. destruct (report_spec ep k (pending k) []) as (_ & Hr).
    destruct (Hr e) as (_ & He).
    { match goal with H : e ∈ take _ _ |- _ => apply elem_of_take in H as (i & Hi & _) end.
      by eapply list_elem_of_lookup_2. }
    unfold reportable in He. destruct (watch k !! (ep, data_fd e)) as [w|]; [|done].
    exists w. split; [done|]. destruct (has (events e) EPOLLIN), (has (events e) EPOLLOUT),
      (has w EPOLLIN), (has w EPOLLOUT); done.
  - rewrite decide_False by lia. simpl. by rewrite lookup_insert_eq.
  - by rewrite decide_True.
  - case_match; simplify_eq. simpl. by rewrite lookup_insert_eq.
  - by case_match.
  - by case_match.
  - by case_match.
  - by case_decide.
  - by case_decide.
  - by destruct op; repeat case_match.
  - done.
  - by case_decide.
Qed.
End SimpleKernel.
