(* ===== verification/Executor.v ===== *)
(** * Executors (include/coroutine/executor.h, src/coroutine/executor.cpp)

    An executor is a coroutine: a state, a stack and a saved context.  The
    build uses boost's [fcontext] (LON_CONTEXT_TYPE = COROUTINE_FCONTEXT in
    include/cmake_defination.h), so a context is a one-shot continuation and
    [jump_fcontext] hands the captured continuation of the caller to the code
    it resumes.  Continuations are represented by the code that remains
    ([code]); what user callbacks do is a tree of runtime calls ([coro]).

    [fixStackUnwinding] only writes return addresses used by debuggers to the
    top of the stack and has no counterpart here; log lines are dropped. *)

From S2P Require Import Prelude.
From stdpp Require Import options.

Abbreviation eid := nat.

Inductive State := Init | Exec | Ready | HoldUp | Terminal | Aborted.
#[global] Instance State_eq_dec : EqDecision State.
Proof. solve_decision. Defined.

(** ** Code that runs on a stack *)

(** What user code asks of the IO manager and of the coroutine calls of
    src/io/co_io_function.cpp; the operations themselves are in CoIO.v and
    EventLoop.v.  [io_fun] are the system calls that wait for their descriptor,
    with their other arguments (pointers are addresses). *)
Inductive io_fun :=
| FAccept (addr addrlen : Z)
| FRead (buf count : Z)
| FReadv (iov iovcnt : Z)
| FRecv (buf len flags : Z)
| FRecvfrom (buf len flags src_addr addrlen : Z)
| FRecvmsg (msg flags : Z)
| FWrite (buf count : Z)
| FWritev (iov iovcnt : Z)
| FSend (msg len flags : Z)
| FSendto (msg len flags to_ tolen : Z)
| FSendmsg (msg flags : Z).

(** The commands of fcntl, by the argument [co_fcntl] takes for them. *)
Inductive fcntl_cmd :=
| F_SETFL | F_GETFL
| F_int (cmd : Z)        (* F_DUPFD, F_DUPFD_CLOEXEC, F_SETFD, F_SETOWN, F_SETSIG, F_SETLEASE,
                            F_NOTIFY, F_SETPIPE_SZ *)
| F_void (cmd : Z)       (* F_GETFD, F_GETOWN, F_GETSIG, F_GETLEASE, F_GETPIPE_SZ, others *)
| F_ptr (cmd : Z).       (* F_SETLK, F_SETLKW, F_GETLK, F_GETOWN_EX, F_SETOWN_EX *)

Inductive io_call :=
| IoInvoke (f : io_fun) (fd : Z)                  (* a waiting call, up to its yield *)
| IoResume (f : io_fun) (fd : Z) (flag : nat)     (* the call after its yield *)
| IoTimeout (fd type : Z) (flag : nat) (e : eid)  (* what the timer of a call runs *)
| IoAdopt (fd : Z)                                (* the end of co_accept *)
| IoSleep (ms : Z)                                (* sleepInner up to its yield *)
| IoConnect (fd : Z)                              (* co_connect up to its yield *)
| IoConnected (fd : Z)                            (* the rest of co_connect *)
| IoSocket (domain type protocol : Z)
| IoClose (fd : Z)
| IoRegister (fd type : Z) (e : eid) (call_once : bool)
| IoRemove (fd events : Z)
| IoTimer (interval : Z) (repeat : bool)
| IoStop
| IoFcntl (fd : Z) (cmd : fcntl_cmd) (arg : Z)
| IoIoctl (d request arg : Z)
| IoSetsockopt (sockfd level optname : Z) (optval : Z * Z)
| IoRaw (f : io_fun) (fd : Z)                     (* the original functions *)
| IoRawSocket (domain type protocol : Z)
| IoRawConnect (fd : Z)
| IoRawClose (fd : Z)
| IoRawSetsockopt (sockfd level optname : Z) (optval : Z * Z)
| IoAbort.                                        (* an assertion of the code around fails *)

(** The result with errno, or suspended with a number for the call. *)
Inductive answer :=
| Answer (r : Z) (errno : Z)
| Waiting (flag : nat).

(** User code, as far as the runtime sees it: a callback, or the code of the
    thread that owns the scheduler. *)
Inductive coro :=
| CRet                                  (* return *)
| CThrow                                (* an exception leaves the function *)
| CYield (k : coro)                     (* Executor::getCurrent()->yield() *)
| CExec (e : eid) (k : coro)            (* e->exec() *)
| CKill (e : eid) (k : coro)            (* e->kill() *)
| CNew (body : coro) (k : eid → coro)   (* std::make_shared<Executor>(body) *)
| CAdd (e : eid) (k : bool → coro)      (* scheduler->addExecutor(e) *)
| CStop (k : coro)                      (* scheduler->stop() *)
| CRun (k : coro)                       (* scheduler->run() *)
| CDo (n : nat) (k : coro)              (* any effect outside the runtime *)
| CIo (op : io_call)                    (* a call of the IO manager, with the code *)
      (cb : eid → nat → coro)           (*   of the callback it hands over, given the *)
      (k : answer → coro).              (*   calling executor and the call's number *)

(** Where control is: in user code, or at a program point of
    [Scheduler::threadScheduleFunc] or [Executor::executorMainFunc]. *)
Inductive code :=
| Run (c : coro)             (* in a callback *)
| Base (c : coro)            (* in the code of the thread itself *)
| SchedHead                  (* at the loop test of threadScheduleFunc *)
| SchedAfter (e : eid)       (* executor->exec() has returned in the loop *)
| SchedEnd                   (* mainYield() after the loop has returned *)
| MainTail.                  (* terminal() has returned in executorMainFunc *)

(** The contents of a context: [make_fcontext] on [executorMainFunc], the
    point in [swapContext(_, dst)] where [jump_fcontext] returns, or memory
    that [bzero] has overwritten. *)
Inductive fctx :=
| Entry
| Swapped (dst : eid) (k : code)
| Smashed.

(** [callback_]: user code, or the scheduler's own loop. *)
Inductive callback :=
| Body (c : coro)
| ScheduleLoop.

Record Executor := mkExecutor {
  is_call_back_type_ : bool;
  state_ : State;
  id_ : Z;
  stack_size_ : Z;
  stack_ : option nat;
  callback_ : option callback;
  context_ : option fctx
}.

(** Thread-local and global data of the module, and the objects. *)
Record runtime := mkRuntime {
  t_cur_executor : option eid;
  t_main_executor : option eid;
  t_base_executor : option eid;
  executors : gmap eid Executor;
  next_eid : eid;
  least_unallocated_id : Z;
  executor_count : Z;
  stacks : gset nat;                    (* live stack blocks *)
  next_stack : nat
}.

Definition runtime_init : runtime := mkRuntime None None None ∅ 0 0 0 ∅ 0.

Definition DefaultStackSize : Z := 64 * 1024.

(** ** Field updates *)

Definition set_state (s : State) (x : Executor) : Executor :=
  mkExecutor (is_call_back_type_ x) s (id_ x) (stack_size_ x) (stack_ x) (callback_ x) (context_ x).
Definition set_context (c : option fctx) (x : Executor) : Executor :=
  mkExecutor (is_call_back_type_ x) (state_ x) (id_ x) (stack_size_ x) (stack_ x) (callback_ x) c.
Definition set_callback (c : option callback) (x : Executor) : Executor :=
  mkExecutor (is_call_back_type_ x) (state_ x) (id_ x) (stack_size_ x) (stack_ x) c (context_ x).
Definition set_stack (n : Z) (s : option nat) (x : Executor) : Executor :=
  mkExecutor (is_call_back_type_ x) (state_ x) (id_ x) n s (callback_ x) (context_ x).

Definition set_cur (c : option eid) (r : runtime) : runtime :=
  mkRuntime c (t_main_executor r) (t_base_executor r) (executors r) (next_eid r)
    (least_unallocated_id r) (executor_count r) (stacks r) (next_stack r).
Definition set_executors (m : gmap eid Executor) (r : runtime) : runtime :=
  mkRuntime (t_cur_executor r) (t_main_executor r) (t_base_executor r) m (next_eid r)
    (least_unallocated_id r) (executor_count r) (stacks r) (next_stack r).
Definition set_stacks (s : gset nat) (n : nat) (r : runtime) : runtime :=
  mkRuntime (t_cur_executor r) (t_main_executor r) (t_base_executor r) (executors r)
    (next_eid r) (least_unallocated_id r) (executor_count r) s n.

Definition get (e : eid) (r : runtime) : outcome Executor :=
  of_option UseAfterFree (executors r !! e).
Definition put (e : eid) (x : Executor) (r : runtime) : runtime :=
  set_executors (<[e := x]> (executors r)) r.

(** ** Construction and destruction *)

(** [executor_info::idGenerate] *)
Definition idGenerate (r : runtime) : Z := u64 (least_unallocated_id r + 1).

(** The part both constructors share: a fresh object, its id and the count. *)
Definition construct (cb : bool) (s : State) (size : Z) (f : option callback) (r : runtime)
    : eid * runtime :=
  (next_eid r,
   mkRuntime (t_cur_executor r) (t_main_executor r) (t_base_executor r)
     (<[next_eid r := mkExecutor cb s (idGenerate r) size None f None]> (executors r))
     (S (next_eid r)) (idGenerate r) (u64 (executor_count r + 1)) (stacks r) (next_stack r)).

(** [Executor()] *)
Definition Executor_current (r : runtime) : eid * runtime := construct false Ready 0 None r.

(** [Executor(callback, stack_size)]; [None] is a null function. *)
Definition Executor_callback (f : option callback) (size : Z) (r : runtime)
    : outcome (eid * runtime) :=
  match f with
  | None => Fault AssertFailed
  | Some _ => Ok (construct true Init size f r)
  end.

(** [~Executor] *)
Definition Executor_destroy (e : eid) (r : runtime) : outcome runtime :=
  x ← get e r;
  Ok (mkRuntime (t_cur_executor r) (t_main_executor r) (t_base_executor r)
       (delete e (executors r)) (next_eid r) (least_unallocated_id r)
       (u64 (executor_count r - 1))
       (match stack_ x with Some s => stacks r ∖ {[s]} | None => stacks r end) (next_stack r)).

(** [Executor::getCurrent] *)
Definition getCurrent (r : runtime) : eid * runtime :=
  match t_cur_executor r with
  | Some e => (e, r)
  | None =>
      let '(e, r) := Executor_current r in
      (e, mkRuntime (Some e)
            (match t_main_executor r with Some m => Some m | None => Some e end)
            (Some e) (executors r) (next_eid r) (least_unallocated_id r)
            (executor_count r) (stacks r) (next_stack r))
  end.

(** [Executor::setMainExecutor] *)
Definition setMainExecutor (e : option eid) (r : runtime) : runtime :=
  mkRuntime (t_cur_executor r) e (t_base_executor r) (executors r) (next_eid r)
    (least_unallocated_id r) (executor_count r) (stacks r) (next_stack r).

(** ** Contexts *)

(** [Executor::makeContext]: an existing stack is freed and then reused. *)
Definition makeContext (e : eid) (r : runtime) : outcome runtime :=
  x ← get e r;
  let size := if stack_size_ x =? 0 then DefaultStackSize else stack_size_ x in
  match stack_ x with
  | Some s => Fault UseAfterFree
  | None =>
      let s := next_stack r in
      Ok (put e (set_context (Some Entry) (set_stack size (Some s) x))
            (set_stacks ({[s]} ∪ stacks r) (S s) r))
  end.

Definition initToReady (e : eid) (r : runtime) : outcome runtime :=
  r ← makeContext e r;
  x ← get e r;
  Ok (put e (set_state Ready x) r).

(** [Executor::resetContext]: the stack is zeroed and a new entry context is
    written to its top, but [context_] keeps its old value; only a context that
    is the entry point itself is at the address just rebuilt. *)
Definition resetContext (e : eid) (r : runtime) : outcome runtime :=
  x ← get e r;
  match stack_ x with
  | None => Fault NullDeref
  | Some _ =>
      let c := match context_ x with
               | Some Entry => Some Entry
               | Some _ => Some Smashed
               | None => None
               end in
      Ok (put e (set_context c x) r)
  end.

(** [Executor::swapContext(src, dst)] called with [k] left to do.  The resumed
    side stores the captured context: [executorMainFunc] into [src], a
    returning [swapContext(_, d)] into [d]. *)
Definition swapContext (src : option eid) (dst : eid) (k : code) (r : runtime)
    : outcome (code * runtime) :=
  d ← get dst r;
  match context_ d with
  | None => Fault NullDeref
  | Some Smashed => Fault UseAfterFree
  | Some Entry =>
      s ← of_option NullDeref src;
      x ← get s r;
      let r := put s (set_context (Some (Swapped dst k)) x) r in
      cur ← of_option NullDeref (t_cur_executor r);
      y ← get cur r;
      match callback_ y with
      | None => Fault AssertFailed
      | Some (Body c) => Ok (Run c, r)
      | Some ScheduleLoop => Ok (SchedHead, r)
      end
  | Some (Swapped d' k') =>
      x ← get d' r;
      Ok (k', put d' (set_context (Some (Swapped dst k)) x) r)
  end.

(** ** State transitions, each followed by what runs next *)

(** [execInner] / [mainExecInner] *)
Definition execInner (main : bool) (e : eid) (k : code) (r : runtime)
    : outcome (code * runtime) :=
  let r := set_cur (Some e) r in
  swapContext (if main then t_base_executor r else t_main_executor r) e k r.

(** [Executor::doExec] *)
Definition doExec (main : bool) (e : eid) (k : code) (r : runtime)
    : outcome (code * runtime) :=
  x ← get e r;
  match state_ x with
  | Init =>
      r ← initToReady e r;
      x ← get e r;
      execInner main e k (put e (set_state Exec x) r)
  | HoldUp | Ready => execInner main e k (put e (set_state Exec x) r)
  | Exec => Ok (k, r)
  | Terminal | Aborted => Ok (k, r)
  end.

Definition exec (e : eid) (k : code) (r : runtime) : outcome (code * runtime) :=
  _ ← assert_ (bool_decide (t_main_executor r ≠ Some e));
  doExec false e k r.

Definition mainExec (e : eid) (k : code) (r : runtime) : outcome (code * runtime) :=
  doExec true e k r.

(** [yieldInner] / [terminalInner] ([main] = false) and [mainYieldInner]. *)
Definition leaveInner (main : bool) (e : eid) (k : code) (r : runtime)
    : outcome (code * runtime) :=
  let target := if main then t_base_executor r else t_main_executor r in
  let r := set_cur target r in
  d ← of_option NullDeref target;
  swapContext (Some e) d k r.

(** [Executor::yield] ([main] = false) and [Executor::mainYield]. *)
Definition yield (main : bool) (e : eid) (k : code) (r : runtime)
    : outcome (code * runtime) :=
  x ← get e r;
  if bool_decide (state_ x = Exec)
  then leaveInner main e k (put e (set_state HoldUp x) r)
  else Ok (k, r).

Definition kill (e : eid) (k : code) (r : runtime) : outcome (code * runtime) :=
  x ← get e r;
  let r := put e (set_state Terminal x) r in
  if bool_decide (state_ x = Exec) then leaveInner false e k r else Ok (k, r).

Definition terminal (e : eid) (r : runtime) : outcome (code * runtime) :=
  x ← get e r;
  _ ← assert_ (bool_decide (state_ x = Exec));
  leaveInner false e MainTail (put e (set_state Terminal x) r).

(** The end of [executorMainFunc]: an exception is caught and logged, then the
    current executor is terminated. *)
Definition executorMainFunc_tail (r : runtime) : outcome (code * runtime) :=
  e ← of_option NullDeref (t_cur_executor r);
  terminal e r.

(** [Executor::reset] *)
Definition reset (e : eid) (f : option callback) (r : runtime) : outcome runtime :=
  x ← get e r;
  let r := put e (set_callback f x) r in
  match stack_ x with
  | Some _ => resetContext e r
  | None => makeContext e r
  end.

(** [Executor::reuse] *)
Definition reuse (e : eid) (r : runtime) : outcome runtime :=
  x ← get e r;
  if is_call_back_type_ x && bool_decide (state_ x = Terminal)
  then resetContext e (put e (set_state Ready x) r)
  else Ok r.

Definition setId (e : eid) (id : Z) (r : runtime) : outcome runtime :=
  x ← get e r;
  Ok (put e (mkExecutor (is_call_back_type_ x) (state_ x) id (stack_size_ x) (stack_ x) (callback_ x)
               (context_ x)) r).

(** [Executor::getCurrentId]: 0 on a thread that has no executor yet. *)
Definition getCurrentId (r : runtime) : outcome Z :=
  match t_cur_executor r with
  | Some e => x ← get e r; Ok (id_ x)
  | None => Ok 0
  end.

(** [Executor::totalExecutorCount] *)
Definition totalExecutorCount (r : runtime) : Z := executor_count r.

(** ** Switching back and forth *)

Lemma get_Some e r x : executors r !! e = Some x → get e r = Ok x.
Proof. unfold get. by intros ->. Qed.

Lemma lookup_put_eq e x r : executors (put e x r) !! e = Some x.
Proof. apply lookup_insert_eq. Qed.

Lemma lookup_put_ne e e' x r : e ≠ e' → executors (put e x r) !! e' = executors r !! e'.
Proof. intros. by apply lookup_insert_ne. Qed.

(** The executor [e] is not running and its next switch-in, from an [exec()]
    whose saved context is [m], continues at [kc]. *)
Definition resumes (m e : eid) (kc : code) (r : runtime) : Prop :=
  ∃ x, executors r !! e = Some x ∧
    match state_ x with
    | HoldUp => context_ x = Some (Swapped m kc)
    | Ready => context_ x = Some Entry ∧ ∃ c, callback_ x = Some (Body c) ∧ kc = Run c
    | Init => stack_ x = None ∧ ∃ c, callback_ x = Some (Body c) ∧ kc = Run c
    | _ => False
    end.

(** [e] runs, and [m] waits inside the [exec()] that switched to it. *)
Definition switched (m e : eid) (k : code) (r : runtime) : Prop :=
  t_main_executor r = Some m ∧ t_cur_executor r = Some e ∧
  (∃ x, executors r !! e = Some x ∧ state_ x = Exec) ∧
  (∃ y, executors r !! m = Some y ∧ context_ y = Some (Swapped e k)).

(** [r'] is [r] but for the executors [m] and [e], of which [m] only got a new
    context. *)
Record only_touched (m e : eid) (r r' : runtime) : Prop := {
  tch_main : t_main_executor r' = t_main_executor r;
  tch_base : t_base_executor r' = t_base_executor r;
  tch_next : next_eid r' = next_eid r;
  tch_least : least_unallocated_id r' = least_unallocated_id r;
  tch_count : executor_count r' = executor_count r;
  tch_other : ∀ e', e' ≠ m → e' ≠ e → executors r' !! e' = executors r !! e';
  tch_m : ∀ y, executors r !! m = Some y → ∃ c, executors r' !! m = Some (set_context c y);
  tch_e : ∀ x, executors r !! e = Some x →
          ∃ x', executors r' !! e = Some x' ∧ id_ x' = id_ x ∧ callback_ x' = callback_ x
}.

Lemma execInner_switch m e kc k r x y :
  t_main_executor r = Some m → m ≠ e →
  executors r !! m = Some y → executors r !! e = Some x →
  (context_ x = Some (Swapped m kc) ∨
   context_ x = Some Entry ∧ ∃ c, callback_ x = Some (Body c) ∧ kc = Run c) →
  execInner false e k r =
  Ok (kc, put m (set_context (Some (Swapped e k)) y) (set_cur (Some e) r)).
Proof.
  intros Hm Hne Hy Hx Hc. unfold execInner, swapContext. simpl.
  rewrite (get_Some e _ x) by done. simpl. rewrite Hm. simpl.
  destruct Hc as [-> | (-> & c & Hc & ->)]; simpl; rewrite (get_Some m _ y) by done; simpl.
  - done.
  - rewrite (get_Some e _ x) by (by rewrite lookup_put_ne). simpl. by rewrite Hc.
Qed.

Lemma leaveInner_switch m e k ke r x y :
  t_main_executor r = Some m → m ≠ e →
  executors r !! m = Some y → executors r !! e = Some x →
  context_ y = Some (Swapped e k) →
  leaveInner false e ke r =
  Ok (k, put e (set_context (Some (Swapped m ke)) x) (set_cur (Some m) r)).
Proof.
  intros Hm Hne Hy Hx Hc. unfold leaveInner. rewrite Hm. simpl. unfold swapContext.
  rewrite (get_Some m _ y) by done. simpl. rewrite Hc.
  by rewrite (get_Some e _ x) by done.
Qed.

(** What a switch from [m] into [e] leaves: [e] written with [x'], [m]'s context
    saved. *)
Lemma switched_in m e k r r0 x x' y :
  t_main_executor r0 = t_main_executor r → t_base_executor r0 = t_base_executor r →
  next_eid r0 = next_eid r → least_unallocated_id r0 = least_unallocated_id r →
  executor_count r0 = executor_count r → executors r0 = <[e := x']> (executors r) →
  t_main_executor r = Some m → m ≠ e →
  executors r !! m = Some y → executors r !! e = Some x →
  state_ x' = Exec → id_ x' = id_ x → callback_ x' = callback_ x →
  let r' := put m (set_context (Some (Swapped e k)) y) (set_cur (Some e) r0) in
  switched m e k r' ∧ only_touched m e r r'.
Proof.
  intros Hm0 Hb0 Hn0 Hl0 Hc0 He0 Hm Hne Hy Hx Hs Hid Hcb r'. split.
  - split_and!; [simpl; congruence|done| |].
    + exists x'. split; [|done]. unfold r'. rewrite lookup_put_ne by done. simpl.
      rewrite He0. apply lookup_insert_eq.
    + eexists. split; [apply lookup_put_eq|done].
  - constructor; simpl; try done.
    + intros. rewrite He0. by rewrite !lookup_insert_ne by congruence.
    + intros y' Hy'. simplify_eq. eexists. apply lookup_insert_eq.
    + intros x0 Hx0. simplify_eq. exists x'. rewrite lookup_insert_ne by done.
      rewrite He0, lookup_insert_eq. done.
Qed.

Lemma exec_resumes m e kc k r y :
  t_main_executor r = Some m → m ≠ e → executors r !! m = Some y → resumes m e kc r →
  ∃ r', exec e k r = Ok (kc, r') ∧ switched m e k r' ∧ only_touched m e r r'.
Proof.
  intros Hm Hne Hy (x & Hx & Hk). unfold exec.
  rewrite bool_decide_true by congruence. simpl. unfold doExec.
  rewrite (get_Some e r x Hx). simpl.
  destruct (state_ x) eqn:Es; try done.
  - destruct Hk as (Hst & c & Hc & ->). unfold initToReady, makeContext.
    rewrite (get_Some e r x Hx). simpl. rewrite Hst. simpl.
    erewrite (get_Some e (put e _ _)) by apply lookup_put_eq. simpl.
    erewrite (get_Some e (put e _ _)) by apply lookup_put_eq. simpl.
    erewrite execInner_switch; cycle 1; [exact Hm|done| |apply lookup_put_eq|right; eauto|].
    { rewrite !lookup_put_ne by done. exact Hy. }
    eexists. split; [done|].
    eapply (switched_in m e k r _ x); [done|done|done|done|done|simpl; by rewrite !insert_insert_eq|done..].
  - destruct Hk as (Hctx & c & Hc & ->).
    erewrite execInner_switch; cycle 1; [exact Hm|done| |apply lookup_put_eq|right; eauto|].
    { by rewrite lookup_put_ne. }
    eexists. split; [done|]. by eapply (switched_in m e k r _ x).
  - erewrite execInner_switch; cycle 1; [exact Hm|done| |apply lookup_put_eq|left; exact Hk|].
    { by rewrite lookup_put_ne. }
    eexists. split; [done|]. by eapply (switched_in m e k r _ x).
Qed.

(** A switch out of [e] to the waiting [m], with [e] left in state [s]. *)
Lemma leave_switched m e k ke s x r :
  switched m e k r → m ≠ e → executors r !! e = Some x →
  let x' := set_context (Some (Swapped m ke)) (set_state s x) in
  ∃ r', leaveInner false e ke (put e (set_state s x) r) = Ok (k, r') ∧
    t_cur_executor r' = Some m ∧ t_main_executor r' = Some m ∧
    t_base_executor r' = t_base_executor r ∧ next_eid r' = next_eid r ∧
    executors r' = <[e := x']> (executors r).
Proof.
  intros (Hm & Hc & _ & (y & Hy & Hk)) Hne Hx x'.
  erewrite (leaveInner_switch m e k); cycle 1;
    [exact Hm|done|by rewrite lookup_put_ne|apply lookup_put_eq|exact Hk|].
  eexists. split; [done|]. simpl. split_and!; try done. by rewrite insert_insert_eq.
Qed.

Lemma yield_switched m e k ke r :
  switched m e k r → m ≠ e →
  ∃ r' x, executors r !! e = Some x ∧ yield false e ke r = Ok (k, r') ∧
    t_cur_executor r' = Some m ∧ t_main_executor r' = Some m ∧
    t_base_executor r' = t_base_executor r ∧ next_eid r' = next_eid r ∧
    executors r' = <[e := set_context (Some (Swapped m ke)) (set_state HoldUp x)]> (executors r).
Proof.
  intros Hs Hne. pose proof Hs as (_ & _ & (x & Hx & He) & _).
  destruct (leave_switched m e k ke HoldUp x r Hs Hne Hx) as (r' & Hl & H).
  exists r', x. split; [done|]. split; [|exact H]. unfold yield.
  rewrite (get_Some e r x Hx). simpl. by rewrite bool_decide_true.
Qed.

Lemma terminal_switched m e k r :
  switched m e k r → m ≠ e →
  ∃ r' x, executors r !! e = Some x ∧ terminal e r = Ok (k, r') ∧
    t_cur_executor r' = Some m ∧ t_main_executor r' = Some m ∧
    t_base_executor r' = t_base_executor r ∧ next_eid r' = next_eid r ∧
    executors r' =
      <[e := set_context (Some (Swapped m MainTail)) (set_state Terminal x)]> (executors r).
Proof.
  intros Hs Hne. pose proof Hs as (_ & _ & (x & Hx & He) & _).
  destruct (leave_switched m e k MainTail Terminal x r Hs Hne Hx) as (r' & Hl & H).
  exists r', x. split; [done|]. split; [|exact H]. unfold terminal.
  rewrite (get_Some e r x Hx). simpl. by rewrite bool_decide_true.
Qed.

(** ** Views of the runtime that context switches do not change *)

Definition states (r : runtime) : gmap eid State := state_ <$> executors r.

(** The identity data: who exists, with which id, and the counters. *)
Definition same_ids (r r' : runtime) : Prop :=
  id_ <$> executors r' = id_ <$> executors r ∧ next_eid r' = next_eid r ∧
  least_unallocated_id r' = least_unallocated_id r ∧ executor_count r' = executor_count r.

Lemma same_ids_refl r : same_ids r r.
Proof. done. Qed.

Lemma same_ids_trans r1 r2 r3 : same_ids r1 r2 → same_ids r2 r3 → same_ids r1 r3.
Proof. intros (? & ? & ? & ?) (? & ? & ? & ?). unfold same_ids. split_and!; congruence. Qed.

#[global] Instance same_ids_preorder : PreOrder same_ids.
Proof. split; [exact same_ids_refl|exact same_ids_trans]. Qed.

Lemma fmap_put {A} (f : Executor → A) e x x' r :
  executors r !! e = Some x → f x' = f x → f <$> executors (put e x' r) = f <$> executors r.
Proof.
  intros Hx Hf. simpl. rewrite fmap_insert. apply insert_id.
  by rewrite lookup_fmap, Hx, Hf.
Qed.

Lemma put_same_ids e x x' r :
  executors r !! e = Some x → id_ x' = id_ x → same_ids r (put e x' r).
Proof. intros Hx Hid. split; [by apply (fmap_put id_ e x)|done]. Qed.

Lemma put_states e x r : states (put e x r) = <[e := state_ x]> (states r).
Proof. unfold states; simpl. apply fmap_insert. Qed.

Lemma get_Ok e r x : get e r = Ok x ↔ executors r !! e = Some x.
Proof. apply of_option_Ok. Qed.

Lemma swapContext_frame src dst k r k' r' :
  swapContext src dst k r = Ok (k', r') → states r' = states r ∧ same_ids r r'.
Proof.
  unfold swapContext. intros H. obind. rewrite get_Ok in E.
  destruct (context_ x) as [[|d' kd|]|]; try done; obind; rewrite get_Ok in *.
  - destruct (callback_ x3) as [[]|]; try done; simplify_eq;
      split; (by eapply (fmap_put state_)) || by eapply put_same_ids.
  - simplify_eq. split; [by eapply (fmap_put state_)|by eapply put_same_ids].
Qed.

Lemma makeContext_frame e r r' :
  makeContext e r = Ok r' → states r' = states r ∧ same_ids r r'.
Proof.
  unfold makeContext. intros H. obind. rewrite get_Ok in E.
  destruct (stack_ x); [done|]. simplify_eq.
  set (r0 := set_stacks _ _ r).
  split; [by apply (fmap_put state_ e x _ r0)|].
  split; [by apply (fmap_put id_ e x _ r0)|done].
Qed.

Lemma resetContext_frame e r r' :
  resetContext e r = Ok r' → states r' = states r ∧ same_ids r r'.
Proof.
  unfold resetContext. intros H. obind. rewrite get_Ok in E.
  destruct (stack_ x); [|done]. simplify_eq.
  split; [by eapply (fmap_put state_)|by eapply put_same_ids].
Qed.

(** Leaving or entering only moves the current executor and contexts. *)
Lemma execInner_frame main e k r k' r' :
  execInner main e k r = Ok (k', r') → states r' = states r ∧ same_ids r r'.
Proof. intros H. by apply swapContext_frame in H. Qed.

Lemma leaveInner_frame main e k r k' r' :
  leaveInner main e k r = Ok (k', r') → states r' = states r ∧ same_ids r r'.
Proof. unfold leaveInner. intros H. obind. by apply swapContext_frame in H. Qed.

Lemma doExec_frame main e k r k' r' :
  doExec main e k r = Ok (k', r') →
  ∃ x, executors r !! e = Some x ∧ same_ids r r' ∧
    match state_ x with
    | Init | Ready | HoldUp => states r' = <[e := Exec]> (states r)
    | _ => k' = k ∧ r' = r
    end.
Proof.
  unfold doExec. intros H. obind. rewrite get_Ok in E. exists x. split; [done|].
  destruct (state_ x); simplify_eq; try done.
  - obind. rewrite get_Ok in E1. unfold initToReady in E0. obind. rewrite get_Ok in E3.
    simplify_eq. apply makeContext_frame in E2 as [Hs Hi].
    rewrite lookup_put_eq in E1. simplify_eq.
    apply execInner_frame in H as [Hs' Hi']. split.
    + etrans; [exact Hi|]. etrans; [|exact Hi']. 
      etrans; [by apply (put_same_ids e x3 (set_state Ready x3))|].
      apply (put_same_ids e (set_state Ready x3)); [apply lookup_put_eq|done].
    + rewrite Hs', !put_states, insert_insert_eq, Hs. done.
  - apply execInner_frame in H as [Hs' Hi']. split.
    + etrans; [|exact Hi']. by eapply put_same_ids.
    + by rewrite Hs', put_states.
  - apply execInner_frame in H as [Hs' Hi']. split.
    + etrans; [|exact Hi']. by eapply put_same_ids.
    + by rewrite Hs', put_states.
Qed.

(** ** Properties *)

(** C24: the state of an executor only moves along the documented arrows: [exec]
    takes Init, Ready and HoldUp to Exec and does nothing in any other state;
    [yield] takes Exec to HoldUp and does nothing otherwise; [kill] takes any
    state to Terminal.  No operation changes another executor's state or any
    executor's identity. *)
Theorem state_transitions e k r x k' r' :
  executors r !! e = Some x →
  (exec e k r = Ok (k', r') →
     same_ids r r' ∧
     match state_ x with
     | Init | Ready | HoldUp => states r' = <[e := Exec]> (states r)
     | Exec | Terminal | Aborted => k' = k ∧ r' = r
     end) ∧
  (∀ main, yield main e k r = Ok (k', r') →
     same_ids r r' ∧
     (state_ x = Exec → states r' = <[e := HoldUp]> (states r)) ∧
     (state_ x ≠ Exec → k' = k ∧ r' = r)) ∧
  (kill e k r = Ok (k', r') →
     same_ids r r' ∧ states r' = <[e := Terminal]> (states r) ∧
     (state_ x ≠ Exec → k' = k)).
Proof.
  intros Hx. split_and!.
  - unfold exec. intros H. obind. apply doExec_frame in H as (x' & Hx' & Hi & Hm).
    rewrite Hx in Hx'. injection Hx' as <-.
    split; [done|]. by destruct (state_ x).
  - intros main. unfold yield. rewrite (get_Some e r x Hx). simpl. case_bool_decide as Hs.
    + intros H. apply leaveInner_frame in H as [Hst Hi].
      split; [etrans; [|exact Hi]; by eapply put_same_ids|].
      split; [|done]. intros _. by rewrite Hst, put_states.
    + intros [= <- <-]. done.
  - unfold kill. rewrite (get_Some e r x Hx). simpl. case_bool_decide as Hs.
    + intros H. apply leaveInner_frame in H as [Hst Hi].
      split; [etrans; [|exact Hi]; by eapply put_same_ids|].
      split; [by rewrite Hst, put_states|done].
    + intros [= <- <-]. split; [by eapply put_same_ids|]. split; [apply put_states|done].
Qed.

(** Exec and yield alternate like coroutines: switching into a suspended (or
    fresh) executor continues exactly where it stopped (or starts its callback);
    when it yields, control is back right after the [exec()] call, the current
    executor is the main one again, and a later [exec()] resumes after the
    [yield()]. *)
Lemma exec_yield_roundtrip m e kc k ke k' r y :
  t_main_executor r = Some m → m ≠ e → executors r !! m = Some y → resumes m e kc r →
  ∃ r1 r2, exec e k r = Ok (kc, r1) ∧ t_cur_executor r1 = Some e ∧
    yield false e ke r1 = Ok (k, r2) ∧ t_cur_executor r2 = Some m ∧
    (∃ x, executors r2 !! e = Some x ∧ state_ x = HoldUp) ∧
    ∃ r3, exec e k' r2 = Ok (ke, r3) ∧ t_cur_executor r3 = Some e.
Proof.
  intros Hm Hne Hy Hr.
  destruct (exec_resumes m e kc k r y Hm Hne Hy Hr) as (r1 & H1 & Hs & Ht).
  destruct (yield_switched m e k ke r1 Hs Hne) as (r2 & x & Hx & H2 & Hc2 & Hm2 & _ & _ & He2).
  exists r1, r2. split_and!; try done.
  - apply Hs.
  - eexists. rewrite He2, lookup_insert_eq. done.
  - destruct (tch_m _ _ _ _ Ht y Hy) as [c Hy1].
    edestruct (exec_resumes m e ke k' r2) as (r3 & H3 & Hs3 & _);
      [done|done|rewrite He2, lookup_insert_ne by done; exact Hy1| |].
    { eexists. rewrite He2, lookup_insert_eq. done. }
    exists r3. split; [done|apply Hs3].
Qed.

(** Executor ids are pairwise distinct and the object count is right, as long
    as fewer than 2^64 executors have been made. *)
Record identity_inv (r : runtime) : Prop := {
  id_fresh : ∀ e x, executors r !! e = Some x →
             (e < next_eid r)%nat ∧ 1 <= id_ x <= least_unallocated_id r;
  id_unique : ∀ e e' x x', executors r !! e = Some x → executors r !! e' = Some x' →
              id_ x = id_ x' → e = e';
  id_least : 0 <= least_unallocated_id r < 2 ^ 64;
  id_count : executor_count r = u64 (Z.of_nat (size (executors r)))
}.

Lemma identity_inv_same r r' : same_ids r r' → identity_inv r → identity_inv r'.
Proof.
  intros (Hids & Hn & Hl & Hc) Hi.
  assert (Hlk : ∀ e x, executors r' !! e = Some x →
                ∃ x0, executors r !! e = Some x0 ∧ id_ x0 = id_ x).
  { intros e x Hx. assert (Hf : (id_ <$> executors r) !! e = Some (id_ x)).
    { rewrite <- Hids, lookup_fmap, Hx. done. }
    rewrite lookup_fmap in Hf. apply fmap_Some in Hf as (x0 & ? & ?). eauto. }
  constructor.
  - intros e x Hx. destruct (Hlk e x Hx) as (x0 & Hx0 & <-). rewrite Hn, Hl.
    by apply (id_fresh r Hi).
  - intros e e' x x' (x0 & Hx0 & <-)%Hlk (x1 & Hx1 & <-)%Hlk. by apply (id_unique r Hi).
  - rewrite Hl. apply Hi.
  - rewrite Hc, (id_count r Hi). do 2 f_equal.
    rewrite <- (map_size_fmap id_ (executors r)), <- Hids. by rewrite map_size_fmap.
Qed.

(** Every new executor gets an id no existing executor has, and the global
    executor count follows constructions and destructions; all state
    transitions leave both alone. *)
Lemma identity_preserved r cb st sz f e :
  identity_inv r →
  (least_unallocated_id r < 2 ^ 64 - 1 →
   identity_inv (construct cb st sz f r).2 ∧
   ∀ e' x, executors r !! e' = Some x → id_ x ≠ idGenerate r) ∧
  (∀ r', Executor_destroy e r = Ok r' → identity_inv r') ∧
  (∀ r', same_ids r r' → identity_inv r').
Proof.
  intros Hi. split_and!.
  - intros Hl. assert (Hid : idGenerate r = least_unallocated_id r + 1).
    { apply u64_small. pose proof (id_least r Hi). lia. }
    assert (Hnew : ∀ e' x, executors r !! e' = Some x → id_ x ≠ idGenerate r).
    { intros e' x Hx. pose proof (id_fresh r Hi e' x Hx). lia. }
    split; [|exact Hnew]. unfold construct. constructor; simpl.
    + intros e' x. rewrite lookup_insert_Some. intros [[<- <-]|[_ Hx]]; simpl.
      * pose proof (id_least r Hi). lia.
      * pose proof (id_fresh r Hi e' x Hx). lia.
    + intros e1 e2 x1 x2. rewrite !lookup_insert_Some.
      intros [[<- <-]|[? H1]] [[<- <-]|[? H2]] Heq; simpl in *; try done.
      * by destruct (Hnew e2 x2 H2).
      * by destruct (Hnew e1 x1 H1).
      * by apply (id_unique r Hi _ _ x1 x2).
    + pose proof (id_least r Hi). lia.
    + rewrite map_size_insert_None.
      * rewrite (id_count r Hi). unfold u64. rewrite Zplus_mod_idemp_l. f_equal. lia.
      * destruct (executors r !! next_eid r) eqn:E; [|done].
        pose proof (id_fresh r Hi _ _ E). lia.
  - unfold Executor_destroy. intros r' H. obind. rewrite get_Ok in E. simplify_eq.
    constructor; simpl.
    + intros e' x' [_ Hx']%lookup_delete_Some. by apply (id_fresh r Hi).
    + intros e1 e2 x1 x2 [_ H1]%lookup_delete_Some [_ H2]%lookup_delete_Some.
      by apply (id_unique r Hi).
    + apply Hi.
    + rewrite (id_count r Hi). unfold u64. rewrite Zminus_mod_idemp_l. f_equal.
      rewrite (map_size_delete_Some _ _ (mk_is_Some _ _ E)).
      assert (size (executors r) ≠ 0%nat); [|lia].
      apply (map_size_ne_0_lookup_2 _ e). eauto.
  - intros r'. by intros ?; eapply identity_inv_same.
Qed.

(** What the accessors report: the number of live executors, and for the current
    one a positive id that no other executor has. *)
Lemma accessors_report r :
  identity_inv r → (Z.of_nat (size (executors r)) < 2 ^ 64) →
  totalExecutorCount r = Z.of_nat (size (executors r)) ∧
  ∀ e x, t_cur_executor r = Some e → executors r !! e = Some x →
    ∃ id, getCurrentId r = Ok id ∧ 0 < id ∧
      ∀ e' x', executors r !! e' = Some x' → id_ x' = id → e' = e.
Proof.
  intros Hi Hs. split; [unfold totalExecutorCount; rewrite (id_count r Hi); apply u64_small; lia|].
  intros e x He Hx. exists (id_ x). unfold getCurrentId. rewrite He, (get_Some e r x Hx).
  split; [done|]. split; [destruct (id_fresh r Hi e x Hx); lia|].
  intros e' x' Hx' Hid. by apply (id_unique r Hi e' e x' x).
Qed.

(** [setId] can give an executor the id of another. *)
Lemma setId_collides r e e' x x' :
  executors r !! e = Some x → executors r !! e' = Some x' → e ≠ e' →
  ∃ r' y, setId e (id_ x') r = Ok r' ∧ executors r' !! e = Some y ∧ executors r' !! e' = Some x' ∧ id_ y = id_ x'.
Proof.
  intros Hx Hx' Hne. unfold setId. rewrite (get_Some e r x Hx). do 2 eexists. split; [reflexivity|].
  split; [apply lookup_put_eq|]. split; [by rewrite lookup_put_ne|done].
Qed.

(** An executor that has run to its end and is then reused cannot run again:
    [reuse] makes it Ready, but [context_] still points at the overwritten end
    of the old run.  (m waits as in [Scheduler::threadScheduleFunc].) *)
Lemma reuse_does_not_restart m e k k' r y :
  t_main_executor r = Some m → m ≠ e → executors r !! m = Some y →
  (∃ x, executors r !! e = Some x ∧ state_ x = Terminal ∧ is_call_back_type_ x = true ∧
        is_Some (stack_ x) ∧ context_ x = Some (Swapped m k)) →
  ∃ r', reuse e r = Ok r' ∧ (∃ x, executors r' !! e = Some x ∧ state_ x = Ready) ∧
        exec e k' r' = Fault UseAfterFree.
Proof.
  intros Hm Hne Hy (x & Hx & Hs & Hcb & [s Hst] & Hc). unfold reuse.
  rewrite (get_Some e r x Hx). simpl. rewrite Hcb, Hs. simpl. unfold resetContext.
  erewrite (get_Some e (put e _ _)) by apply lookup_put_eq. simpl. rewrite Hst, Hc.
  eexists. split; [done|]. split; [eexists; split; [apply lookup_put_eq|done]|].
  unfold exec. simpl. rewrite bool_decide_true by congruence. simpl. unfold doExec.
  erewrite (get_Some e (put e _ _)) by apply lookup_put_eq. simpl.
  unfold execInner, swapContext. simpl.
  by erewrite (get_Some e) by apply lookup_insert_eq.
Qed.

(** Giving a not yet started executor a new callback with [reset] and then
    starting it makes [makeContext] free the stack it is about to use. *)
Lemma reset_before_first_exec e f f' r x k :
  executors r !! e = Some x → state_ x = Init → stack_ x = None →
  callback_ x = Some f → t_main_executor r ≠ Some e →
  ∃ r', reset e (Some f') r = Ok r' ∧ exec e k r' = Fault UseAfterFree.
Proof.
  intros Hx Hs Hst Hc Hm. unfold reset. rewrite (get_Some e r x Hx). simpl. rewrite Hst.
  unfold makeContext at 1. erewrite (get_Some e (put e _ _)) by apply lookup_put_eq. simpl.
  rewrite Hst. eexists. split; [done|]. unfold exec. simpl.
  rewrite bool_decide_true by done. simpl. unfold doExec.
  erewrite (get_Some e (put e _ _)) by apply lookup_put_eq. simpl. rewrite Hs. simpl.
  unfold initToReady, makeContext.
  by erewrite (get_Some e (put e _ _)) by apply lookup_put_eq.
Qed.

(** ** Witnesses *)

Module ExecutorEx.
(** The thread of test/coroutine_test.cpp: the base executor 0 and a callback
    executor 1 that yields once. *)
Definition r0 : runtime := (getCurrent runtime_init).2.
Definition r1 : runtime := (construct true Init DefaultStackSize (Some (Body (CYield CRet))) r0).2.

Lemma exec_yield_roundtrip_witness :
  ∃ r2 r3, exec 1 (Run CRet) r1 = Ok (Run (CYield CRet), r2) ∧
    yield false 1 (Run CRet) r2 = Ok (Run CRet, r3).
Proof.
  destruct (exec_yield_roundtrip 0 1 (Run (CYield CRet)) (Run CRet) (Run CRet) (Run CRet) r1
    (mkExecutor false Ready 1 0 None None None)) as (r2 & r3 & H1 & _ & H2 & _);
    [reflexivity|discriminate|reflexivity| |exists r2, r3; split; [exact H1|exact H2]].
  eexists. split; [reflexivity|]. simpl. split; [reflexivity|]. eexists. split; reflexivity.
Defined.

Lemma state_transitions_witness :
  ∃ k' r', exec 1 (Run CRet) r1 = Ok (k', r') ∧ states r' = <[1%nat := Exec]> (states r1).
Proof.
  eexists _, _. split; [reflexivity|].
  eapply (state_transitions 1 (Run CRet) r1
    (mkExecutor true Init 2 DefaultStackSize None (Some (Body (CYield CRet))) None));
    reflexivity.
Defined.

Lemma r0_lookup e x :
  executors r0 !! e = Some x → e = 0%nat ∧ x = mkExecutor false Ready 1 0 None None None.
Proof.
  change (executors r0)
    with (<[0%nat := mkExecutor false Ready 1 0 None None None]> (∅ : gmap eid Executor)).
  rewrite lookup_insert_Some, lookup_empty. naive_solver.
Qed.

Lemma r0_identity : identity_inv r0.
Proof.
  constructor; [| |vm_compute; split; [discriminate|reflexivity]|reflexivity].
  - intros e x [-> ->]%r0_lookup. split; [vm_compute; lia|vm_compute; split; discriminate].
  - intros e e' x x' [-> _]%r0_lookup [-> _]%r0_lookup _. done.
Qed.

Lemma identity_preserved_witness : identity_inv r1.
Proof.
  destruct (identity_preserved r0 true Init DefaultStackSize
    (Some (Body (CYield CRet))) 0 r0_identity) as (H & _ & _).
  apply H. vm_compute. reflexivity.
Defined.
End ExecutorEx.
