(* ===== verification/Info.v ===== *)
(** * Information about host, thread and stack (include/base/info.h, src/base/info.cpp)

    The host name is asked for up to five times and kept, the thread's number and
    name are cached per thread, and the frames of a backtrace are printed with
    demangled names.  What the operating system and the C++ runtime answer are
    parameters. *)

From S2P Require Import Prelude Executor.
From stdpp Require Import options.
Set Default Proof Using "Type*".

(** ** Threads *)

(** The [thread_local] variables and the name the kernel knows. *)
Record thread_info := mkThread { G_ThreadId : Z; G_ThreadName : cstr; kernel_name : cstr }.

Definition thread_init (kernel_name : cstr) : thread_info := mkThread 0 (str "UnSet") kernel_name.

(** [static_cast<uint32_t>(::syscall(SYS_gettid))] *)
Definition getThreadIdRaw (gettid : Z) : Z := u32 gettid.

Definition getThreadId (gettid : Z) (t : thread_info) : Z * thread_info :=
  if G_ThreadId t =? 0 then
    (getThreadIdRaw gettid, mkThread (getThreadIdRaw gettid) (G_ThreadName t) (kernel_name t))
  else (G_ThreadId t, t).

Definition getThreadName (t : thread_info) : cstr := G_ThreadName t.

Definition getThreadNameRaw (t : thread_info) : cstr := kernel_name t.

(** The kernel takes names of at most 15 characters. *)
Definition setThreadName (name : cstr) (t : thread_info) : thread_info :=
  mkThread (G_ThreadId t) name (take 15 name).

(** [Executor::getCurrent()->getId()] *)
Definition getExecutorId (r : runtime) : outcome (Z * runtime) :=
  let '(e, r) := getCurrent r in
  x ← of_option NullDeref (executors r !! e);
  Ok (id_ x, r).

(** ** The host name *)

Section Host.
Context {K : Type}.
Variable gethostname : K → option cstr * K.

(** [for (; i < 5; ++i)]; [n] rounds are left. *)
Fixpoint host_loop (n : nat) (k : K) : option cstr * K :=
  match n with
  | O => (None, k)
  | S n =>
      let '(r, k) := gethostname k in
      match r with
      | Some name => (Some name, k)
      | None => host_loop n k
      end
  end.

Definition getHostWithoutBuffer (k : K) : outcome (cstr * K) :=
  let '(r, k) := host_loop 5 k in
  match r with
  | Some name => Ok (name, k)
  | None => Throw ExecFailed
  end.

(** The static variable is initialised by the first call that does not throw. *)
Definition getHostName (host_name : option cstr) (k : K) : outcome (cstr * option cstr * K) :=
  match host_name with
  | Some name => Ok (name, host_name, k)
  | None => p ← getHostWithoutBuffer k; Ok (p.1, Some p.1, p.2)
  end.

(** The call is made [n] times in turn. *)
Fixpoint asks (n : nat) (k : K) : list (option cstr) :=
  match n with
  | O => []
  | S n => (gethostname k).1 :: asks n (gethostname k).2
  end.

Lemma host_loop_spec n : ∀ k,
  (host_loop n k).1 = head (omap id (asks n k)).
Proof.
  induction n as [|n IH]; intros k; [done|]. simpl. destruct (gethostname k) as [[name|] k']; [done|]. apply IH.
Qed.

(** The first of at most five answers counts; after five failures the call throws. *)
Lemma getHostWithoutBuffer_spec k :
  match head (omap id (asks 5 k)) with
  | Some name => ∃ k', getHostWithoutBuffer k = Ok (name, k')
  | None => getHostWithoutBuffer k = Throw ExecFailed
  end.
Proof.
  pose proof (host_loop_spec 5 k) as Hl. unfold getHostWithoutBuffer.
  destruct (host_loop 5 k) as [[name|] k'] eqn:Hh; simpl fst in Hl; rewrite <- Hl; [by eexists|done].
Qed.

(** Once known, the name is answered without asking again. *)
Lemma getHostName_cached h k name h' k' :
  getHostName h k = Ok (name, h', k') → ∀ k2, getHostName h' k2 = Ok (name, h', k2).
Proof.
  unfold getHostName. destruct h as [x|].
  - intros [= <- <- <-]. done.
  - intros Hg. apply bind_Ok in Hg as (p & _ & [= <- <- <-]). done.
Qed.
End Host.

(** The number of a thread is asked for once: it is never 0. *)
Lemma getThreadId_cached gettid t :
  u32 gettid ≠ 0 → let '(id, t') := getThreadId gettid t in ∀ g, getThreadId g t' = (id, t').
Proof.
  intros Hg. unfold getThreadId. destruct (Z.eqb_spec (G_ThreadId t) 0) as [H0|H0]; intros g; simpl.
  - unfold getThreadIdRaw. by rewrite (proj2 (Z.eqb_neq _ _) Hg).
  - by rewrite (proj2 (Z.eqb_neq _ _) H0).
Qed.

(** ** Backtraces *)

Section Backtrace.
(** [backtrace] and [backtrace_symbols]: a line per frame, or a null pointer. *)
Variable backtrace_symbols : nat → option (list cstr).
(** [abi::__cxa_demangle]; [None] is a status other than 0. *)
Variable demangle : cstr → option cstr.

Definition backtraceStacks (stacks : list cstr) (depth skip : nat) : bool * list cstr :=
  match backtrace_symbols depth with
  | Some strings => (true, stacks ++ drop skip strings)
  | None => (false, stacks)
  end.

(** The last position of a character: the loop over [p] overwrites it. *)
Fixpoint scan (c : ascii) (s : cstr) (i : nat) (last : option nat) : option nat :=
  match s with
  | [] => last
  | x :: s => scan c s (S i) (if decide (x = c) then Some i else last)
  end.

Definition left_parenthesis : ascii := "("%char.
Definition plus_sign : ascii := "+"%char.

(** The C string behind the parenthesis while the plus sign is replaced by NUL. *)
Definition mangled_name (s : cstr) (left_par plus : nat) : cstr :=
  if (left_par <? plus)%nat then take (plus - S left_par) (drop (S left_par) s) else drop (S left_par) s.

Definition frame_line (s : cstr) : cstr :=
  match scan left_parenthesis s 0 None, scan plus_sign s 0 None with
  | Some left_par, Some plus =>
      match demangle (mangled_name s left_par plus) with
      | Some name => take (S left_par) s ++ name ++ drop plus s
      | None => s
      end
  | _, _ => s
  end.

Definition backtraceString (depth skip : nat) : cstr :=
  match backtrace_symbols depth with
  | Some strings => concat ((λ s, frame_line s ++ [ch 10]) <$> drop skip strings)
  | None => []
  end.

Lemma scan_app c a b i o : scan c (a ++ b) i o = scan c b (i + length a) (scan c a i o).
Proof.
  revert i o. induction a as [|x a IH]; intros i o; simpl; [by rewrite Nat.add_0_r|]. rewrite IH. f_equal. lia.
Qed.

Lemma scan_absent c s i o : c ∉ s → scan c s i o = o.
Proof.
  revert i o. induction s as [|x s IH]; intros i o Hc; [done|]. apply not_elem_of_cons in Hc as [Hx Hs]. simpl.
  rewrite decide_False by done. by apply IH.
Qed.

Lemma scan_last c a b : c ∉ b → scan c (a ++ c :: b) 0 None = Some (length a).
Proof. intros Hb. rewrite scan_app. simpl. rewrite decide_True by done. by rewrite scan_absent. Qed.

(** A frame "file(name+offset) [address]" is printed with the readable name. *)
Lemma frame_line_spec file name offset d :
  left_parenthesis ∉ name ++ plus_sign :: offset → plus_sign ∉ offset → demangle name = Some d →
  frame_line (file ++ left_parenthesis :: name ++ plus_sign :: offset) =
    file ++ left_parenthesis :: d ++ plus_sign :: offset.
Proof.
  intros Hl Hp Hd. unfold frame_line. rewrite scan_last by done.
  assert (Hs : file ++ left_parenthesis :: name ++ plus_sign :: offset =
    (file ++ left_parenthesis :: name) ++ plus_sign :: offset) by by rewrite <- app_assoc.
  assert (Hs2 : file ++ left_parenthesis :: name ++ plus_sign :: offset =
    (file ++ [left_parenthesis]) ++ name ++ plus_sign :: offset) by by rewrite <- app_assoc.
  assert (Hl2 : length (file ++ [left_parenthesis]) = S (length file)) by (rewrite length_app; simpl; lia).
  rewrite Hs at 1. rewrite scan_last by done. rewrite length_app. cbn [length].
  assert (Hm : mangled_name (file ++ left_parenthesis :: name ++ plus_sign :: offset) (length file)
    (length file + S (length name)) = name).
  { unfold mangled_name. rewrite (proj2 (Nat.ltb_lt _ _)) by lia.
    replace (length file + S (length name) - S (length file))%nat with (length name) by lia.
    rewrite Hs2, drop_app_length' by done. by rewrite take_app_length. }
  rewrite Hm, Hd. rewrite Hs2 at 1. rewrite take_app_length' by done. rewrite <- app_assoc. cbn [app]. do 2 f_equal.
  rewrite Hs. rewrite drop_app_length' by (rewrite length_app; simpl; lia). done.
Qed.

(** A frame without a name is printed as it is. *)
Lemma frame_line_plain s : plus_sign ∉ s → frame_line s = s.
Proof. intros Hp. unfold frame_line. rewrite (scan_absent plus_sign) by done. by destruct (scan left_parenthesis s 0 None). Qed.
End Backtrace.

Module InfoEx.
(** A name that is not available at first. *)
Definition flaky (k : nat) : option cstr * nat := (if decide (k < 3)%nat then None else Some (str "host"), S k).

Lemma host_ok : getHostWithoutBuffer flaky 0%nat = Ok (str "host", 4%nat).
Proof. reflexivity. Qed.

Lemma host_fails : getHostWithoutBuffer (λ k : nat, (None, S k)) 0%nat = Throw ExecFailed.
Proof. reflexivity. Qed.
End InfoEx.
