(* ===== verification/Scheduler.v ===== *)
(** * The scheduler (include/coroutine/scheduler.h, src/coroutine/scheduler.cpp)

    One scheduler per thread: a queue of ready executors, a list of executors
    handed over by other threads, and a loop ([threadScheduleFunc]) that is
    itself the callback of an executor, the thread's main executor.

    The loop, user callbacks and context switches run as a machine whose
    configurations carry the executor runtime, the scheduler and the program
    point.  What the program does is the function [exec_code]; waiting
    ([block_pending_func_]), the answers of the IO manager to its calls and other
    threads are transitions of [step], of which EventLoop.v gives the real ones.

    The stop predicate [stop_pending_func_] is represented by the value it
    currently returns (the default predicate returns false).  The list of
    remote tasks is its contents from the head on; RemoteTaskList.v shows that
    the lock-free code implements exactly these contents. *)

From S2P Require Import Prelude Executor.
From stdpp Require Import options.

Record Scheduler := mkScheduler {
  stopping_ : bool;
  stopped_ : bool;
  exit_with_tasks_processed : bool;
  stop_pending_func_ : bool;
  ready_executors_ : list (option eid);
  scheduler_executor_ : eid;
  remote_tasks_ : list (option eid)
}.

Definition set_ready (l : list (option eid)) (s : Scheduler) : Scheduler :=
  mkScheduler (stopping_ s) (stopped_ s) (exit_with_tasks_processed s)
    (stop_pending_func_ s) l (scheduler_executor_ s) (remote_tasks_ s).
Definition set_remote (l : list (option eid)) (s : Scheduler) : Scheduler :=
  mkScheduler (stopping_ s) (stopped_ s) (exit_with_tasks_processed s)
    (stop_pending_func_ s) (ready_executors_ s) (scheduler_executor_ s) l.

(** ** Operations *)

(** [Scheduler::Scheduler] *)
Definition Scheduler_new (r : runtime) : outcome (Scheduler * runtime) :=
  let '(_, r) := getCurrent r in
  p ← Executor_callback (Some ScheduleLoop) DefaultStackSize r;
  let '(e, r) := p in
  Ok (mkScheduler false false true false [] e [], setMainExecutor (Some e) r).

(** Pointers are nullable: [None] is a null [Executor::Ptr]. *)
Definition addExecutor (e : option eid) (s : Scheduler) : bool * Scheduler :=
  if stopping_ s then (false, s) else (true, set_ready (ready_executors_ s ++ [e]) s).

(** [std::find] and [erase]: the first occurrence. *)
Fixpoint erase_first (e : option eid) (l : list (option eid)) : list (option eid) :=
  match l with
  | [] => []
  | x :: l => if decide (x = e) then l else x :: erase_first e l
  end.

Definition removeExecutor (e : option eid) (s : Scheduler) : Scheduler :=
  set_ready (erase_first e (ready_executors_ s)) s.

(** [RemoteTaskList::insertFront]: true when the list was empty. *)
Definition addRemoteExecutor (e : option eid) (s : Scheduler) : bool * Scheduler :=
  (match remote_tasks_ s with [] => true | _ => false end,
   set_remote (e :: remote_tasks_ s) s).

(** [RemoteTaskList::scheduleAll] *)
Definition scheduleAll (s : Scheduler) : Scheduler :=
  foldl (λ s e, (addExecutor e s).2) (set_remote [] s) (remote_tasks_ s).

Definition stop (s : Scheduler) : Scheduler :=
  if exit_with_tasks_processed s
  then mkScheduler true (stopped_ s) true (stop_pending_func_ s) (ready_executors_ s)
         (scheduler_executor_ s) (remote_tasks_ s)
  else mkScheduler (stopping_ s) true false (stop_pending_func_ s) (ready_executors_ s)
         (scheduler_executor_ s) (remote_tasks_ s).

Definition setExitWithTasksProcessed (b : bool) (s : Scheduler) : Scheduler :=
  mkScheduler (stopping_ s) (stopped_ s) b (stop_pending_func_ s) (ready_executors_ s)
    (scheduler_executor_ s) (remote_tasks_ s).

Definition setStopPendingFunc (b : bool) (s : Scheduler) : Scheduler :=
  mkScheduler (stopping_ s) (stopped_ s) (exit_with_tasks_processed s) b
    (ready_executors_ s) (scheduler_executor_ s) (remote_tasks_ s).

Definition stop_pending (s : Scheduler) : bool := stopped_ s && stop_pending_func_ s.

Definition getExecutorsCount (s : Scheduler) : nat := length (ready_executors_ s).

(** [Scheduler::~Scheduler] *)
Definition Scheduler_destroy (s : Scheduler) : Scheduler := stop s.

(** [t_scheduler]: the scheduler of the thread is made by the first call. *)
Definition scheduler_getThreadLocal (t_scheduler : option Scheduler) (r : runtime)
    : outcome (Scheduler * option Scheduler * runtime) :=
  match t_scheduler with
  | Some s => Ok (s, t_scheduler, r)
  | None => p ← Scheduler_new r; Ok (p.1, Some p.1, p.2)
  end.

Definition scheduler_setThreadLocal (s : option Scheduler) (_ : option Scheduler) : option Scheduler := s.

Lemma scheduler_getThreadLocal_same t r :
  ∃ s t' r', scheduler_getThreadLocal t r = Ok (s, t', r') ∧
    scheduler_getThreadLocal t' r' = Ok (s, t', r') ∧ (∀ s', t = Some s' → s' = s ∧ r' = r).
Proof.
  destruct t as [s|]; [exists s, (Some s), r; split_and!; try done; by intros s' [= <-]|].
  unfold scheduler_getThreadLocal, Scheduler_new. destruct (getCurrent r) as [e r1]. simpl.
  do 3 eexists. split; [reflexivity|]. by split.
Qed.

(** ** The machine *)

Inductive event :=
| EvExec (e : eid)                   (* the scheduler switched to e *)
| EvDo (e : option eid) (n : nat).   (* effect n of the current executor *)

Record config := mkConfig {
  rt : runtime;
  sch : Scheduler;
  pc : code;
  trace : list event
}.

Inductive move :=
| Go (c : config)        (* the next configuration *)
| Block (c : config)     (* about to call block_pending_func_ *)
| Call (op : io_call) (cb : eid → nat → coro) (k : answer → code)
                         (* a call of the IO manager, and what is left to do *)
| Done.                  (* the thread's code has returned *)

Definition goto (c : config) (p : code * runtime) : move :=
  Go (mkConfig p.2 (sch c) p.1 (trace c)).

(** After the loop: [scheduler_executor_->mainYield()]. *)
Definition leave_loop (c : config) : outcome move :=
  p ← yield true (scheduler_executor_ (sch c)) SchedEnd (rt c); Ok (goto c p).

(** One iteration of the loop of [threadScheduleFunc] up to the switch. *)
Definition threadScheduleFunc_head (c : config) : outcome move :=
  if stop_pending (sch c) then leave_loop c
  else
    let s := scheduleAll (sch c) in
    let '(executor, s) :=
      match ready_executors_ s with
      | e :: q => (e, set_ready q s)
      | [] => (None, s)
      end in
    let c := mkConfig (rt c) s (pc c) (trace c) in
    match executor with
    | None => if stopping_ s then leave_loop c else Ok (Block c)
    | Some e =>
        x ← get e (rt c);
        if bool_decide (state_ x ≠ Terminal ∧ state_ x ≠ Aborted) then
          p ← exec e (SchedAfter e) (rt c);
          Ok (Go (mkConfig p.2 s p.1 (trace c ++ [EvExec e])))
        else Ok (Go c)
    end.

(** The rest of the iteration: the state check. *)
Definition threadScheduleFunc_after (e : eid) (c : config) : outcome move :=
  x ← get e (rt c);
  match state_ x with
  | Terminal | HoldUp | Aborted => Ok (Go (mkConfig (rt c) (sch c) SchedHead (trace c)))
  | _ => Fault AssertFailed
  end.

(** One runtime call of user code; [wrap] says whose code it is. *)
Definition run_coro (wrap : coro → code) (k : coro) (c : config) : outcome move :=
  match k with
  | CRet | CThrow => Ok Done
  | CYield k =>
      let '(e, r) := getCurrent (rt c) in
      p ← yield false e (wrap k) r; Ok (goto c p)
  | CExec e k => p ← exec e (wrap k) (rt c); Ok (goto c p)
  | CKill e k => p ← kill e (wrap k) (rt c); Ok (goto c p)
  | CNew body k =>
      p ← Executor_callback (Some (Body body)) DefaultStackSize (rt c);
      Ok (Go (mkConfig p.2 (sch c) (wrap (k p.1)) (trace c)))
  | CAdd e k =>
      _ ← get e (rt c);
      let '(b, s) := addExecutor (Some e) (sch c) in
      Ok (Go (mkConfig (rt c) s (wrap (k b)) (trace c)))
  | CStop k => Ok (Go (mkConfig (rt c) (stop (sch c)) (wrap k) (trace c)))
  | CRun k => p ← mainExec (scheduler_executor_ (sch c)) (wrap k) (rt c); Ok (goto c p)
  | CDo n k =>
      Ok (Go (mkConfig (rt c) (sch c) (wrap k) (trace c ++ [EvDo (t_cur_executor (rt c)) n])))
  | CIo op cb k => Ok (Call op cb (λ a, wrap (k a)))
  end.

(** A callback that returns or throws ends in the tail of [executorMainFunc];
    a thread function that throws terminates the process. *)
Definition exec_code (c : config) : outcome move :=
  match pc c with
  | SchedHead => threadScheduleFunc_head c
  | SchedAfter e => threadScheduleFunc_after e c
  | SchedEnd => p ← executorMainFunc_tail (rt c); Ok (goto c p)
  | MainTail => Fault ProcessExit
  | Run CRet | Run CThrow => p ← executorMainFunc_tail (rt c); Ok (goto c p)
  | Run k => run_coro Run k c
  | Base CThrow => Fault ProcessExit
  | Base k => run_coro Base k c
  end.

(** What the owner of the queues may be given from outside: existing executors
    that are neither the thread's base nor its scheduler executor. *)
Definition task (c : config) (e : eid) : Prop :=
  is_Some (executors (rt c) !! e) ∧ t_base_executor (rt c) ≠ Some e ∧
  scheduler_executor_ (sch c) ≠ e.

Definition with_sch (s : Scheduler) (c : config) : config :=
  mkConfig (rt c) s (pc c) (trace c).

Definition at_code (k : code) (c : config) : config :=
  mkConfig (rt c) (sch c) k (trace c).

(** Callbacks that use the scheduler interface on tasks they know: they do not
    call [exec] or [run] themselves and leave the thread's base and scheduler
    executors alone.  Executors registered for an event are woken once. *)
Definition call_managed (V : eid → Prop) (op : io_call) : Prop :=
  match op with
  | IoTimeout _ _ _ e => V e
  | IoRegister _ _ e call_once => V e ∧ call_once = true
  | _ => True
  end.

Fixpoint managed (V : eid → Prop) (c : coro) : Prop :=
  match c with
  | CRet | CThrow => True
  | CYield k | CStop k | CDo _ k => managed V k
  | CExec _ _ | CRun _ => False
  | CKill e k => V e ∧ managed V k
  | CNew body k => managed V body ∧ ∀ e, managed (λ x, V x ∨ x = e) (k e)
  | CAdd e k => V e ∧ ∀ r, managed V (k r)
  | CIo op cb k =>
      call_managed V op ∧ (∀ e n, managed (λ x, V x ∨ x = e) (cb e n)) ∧ ∀ a, managed V (k a)
  end.

(** What the IO manager does to executors and scheduler, in a call ([null] =
    false) or in [block_pending_func_], which may also queue a null pointer: it
    adds existing executors, makes new ones, stops the scheduler. *)
Inductive io_effect (null : bool) : config → config → Prop :=
| eff_add c o :
    (o = None → null = true) → (∀ e, o = Some e → task c e) →
    io_effect null c (with_sch (addExecutor o (sch c)).2 c)
| eff_new c body p :
    managed (task c) body →
    Executor_callback (Some (Body body)) DefaultStackSize (rt c) = Ok p →
    io_effect null c (mkConfig p.2 (sch c) (pc c) (trace c))
| eff_stop c : io_effect null c (with_sch (stop (sch c)) c).

(** The thread's own steps: the IO manager may answer a call in any way. *)
Inductive ustep : config → config → Prop :=
| ustep_go c c' : exec_code c = Ok (Go c') → ustep c c'
| ustep_call c op cb k c' a :
    exec_code c = Ok (Call op cb k) → star (io_effect false) c c' → ustep c (at_code (k a) c').

(** [block_pending_func_] runs on the thread (the default one only sleeps); other
    threads may hand over executors at any time. *)
Inductive step : config → config → Prop :=
| step_own c c' : ustep c c' → step c c'
| step_block c c' c'' :
    exec_code c = Ok (Block c') → star (io_effect true) c' c'' → step c c''
| step_remote c e :
    task c e → step c (with_sch (addRemoteExecutor (Some e) (sch c)).2 c).

(** The program's own, deterministic steps. *)
Definition dstep (c c' : config) : Prop := exec_code c = Ok (Go c').

(** Runs the program's own steps; stops where it blocks, ends or faults. *)
Fixpoint run_steps (fuel : nat) (c : config) : outcome move :=
  match fuel with
  | O => Ok (Go c)
  | S n =>
      m ← exec_code c;
      match m with
      | Go c' => run_steps n c'
      | Block _ | Call _ _ _ | Done => Ok m
      end
  end.

(** A thread that makes a scheduler and then runs the code [k]. *)
Definition thread (k : coro) : outcome config :=
  p ← Scheduler_new runtime_init;
  Ok (mkConfig p.2 p.1 (Base k) []).

(** As test/scheduler_test.cpp: three tasks, one of which throws, then one
    that stops the scheduler. *)
Definition sequence_thread : coro :=
  CNew (CDo 0 CRet) (λ a, CNew (CDo 1 CThrow) (λ b, CNew (CDo 2 (CYield CRet)) (λ c,
  CNew (CStop CRet) (λ d,
  CAdd a (λ _, CAdd b (λ _, CAdd c (λ _, CAdd d (λ _, CRun (CDo 9 CRet)))))))))%nat.

Example sequence_thread_runs :
  (c ← thread sequence_thread; m ← run_steps 40 c; Ok m) = Ok Done.
Proof. vm_compute. reflexivity. Qed.
