(* ===== verification/SchedulerInv.v ===== *)
(** * The scheduler's invariant (src/coroutine/scheduler.cpp, executor.cpp)

    Well-formed configurations of the machine of Scheduler.v, for a thread that
    is inside [scheduler->run()] and returns afterwards: one executor runs at a
    time, every suspended task resumes in its own code, the queues hold live
    tasks.  Every transition keeps the invariant, and no transition of the
    program faults. *)

From S2P Require Import Prelude Executor Scheduler.
From stdpp Require Import options.

(** ** Well-behaved user code *)

Definition valid (b s : eid) (r : runtime) (e : eid) : Prop :=
  is_Some (executors r !! e) ∧ e ≠ b ∧ e ≠ s.

(** [managed] code may know more executors. *)
Lemma call_managed_mono (V W : eid → Prop) op :
  (∀ e, V e → W e) → call_managed V op → call_managed W op.
Proof. intros HVW. destruct op; simpl; try done; [auto|]. intros [? ?]. auto. Qed.

Lemma managed_mono c (V W : eid → Prop) : (∀ e, V e → W e) → managed V c → managed W c.
Proof.
  revert V W. induction c as [| |k IH|e k IH|e k IH|body IHb k IH|e k IH|k IH|k IH|n k IH|op cb IHc k IH];
    simpl; intros V W HVW; try done.
  - by apply IH.
  - intros [He Hk]. split; [auto|]. by apply (IH V W).
  - intros [Hb Hk]. split; [by apply (IHb V W)|]. intros e.
    apply (IH e (λ x, V x ∨ x = e)); [|apply Hk]. intros e' [?|?]; auto.
  - intros [He Hk]. split; [auto|]. intros r. by apply (IH r V W).
  - by apply IH.
  - by apply IH.
  - intros (Ho & Hc & Hk). split_and!.
    + by apply (call_managed_mono V).
    + intros e m. apply (IHc e m (λ x, V x ∨ x = e)); [|apply Hc]. intros e' [?|?]; auto.
    + intros a. by apply (IH a V W).
Qed.

Definition task_ok (s : eid) (V : eid → Prop) (cur : option eid) (e : eid) (x : Executor) : Prop :=
  match state_ x with
  | Init => stack_ x = None ∧ ∃ c, callback_ x = Some (Body c) ∧ managed V c
  | HoldUp => ∃ k, context_ x = Some (Swapped s (Run k)) ∧ managed V k
  | Exec => cur = Some e
  | Terminal => True
  | Ready | Aborted => False
  end.

Definition pc_ok (b s : eid) (r : runtime) (p : code) : Prop :=
  match p with
  | SchedHead => t_cur_executor r = Some s
  | SchedAfter e =>
      t_cur_executor r = Some s ∧ valid b s r e ∧
      ∃ x, executors r !! e = Some x ∧ (state_ x = HoldUp ∨ state_ x = Terminal)
  | Run k =>
      managed (valid b s r) k ∧
      ∃ e, valid b s r e ∧ switched s e (SchedAfter e) r
  | Base k => k = CRet ∧ t_cur_executor r = Some b
  | _ => False
  end.

(** The scheduler executor's own state at a program point. *)
Definition main_state (p : code) : State :=
  match p with Base _ => HoldUp | _ => Exec end.

Record inv (b s : eid) (c : config) : Prop := {
  i_ne : b ≠ s;
  i_sched : scheduler_executor_ (sch c) = s;
  i_main : t_main_executor (rt c) = Some s;
  i_base : t_base_executor (rt c) = Some b;
  i_fresh : ∀ e, is_Some (executors (rt c) !! e) → (e < next_eid (rt c))%nat;
  i_queue : ∀ e, Some e ∈ ready_executors_ (sch c) ++ remote_tasks_ (sch c) →
            valid b s (rt c) e;
  i_tasks : ∀ e x, executors (rt c) !! e = Some x → e ≠ b → e ≠ s →
            task_ok s (valid b s (rt c)) (t_cur_executor (rt c)) e x;
  i_b : ∃ x, executors (rt c) !! b = Some x ∧ state_ x = Ready ∧
             context_ x = Some (Swapped s (Base CRet));
  i_s : ∃ x, executors (rt c) !! s = Some x ∧ state_ x = main_state (pc c);
  i_pc : pc_ok b s (rt c) (pc c)
}.

Lemma task_ok_mono s V W cur e x :
  (∀ e, V e → W e) → task_ok s V cur e x → task_ok s W cur e x.
Proof.
  intros HVW. unfold task_ok. destruct (state_ x); try done.
  - intros (? & c & ? & ?). split; [done|]. exists c. split; [done|].
    by apply (managed_mono c V W).
  - intros (k & ? & ?). exists k. split; [done|]. by apply (managed_mono k V W).
Qed.

(** ** Scheduler operations on the queues *)

Lemma scheduleAll_spec s :
  ready_executors_ (scheduleAll s) =
    (if stopping_ s then ready_executors_ s else ready_executors_ s ++ remote_tasks_ s) ∧
  remote_tasks_ (scheduleAll s) = [] ∧
  stopping_ (scheduleAll s) = stopping_ s ∧ stopped_ (scheduleAll s) = stopped_ s ∧
  stop_pending_func_ (scheduleAll s) = stop_pending_func_ s ∧
  exit_with_tasks_processed (scheduleAll s) = exit_with_tasks_processed s ∧
  scheduler_executor_ (scheduleAll s) = scheduler_executor_ s.
Proof.
  unfold scheduleAll. set (s0 := set_remote [] s).
  assert (H : ∀ l s1, foldl (λ s e, (addExecutor e s).2) s1 l =
    if stopping_ s1 then s1 else set_ready (ready_executors_ s1 ++ l) s1).
  { induction l as [|e l IH]; intros [[] d x p r m t]; simpl; rewrite ?IH; try done.
    - unfold set_ready; simpl. by rewrite app_nil_r.
    - unfold set_ready; simpl. rewrite <- app_assoc. reflexivity. }
  rewrite H. unfold s0. by destruct s as [[] d x p r m t].
Qed.

(** ** Preservation, one shape of change at a time *)

(** A change of one task [e] (and of the scheduler executor's context). *)
Lemma inv_update b s c c' e x' :
  inv b s c → valid b s (rt c) e →
  (∀ e', e' ≠ e → e' ≠ s → executors (rt c') !! e' = executors (rt c) !! e') →
  executors (rt c') !! e = Some x' →
  (∃ xs, executors (rt c') !! s = Some xs ∧ state_ xs = Exec) →
  t_main_executor (rt c') = t_main_executor (rt c) →
  t_base_executor (rt c') = t_base_executor (rt c) →
  next_eid (rt c') = next_eid (rt c) →
  scheduler_executor_ (sch c') = scheduler_executor_ (sch c) →
  (∀ o, Some o ∈ ready_executors_ (sch c') ++ remote_tasks_ (sch c') →
        valid b s (rt c) o) →
  (t_cur_executor (rt c) = t_cur_executor (rt c') ∨
   t_cur_executor (rt c) = Some e ∨ t_cur_executor (rt c) = Some s) →
  task_ok s (valid b s (rt c)) (t_cur_executor (rt c')) e x' →
  main_state (pc c') = Exec →
  ((∀ o, valid b s (rt c) o → valid b s (rt c') o) → pc_ok b s (rt c') (pc c')) →
  inv b s c'.
Proof.
  intros Hi He Hother Hx' Hs Hm Hb Hn Hsch Hq Hcur Hok Hms Hpc.
  assert (Hdom : ∀ o, is_Some (executors (rt c') !! o) ↔ is_Some (executors (rt c) !! o)).
  { intros o. destruct (decide (o = e)) as [->|Hoe].
    { rewrite Hx'. destruct He as [? _]. split; eauto. }
    destruct (decide (o = s)) as [->|Hos].
    { destruct Hs as (xs & -> & _). destruct (i_s b s c Hi) as (y & -> & _). split; eauto. }
    by rewrite Hother. }
  assert (Hval : ∀ o, valid b s (rt c) o → valid b s (rt c') o).
  { intros o [? ?]. split; [by apply Hdom|done]. }
  constructor.
  - apply Hi.
  - rewrite Hsch. apply Hi.
  - rewrite Hm. apply Hi.
  - rewrite Hb. apply Hi.
  - intros o Ho. rewrite Hn. apply (i_fresh b s c Hi). by apply Hdom.
  - intros o Ho. by apply Hval, Hq.
  - intros o x Hx Hob Hos. destruct (decide (o = e)) as [->|Hoe].
    + rewrite Hx' in Hx. injection Hx as <-. by apply (task_ok_mono s (valid b s (rt c))).
    + rewrite Hother in Hx by done. pose proof (i_tasks b s c Hi o x Hx Hob Hos) as Ht.
      apply (task_ok_mono s (valid b s (rt c))); [done|].
      unfold task_ok in *. destruct (state_ x); try done. destruct Hcur as [<-|[Hc|Hc]]; congruence.
  - destruct (i_b b s c Hi) as (x & Hx & H). exists x. split; [|done].
    rewrite Hother; [done| |apply Hi]. intros ->. by destruct He as (_ & ? & _).
  - destruct Hs as (xs & ? & ?). exists xs. by rewrite Hms.
  - by apply Hpc.
Qed.

(** A change of the queues and the program point only. *)
Lemma inv_queues b s c c' :
  inv b s c → rt c' = rt c → scheduler_executor_ (sch c') = scheduler_executor_ (sch c) →
  (∀ o, Some o ∈ ready_executors_ (sch c') ++ remote_tasks_ (sch c') →
        valid b s (rt c) o) →
  main_state (pc c') = main_state (pc c) → pc_ok b s (rt c) (pc c') → inv b s c'.
Proof.
  intros Hi Hr Hs Hq Hm Hp. constructor; rewrite ?Hr, ?Hs, ?Hm; try apply Hi; done.
Qed.

(** ** Each program point: no fault, and the invariant afterwards *)

(** After the loop, [mainYield] goes back to the thread code that called run. *)
Lemma leave_loop_ok b s c :
  inv b s c → pc c = SchedHead →
  ∃ c', leave_loop c = Ok (Go c') ∧ inv b s c' ∧ pc c' = Base CRet ∧
    sch c' = sch c ∧ trace c' = trace c ∧
    ∀ e, e ≠ s → executors (rt c') !! e = executors (rt c) !! e.
Proof.
  intros Hi Hpc. unfold leave_loop. rewrite (i_sched b s c Hi).
  destruct (i_s b s c Hi) as (xs & Hxs & Hss). rewrite Hpc in Hss. simpl in Hss.
  destruct (i_b b s c Hi) as (xb & Hxb & Hbs & Hbc). pose proof (i_ne b s c Hi) as Hne.
  unfold yield. rewrite (get_Some s _ xs Hxs). simpl. rewrite bool_decide_true by done.
  unfold leaveInner. simpl. rewrite (i_base b s c Hi). simpl. unfold swapContext.
  rewrite (get_Some b _ xb) by (simpl; by rewrite lookup_insert_ne). simpl. rewrite Hbc.
  erewrite (get_Some s) by apply lookup_insert_eq. simpl.
  eexists. split; [done|].
  assert (Hother : ∀ e, e ≠ s →
    <[s:=set_context (Some (Swapped b SchedEnd)) (set_state HoldUp xs)]>
      (<[s:=set_state HoldUp xs]> (executors (rt c))) !! e = executors (rt c) !! e).
  { intros e He. by rewrite !lookup_insert_ne. }
  split; [|done].
  assert (Hdom : ∀ o, is_Some (executors (rt c) !! o) ↔ is_Some
    (<[s:=set_context (Some (Swapped b SchedEnd)) (set_state HoldUp xs)]>
      (<[s:=set_state HoldUp xs]> (executors (rt c))) !! o)).
  { intros o. destruct (decide (o = s)) as [->|Ho]; [|by rewrite Hother].
    rewrite lookup_insert_eq, Hxs. split; eauto. }
  constructor; simpl; try apply Hi.
  - intros e He. apply (i_fresh b s c Hi). by apply Hdom.
  - intros o Ho. destruct (i_queue b s c Hi o Ho) as [? ?]. split; [by apply Hdom|done].
  - intros e x Hx Heb Hes. rewrite Hother in Hx by done.
    pose proof (i_tasks b s c Hi e x Hx Heb Hes) as Ht.
    pose proof (i_pc b s c Hi) as Hp. rewrite Hpc in Hp. simpl in Hp. rewrite Hp in Ht.
    apply (task_ok_mono s (valid b s (rt c))).
    { intros o [? ?]. split; [by apply Hdom|done]. }
    unfold task_ok in *. destruct (state_ x); try done. congruence.
  - exists xb. by rewrite Hother.
  - eexists. rewrite lookup_insert_eq. done.
  - done.
Qed.

(** A live task that is not finished can be switched to from the scheduler. *)
Lemma task_resumes b s c e x :
  inv b s c → t_cur_executor (rt c) = Some s → valid b s (rt c) e →
  executors (rt c) !! e = Some x → state_ x ≠ Terminal → state_ x ≠ Aborted →
  ∃ k, resumes s e (Run k) (rt c) ∧ managed (valid b s (rt c)) k.
Proof.
  intros Hi Hcur (_ & Hb & Hs) Hx Ht Ha.
  pose proof (i_tasks b s c Hi e x Hx Hb Hs) as Hok. unfold task_ok in Hok.
  destruct (state_ x) eqn:E; try done.
  - destruct Hok as (Hst & k & Hk & Hm). exists k. split; [|done].
    exists x. rewrite E. split; [done|]. eauto.
  - congruence.
  - destruct Hok as (k & Hk & Hm). exists k. split; [|done].
    exists x. by rewrite E.
Qed.

(** The queues after taking over the remote tasks. *)
Lemma i_queue_all b s c o :
  inv b s c → Some o ∈ ready_executors_ (scheduleAll (sch c)) → valid b s (rt c) o.
Proof.
  intros Hi. destruct (scheduleAll_spec (sch c)) as (-> & _).
  intros Ho. apply (i_queue b s c Hi). destruct (stopping_ (sch c)); set_solver.
Qed.

Definition keeps_inv (b s : eid) (m : move) : Prop :=
  match m with Go c | Block c => inv b s c | Call _ _ _ | Done => True end.

(** The head of the loop switches to the task [e]. *)
Lemma switch_to_task b s c e q k :
  inv b s c → pc c = SchedHead → valid b s (rt c) e →
  (∀ o, Some o ∈ q → valid b s (rt c) o) →
  resumes s e (Run k) (rt c) → managed (valid b s (rt c)) k →
  ∃ r', exec e (SchedAfter e) (rt c) = Ok (Run k, r') ∧
    inv b s (mkConfig r' (set_ready q (scheduleAll (sch c))) (Run k) (trace c ++ [EvExec e])) ∧
    t_cur_executor r' = Some e ∧
    ∀ o, o ≠ s → o ≠ e → executors r' !! o = executors (rt c) !! o.
Proof.
  intros Hi Hpc He Hq Hres Hk. pose proof (i_pc b s c Hi) as Hp. rewrite Hpc in Hp.
  destruct (scheduleAll_spec (sch c)) as (_ & Hrem & _ & _ & _ & _ & Hse).
  destruct (i_s b s c Hi) as (xs & Hxs & Hss). rewrite Hpc in Hss.
  pose proof He as ((x & Hx) & Heb & Hes).
  destruct (exec_resumes s e (Run k) (SchedAfter e) (rt c) xs) as (r' & Hex & Hsw & Ht);
    [apply Hi|done|done|done|].
  exists r'. split; [done|].
  split; [|split; [apply Hsw|by intros; apply (tch_other _ _ _ _ Ht)]].
  pose proof Hsw as (_ & Hc' & (x' & Hx' & Hst') & _).
  eapply (inv_update b s c _ e x'); simpl; try done.
  - intros. by apply (tch_other _ _ _ _ Ht).
  - destruct (tch_m _ _ _ _ Ht xs Hxs) as [cx Hcx]. eexists. split; [done|]. done.
  - apply Ht.
  - apply Ht.
  - apply Ht.
  - intros o Ho. rewrite Hrem, app_nil_r in Ho. auto.
  - auto.
  - unfold task_ok. by rewrite Hst'.
  - intros Hval. split; [by apply (managed_mono k (valid b s (rt c)))|].
    exists e. split; [by apply Hval|done].
Qed.

Lemma head_ok b s c :
  inv b s c → pc c = SchedHead →
  ∃ m, threadScheduleFunc_head c = Ok m ∧ keeps_inv b s m.
Proof.
  intros Hi Hpc. unfold threadScheduleFunc_head.
  pose proof (i_pc b s c Hi) as Hp. rewrite Hpc in Hp. simpl in Hp.
  destruct (scheduleAll_spec (sch c)) as (_ & Hrem & _ & _ & _ & _ & Hse).
  destruct (stop_pending (sch c)).
  { destruct (leave_loop_ok b s c Hi Hpc) as (c' & -> & Hi' & _). by exists (Go c'). }
  assert (Hsub : ∀ q, (∀ o, Some o ∈ q → valid b s (rt c) o) →
    inv b s (mkConfig (rt c) (set_ready q (scheduleAll (sch c))) (pc c) (trace c))).
  { intros q Hq. apply (inv_queues b s c); simpl; try done.
    - intros o. rewrite Hrem, app_nil_r. auto.
    - by apply Hi. }
  assert (Hall : ∀ o, Some o ∈ ready_executors_ (scheduleAll (sch c)) → valid b s (rt c) o).
  { intros o. by apply (i_queue_all b s c). }
  destruct (ready_executors_ (scheduleAll (sch c))) as [|[e|] q] eqn:Eq.
  - specialize (Hsub [] ltac:(set_solver)).
    replace (set_ready [] (scheduleAll (sch c))) with (scheduleAll (sch c)) in Hsub.
    2:{ destruct (scheduleAll (sch c)); simpl in *. by subst. }
    destruct (stopping_ (scheduleAll (sch c))).
    + destruct (leave_loop_ok b s _ Hsub Hpc) as (c' & -> & Hi' & _). by exists (Go c').
    + by eexists (Block _).
  - assert (He : valid b s (rt c) e) by (apply Hall; set_solver).
    pose proof He as ((x & Hx) & _). simpl. rewrite (get_Some e _ x Hx). simpl.
    case_bool_decide as Hst.
    + destruct (task_resumes b s c e x Hi Hp He Hx) as (k & Hres & Hk); [apply Hst..|].
      destruct (switch_to_task b s c e q k) as (r' & -> & Hi' & _); try done.
      { intros o Ho. apply Hall. set_solver. }
      simpl. by eexists (Go _).
    + eexists (Go _). split; [done|]. apply Hsub. intros o Ho. apply Hall. set_solver.
  - assert (Hq : ∀ o, Some o ∈ q → valid b s (rt c) o).
    { intros o Ho. apply Hall. set_solver. }
    specialize (Hsub q Hq). destruct (stopping_ (set_ready q _)).
    + destruct (leave_loop_ok b s _ Hsub Hpc) as (c' & -> & Hi' & _). by exists (Go c').
    + by eexists (Block _).
Qed.

Lemma after_ok b s c e :
  inv b s c → pc c = SchedAfter e →
  threadScheduleFunc_after e c = Ok (Go (mkConfig (rt c) (sch c) SchedHead (trace c))) ∧
  inv b s (mkConfig (rt c) (sch c) SchedHead (trace c)).
Proof.
  intros Hi Hpc. pose proof (i_pc b s c Hi) as Hp. rewrite Hpc in Hp.
  destruct Hp as (Hc & He & x & Hx & Hst). unfold threadScheduleFunc_after.
  rewrite (get_Some e _ x Hx). simpl. split; [by destruct Hst as [-> | ->]|].
  apply (inv_queues b s c); try done; [apply Hi|]. by rewrite Hpc.
Qed.

(** The running task leaves for the scheduler in state [st]. *)
Lemma inv_leave b s c e x st ke r' :
  inv b s c → valid b s (rt c) e → switched s e (SchedAfter e) (rt c) →
  main_state (pc c) = Exec →
  executors (rt c) !! e = Some x → st = HoldUp ∨ st = Terminal →
  (st = HoldUp → ∃ k, ke = Run k ∧ managed (valid b s (rt c)) k) →
  t_cur_executor r' = Some s → t_main_executor r' = Some s →
  t_base_executor r' = t_base_executor (rt c) → next_eid r' = next_eid (rt c) →
  executors r' = <[e := set_context (Some (Swapped s ke)) (set_state st x)]> (executors (rt c)) →
  inv b s (mkConfig r' (sch c) (SchedAfter e) (trace c)).
Proof.
  intros Hi He Hsw Hms Hx Hst Hk Hc Hm Hb Hn Hex.
  pose proof He as (_ & Heb & Hes). pose proof Hsw as (_ & Hcur & _ & _).
  set (x' := set_context (Some (Swapped s ke)) (set_state st x)) in *.
  assert (Hx' : executors r' !! e = Some x') by (rewrite Hex; apply lookup_insert_eq).
  eapply (inv_update b s c _ e x'); simpl; try done.
  - intros. by rewrite Hex, lookup_insert_ne by done.
  - destruct (i_s b s c Hi) as (xs & Hxs & Hss). exists xs.
    rewrite Hex, lookup_insert_ne by done. split; [done|]. congruence.
  - rewrite Hm. symmetry. apply Hi.
  - apply Hi.
  - auto.
  - unfold task_ok; simpl. destruct Hst as [-> | ->]; [|done].
    destruct (Hk eq_refl) as (k & -> & Hmk). eauto.
  - intros Hval. split; [done|]. split; [by apply Hval|]. exists x'. split; [done|].
    by destruct Hst as [-> | ->]; [left|right].
Qed.

(** A step of user code that touches no executor. *)
Lemma inv_stay b s c k' s' t :
  inv b s c → (∃ k, pc c = Run k) → managed (valid b s (rt c)) k' →
  scheduler_executor_ s' = scheduler_executor_ (sch c) →
  (∀ o, Some o ∈ ready_executors_ s' ++ remote_tasks_ s' → valid b s (rt c) o) →
  inv b s (mkConfig (rt c) s' (Run k') t).
Proof.
  intros Hi [k Hpc] Hk Hs Hq. apply (inv_queues b s c); try done; rewrite ?Hpc; try done.
  pose proof (i_pc b s c Hi) as Hp. rewrite Hpc in Hp. destruct Hp as [_ Hsw]. by split.
Qed.

(** The current task kills [e']: itself, or one that is not running. *)
Lemma kill_ok b s c e' k :
  inv b s c → pc c = Run (CKill e' k) →
  ∃ m, run_coro Run (CKill e' k) c = Ok m ∧ keeps_inv b s m.
Proof.
  intros Hi Hpc. pose proof (i_pc b s c Hi) as Hp. rewrite Hpc in Hp.
  destruct Hp as [[He' Hk] (e & He & Hsw)]. pose proof Hsw as (_ & Hcur & (xe & Hxe & Hste) & _).
  pose proof He as (_ & Heb & Hes). pose proof He' as ((x & Hx) & Heb' & Hes').
  simpl. unfold kill. rewrite (get_Some e' _ x Hx). simpl. case_bool_decide as Hst.
  - assert (e' = e) as ->.
    { pose proof (i_tasks b s c Hi e' x Hx Heb' Hes') as Hok. unfold task_ok in Hok.
      rewrite Hst in Hok. congruence. }
    destruct (leave_switched s e (SchedAfter e) (Run k) Terminal x (rt c) Hsw)
      as (r' & -> & Hc' & Hm' & Hb' & Hn' & Hex'); [done..|].
    eexists (Go _). split; [done|]. simpl.
    eapply (inv_leave b s c e x Terminal); try done; [by rewrite Hpc|by right].
  - eexists (Go _). split; [done|]. simpl.
    eapply (inv_update b s c _ e' (set_state Terminal x)); simpl; try done.
    + intros. by apply lookup_insert_ne.
    + apply lookup_insert_eq.
    + destruct (i_s b s c Hi) as (xs & Hxs & Hss). exists xs. rewrite Hpc in Hss.
      by rewrite lookup_insert_ne.
    + apply Hi.
    + auto.
    + intros Hval. split; [by apply (managed_mono k (valid b s (rt c)))|].
      exists e. split; [by apply Hval|]. destruct Hsw as (? & ? & _ & (y & Hy & Hyc)).
      split_and!; try done.
      * exists xe. rewrite lookup_put_ne; [done|]. intros ->. congruence.
      * exists y. by rewrite lookup_put_ne.
Qed.

(** A new task is made: nothing that existed changes. *)
Lemma inv_new b s c body :
  inv b s c → managed (valid b s (rt c)) body →
  let r' := (construct true Init DefaultStackSize (Some (Body body)) (rt c)).2 in
  inv b s (mkConfig r' (sch c) (pc c) (trace c)) ∧ valid b s r' (next_eid (rt c)) ∧
  (∀ o x, executors (rt c) !! o = Some x → executors r' !! o = Some x).
Proof.
  intros Hi Hb r'. set (n := next_eid (rt c)).
  assert (Hfr : executors (rt c) !! n = None).
  { destruct (executors (rt c) !! n) eqn:E; [|done].
    pose proof (i_fresh b s c Hi n (mk_is_Some _ _ E)). unfold n in *. lia. }
  destruct (i_b b s c Hi) as (xb & Hxb & Hbr). destruct (i_s b s c Hi) as (xs & Hxs & Hss).
  assert (Hold : ∀ o x, executors (rt c) !! o = Some x → executors r' !! o = Some x).
  { intros o x Ho. unfold r'; simpl. rewrite lookup_insert_ne; [done|]. intros Heq.
    unfold n in Hfr. congruence. }
  assert (Hval : ∀ o, valid b s (rt c) o → valid b s r' o).
  { intros o ((x & Hx) & ?). split; [|done]. eauto. }
  assert (Hnv : valid b s r' n).
  { split; [eexists; apply lookup_insert_eq|]. split; congruence. }
  split; [|done]. constructor; simpl; try apply Hi.
  - intros o [x Hx]. apply lookup_insert_Some in Hx as [[<- _]|[_ Hx]]; [unfold n; lia|].
    pose proof (i_fresh b s c Hi o (mk_is_Some _ _ Hx)). lia.
  - intros o Ho. by apply Hval, (i_queue b s c Hi).
  - intros o x Hx Hob Hos. apply lookup_insert_Some in Hx as [[<- <-]|[_ Hx]].
    + unfold task_ok; simpl. split; [done|]. exists body. split; [done|].
      by apply (managed_mono body (valid b s (rt c))).
    + apply (task_ok_mono s (valid b s (rt c))); [done|]. by apply (i_tasks b s c Hi).
  - exists xb. split; [by apply Hold|done].
  - exists xs. split; [by apply Hold|done].
  - pose proof (i_pc b s c Hi) as Hp. destruct (pc c) as [k|k| |e| |]; simpl in *; try done.
    + destruct Hp as (Hk & e & He & ? & ? & (x & Hx & ?) & (y & Hy & ?)).
      split; [by apply (managed_mono _ (valid b s (rt c)))|]. exists e. split; [by apply Hval|].
      split_and!; try done; [exists x|exists y]; (split; [by apply Hold|done]).
    + destruct Hp as (? & He & x & Hx & ?). split; [done|]. split; [by apply Hval|].
      exists x. split; [by apply Hold|done].
Qed.

Lemma new_ok b s c body k :
  inv b s c → pc c = Run (CNew body k) →
  ∃ m, run_coro Run (CNew body k) c = Ok m ∧ keeps_inv b s m.
Proof.
  intros Hi Hpc. pose proof (i_pc b s c Hi) as Hp. rewrite Hpc in Hp.
  destruct Hp as [[Hb Hk] _]. eexists (Go _). split; [done|].
  destruct (inv_new b s c body Hi Hb) as (Hi' & Hn & Hold).
  set (c1 := mkConfig _ (sch c) (pc c) (trace c)) in Hi'.
  apply (inv_stay b s c1); [done|by eexists| |done|apply Hi'].
  apply (managed_mono _ (λ x, valid b s (rt c) x ∨ x = next_eid (rt c))); [|apply Hk].
  intros o [((x & Hx) & ?)| ->]; [|done]. split; [|done]. eauto.
Qed.

Lemma run_ok b s c k :
  inv b s c → pc c = Run k → ∃ m, exec_code c = Ok m ∧ keeps_inv b s m.
Proof.
  intros Hi Hpc. pose proof (i_pc b s c Hi) as Hp. rewrite Hpc in Hp.
  destruct Hp as [Hk (e & He & Hsw)]. pose proof He as (_ & _ & Hes).
  assert (Hms : main_state (pc c) = Exec) by (by rewrite Hpc).
  assert (Hterm : ∃ m, (p ← executorMainFunc_tail (rt c); Ok (goto c p)) = Ok m ∧
                       keeps_inv b s m).
  { unfold executorMainFunc_tail. pose proof Hsw as (_ & -> & _). simpl.
    destruct (terminal_switched s e (SchedAfter e) (rt c) Hsw)
      as (r' & x & Hx & -> & H1 & H2 & H3 & H4 & H5); [done|].
    eexists (Go _). split; [done|]. simpl.
    eapply (inv_leave b s c e x Terminal); try done. by right. }
  unfold exec_code. rewrite Hpc. destruct k as [| |k|?|e' k|body k|e' k|k|?|n k|op cb k]; try done.
  - unfold run_coro, getCurrent. pose proof Hsw as (_ & -> & _).
    destruct (yield_switched s e (SchedAfter e) (Run k) (rt c) Hsw)
      as (r' & x & Hx & -> & H1 & H2 & H3 & H4 & H5); [done|].
    eexists (Go _). split; [done|]. simpl.
    eapply (inv_leave b s c e x HoldUp); try done; [by left|eauto].
  - by apply kill_ok.
  - by apply new_ok.
  - destruct Hk as [He' Hk]. simpl. pose proof He' as ((x & Hx) & _).
    rewrite (get_Some e' _ x Hx). simpl. unfold addExecutor.
    destruct (stopping_ (sch c)); (eexists (Go _); split; [done|]; simpl;
      apply inv_stay; eauto).
    + apply Hi.
    + simpl. intros o Ho. rewrite elem_of_app, elem_of_app in Ho.
      destruct Ho as [[Ho|Ho]|Ho]; [apply (i_queue b s c Hi); set_solver| |
        apply (i_queue b s c Hi); set_solver].
      apply list_elem_of_singleton in Ho. by simplify_eq.
  - eexists (Go _). split; [done|]. simpl. apply inv_stay; eauto.
    + unfold stop. by destruct (exit_with_tasks_processed (sch c)).
    + unfold stop. destruct (exit_with_tasks_processed (sch c)); apply Hi.
  - eexists (Go _). split; [done|]. simpl. apply inv_stay; eauto. apply Hi.
  - by eexists (Call _ _ _).
Qed.

Lemma code_ok b s c :
  inv b s c → ∃ m, exec_code c = Ok m ∧ keeps_inv b s m.
Proof.
  intros Hi. pose proof (i_pc b s c Hi) as Hp.
  destruct (pc c) as [k|k| |e| |] eqn:Hpc; try done.
  - by eapply run_ok.
  - destruct Hp as [-> _]. unfold exec_code. rewrite Hpc. by eexists Done.
  - unfold exec_code. rewrite Hpc. by apply head_ok.
  - unfold exec_code. rewrite Hpc. destruct (after_ok b s c e Hi Hpc) as [-> Hi'].
    by eexists (Go _).
Qed.

(** ** What the IO manager and other threads do *)

Lemma task_valid b s c e : inv b s c → task c e ↔ valid b s (rt c) e.
Proof.
  intros Hi. unfold task, valid. rewrite (i_base b s c Hi), (i_sched b s c Hi).
  split; intros (? & Hb & Hs); (split; [done|]); split; try congruence; intros ->; by apply Hb || by apply Hs.
Qed.

Lemma addExecutor_elem o s x :
  x ∈ ready_executors_ (addExecutor o s).2 ++ remote_tasks_ (addExecutor o s).2 →
  x ∈ ready_executors_ s ++ remote_tasks_ s ∨ x = o.
Proof. unfold addExecutor. destruct (stopping_ s); simpl; set_solver. Qed.

Lemma io_effect_inv b s null c c' : inv b s c → io_effect null c c' → inv b s c'.
Proof.
  intros Hi He. destruct He as [c o _ Ho|c body p Hb Hp|c].
  - apply (inv_queues b s c); simpl; try done; [| |apply Hi].
    + unfold addExecutor. by destruct (stopping_ (sch c)).
    + intros e [He|He]%addExecutor_elem; [by apply Hi|]. apply (task_valid b s c e Hi). auto.
  - injection Hp as <-. apply inv_new; [done|]. eapply managed_mono, Hb.
    intros e. by apply task_valid.
  - apply (inv_queues b s c); simpl; try done; [| |apply Hi];
      unfold stop; destruct (exit_with_tasks_processed (sch c)); try done; apply Hi.
Qed.

Lemma io_effects_inv b s null c c' : inv b s c → star (io_effect null) c c' → inv b s c'.
Proof. intros Hi. apply star_invariant; [|done]. intros ? ?. apply io_effect_inv. Qed.

Lemma io_effects_pc null c c' : star (io_effect null) c c' → pc c' = pc c.
Proof. induction 1 as [|c c1 c2 He _ IH]; [done|]. rewrite IH. by destruct He. Qed.

(** A call is made by user code. *)
Lemma call_code b s c op cb k :
  inv b s c → exec_code c = Ok (Call op cb k) →
  ∃ k0, pc c = Run (CIo op cb k0) ∧ k = λ a, Run (k0 a).
Proof.
  intros Hi Hc. pose proof (i_pc b s c Hi) as Hp. unfold exec_code in Hc.
  destruct (pc c) as [k0|k0| |e| |] eqn:Hpc; simpl in Hp; try done.
  - destruct Hp as (Hk & _). destruct k0; simpl in Hc, Hk; try done;
      repeat match goal with
      | H : _ ≫= _ = Ok _ |- _ => apply bind_Ok in H as (? & _ & H)
      | H : context [let '(_, _) := ?x in _] |- _ => destruct x
      end; try done. injection Hc as <- <- <-. eauto.
  - by destruct Hp as (-> & _).
  - destruct (head_ok b s c Hi Hpc) as (m & Hm & _). exfalso. clear -Hc.
    unfold threadScheduleFunc_head, leave_loop in Hc. repeat (case_match; try done);
      repeat match goal with H : _ ≫= _ = Ok _ |- _ => apply bind_Ok in H as (? & _ & H) end;
      repeat (case_match; try done);
      repeat match goal with H : _ ≫= _ = Ok _ |- _ => apply bind_Ok in H as (? & _ & H) end; done.
  - destruct (after_ok b s c e Hi Hpc) as (Ha & _). congruence.
Qed.

Lemma call_inv b s c op cb k c' a :
  inv b s c → exec_code c = Ok (Call op cb k) → star (io_effect false) c c' →
  inv b s (at_code (k a) c').
Proof.
  intros Hi Hc Hs. destruct (call_code b s c op cb k Hi Hc) as (k0 & Hpc & ->).
  assert (Hi' := io_effects_inv b s false c c' Hi Hs). pose proof (i_pc b s c' Hi') as Hp.
  rewrite (io_effects_pc _ _ _ Hs), Hpc in Hp. destruct Hp as ((_ & _ & Hk) & _).
  apply inv_stay; [done| |by apply Hk|done|apply Hi'].
  rewrite (io_effects_pc _ _ _ Hs), Hpc. by eexists.
Qed.

Lemma ustep_inv b s c c' : inv b s c → ustep c c' → inv b s c'.
Proof.
  intros Hi Hu. destruct Hu as [c c' H|c op cb k c1 a H He]; [|by eapply call_inv].
  destruct (code_ok b s _ Hi) as (m & Hm & Hk). rewrite H in Hm. by simplify_eq.
Qed.

Lemma step_inv b s c c' : inv b s c → step c c' → inv b s c'.
Proof.
  intros Hi Hs. destruct Hs as [c c' H|c c1 c2 H He|c e He].
  - by eapply ustep_inv.
  - destruct (code_ok b s _ Hi) as (m & Hm & Hk). rewrite H in Hm. simplify_eq.
    by eapply io_effects_inv.
  - apply (inv_queues b s c); simpl; try done; [|apply Hi].
    intros o Ho. assert (Hc : Some o ∈ ready_executors_ (sch c) ++ remote_tasks_ (sch c) ∨ o = e)
      by set_solver. destruct Hc as [Hc| ->]; [by apply Hi|by apply (task_valid b s c)].
Qed.
