(* ===== verification/SchedulerThm.v ===== *)
(** * What the scheduler guarantees (src/coroutine/scheduler.cpp)

    Properties of whole runs of the machine of Scheduler.v: mutual exclusion and
    absence of faults in every reachable configuration, the behaviour of one
    scheduling round, draining after [stop], and what the default stop
    predicate and null queue entries do. *)

From S2P Require Import Prelude Executor Scheduler SchedulerInv.
From stdpp Require Import options.

(** ** User code between two switches *)

(** The task has been switched to at least once and is not running. *)
Definition started (r : runtime) (o : eid) : Prop :=
  ∃ x, executors r !! o = Some x ∧ (state_ x = HoldUp ∨ state_ x = Terminal).

Definition finished (r : runtime) (o : eid) : Prop :=
  ∃ x, executors r !! o = Some x ∧ state_ x = Terminal.

(** Started and finished tasks stay so. *)
Definition keeps (r r' : runtime) : Prop :=
  ∀ o, (started r o → started r' o) ∧ (finished r o → finished r' o).

Lemma keeps_lookup r r' :
  (∀ o x, executors r !! o = Some x → state_ x = HoldUp ∨ state_ x = Terminal →
    executors r' !! o = Some x) → keeps r r'.
Proof. intros Hk o. split; intros (x & Hx & Hs); exists x; auto. Qed.

(** [turns P q l]: every task of [q] has its turn in [l], in order and as often as
    it is queued, except tasks with [P]. *)
Inductive turns (P : eid → Prop) : list eid → list eid → Prop :=
| turns_nil : turns P [] []
| turns_taken e q l : turns P q l → turns P (e :: q) (e :: l)
| turns_skipped e q l : P e → turns P q l → turns P (e :: q) l.

(** The switches recorded in a trace, in order. *)
Definition execs (l : list event) : list eid :=
  omap (λ ev, match ev with EvExec e => Some e | EvDo _ _ => None end) l.

Lemma execs_app l k : execs (l ++ k) = execs l ++ execs k.
Proof. apply omap_app. Qed.

(** What user code can do to the scheduler before it gives control back. *)
Record user_run (c c' : config) : Prop := {
  ur_ready : ∃ added, ready_executors_ (sch c') = ready_executors_ (sch c) ++ added ∧
             (stopping_ (sch c) = true → added = []) ∧ Forall (λ o, o ≠ None) added;
  ur_stopping : stopping_ (sch c) = true → stopping_ (sch c') = true;
  ur_func : stop_pending_func_ (sch c') = stop_pending_func_ (sch c);
  ur_remote : remote_tasks_ (sch c') = remote_tasks_ (sch c);
  ur_trace : ∃ l, trace c' = trace c ++ l ∧ execs l = [];
  ur_keeps : keeps (rt c) (rt c')
}.

Lemma user_run_trans c1 c2 c3 : user_run c1 c2 → user_run c2 c3 → user_run c1 c3.
Proof.
  intros [(a & Ha & Hsa & Hna) Hs Hf Hr (l & Hl & He) Hst]
         [(a' & Ha' & Hsa' & Hna') Hs' Hf' Hr' (l' & Hl' & He') Hst'].
  constructor; try (by auto); try congruence; [..|intros o; split; intros Ho; by apply Hst', Hst].
  - exists (a ++ a'). rewrite Ha', Ha, <- app_assoc. split; [done|]. split; [|by apply Forall_app].
    intros Hstop. rewrite (Hsa Hstop), (Hsa' (Hs Hstop)). done.
  - exists (l ++ l'). rewrite Hl', Hl, <- app_assoc, execs_app, He, He'. done.
Qed.

(** Steps that leave the scheduler's data alone. *)
Lemma user_run_frame c c' :
  sch c' = sch c → trace c' = trace c → keeps (rt c) (rt c') → user_run c c'.
Proof.
  intros Hs Ht Hst. constructor; rewrite ?Hs; auto.
  - exists []. by rewrite app_nil_r.
  - exists []. by rewrite app_nil_r.
Qed.

(** Calls of the IO manager. *)
Lemma io_effect_user_run b s c c' :
  inv b s c → io_effect false c c' → user_run c c' ∧ t_cur_executor (rt c') = t_cur_executor (rt c).
Proof.
  intros Hi He. destruct He as [c o Hn _|c body p _ Hp|c].
  - split; [|done]. unfold addExecutor. destruct (stopping_ (sch c)) eqn:Es; [by apply user_run_frame|].
    constructor; simpl; rewrite ?Es; try done.
    + exists [o]. split; [done|]. split; [done|]. repeat constructor. intros ->. by discriminate Hn.
    + exists []. by rewrite app_nil_r.
  - injection Hp as <-. split; [|done]. apply user_run_frame; [done..|]. apply keeps_lookup.
    intros o x Hx _. simpl. rewrite lookup_insert_ne; [done|].
    intros Hn. pose proof (i_fresh b s c Hi o (mk_is_Some _ _ Hx)). lia.
  - split; [|done]. unfold stop. constructor; simpl; destruct (exit_with_tasks_processed (sch c)); simpl;
      try done; exists []; by rewrite app_nil_r.
Qed.

Lemma io_effects_user_run b s c c' :
  inv b s c → star (io_effect false) c c' →
  user_run c c' ∧ t_cur_executor (rt c') = t_cur_executor (rt c).
Proof.
  intros Hi Hs. induction Hs as [c|c c1 c2 He _ IH]; [split; [by apply user_run_frame|done]|].
  destruct (io_effect_user_run b s c c1 Hi He) as (Hu & Hc).
  destruct IH as (Hu' & Hc'); [by eapply io_effect_inv|].
  split; [by eapply user_run_trans|congruence].
Qed.

Lemma started_insert r r' e x :
  executors r' = <[e := x]> (executors r) → state_ x = HoldUp ∨ state_ x = Terminal →
  (finished r e → state_ x = Terminal) → keeps r r' ∧ started r' e.
Proof.
  intros He Hx Hf. split; [|exists x; by rewrite He, lookup_insert_eq]. intros o.
  unfold started, finished in *. rewrite He. destruct (decide (o = e)) as [->|Ho].
  - rewrite lookup_insert_eq. split; eauto.
  - by rewrite lookup_insert_ne.
Qed.

(** The direct continuations of a piece of user code. *)
Inductive continues : coro → coro → Prop :=
| cont_yield k : continues k (CYield k)
| cont_exec e k : continues k (CExec e k)
| cont_kill e k : continues k (CKill e k)
| cont_new body k e : continues (k e) (CNew body k)
| cont_add e k b : continues (k b) (CAdd e k)
| cont_stop k : continues k (CStop k)
| cont_run k : continues k (CRun k)
| cont_do n k : continues k (CDo n k)
| cont_io op cb k a : continues (k a) (CIo op cb k).

Lemma continues_wf : well_founded continues.
Proof.
  intros c. induction c; constructor; intros k' Hk; inversion Hk; subst; auto.
Qed.

(** Where one call of user code leads: it goes on in the same task, or control is
    back in the scheduler with the task suspended or finished. *)
Definition call_result (c : config) (k : coro) (e : eid) (m : move) : Prop :=
  ∃ c', m = Go c' ∧ user_run c c' ∧
    ((pc c' = SchedAfter e ∧ started (rt c') e) ∨
     ∃ k', pc c' = Run k' ∧ continues k' k ∧ t_cur_executor (rt c') = Some e).

Lemma call_goes_on c k e c' k' :
  user_run c c' → pc c' = Run k' → continues k' k → t_cur_executor (rt c') = Some e →
  call_result c k e (Go c').
Proof. intros. exists c'. eauto 10. Qed.

(** The running task [e] has been left in state [x]. *)
Lemma call_leaves s c k e r' x p :
  switched s e (SchedAfter e) (rt c) →
  executors r' = <[e := x]> (executors (rt c)) → (state_ x = HoldUp ∨ state_ x = Terminal) →
  p = (SchedAfter e, r') → call_result c k e (goto c p).
Proof.
  intros (_ & _ & (y & Hy & Hys) & _) Hex Hx ->.
  destruct (started_insert _ _ _ _ Hex Hx) as [Hst Hse]; [intros (? & ? & ?); congruence|].
  eexists. split; [done|]. split; [by apply user_run_frame|by left].
Qed.

Lemma call_returns s c k e m :
  switched s e (SchedAfter e) (rt c) → t_cur_executor (rt c) = Some e → e ≠ s →
  (p ← executorMainFunc_tail (rt c); Ok (goto c p)) = Ok m → call_result c k e m.
Proof.
  intros Hsw Hce Hes Hx. unfold executorMainFunc_tail in Hx. rewrite Hce in Hx. simpl in Hx.
  destruct (terminal_switched s e (SchedAfter e) (rt c) Hsw)
    as (r' & x & ? & Ht & ? & ? & ? & ? & Hex); [done|].
  rewrite Ht in Hx. simpl in Hx. injection Hx as <-. eapply call_leaves; [done|done|by right|done].
Qed.

Lemma call_kill b s c k e e' m :
  inv b s c → switched s e (SchedAfter e) (rt c) → t_cur_executor (rt c) = Some e → e ≠ s →
  is_Some (executors (rt c) !! e') → e' ≠ b → e' ≠ s →
  run_coro Run (CKill e' k) c = Ok m → call_result c (CKill e' k) e m.
Proof.
  intros Hi Hsw Hce Hes (x & Hx) Heb' Hes' Hm. simpl in Hm. unfold kill in Hm.
  rewrite (get_Some e' _ x Hx) in Hm. simpl in Hm. case_bool_decide as Hst.
  - assert (e' = e) as ->.
    { pose proof (i_tasks b s c Hi e' x Hx Heb' Hes') as Hok. unfold task_ok in Hok.
      rewrite Hst in Hok. congruence. }
    destruct (leave_switched s e (SchedAfter e) (Run k) Terminal x (rt c) Hsw)
      as (r' & Hl & _ & _ & _ & _ & Hex); [done..|].
    rewrite Hl in Hm. simpl in Hm. injection Hm as <-. eapply call_leaves; [done|done|by right|done].
  - simpl in Hm. injection Hm as <-. eapply call_goes_on; [|done|constructor|done].
    apply user_run_frame; [done..|]. simpl. eapply started_insert; [done|by right|done].
Qed.

Lemma call_add c k e e' m :
  t_cur_executor (rt c) = Some e → is_Some (executors (rt c) !! e') →
  run_coro Run (CAdd e' k) c = Ok m → call_result c (CAdd e' k) e m.
Proof.
  intros Hce (x & Hx) Hm. simpl in Hm. rewrite (get_Some e' _ x Hx) in Hm.
  simpl in Hm. unfold addExecutor in Hm. destruct (stopping_ (sch c)) eqn:Es;
    injection Hm as <-; (eapply call_goes_on; [|done|constructor|done]).
  - by apply user_run_frame.
  - constructor; simpl; rewrite ?Es; try done.
    + exists [Some e']. split; [done|]. split; [done|]. by repeat constructor.
    + exists []. by rewrite app_nil_r.
Qed.

(** One step of the task [e], whatever a call answers. *)
Definition task_step (c : config) (k : coro) (e : eid) (c' : config) : Prop :=
  user_run c c' ∧
  ((pc c' = SchedAfter e ∧ started (rt c') e) ∨
   ∃ k', pc c' = Run k' ∧ continues k' k ∧ t_cur_executor (rt c') = Some e).

Lemma call_step b s c op cb k e :
  inv b s c → pc c = Run (CIo op cb k) → t_cur_executor (rt c) = Some e →
  (∃ c', ustep c c') ∧ ∀ c', ustep c c' → task_step c (CIo op cb k) e c'.
Proof.
  intros Hi Hpc Hce.
  assert (Hx : exec_code c = Ok (Call op cb (λ a, Run (k a)))) by (unfold exec_code; by rewrite Hpc).
  split; [eexists; eapply (ustep_call _ _ _ _ c (Answer 0 0)); [exact Hx|apply star_refl]|].
  intros c' Hu. destruct Hu as [c c' H|c op' cb' k' c1 a H He]; rewrite H in Hx; [done|].
  injection Hx as -> -> ->. destruct (io_effects_user_run b s c c1 Hi He) as (Hr & Hc).
  split; [|right; exists (k a); split_and!; [done|constructor|simpl; congruence]].
  eapply user_run_trans; [exact Hr|]. by apply user_run_frame.
Qed.

Lemma run_step b s c k e :
  inv b s c → pc c = Run k → t_cur_executor (rt c) = Some e →
  (∃ c', ustep c c') ∧ ∀ c', ustep c c' → task_step c k e c'.
Proof.
  intros Hi Hpc Hce. destruct (code_ok b s c Hi) as (m & Hm & Hinv).
  pose proof (i_pc b s c Hi) as Hp. rewrite Hpc in Hp.
  destruct Hp as [Hk (e' & He & Hsw)]. pose proof He as (_ & Heb & Hes).
  assert (e' = e) as -> by (destruct Hsw as (_ & Hc & _); congruence).
  assert (Hcut : call_result c k e m → (∃ c', ustep c c') ∧ ∀ c', ustep c c' → task_step c k e c').
  { intros (c' & -> & Hu & Hr). split; [eexists; by apply ustep_go|]. intros c2 Hs.
    destruct Hs as [c c2 H|c op' cb' k' c1 a H _]; rewrite H in Hm; [|done].
    injection Hm as ->. by split. }
  pose proof Hm as Hm'. unfold exec_code in Hm'. rewrite Hpc in Hm'.
  destruct k as [| |k|?|e' k|body k|e' k|k|?|n k|op cb k]; simpl in Hk; try done;
    [..|by eapply call_step]; apply Hcut.
  - by eapply call_returns.
  - by eapply call_returns.
  - unfold run_coro, getCurrent in Hm'. rewrite Hce in Hm'.
    destruct (yield_switched s e (SchedAfter e) (Run k) (rt c) Hsw)
      as (r' & x & ? & Hy & ? & ? & ? & ? & Hex); [done|].
    rewrite Hy in Hm'. simpl in Hm'. injection Hm' as <-. eapply call_leaves; [done|done|by left|done].
  - destruct Hk as [(Hx & Heb' & Hes') Hk]. by eapply call_kill.
  - simpl in Hm'. injection Hm' as <-. eapply call_goes_on; [|done|constructor|done].
    apply user_run_frame; [done..|]. apply keeps_lookup. intros o x Hx _.
    simpl. rewrite lookup_insert_ne; [done|]. intros Hn.
    pose proof (i_fresh b s c Hi o (mk_is_Some _ _ Hx)). lia.
  - destruct Hk as [(Hx & _) Hk]. by eapply call_add.
  - simpl in Hm'. injection Hm' as <-. eapply call_goes_on; [|done|constructor|done].
    unfold stop. constructor; simpl; destruct (exit_with_tasks_processed (sch c)); simpl;
      try done; exists []; by rewrite app_nil_r.
  - simpl in Hm'. injection Hm' as <-. eapply call_goes_on; [|done|constructor|done].
    constructor; simpl; try done; [exists []; by rewrite app_nil_r|by eexists].
Qed.

(** A step without a choice. *)
Lemma eventually_go P c c' :
  exec_code c = Ok (Go c') → eventually ustep P c' → eventually ustep P c.
Proof.
  intros Hc He. apply ev_step; [eexists; by apply ustep_go|]. intros c2 Hs.
  destruct Hs as [c c2 H|c op' cb' k' c1 a H _]; rewrite H in Hc; [|done].
  injection Hc as ->. done.
Qed.

(** User code always gives control back to the scheduler. *)
Lemma run_returns b s k c e :
  inv b s c → pc c = Run k → t_cur_executor (rt c) = Some e →
  eventually ustep (λ c', inv b s c' ∧ user_run c c' ∧ pc c' = SchedHead ∧ started (rt c') e) c.
Proof.
  revert c. induction k as [k IH] using (well_founded_ind continues_wf).
  intros c Hi Hpc Hce. destruct (run_step b s c k e Hi Hpc Hce) as (Hs & Hall).
  apply ev_step; [done|]. intros c1 Hu. pose proof (ustep_inv b s c c1 Hi Hu) as Hi1.
  destruct (Hall c1 Hu) as (Hu1 & [[Hp1 Hst]|(k' & Hp1 & Hsub & Hc1)]).
  - destruct (after_ok b s c1 e Hi1 Hp1) as [Ha Hi2].
    eapply eventually_go; [unfold exec_code; rewrite Hp1; exact Ha|]. apply ev_now.
    split; [done|]. split; [|done]. eapply user_run_trans; [exact Hu1|]. by apply user_run_frame.
  - eapply eventually_mono; [by apply (IH k' Hsub c1)|]. intros c2 (Hi2 & Hu2 & Hp2 & Hst).
    split; [done|]. split; [|done]. by eapply user_run_trans.
Qed.

Lemma scheduler_not_started b s c :
  inv b s c → pc c = SchedHead → ¬ started (rt c) s.
Proof.
  intros Hi Hpc (y & Hy & Hys). destruct (i_s b s c Hi) as (xs & Hxs & Hss).
  rewrite Hpc in Hss. simpl in Hss. rewrite Hy in Hxs. injection Hxs as <-.
  destruct Hys; congruence.
Qed.

(** ** One round of the loop *)

(** The head of the queue [e] is started or resumed and gives control back;
    tasks added meanwhile are behind the ones that were waiting. *)
Definition round_done (b s : eid) (c : config) (e : eid) (q : list (option eid)) (c' : config) : Prop :=
  ∃ added l, inv b s c' ∧ pc c' = SchedHead ∧
    ready_executors_ (sch c') = q ++ added ∧ Forall (λ o, o ≠ None) added ∧
    (stopping_ (sch c) = true → added = [] ∧ stopping_ (sch c') = true) ∧
    stop_pending_func_ (sch c') = stop_pending_func_ (sch c) ∧
    remote_tasks_ (sch c') = [] ∧
    trace c' = trace c ++ EvExec e :: l ∧ execs l = [] ∧
    started (rt c') e ∧ keeps (rt c) (rt c').

Lemma round b s c e q x :
  inv b s c → pc c = SchedHead → stop_pending (sch c) = false →
  ready_executors_ (scheduleAll (sch c)) = Some e :: q →
  executors (rt c) !! e = Some x → state_ x ≠ Terminal →
  eventually ustep (round_done b s c e q) c.
Proof.
  intros Hi Hpc Hstop Hq Hx Hxt.
  destruct (scheduleAll_spec (sch c)) as (_ & Hrem & Hst & _ & Hf & _ & _).
  pose proof (i_pc b s c Hi) as Hp. rewrite Hpc in Hp. simpl in Hp.
  assert (Hall : ∀ o, Some o ∈ Some e :: q → valid b s (rt c) o).
  { intros o Ho. apply (i_queue_all b s c o Hi). by rewrite Hq. }
  assert (He : valid b s (rt c) e) by (apply Hall; set_solver).
  assert (Hxa : state_ x ≠ Aborted).
  { pose proof (i_tasks b s c Hi e x Hx) as Hok. unfold task_ok in Hok.
    intros E. rewrite E in Hok. destruct He as (_ & ? & ?). by apply Hok. }
  destruct (task_resumes b s c e x Hi Hp He Hx Hxt Hxa) as (k & Hres & Hk).
  destruct (switch_to_task b s c e q k Hi Hpc He) as (r' & Hex & Hi1 & Hc1 & Hoth); [|done..|].
  { intros o Ho. apply Hall. set_solver. }
  set (c1 := mkConfig r' _ _ _) in Hi1.
  apply (eventually_go _ c c1).
  { unfold exec_code. rewrite Hpc. unfold threadScheduleFunc_head. rewrite Hstop, Hq.
    simpl. rewrite (get_Some e _ x Hx). simpl. rewrite bool_decide_true by done.
    by rewrite Hex. }
  eapply eventually_mono; [apply (run_returns b s k c1 e Hi1 eq_refl Hc1)|].
  intros c2 (Hi2 & Hu & Hp2 & Hse).
  destruct (ur_ready _ _ Hu) as (added & Hr2 & Hadd & Hnn).
  destruct (ur_trace _ _ Hu) as (l & Hl & Hle). simpl in *.
  exists added, l. split_and!; try done.
  - intros Hs. rewrite <- Hst in Hs. split; [auto|by apply (ur_stopping _ _ Hu)].
  - rewrite (ur_func _ _ Hu). done.
  - rewrite (ur_remote _ _ Hu). done.
  - rewrite Hl, <- app_assoc. done.
  - assert (Hk1 : ∀ o y, o ≠ e → executors (rt c) !! o = Some y → state_ y = HoldUp ∨ state_ y = Terminal →
      executors r' !! o = Some y).
    { intros o y Hoe Hy Hys. rewrite Hoth; [done| |done]. intros ->.
      by apply (scheduler_not_started b s c Hi Hpc); exists y. }
    intros o. split; intros (y & Hy & Hys).
    + destruct (decide (o = e)) as [->|Hoe]; [done|]. apply (ur_keeps _ _ Hu). exists y. simpl. eauto.
    + apply (ur_keeps _ _ Hu). exists y. simpl. split; [|done]. apply Hk1; auto. intros ->. congruence.
Qed.

(** A finished task at the head is dropped. *)
Lemma round_finished b s c e q x :
  inv b s c → pc c = SchedHead → stop_pending (sch c) = false →
  ready_executors_ (scheduleAll (sch c)) = Some e :: q →
  executors (rt c) !! e = Some x → state_ x = Terminal →
  let c' := with_sch (set_ready q (scheduleAll (sch c))) c in
  dstep c c' ∧ inv b s c'.
Proof.
  intros Hi Hpc Hstop Hq Hx Hxt c'.
  assert (Hd : exec_code c = Ok (Go c')).
  { unfold exec_code. rewrite Hpc. unfold threadScheduleFunc_head. rewrite Hstop, Hq.
    simpl. rewrite (get_Some e _ x Hx). simpl. rewrite bool_decide_false; [|tauto].
    unfold c', with_sch. by rewrite Hpc. }
  split; [done|]. destruct (code_ok b s c Hi) as (m & Hm & Hk). rewrite Hd in Hm.
  by simplify_eq.
Qed.

(** The tasks waiting in the queue, in order. *)
Definition waiting (c : config) : list eid := omap id (ready_executors_ (sch c)).

(** Draining: by induction on what is queued. *)
Definition drained (b s : eid) (c : config) (q : list eid) (c' : config) : Prop :=
  ∃ l, inv b s c' ∧ pc c' = Base CRet ∧
    ready_executors_ (sch c') = [] ∧ trace c' = trace c ++ l ∧ turns (finished (rt c')) q (execs l) ∧
    (∀ e, e ∈ q → started (rt c') e) ∧ keeps (rt c) (rt c').

Lemma drain_empty b s c :
  inv b s c → pc c = SchedHead → stop_pending (sch c) = false → stopping_ (sch c) = true →
  ready_executors_ (scheduleAll (sch c)) = [] → eventually ustep (drained b s c []) c.
Proof.
  intros Hi Hpc Hstop Hs Hr.
  destruct (scheduleAll_spec (sch c)) as (_ & Hrem & Hst & Hsd & Hfu & _ & Hse).
  assert (Hi' : inv b s (with_sch (scheduleAll (sch c)) c)).
  { apply (inv_queues b s c); simpl; try done; [|apply Hi].
    intros o. rewrite Hr, Hrem. set_solver. }
  destruct (leave_loop_ok b s _ Hi' Hpc) as (c' & Hl & Hic & Hp' & Hsc & Ht & Hoth).
  apply (eventually_go _ c c').
  { unfold exec_code. rewrite Hpc. unfold threadScheduleFunc_head. rewrite Hstop, Hr, Hst, Hs.
    exact Hl. }
  apply ev_now. exists []. split_and!; try done.
  - rewrite Hsc. done.
  - rewrite Ht, app_nil_r. done.
  - constructor.
  - set_solver.
  - apply keeps_lookup. intros o y Hy Hys. rewrite Hoth; [done|]. intros ->.
    by apply (scheduler_not_started b s c Hi Hpc); exists y.
Qed.

Lemma drain q : ∀ b s c,
  inv b s c → pc c = SchedHead → stopping_ (sch c) = true →
  stop_pending_func_ (sch c) = false → ready_executors_ (sch c) = Some <$> q →
  eventually ustep (drained b s c q) c.
Proof.
  induction q as [|e q IH]; intros b s c Hi Hpc Hs Hf Hq;
    destruct (scheduleAll_spec (sch c)) as (Hr & _ & Hst & _ & Hfu & _ & _);
    rewrite Hs, Hq in Hr; simpl in Hr;
    assert (Hstop : stop_pending (sch c) = false) by
      (unfold stop_pending; rewrite Hf; apply andb_false_r).
  - by apply drain_empty.
  - assert (He : valid b s (rt c) e).
    { apply (i_queue b s c Hi). rewrite Hq. set_solver. }
    pose proof He as ((x & Hx) & _). destruct (decide (state_ x = Terminal)) as [Ht|Ht].
    + destruct (round_finished b s c e (Some <$> q) x Hi Hpc Hstop Hr Hx Ht) as [Hd Hi1].
      eapply eventually_go; [exact Hd|].
      eapply eventually_mono; [by apply (IH b s _ Hi1 Hpc); simpl; try done; congruence|].
      intros c' (l & Hi' & Hp' & Hr' & Htr & Hsub & Hall & Hk).
      exists l. split_and!; try done.
      * apply turns_skipped; [|done]. apply Hk. by exists x.
      * intros o [-> |Ho]%elem_of_cons; [|by apply Hall]. apply Hk. exists x. auto.
    + eapply eventually_bind; [by apply (round b s c e (Some <$> q) x)|].
      intros c1 (added & l1 & Hi1 & Hp1 & Hr1 & _ & Hst1 & Hf1 & _ & Ht1 & He1 & Hse1 & Hk1).
      destruct (Hst1 Hs) as [-> Hs1']. rewrite app_nil_r in Hr1.
      eapply eventually_mono; [by apply (IH b s c1 Hi1 Hp1 Hs1'); [congruence|done]|].
      intros c' (l & Hi' & Hp' & Hr' & Htr & Hsub & Hall & Hk).
      exists (EvExec e :: l1 ++ l). split_and!; try done.
      * rewrite Htr, Ht1, <- app_assoc. done.
      * simpl. rewrite execs_app, He1. by apply turns_taken.
      * intros o [-> |Ho]%elem_of_cons; [by apply Hk|by apply Hall].
      * intros o. split; intros Ho; by apply Hk, Hk1.
Qed.

(** ** Starting a scheduler *)

(** A thread that makes one executor per body, adds them in order and runs. *)
Fixpoint launch (bodies : list coro) : coro :=
  match bodies with
  | [] => CRun CRet
  | body :: l => CNew body (λ e, CAdd e (λ _, launch l))
  end.

(** The thread before [run]: the scheduler exists, tasks are fresh. *)
Record pre (b s : eid) (c : config) : Prop := {
  p_ne : b ≠ s;
  p_sched : scheduler_executor_ (sch c) = s;
  p_main : t_main_executor (rt c) = Some s;
  p_base : t_base_executor (rt c) = Some b;
  p_fresh : ∀ e, is_Some (executors (rt c) !! e) → (e < next_eid (rt c))%nat;
  p_queue : ∀ e, Some e ∈ ready_executors_ (sch c) ++ remote_tasks_ (sch c) →
            valid b s (rt c) e;
  p_tasks : ∀ e x, executors (rt c) !! e = Some x → e ≠ b → e ≠ s →
            state_ x = Init ∧ stack_ x = None ∧
            ∃ k, callback_ x = Some (Body k) ∧ managed (λ _, False) k;
  p_b : ∃ x, executors (rt c) !! b = Some x ∧ state_ x = Ready;
  p_s : ∃ x, executors (rt c) !! s = Some x ∧ state_ x = Init ∧ stack_ x = None ∧
             callback_ x = Some ScheduleLoop;
  p_stopping : stopping_ (sch c) = false
}.

Lemma managed_closed (V : eid → Prop) k : managed (λ _, False) k → managed V k.
Proof. apply managed_mono. done. Qed.

(** [run] switches to the loop, with the caller saved in the base executor. *)
Lemma pre_run b s c :
  pre b s c → pc c = Base (CRun CRet) →
  ∃ c', dstep c c' ∧ inv b s c' ∧ pc c' = SchedHead ∧ sch c' = sch c ∧ trace c' = trace c.
Proof.
  intros Hp Hpc. destruct (p_s b s c Hp) as (xs & Hxs & Hs1 & Hs2 & Hs3).
  destruct (p_b b s c Hp) as (xb & Hxb & Hb1). pose proof (p_ne b s c Hp) as Hne.
  unfold dstep, exec_code. rewrite Hpc. simpl. rewrite (p_sched b s c Hp).
  unfold mainExec, doExec. rewrite (get_Some s _ xs Hxs). simpl. rewrite Hs1.
  unfold initToReady, makeContext. rewrite (get_Some s _ xs Hxs). simpl. rewrite Hs2. simpl.
  erewrite (get_Some s (put s _ _)) by apply lookup_put_eq. simpl.
  erewrite (get_Some s (put s _ _)) by apply lookup_put_eq. simpl.
  unfold execInner, swapContext. simpl. erewrite (get_Some s) by apply lookup_insert_eq. simpl.
  rewrite (p_base b s c Hp). simpl.
  rewrite (get_Some b _ xb) by (simpl; by rewrite !lookup_insert_ne). simpl.
  erewrite (get_Some s) by (simpl; rewrite lookup_insert_ne by done; apply lookup_insert_eq).
  simpl. rewrite Hs3. eexists. split; [done|].
  split; [|done].
  match goal with |- inv b s ?c' => set (m := executors (rt c')) end.
  assert (Hoth : ∀ o, o ≠ b → o ≠ s → m !! o = executors (rt c) !! o).
  { intros. unfold m; simpl. by rewrite !lookup_insert_ne by congruence. }
  assert (Hdom : ∀ o, is_Some (m !! o) ↔ is_Some (executors (rt c) !! o)).
  { intros o. destruct (decide (o = b)) as [->|Hb].
    { unfold m; simpl. rewrite lookup_insert_eq, Hxb. split; eauto. }
    destruct (decide (o = s)) as [->|Hs]; [|by rewrite Hoth].
    unfold m; simpl. rewrite lookup_insert_ne, lookup_insert_eq, Hxs by done. split; eauto. }
  constructor; simpl; try apply Hp.
  - intros o Ho. apply (p_fresh b s c Hp). by apply Hdom.
  - intros o Ho. destruct (p_queue b s c Hp o Ho). split; [by apply Hdom|done].
  - intros o x Hx Hob Hos. change (m !! o = Some x) in Hx. rewrite Hoth in Hx by done.
    destruct (p_tasks b s c Hp o x Hx Hob Hos) as (H1 & H2 & k & H3 & H4).
    unfold task_ok. rewrite H1. split; [done|]. exists k. split; [done|].
    by apply managed_closed.
  - eexists. rewrite lookup_insert_eq. split_and!; done.
  - eexists. rewrite lookup_insert_ne by done. rewrite lookup_insert_eq. done.
  - done.
Qed.

(** The thread makes one more task. *)
Lemma pre_new b s c k l :
  pre b s c → pc c = Base (launch (k :: l)) → managed (λ _, False) k →
  let n := next_eid (rt c) in
  let r1 := (construct true Init DefaultStackSize (Some (Body k)) (rt c)).2 in
  let c1 := mkConfig r1 (sch c) (Base (CAdd n (λ _, launch l))) (trace c) in
  dstep c c1 ∧ pre b s c1 ∧ valid b s r1 n.
Proof.
  intros Hp Hpc Hk n r1 c1.
  assert (Hfr : ∀ y x, executors (rt c) !! y = Some x → y ≠ n).
  { intros y x Hy ->. pose proof (p_fresh b s c Hp n (mk_is_Some _ _ Hy)). unfold n in *. lia. }
  assert (Hold : ∀ y x, executors (rt c) !! y = Some x → executors r1 !! y = Some x).
  { intros y x Hy. unfold r1; simpl. rewrite lookup_insert_ne; [done|].
    by apply not_eq_sym, (Hfr y x). }
  destruct (p_b b s c Hp) as (xb & Hxb & ?). destruct (p_s b s c Hp) as (xs & Hxs & ?).
  split; [unfold dstep, exec_code; by rewrite Hpc|]. split.
  - constructor; simpl; try apply Hp.
    + intros o [x Hx]. apply lookup_insert_Some in Hx as [[<- _]|[_ Hx]]; [lia|].
      pose proof (p_fresh b s c Hp o (mk_is_Some _ _ Hx)). lia.
    + intros o Ho. destruct (p_queue b s c Hp o Ho) as ([x Hx] & ?). split; [eauto|done].
    + intros o x Hx Hob Hos. apply lookup_insert_Some in Hx as [[<- <-]|[_ Hx]].
      * split; [done|]. split; [done|]. by exists k.
      * by apply (p_tasks b s c Hp o).
    + exists xb. eauto.
    + exists xs. eauto.
  - split; [eexists; apply lookup_insert_eq|].
    by split; apply not_eq_sym; [apply (Hfr b xb)|apply (Hfr s xs)].
Qed.

(** The thread adds the task it has just made. *)
Lemma pre_add b s c n l :
  pre b s c → pc c = Base (CAdd n (λ _, launch l)) → valid b s (rt c) n →
  let c1 := mkConfig (rt c) (set_ready (ready_executors_ (sch c) ++ [Some n]) (sch c))
              (Base (launch l)) (trace c) in
  dstep c c1 ∧ pre b s c1.
Proof.
  intros Hp Hpc Hn c1. pose proof Hn as ([x Hx] & _). split.
  - unfold dstep, exec_code. rewrite Hpc; simpl. rewrite (get_Some n _ _ Hx). simpl.
    unfold addExecutor. by rewrite (p_stopping b s c Hp).
  - constructor; simpl; try apply Hp. intros o Ho.
    assert (Hc : Some o ∈ ready_executors_ (sch c) ++ remote_tasks_ (sch c) ∨ o = n)
      by set_solver. destruct Hc as [Hc| ->]; [by apply (p_queue b s c Hp)|done].
Qed.

Lemma launch_runs b s l : ∀ c,
  pre b s c → pc c = Base (launch l) → Forall (managed (λ _, False)) l →
  ∃ c', star dstep c c' ∧ inv b s c' ∧ pc c' = SchedHead ∧
    ready_executors_ (sch c') =
      ready_executors_ (sch c) ++ (Some <$> seq (next_eid (rt c)) (length l)) ∧
    stopping_ (sch c') = false ∧ stop_pending_func_ (sch c') = stop_pending_func_ (sch c) ∧
    trace c' = trace c.
Proof.
  induction l as [|k l IH]; intros c Hp Hpc Hm.
  { destruct (pre_run b s c Hp Hpc) as (c' & Hd & Hi & Hp' & Hs & Ht).
    exists c'. rewrite Hs, app_nil_r. split_and!; try done; [by apply star_one|apply Hp]. }
  inversion Hm as [|? ? Hk Hl]; subst.
  destruct (pre_new b s c k l Hp Hpc Hk) as (Hd1 & Hp1 & Hn).
  destruct (pre_add b s _ _ l Hp1 eq_refl Hn) as (Hd2 & Hp2).
  destruct (IH _ Hp2 eq_refl Hl) as (c' & Hst & Hi & Hp' & Hr & Hs & Hf & Ht).
  exists c'. split_and!; try done.
  - eapply star_step; [exact Hd1|]. by eapply star_step.
  - rewrite Hr. simpl. by rewrite <- app_assoc.
Qed.

(** The thread between the making of the scheduler and [run]. *)
Definition starting (b s : eid) (c : config) : Prop :=
  pre b s c ∧ ∃ l, Forall (managed (λ _, False)) l ∧
    (pc c = Base (launch l) ∨
     ∃ n, pc c = Base (CAdd n (λ _, launch l)) ∧ valid b s (rt c) n).

Lemma starting_code b s c :
  starting b s c → ∃ c', exec_code c = Ok (Go c') ∧ (starting b s c' ∨ inv b s c').
Proof.
  intros (Hp & l & Hl & [Hpc|(n & Hpc & Hn)]).
  - destruct l as [|k l].
    + destruct (pre_run b s c Hp Hpc) as (c' & Hd & Hi & _). eauto.
    + inversion Hl as [|? ? Hk Hl']; subst.
      destruct (pre_new b s c k l Hp Hpc Hk) as (Hd & Hp1 & Hn). eexists. split; [exact Hd|].
      left. split; [done|]. exists l. eauto.
  - destruct (pre_add b s c n l Hp Hpc Hn) as (Hd & Hp1). eexists. split; [exact Hd|].
    left. split; [done|]. exists l. eauto.
Qed.

Lemma starting_step b s c c' :
  starting b s c ∨ inv b s c → step c c' → starting b s c' ∨ inv b s c'.
Proof.
  intros [Hst|Hi] Hs; [|right; by eapply step_inv].
  destruct (starting_code b s c Hst) as (c1 & Hc & Hn).
  destruct Hs as [c c' Hu|c c2 c3 H _|c e He]; [|congruence|].
  { destruct Hu as [c c' H|c op cb k c2 a H _]; congruence. }
  left. destruct Hst as (Hp & l & Hl & Hpc). split; [|by exists l].
  constructor; simpl; try apply Hp. intros o Ho.
  assert (Ho' : Some o ∈ ready_executors_ (sch c) ++ remote_tasks_ (sch c) ∨ o = e) by set_solver.
  destruct Ho' as [Ho'| ->]; [by apply (p_queue b s c Hp)|].
  destruct He as (? & Hb & Hse). rewrite (p_base b s c Hp) in Hb.
  rewrite (p_sched b s c Hp) in Hse. split; [done|]. split; congruence.
Qed.

Definition thread_config (k : coro) : config :=
  match thread k with Ok c => c | _ => mkConfig runtime_init (mkScheduler false false true false [] 0 []) (Base CRet) [] end.

Lemma thread_pre k : pre 0 1 (thread_config k).
Proof.
  assert (Hex : ∀ o x, executors (rt (thread_config k)) !! o = Some x → (o = 0 ∨ o = 1)%nat).
  { intros o x Hx. change (executors (rt (thread_config k))) with
      (<[1%nat := mkExecutor true Init 2 DefaultStackSize None (Some ScheduleLoop) None]>
        (<[0%nat := mkExecutor false Ready 1 0 None None None]> (∅ : gmap eid Executor))) in Hx.
    rewrite !lookup_insert_Some, lookup_empty in Hx. naive_solver. }
  constructor; try done.
  - intros o [x Hx]. destruct (Hex o x Hx) as [-> | ->]; vm_compute; lia.
  - simpl. intros o Ho. by apply not_elem_of_nil in Ho.
  - intros o x Hx ? ?. destruct (Hex o x Hx); done.
  - eexists. split; [reflexivity|done].
  - eexists. split; [reflexivity|done].
Qed.

(** What the invariant says of a configuration: the program's next step does not
    fault, and a task executes only as the current executor in user code. *)
Definition safe (c : config) : Prop :=
  (∃ m, exec_code c = Ok m) ∧
  (∀ e x, executors (rt c) !! e = Some x → e ≠ 0%nat → e ≠ 1%nat → state_ x = Exec →
          t_cur_executor (rt c) = Some e ∧ ∃ k, pc c = Run k).

Lemma starting_safe c : starting 0 1 c ∨ inv 0 1 c → safe c.
Proof.
  intros [Hst|Hi].
  - split; [destruct (starting_code 0 1 c Hst) as (c' & ? & _); eauto|].
    intros e x Hx Hb' Hs' He. destruct Hst as (Hp & _).
    destruct (p_tasks 0 1 c Hp e x Hx Hb' Hs') as (? & _). congruence.
  - split; [destruct (code_ok 0 1 c Hi) as (m & ? & _); eauto|].
    intros e x Hx Hb' Hs' He. pose proof (i_tasks 0 1 c Hi e x Hx Hb' Hs') as Ht.
    unfold task_ok in Ht. rewrite He in Ht. split; [done|].
    pose proof (i_pc 0 1 c Hi) as Hp. unfold pc_ok in Hp.
    destruct (pc c) eqn:Hpc; try done; [by eexists|..];
      repeat match goal with H : _ ∧ _ |- _ => destruct H end; try congruence.
Qed.

Lemma launch_starting bodies :
  Forall (managed (λ _, False)) bodies → starting 0 1 (thread_config (launch bodies)).
Proof. intros Hb. split; [apply thread_pre|]. exists bodies. split; [done|by left]. Qed.

(** ** Properties *)

(** C1: for a thread that creates tasks, adds them and runs the scheduler, where
    the tasks are [managed] (they neither switch to an executor nor run the
    scheduler themselves and register for one wake-up), in every
    reachable configuration (whatever other threads hand over, whatever the IO
    manager does and answers in a call, and whatever the blocking function adds)
    the program's next step does not fault, and an executing task is the current
    executor with user code running; so at most one task executes at a time, and
    none while the scheduler's own code runs. *)
Theorem scheduler_safe bodies c :
  Forall (managed (λ _, False)) bodies →
  star step (thread_config (launch bodies)) c →
  (∃ m, exec_code c = Ok m) ∧
  (∀ e x, executors (rt c) !! e = Some x → e ≠ 0%nat → e ≠ 1%nat → state_ x = Exec →
          t_cur_executor (rt c) = Some e ∧ ∃ k, pc c = Run k).
Proof.
  intros Hb Hs. apply starting_safe.
  eapply (star_invariant step (λ c, starting 0 1 c ∨ inv 0 1 c)); [|left|exact Hs].
  - intros ? ?. apply starting_step.
  - by apply launch_starting.
Qed.

(** C2: scheduling is first in, first out and every round ends, whatever calls of
    the IO manager do and answer: the task at the head of the queue is switched
    to next, runs without interruption until it yields, returns, throws or is
    killed, after which the scheduler is back at the head of its loop with the
    task suspended or finished; tasks added meanwhile are queued behind all
    tasks that were already waiting. *)
Theorem scheduling_round b s c e q x :
  inv b s c → pc c = SchedHead → stop_pending (sch c) = false →
  ready_executors_ (scheduleAll (sch c)) = Some e :: q →
  executors (rt c) !! e = Some x → state_ x ≠ Terminal →
  eventually ustep (λ c', pc c' = SchedHead ∧
    (∃ added, ready_executors_ (sch c') = q ++ added) ∧
    (∃ l, trace c' = trace c ++ l ∧ execs l = [e]) ∧
    started (rt c') e) c.
Proof.
  intros Hi Hpc Hst Hq Hx Hxt.
  eapply eventually_mono; [by apply (round b s c e q x)|].
  intros c' (added & l & _ & Hp & Hr & _ & _ & _ & _ & Ht & Hl & Hse & _).
  split_and!; try done; [by exists added|]. exists (EvExec e :: l). split; [done|].
  simpl. by rewrite Hl.
Qed.

(** C3: stopping drains: once [stop] has set [stopping_] (exit_with_tasks_processed),
    the loop switches to the queued tasks in queue order, started ones and
    suspended ones alike, as often as each is queued, and to no other; only tasks
    that have finished are passed over.  Then it returns to the code after
    [run()] with an empty queue. *)
Theorem stop_drains b s c q :
  inv b s c → pc c = SchedHead → stopping_ (sch c) = true →
  stop_pending_func_ (sch c) = false → ready_executors_ (sch c) = Some <$> q →
  eventually ustep (λ c', pc c' = Base CRet ∧ ready_executors_ (sch c') = [] ∧
    (∃ l, trace c' = trace c ++ l ∧ turns (finished (rt c')) q (execs l)) ∧
    (∀ e, e ∈ q → started (rt c') e)) c.
Proof.
  intros Hi Hpc Hs Hf Hq. eapply eventually_mono; [by apply (drain q b s c)|].
  intros c' (l & _ & H2 & H3 & H4 & H5 & H6 & _). split_and!; try done. by exists l.
Qed.

(** Tasks handed over by other threads all enter the ready queue at the next
    turn of the loop, behind the local ones and in reverse order of hand-over;
    once the scheduler is stopping they are discarded. *)
Lemma remote_tasks_taken es s :
  remote_tasks_ s = [] →
  let s' := foldl (λ s e, (addRemoteExecutor e s).2) s es in
  remote_tasks_ (scheduleAll s') = [] ∧
  ready_executors_ (scheduleAll s') =
    if stopping_ s then ready_executors_ s else ready_executors_ s ++ reverse es.
Proof.
  intros Hr s'.
  assert (H : ∀ es s, remote_tasks_ (foldl (λ s e, (addRemoteExecutor e s).2) s es)
                        = reverse es ++ remote_tasks_ s ∧
                      stopping_ (foldl (λ s e, (addRemoteExecutor e s).2) s es) = stopping_ s ∧
                      ready_executors_ (foldl (λ s e, (addRemoteExecutor e s).2) s es)
                        = ready_executors_ s).
  { clear. induction es as [|e es IH]; intros s; [done|]. cbn [foldl].
    destruct (IH (addRemoteExecutor e s).2) as (H1 & H2 & H3). rewrite H1, H2, H3.
    rewrite reverse_cons, <- app_assoc. done. }
  destruct (H es s) as (H1 & H2 & H3). fold s' in H1, H2, H3.
  destruct (scheduleAll_spec s') as (Hq & Hrem & _). split; [done|].
  by rewrite Hq, H1, H2, H3, Hr, app_nil_r.
Qed.

(** With exit_with_tasks_processed switched off, [stop] only sets [stopped_], and
    the default stop predicate is constantly false: the loop test never fails. *)
Lemma default_stop_predicate_never_stops s :
  exit_with_tasks_processed s = false → stopping_ s = false → stop_pending_func_ s = false →
  stop_pending (stop s) = false ∧ stopping_ (stop s) = false.
Proof.
  intros He Hs Hf. unfold stop, stop_pending. rewrite He. simpl. by rewrite Hf.
Qed.

(** A null pointer in the queue of a stopping scheduler ends the loop at once:
    the tasks behind it are never run. *)
Lemma null_entry_ends_drain b s c q :
  inv b s c → pc c = SchedHead → stopping_ (sch c) = true →
  stop_pending_func_ (sch c) = false → ready_executors_ (sch c) = None :: q →
  ∃ c', dstep c c' ∧ pc c' = Base CRet ∧ ready_executors_ (sch c') = q ∧ trace c' = trace c.
Proof.
  intros Hi Hpc Hs Hf Hq.
  destruct (scheduleAll_spec (sch c)) as (Hr & Hrem & Hst & _). rewrite Hs, Hq in Hr.
  assert (Hi' : inv b s (mkConfig (rt c) (set_ready q (scheduleAll (sch c))) (pc c) (trace c))).
  { apply (inv_queues b s c); simpl; try done; [apply scheduleAll_spec| |apply Hi].
    intros o Ho. rewrite Hrem, app_nil_r in Ho. apply (i_queue b s c Hi). rewrite Hq. set_solver. }
  destruct (leave_loop_ok b s _ Hi' Hpc) as (c' & Hl & _ & Hp' & Hsc & Ht & _).
  exists c'. rewrite Hsc. split_and!; try done.
  unfold dstep, exec_code. rewrite Hpc. unfold threadScheduleFunc_head.
  replace (stop_pending (sch c)) with false
    by (unfold stop_pending; rewrite Hf; symmetry; apply andb_false_r).
  rewrite Hr. simpl. rewrite Hst, Hs. exact Hl.
Qed.

(** [addRemoteExecutor] reports whether the list was empty, not whether the
    executor was added. *)
Lemma addRemoteExecutor_result e e' s :
  let s1 := (addRemoteExecutor e s).2 in
  (addRemoteExecutor e' s1).1 = false ∧ remote_tasks_ (addRemoteExecutor e' s1).2 = e' :: e :: remote_tasks_ s.
Proof. done. Qed.

(** ** Witnesses *)

Module SchedulerEx.
Definition bodies : list coro := [CDo 0 (CYield CRet); CStop CRet; CDo 1 CThrow].

Lemma bodies_managed : Forall (managed (λ _, False)) bodies.
Proof. repeat constructor. Qed.

Lemma scheduler_safe_witness :
  ∃ m, exec_code (thread_config (launch bodies)) = Ok m.
Proof.
  destruct (scheduler_safe bodies (thread_config (launch bodies)) bodies_managed) as [H _];
    [apply star_refl|exact H].
Defined.

(** What the thread has become after n of its steps. *)
Definition config_after (n : nat) : config :=
  match run_steps n (thread_config (launch bodies)) with
  | Ok (Go c) => c
  | _ => thread_config (launch bodies)
  end.

Lemma run_steps_star n c c' : run_steps n c = Ok (Go c') → star dstep c c'.
Proof.
  revert c. induction n as [|n IH]; intros c; simpl; [intros [= ->]; apply star_refl|].
  intros ([c1|c1|? ? ?|] & Hc & Hr)%bind_Ok; try discriminate.
  eapply star_trans; [by apply star_one|by apply IH].
Qed.

Lemma at_head n c :
  run_steps n (thread_config (launch bodies)) = Ok (Go c) → pc c = SchedHead → inv 0 1 c.
Proof.
  intros Hr Hp.
  assert (Hc : starting 0 1 c ∨ inv 0 1 c).
  { eapply (star_invariant dstep (λ c, starting 0 1 c ∨ inv 0 1 c));
      [|left|by eapply run_steps_star].
    - intros c1 c2 H1 Hd. eapply starting_step; [exact H1|by apply step_own, ustep_go].
    - split; [apply thread_pre|]. exists bodies. split; [apply bodies_managed|by left]. }
  destruct Hc as [Hst|]; [|done].
  destruct Hst as (_ & l & _ & [Hl|(m & Hl & _)]); congruence.
Qed.

(** After seven steps the loop starts with the three tasks in the queue. *)
Lemma scheduling_round_witness :
  eventually ustep (λ c', pc c' = SchedHead ∧
    (∃ added, ready_executors_ (sch c') = [Some 3; Some 4]%nat ++ added) ∧
    (∃ l, trace c' = trace (config_after 7) ++ l ∧ execs l = [2%nat]) ∧
    started (rt c') 2) (config_after 7).
Proof.
  apply (scheduling_round 0 1 (config_after 7) 2 [Some 3; Some 4]%nat
           (mkExecutor true Init 3 DefaultStackSize None
              (Some (Body (CDo 0 (CYield CRet)))) None)).
  - apply (at_head 7); vm_compute; reflexivity.
  - vm_compute; reflexivity.
  - vm_compute; reflexivity.
  - vm_compute; reflexivity.
  - vm_compute; reflexivity.
  - discriminate.
Defined.

(** After fifteen the second task has called stop and one task is left. *)
Lemma stop_drains_witness :
  eventually ustep (λ c', pc c' = Base CRet ∧ ready_executors_ (sch c') = [] ∧
    (∃ l, trace c' = trace (config_after 15) ++ l ∧ turns (finished (rt c')) [4%nat] (execs l)) ∧
    (∀ e, e ∈ [4%nat] → started (rt c') e)) (config_after 15).
Proof.
  apply (stop_drains 0 1 (config_after 15) [4%nat]).
  - apply (at_head 15); vm_compute; reflexivity.
  - vm_compute; reflexivity.
  - vm_compute; reflexivity.
  - vm_compute; reflexivity.
  - vm_compute; reflexivity.
Defined.

Definition idle : Scheduler := mkScheduler false false true false [Some 2%nat] 1 [].

Lemma remote_tasks_taken_witness :
  ready_executors_ (scheduleAll (foldl (λ s e, (addRemoteExecutor e s).2) idle
                                   [Some 5; Some 6]%nat)) = [Some 2; Some 6; Some 5]%nat.
Proof. apply (remote_tasks_taken [Some 5; Some 6]%nat idle). reflexivity. Defined.
End SchedulerEx.
