(* ===== verification/UContext.v ===== *)
(** * The build on ucontext (src/coroutine/executor.cpp, COROUTINE_UCONTEXT)

    The coroutines can be built on boost's fcontext (Executor.v) or on the
    [ucontext_t] of the C library.  In the second build a context is an object of
    its own, [swapContext] saves the running code into the context of its source
    and continues the one of its destination, and [resetContext] really makes a
    context again.  Both builds are shown to run the same programs in the same
    way: the scheduler's machine is stated once over an interface of a build, and
    the machine of this build follows that of Scheduler.v step by step. *)

From S2P Require Import Prelude Executor Scheduler SchedulerInv SchedulerThm.
From stdpp Require Import options.

(** ** Contexts *)

(** A [ucontext_t]: set up by [makecontext] on [executorMainFunc], by [getcontext]
    in the constructor, or by [swapcontext] with the code that is left. *)
Inductive uctx :=
| UEntry
| UCaptured
| USaved (k : code).

(** The executors with the contexts they own; [context_] of Executor.v is unused. *)
Record urt := mkU {
  u_rt : runtime;
  uctxs : gmap eid uctx
}.

Definition uput (e : eid) (x : Executor) (u : urt) : urt := mkU (put e x (u_rt u)) (uctxs u).
Definition set_uctx (e : eid) (c : uctx) (u : urt) : urt := mkU (u_rt u) (<[e := c]> (uctxs u)).
Definition uset_cur (c : option eid) (u : urt) : urt := mkU (set_cur c (u_rt u)) (uctxs u).

(** [newContext] and [getCurrentContext], in the constructor [Executor()]. *)
Definition uExecutor_current (u : urt) : eid * urt :=
  let '(e, r) := Executor_current (u_rt u) in (e, set_uctx e UCaptured (mkU r (uctxs u))).

Definition uExecutor_callback (f : option callback) (size : Z) (u : urt) : outcome (eid * urt) :=
  p ← Executor_callback f size (u_rt u); Ok (p.1, mkU p.2 (uctxs u)).

(** [~Executor]: the stack and the context are freed. *)
Definition uExecutor_destroy (e : eid) (u : urt) : outcome urt :=
  r ← Executor_destroy e (u_rt u); Ok (mkU r (delete e (uctxs u))).

Definition ugetCurrent (u : urt) : eid * urt :=
  match t_cur_executor (u_rt u) with
  | Some e => (e, u)
  | None =>
      let '(e, u) := uExecutor_current u in
      let r := u_rt u in
      (e, mkU (mkRuntime (Some e)
                 (match t_main_executor r with Some m => Some m | None => Some e end)
                 (Some e) (executors r) (next_eid r) (least_unallocated_id r)
                 (executor_count r) (stacks r) (next_stack r)) (uctxs u))
  end.

(** An existing stack is freed and then given to [makecontext]. *)
Definition umakeContext (e : eid) (u : urt) : outcome urt :=
  x ← get e (u_rt u);
  let size := if stack_size_ x =? 0 then DefaultStackSize else stack_size_ x in
  match stack_ x with
  | Some s => Fault UseAfterFree
  | None =>
      let s := next_stack (u_rt u) in
      Ok (mkU (put e (set_stack size (Some s) x) (set_stacks ({[s]} ∪ stacks (u_rt u)) (S s) (u_rt u)))
            (<[e := UEntry]> (uctxs u)))
  end.

Definition uinitToReady (e : eid) (u : urt) : outcome urt :=
  u ← umakeContext e u;
  x ← get e (u_rt u);
  Ok (uput e (set_state Ready x) u).

Definition uresetContext (e : eid) (u : urt) : outcome urt :=
  x ← get e (u_rt u);
  _ ← of_option NullDeref (stack_ x);
  _ ← of_option NullDeref (uctxs u !! e);
  Ok (set_uctx e UEntry u).

(** [swapcontext(src->context_, dst->context_)]; what [getcontext] has captured is
    a frame of a constructor that has returned. *)
Definition uswapContext (src : option eid) (dst : eid) (k : code) (u : urt) : outcome (code * urt) :=
  s ← of_option NullDeref src;
  _ ← get s (u_rt u);
  _ ← get dst (u_rt u);
  _ ← of_option NullDeref (uctxs u !! s);
  d ← of_option NullDeref (uctxs u !! dst);
  let u := set_uctx s (USaved k) u in
  match d with
  | UEntry =>
      cur ← of_option NullDeref (t_cur_executor (u_rt u));
      y ← get cur (u_rt u);
      match callback_ y with
      | None => Fault AssertFailed
      | Some (Body c) => Ok (Run c, u)
      | Some ScheduleLoop => Ok (SchedHead, u)
      end
  | USaved k' => Ok (k', u)
  | UCaptured => Fault UseAfterFree
  end.

(** ** Operations, as in Executor.v *)

Definition uexecInner (main : bool) (e : eid) (k : code) (u : urt) : outcome (code * urt) :=
  let u := uset_cur (Some e) u in
  uswapContext (if main then t_base_executor (u_rt u) else t_main_executor (u_rt u)) e k u.

Definition udoExec (main : bool) (e : eid) (k : code) (u : urt) : outcome (code * urt) :=
  x ← get e (u_rt u);
  match state_ x with
  | Init =>
      u ← uinitToReady e u;
      x ← get e (u_rt u);
      uexecInner main e k (uput e (set_state Exec x) u)
  | HoldUp | Ready => uexecInner main e k (uput e (set_state Exec x) u)
  | Exec => Ok (k, u)
  | Terminal | Aborted => Ok (k, u)
  end.

Definition uexec (e : eid) (k : code) (u : urt) : outcome (code * urt) :=
  _ ← assert_ (bool_decide (t_main_executor (u_rt u) ≠ Some e));
  udoExec false e k u.

Definition uleaveInner (main : bool) (e : eid) (k : code) (u : urt) : outcome (code * urt) :=
  let target := if main then t_base_executor (u_rt u) else t_main_executor (u_rt u) in
  let u := uset_cur target u in
  d ← of_option NullDeref target;
  uswapContext (Some e) d k u.

Definition uyield (main : bool) (e : eid) (k : code) (u : urt) : outcome (code * urt) :=
  x ← get e (u_rt u);
  if bool_decide (state_ x = Exec)
  then uleaveInner main e k (uput e (set_state HoldUp x) u)
  else Ok (k, u).

Definition ukill (e : eid) (k : code) (u : urt) : outcome (code * urt) :=
  x ← get e (u_rt u);
  let u := uput e (set_state Terminal x) u in
  if bool_decide (state_ x = Exec) then uleaveInner false e k u else Ok (k, u).

Definition uterminal (e : eid) (u : urt) : outcome (code * urt) :=
  x ← get e (u_rt u);
  _ ← assert_ (bool_decide (state_ x = Exec));
  uleaveInner false e MainTail (uput e (set_state Terminal x) u).

(** [executorMainFunc] has no transfer to store; its end is the same. *)
Definition uexecutorMainFunc_tail (u : urt) : outcome (code * urt) :=
  e ← of_option NullDeref (t_cur_executor (u_rt u));
  uterminal e u.

Definition ureset (e : eid) (f : option callback) (u : urt) : outcome urt :=
  x ← get e (u_rt u);
  let u := uput e (set_callback f x) u in
  match stack_ x with
  | Some _ => uresetContext e u
  | None => umakeContext e u
  end.

Definition ureuse (e : eid) (u : urt) : outcome urt :=
  x ← get e (u_rt u);
  if is_call_back_type_ x && bool_decide (state_ x = Terminal)
  then uresetContext e (uput e (set_state Ready x) u)
  else Ok u.

(** ** The scheduler's machine over any build *)

(** What the scheduler uses of the executors. *)
Class ContextBuild (R : Type) := {
  view : R → runtime;          (* states and thread-local pointers *)
  b_getCurrent : R → eid * R;
  b_new : option callback → Z → R → outcome (eid * R);
  b_exec : eid → code → R → outcome (code * R);
  b_mainExec : eid → code → R → outcome (code * R);
  b_yield : bool → eid → code → R → outcome (code * R);
  b_kill : eid → code → R → outcome (code * R);
  b_tail : R → outcome (code * R)
}.

#[export] Instance fcontext : ContextBuild runtime := {
  view r := r;
  b_getCurrent := getCurrent;
  b_new := Executor_callback;
  b_exec := exec;
  b_mainExec := mainExec;
  b_yield := yield;
  b_kill := kill;
  b_tail := executorMainFunc_tail
}.

#[export] Instance ucontext : ContextBuild urt := {
  view := u_rt;
  b_getCurrent := ugetCurrent;
  b_new := uExecutor_callback;
  b_exec := uexec;
  b_mainExec := udoExec true;
  b_yield := uyield;
  b_kill := ukill;
  b_tail := uexecutorMainFunc_tail
}.

Section Machine.
Context {R : Type} `{ContextBuild R}.

Record mconfig := mkM { m_rt : R; m_sch : Scheduler; m_pc : code; m_trace : list event }.

Inductive mmove :=
| MGo (c : mconfig)
| MBlock (c : mconfig)
| MCall (op : io_call) (cb : eid → nat → coro) (k : answer → code)
| MDone.

Definition mgoto (c : mconfig) (p : code * R) : mmove := MGo (mkM p.2 (m_sch c) p.1 (m_trace c)).

Definition m_leave_loop (c : mconfig) : outcome mmove :=
  p ← b_yield true (scheduler_executor_ (m_sch c)) SchedEnd (m_rt c); Ok (mgoto c p).

Definition m_head (c : mconfig) : outcome mmove :=
  if stop_pending (m_sch c) then m_leave_loop c
  else
    let s := scheduleAll (m_sch c) in
    let '(executor, s) :=
      match ready_executors_ s with
      | e :: q => (e, set_ready q s)
      | [] => (None, s)
      end in
    let c := mkM (m_rt c) s (m_pc c) (m_trace c) in
    match executor with
    | None => if stopping_ s then m_leave_loop c else Ok (MBlock c)
    | Some e =>
        x ← get e (view (m_rt c));
        if bool_decide (state_ x ≠ Terminal ∧ state_ x ≠ Aborted) then
          p ← b_exec e (SchedAfter e) (m_rt c);
          Ok (MGo (mkM p.2 s p.1 (m_trace c ++ [EvExec e])))
        else Ok (MGo c)
    end.

Definition m_after (e : eid) (c : mconfig) : outcome mmove :=
  x ← get e (view (m_rt c));
  match state_ x with
  | Terminal | HoldUp | Aborted => Ok (MGo (mkM (m_rt c) (m_sch c) SchedHead (m_trace c)))
  | _ => Fault AssertFailed
  end.

Definition m_run (wrap : coro → code) (k : coro) (c : mconfig) : outcome mmove :=
  match k with
  | CRet | CThrow => Ok MDone
  | CYield k =>
      let '(e, r) := b_getCurrent (m_rt c) in
      p ← b_yield false e (wrap k) r; Ok (mgoto c p)
  | CExec e k => p ← b_exec e (wrap k) (m_rt c); Ok (mgoto c p)
  | CKill e k => p ← b_kill e (wrap k) (m_rt c); Ok (mgoto c p)
  | CNew body k =>
      p ← b_new (Some (Body body)) DefaultStackSize (m_rt c);
      Ok (MGo (mkM p.2 (m_sch c) (wrap (k p.1)) (m_trace c)))
  | CAdd e k =>
      _ ← get e (view (m_rt c));
      let '(b, s) := addExecutor (Some e) (m_sch c) in
      Ok (MGo (mkM (m_rt c) s (wrap (k b)) (m_trace c)))
  | CStop k => Ok (MGo (mkM (m_rt c) (stop (m_sch c)) (wrap k) (m_trace c)))
  | CRun k => p ← b_mainExec (scheduler_executor_ (m_sch c)) (wrap k) (m_rt c); Ok (mgoto c p)
  | CDo n k =>
      Ok (MGo (mkM (m_rt c) (m_sch c) (wrap k) (m_trace c ++ [EvDo (t_cur_executor (view (m_rt c))) n])))
  | CIo op cb k => Ok (MCall op cb (λ a, wrap (k a)))
  end.

Definition m_code (c : mconfig) : outcome mmove :=
  match m_pc c with
  | SchedHead => m_head c
  | SchedAfter e => m_after e c
  | SchedEnd => p ← b_tail (m_rt c); Ok (mgoto c p)
  | MainTail => Fault ProcessExit
  | Run CRet | Run CThrow => p ← b_tail (m_rt c); Ok (mgoto c p)
  | Run k => m_run Run k c
  | Base CThrow => Fault ProcessExit
  | Base k => m_run Base k c
  end.

(** Waiting, calls and other threads, as in [step]. *)
Definition m_task (c : mconfig) (e : eid) : Prop :=
  is_Some (executors (view (m_rt c)) !! e) ∧ t_base_executor (view (m_rt c)) ≠ Some e ∧
  scheduler_executor_ (m_sch c) ≠ e.

Definition m_with_sch (s : Scheduler) (c : mconfig) : mconfig := mkM (m_rt c) s (m_pc c) (m_trace c).

Inductive m_effect (null : bool) : mconfig → mconfig → Prop :=
| m_eff_add c o :
    (o = None → null = true) → (∀ e, o = Some e → m_task c e) →
    m_effect null c (m_with_sch (addExecutor o (m_sch c)).2 c)
| m_eff_new c body p :
    managed (m_task c) body → b_new (Some (Body body)) DefaultStackSize (m_rt c) = Ok p →
    m_effect null c (mkM p.2 (m_sch c) (m_pc c) (m_trace c))
| m_eff_stop c : m_effect null c (m_with_sch (stop (m_sch c)) c).

Inductive m_step : mconfig → mconfig → Prop :=
| m_step_go c c' : m_code c = Ok (MGo c') → m_step c c'
| m_step_call c op cb k c' a :
    m_code c = Ok (MCall op cb k) → star (m_effect false) c c' →
    m_step c (mkM (m_rt c') (m_sch c') (k a) (m_trace c'))
| m_step_block c c' c'' :
    m_code c = Ok (MBlock c') → star (m_effect true) c' c'' → m_step c c''
| m_step_remote c e :
    m_task c e → m_step c (m_with_sch (addRemoteExecutor (Some e) (m_sch c)).2 c).

(** A thread that makes a scheduler and then runs the code [k]. *)
Definition m_thread (k : coro) (r : R) (set_main : eid → R → R) : outcome mconfig :=
  let '(_, r) := b_getCurrent r in
  p ← b_new (Some ScheduleLoop) DefaultStackSize r;
  Ok (mkM (set_main p.1 p.2) (mkScheduler false false true false [] p.1 []) (Base k) []).
End Machine.
Arguments mconfig : clear implicits.
Arguments mmove : clear implicits.

Definition uthread (k : coro) : outcome (mconfig urt) :=
  m_thread k (mkU runtime_init ∅) (λ e u, mkU (setMainExecutor (Some e) (u_rt u)) (uctxs u)).

(** The interface restates the machine of Scheduler.v. *)
Definition m_of (c : config) : mconfig runtime := mkM (rt c) (sch c) (pc c) (trace c).

Definition move_of (m : move) : mmove runtime :=
  match m with
  | Go c => MGo (m_of c)
  | Block c => MBlock (m_of c)
  | Call op cb k => MCall op cb k
  | Done => MDone
  end.

Lemma fcontext_machine c : m_code (m_of c) = m ← exec_code c; Ok (move_of m).
Proof.
  destruct c as [r s p t]. unfold m_code, exec_code. cbn [m_pc m_of pc].
  assert (Hl : ∀ s', m_leave_loop (mkM r s' p t) = m ← leave_loop (mkConfig r s' p t); Ok (move_of m)).
  { intros s'. unfold m_leave_loop, leave_loop. simpl. by destruct (yield _ _ _ _) as [[]| |]. }
  destruct p as [k|k| |e| |]; cbn [rt m_rt].
  - destruct k; simpl; try (by destruct (executorMainFunc_tail r) as [[]| |]); try done.
    + destruct (getCurrent r) as [e r']. by destruct (yield _ _ _ _) as [[]| |].
    + by destruct (exec _ _ _) as [[]| |].
    + by destruct (kill _ _ _) as [[]| |].
    + destruct (get _ _); try done. simpl. by destruct (addExecutor _ _).
    + by destruct (mainExec _ _ _) as [[]| |].
  - destruct k; simpl; try done.
    + destruct (getCurrent r) as [e r']. by destruct (yield _ _ _ _) as [[]| |].
    + by destruct (exec _ _ _) as [[]| |].
    + by destruct (kill _ _ _) as [[]| |].
    + destruct (get _ _); try done. simpl. by destruct (addExecutor _ _).
    + by destruct (mainExec _ _ _) as [[]| |].
  - unfold m_head, threadScheduleFunc_head. cbn [m_sch sch m_of]. destruct (stop_pending s); [apply Hl|].
    generalize (scheduleAll s) as s1. intros s1. cbv zeta.
    destruct (ready_executors_ s1) as [|[e|] q]; cbn -[stopping_ m_leave_loop leave_loop].
    + destruct (stopping_ s1); [apply Hl|done].
    + destruct (get e r); try done. cbn. destruct (bool_decide _); [|done]. by destruct (exec _ _ _) as [[]| |].
    + destruct (stopping_ (set_ready q s1)); [apply Hl|done].
  - unfold m_after, threadScheduleFunc_after. simpl. destruct (get e r); try done. simpl. by destruct (state_ a).
  - cbn. destruct (executorMainFunc_tail r) as [[]| |]; done.
  - done.
Qed.

(** ** The relation between the builds *)

Definition forget (r : runtime) : runtime := set_executors (set_context None <$> executors r) r.

Definition ctx_rel (c : option fctx) (o : option uctx) : Prop :=
  match c with
  | Some Entry => o = Some UEntry
  | Some (Swapped _ k) => o = Some (USaved k)
  | Some Smashed => False
  | None => True
  end.

(** The same executors, each with the same code saved; whoever runs has a context
    to be saved into. *)
Record sim (r : runtime) (u : urt) : Prop := {
  sim_rt : u_rt u = forget r;
  sim_ctx : ∀ e x, executors r !! e = Some x → ctx_rel (context_ x) (uctxs u !! e);
  sim_exec : ∀ e x, executors r !! e = Some x → state_ x = Exec → is_Some (uctxs u !! e);
  sim_base : ∀ b, t_base_executor r = Some b → is_Some (uctxs u !! b)
}.

Lemma forget_lookup r e : executors (forget r) !! e = set_context None <$> executors r !! e.
Proof. apply lookup_fmap. Qed.

Lemma get_sim r u e x : sim r u → executors r !! e = Some x → get e (u_rt u) = Ok (set_context None x).
Proof. intros Hs Hx. rewrite (sim_rt _ _ Hs). apply get_Some. by rewrite forget_lookup, Hx. Qed.

Lemma get_inv e r x : get e r = Ok x → executors r !! e = Some x.
Proof. by intros ?%of_option_Ok. Qed.

Lemma forget_put e x r : forget (put e x r) = put e (set_context None x) (forget r).
Proof. unfold forget, put, set_executors. simpl. by rewrite fmap_insert. Qed.

Lemma put_same e x r : executors r !! e = Some x → put e x r = r.
Proof. intros Hx. unfold put, set_executors. rewrite insert_id by done. by destruct r. Qed.

Lemma sim_cur c r u : sim r u → sim (set_cur c r) (uset_cur c u).
Proof. intros [H1 H2 H3 H4]. constructor; simpl; [by rewrite H1|done..]. Qed.

Lemma sim_update r u e x x' :
  sim r u → executors r !! e = Some x → context_ x' = context_ x →
  (state_ x' = Exec → is_Some (uctxs u !! e)) → sim (put e x' r) (uput e (set_context None x') u).
Proof.
  intros [H1 H2 H3 H4] Hx Hc He. constructor; simpl; [by rewrite forget_put, H1| | |done].
  - intros e' y Hy. rewrite lookup_insert_Some in Hy. destruct Hy as [(<- & <-)|(Hne & Hy)]; [|by apply H2].
    rewrite Hc. by apply H2.
  - intros e' y Hy. rewrite lookup_insert_Some in Hy. destruct Hy as [(<- & <-)|(Hne & Hy)]; [done|by eapply H3].
Qed.

Lemma sim_save r u s x d k :
  sim r u → executors r !! s = Some x →
  sim (put s (set_context (Some (Swapped d k)) x) r) (set_uctx s (USaved k) u).
Proof.
  intros [H1 H2 H3 H4] Hx. constructor; simpl.
  - rewrite forget_put, H1. symmetry. apply put_same. by rewrite forget_lookup, Hx.
  - intros e y Hy. rewrite lookup_insert_Some in Hy. destruct Hy as [(<- & <-)|(Hne & Hy)].
    + by rewrite lookup_insert_eq.
    + rewrite lookup_insert_ne by done. by apply H2.
  - intros e y Hy He. destruct (decide (s = e)) as [->|Hne]; [by rewrite lookup_insert_eq; eexists|].
    rewrite lookup_insert_Some in Hy. destruct Hy as [(? & _)|(_ & Hy)]; [done|].
    rewrite lookup_insert_ne by done. by eapply H3.
  - intros b Hb. destruct (decide (s = b)) as [->|Hne]; [by rewrite lookup_insert_eq; eexists|].
    rewrite lookup_insert_ne by done. by apply H4.
Qed.

(** The destination was left by a switch to the source, or has not begun. *)
Definition aligned (src : option eid) (dst : eid) (r : runtime) : Prop :=
  ∀ x d k, executors r !! dst = Some x → context_ x = Some (Swapped d k) → src = Some d.

(** Whatever the operation on fcontext gives, the one on ucontext gives too. *)
Definition follows (o : outcome (code * runtime)) (o' : outcome (code * urt)) : Prop :=
  ∀ k r, o = Ok (k, r) → ∃ u, o' = Ok (k, u) ∧ sim r u.

Lemma swap_follows src dst k r u :
  sim r u → aligned src dst r → is_Some src → (∀ s, src = Some s → is_Some (executors r !! s) ∧ is_Some (uctxs u !! s)) →
  follows (swapContext src dst k r) (uswapContext src dst k u).
Proof.
  intros Hs Ha [s ->] Hsrc k' r' Hk. destruct (Hsrc s eq_refl) as ([x Hx] & [o Ho]).
  unfold swapContext in Hk. apply bind_Ok in Hk as (d & Hd%get_inv & Hk). unfold uswapContext.
  simpl. rewrite (get_sim r u s x Hs Hx), (get_sim r u dst d Hs Hd), Ho. simpl.
  pose proof (sim_ctx _ _ Hs dst d Hd) as Hc. destruct (context_ d) as [[|d' kd|]|] eqn:Hcd; try done.
  - simpl in Hc. rewrite Hc. simpl in *. rewrite (get_Some s r x Hx) in Hk. simpl in Hk.
    apply bind_Ok in Hk as (cur & Hcur%of_option_Ok & Hk). apply bind_Ok in Hk as (y & Hy%get_inv & Hk).
    assert (Hsv : sim (put s (set_context (Some (Swapped dst k)) x) r) (set_uctx s (USaved k) u)) by by apply sim_save.
    rewrite (sim_rt _ _ Hs). simpl. rewrite Hcur. simpl. pose proof (get_sim _ _ cur y Hsv Hy) as Hg. simpl in Hg.
    rewrite (sim_rt _ _ Hs) in Hg. rewrite Hg. simpl. destruct (callback_ y) as [[c|]|]; try done;
      injection Hk as <- <-; eexists; (split; [reflexivity|done]).
  - simpl in Hc. rewrite Hc. simpl. pose proof (Ha d d' kd Hd Hcd) as [= <-]. simpl in Hk.
    rewrite (get_Some s r x Hx) in Hk. injection Hk as <- <-. eexists. split; [reflexivity|]. by apply sim_save.
Qed.

Lemma lookup_put_is_Some e x r s : is_Some (executors r !! s) → is_Some (executors (put e x r) !! s).
Proof.
  intros [y Hy]. simpl. destruct (decide (e = s)) as [->|Hne]; [rewrite lookup_insert_eq|rewrite lookup_insert_ne by done];
    by eexists.
Qed.

(** Switching to an executor: from whom, and with a context that leads back. *)
Definition source_ok (src : option eid) (r : runtime) (u : urt) : Prop :=
  ∃ s, src = Some s ∧ is_Some (executors r !! s) ∧ is_Some (uctxs u !! s).

Lemma execInner_follows (main : bool) e k r u x :
  sim r u → executors r !! e = Some x →
  source_ok (if main then t_base_executor r else t_main_executor r) r u →
  (∀ d kd, context_ x = Some (Swapped d kd) → (if main then t_base_executor r else t_main_executor r) = Some d) →
  follows (execInner main e k (put e (set_state Exec x) r))
    (uexecInner main e k (uput e (set_state Exec (set_context None x)) u)).
Proof.
  intros Hs Hx (s & Hsrc & Hex & Huc) Ha. unfold execInner, uexecInner. cbn [uset_cur u_rt uput].
  destruct (context_ x) as [c|] eqn:Hc.
  - assert (Hue : is_Some (uctxs u !! e)).
    { pose proof (sim_ctx _ _ Hs e x Hx) as Hr. rewrite Hc in Hr. destruct c; [rewrite Hr; by eexists..|done]. }
    assert (Hs' : sim (set_cur (Some e) (put e (set_state Exec x) r))
      (uset_cur (Some e) (uput e (set_state Exec (set_context None x)) u))).
    { apply sim_cur. by eapply (sim_update r u e x (set_state Exec x)). }
    assert (Hu : (if main then t_base_executor (u_rt u) else t_main_executor (u_rt u)) =
      if main then t_base_executor r else t_main_executor r) by (rewrite (sim_rt _ _ Hs); by destruct main).
    cbn [t_base_executor t_main_executor set_cur put set_executors]. rewrite Hu.
    apply swap_follows; [done| |rewrite Hsrc; by eexists|].
    + intros y d kd Hy Hcy. simpl in Hy. rewrite lookup_insert_eq in Hy. injection Hy as <-. simpl in Hcy.
      apply (Ha d kd). congruence.
    + intros s' Hs1. rewrite Hsrc in Hs1. injection Hs1 as <-. split; [|done]. by apply lookup_put_is_Some.
  - intros k' r' Hk. unfold swapContext in Hk. apply bind_Ok in Hk as (d & Hd%get_inv & Hk).
    simpl in Hd. rewrite lookup_insert_eq in Hd. injection Hd as <-. simpl in Hk. by rewrite Hc in Hk.
Qed.

Lemma init_follows e r u r' :
  sim r u → initToReady e r = Ok r' →
  ∃ x u', executors r' !! e = Some x ∧ context_ x = Some Entry ∧
    uinitToReady e u = Ok u' ∧ sim r' u' ∧ t_main_executor r' = t_main_executor r ∧
    t_base_executor r' = t_base_executor r ∧
    (∀ s, is_Some (executors r !! s) → is_Some (executors r' !! s)) ∧
    (∀ s, is_Some (uctxs u !! s) → is_Some (uctxs u' !! s)).
Proof.
  intros Hs Hr. unfold initToReady, makeContext in Hr. apply bind_Ok in Hr as (r1 & Hm & Hr).
  apply bind_Ok in Hm as (x & Hx%get_inv & Hm). destruct (stack_ x) eqn:Hst; [done|]. injection Hm as <-.
  set (size := if stack_size_ x =? 0 then DefaultStackSize else stack_size_ x) in *.
  apply bind_Ok in Hr as (y & Hy%get_inv & [= <-]). simpl in Hy. rewrite lookup_insert_eq in Hy. injection Hy as <-.
  set (x1 := set_context (Some Entry) (set_stack size (Some (next_stack r)) x)).
  set (r1 := set_stacks ({[next_stack r]} ∪ stacks r) (S (next_stack r)) r).
  set (u1 := mkU (put e (set_context None x1) (forget r1)) (<[e := UEntry]> (uctxs u))).
  assert (Hs1 : sim (put e x1 r1) u1).
  { constructor; simpl; [by rewrite forget_put| | |].
    - intros e' y Hy. rewrite lookup_insert_Some in Hy. destruct Hy as [(<- & <-)|(Hne & Hy)]; [by rewrite lookup_insert_eq|].
      rewrite lookup_insert_ne by done. by apply (sim_ctx _ _ Hs).
    - intros e' y Hy He. destruct (decide (e = e')) as [->|Hne]; [by rewrite lookup_insert_eq; eexists|].
      rewrite lookup_insert_Some in Hy. destruct Hy as [(? & _)|(_ & Hy)]; [done|].
      rewrite lookup_insert_ne by done. by eapply (sim_exec _ _ Hs).
    - intros b Hb. destruct (decide (e = b)) as [->|Hne]; [by rewrite lookup_insert_eq; eexists|].
      rewrite lookup_insert_ne by done. by apply (sim_base _ _ Hs). }
  assert (Hs2 : sim (put e (set_state Ready x1) (put e x1 r1)) (uput e (set_context None (set_state Ready x1)) u1)).
  { eapply sim_update; [done|by apply lookup_put_eq|done|done]. }
  eexists _, _. split; [apply lookup_put_eq|]. split; [done|]. split.
  { unfold uinitToReady, umakeContext. rewrite (get_sim r u e x Hs Hx). simpl. rewrite Hst. simpl.
    rewrite (get_sim _ u1 e x1 Hs1) || (rewrite (sim_rt _ _ Hs); simpl; unfold get; simpl; rewrite lookup_insert_eq; simpl).
    rewrite ?(sim_rt _ _ Hs). reflexivity. }
  split; [exact Hs2|]. split_and!; [done..| |].
  - intros s Hsm. by do 2 apply lookup_put_is_Some.
  - intros s [o Ho]. simpl. destruct (decide (e = s)) as [->|Hne]; [by rewrite lookup_insert_eq; eexists|].
    rewrite lookup_insert_ne by done. by eexists.
Qed.

Lemma doExec_follows (main : bool) e k r u :
  sim r u → source_ok (if main then t_base_executor r else t_main_executor r) r u →
  (∀ x d kd, executors r !! e = Some x → state_ x = HoldUp ∨ state_ x = Ready →
     context_ x = Some (Swapped d kd) → (if main then t_base_executor r else t_main_executor r) = Some d) →
  follows (doExec main e k r) (udoExec main e k u).
Proof.
  intros Hs Hsrc Ha k' r' Hk. unfold doExec in Hk. apply bind_Ok in Hk as (x & Hx%get_inv & Hk).
  unfold udoExec. rewrite (get_sim r u e x Hs Hx). simpl.
  assert (Hgo : state_ x = HoldUp ∨ state_ x = Ready →
    follows (execInner main e k (put e (set_state Exec x) r))
      (uexecInner main e k (uput e (set_state Exec (set_context None x)) u))).
  { intros Hst. apply execInner_follows; [done..|]. intros d kd. by apply Ha. }
  destruct (state_ x) eqn:Hst; try (by apply Hgo; auto); try (by injection Hk as <- <-; eauto).
  apply bind_Ok in Hk as (r1 & Hi & Hk).
  destruct (init_follows e r u r1 Hs Hi) as (x1 & u1 & Hx1 & Hc1 & Hu1 & Hs1 & Hm1 & Hb1 & Hex & Huc).
  rewrite (get_Some e r1 x1 Hx1) in Hk. simpl in Hk. rewrite Hu1. simpl. rewrite (get_sim r1 u1 e x1 Hs1 Hx1). simpl.
  refine (execInner_follows main e k r1 u1 x1 Hs1 Hx1 _ _ k' r' Hk); rewrite Hm1, Hb1.
  - destruct Hsrc as (s & H1 & H2 & H3). exists s. split_and!; auto.
  - intros d kd Hd. congruence.
Qed.

Lemma leaveInner_follows (main : bool) e k r u :
  sim r u → is_Some (executors r !! e) → is_Some (uctxs u !! e) →
  (∀ d, (if main then t_base_executor r else t_main_executor r) = Some d → aligned (Some e) d r) →
  follows (leaveInner main e k r) (uleaveInner main e k u).
Proof.
  intros Hs He Hu Ha k' r' Hk. unfold leaveInner in Hk. unfold uleaveInner.
  replace (if main then t_base_executor (u_rt u) else t_main_executor (u_rt u)) with
    (if main then t_base_executor r else t_main_executor r) by (rewrite (sim_rt _ _ Hs); by destruct main).
  destruct (if main then _ else _) as [d|] eqn:Hd; [|done]. simpl in *.
  refine (swap_follows (Some e) d k _ _ (sim_cur (Some d) r u Hs) _ _ _ k' r' Hk); [|by eexists|].
  - intros x d' kd Hx. by apply (Ha d eq_refl x d' kd).
  - by intros s [= <-].
Qed.

(** An executor leaves [Exec] and switches away. *)
Lemma state_leave_follows (main : bool) e k r u x st :
  sim r u → executors r !! e = Some x → state_ x = Exec → st ≠ Exec →
  (∀ d, (if main then t_base_executor r else t_main_executor r) = Some d → aligned (Some e) d r) →
  follows (leaveInner main e k (put e (set_state st x) r))
    (uleaveInner main e k (uput e (set_state st (set_context None x)) u)).
Proof.
  intros Hs Hx He Hst Ha. apply leaveInner_follows.
  - by eapply (sim_update r u e x (set_state st x)).
  - apply lookup_put_is_Some. by eexists.
  - by eapply (sim_exec _ _ Hs).
  - intros d Hd y d' kd Hy Hc. assert (Hd' : (if main then t_base_executor r else t_main_executor r) = Some d)
      by by destruct main.
    simpl in Hy. rewrite lookup_insert_Some in Hy. destruct Hy as [(-> & <-)|(_ & Hy)].
    + by apply (Ha d Hd' x d' kd).
    + by apply (Ha d Hd' y d' kd).
Qed.

Lemma yield_follows (main : bool) e k r u :
  sim r u → (∀ d, (if main then t_base_executor r else t_main_executor r) = Some d → aligned (Some e) d r) →
  follows (yield main e k r) (uyield main e k u).
Proof.
  intros Hs Ha k' r' Hk. unfold yield in Hk. apply bind_Ok in Hk as (x & Hx%get_inv & Hk).
  unfold uyield. rewrite (get_sim r u e x Hs Hx). simpl. case_bool_decide as Hst; simpl in *.
  - by apply (state_leave_follows main e k r u x HoldUp Hs Hx Hst) in Hk.
  - injection Hk as <- <-. eauto.
Qed.

Lemma kill_follows e k r u :
  sim r u → (∀ d x, t_main_executor r = Some d → executors r !! e = Some x → state_ x = Exec → aligned (Some e) d r) →
  follows (kill e k r) (ukill e k u).
Proof.
  intros Hs Ha k' r' Hk. unfold kill in Hk. apply bind_Ok in Hk as (x & Hx%get_inv & Hk).
  unfold ukill. rewrite (get_sim r u e x Hs Hx). simpl. case_bool_decide as Hst; simpl in *.
  - apply (state_leave_follows false e k r u x Terminal Hs Hx Hst) in Hk; [done|done|]. intros d Hd. by eapply Ha.
  - injection Hk as <- <-. eexists. split; [done|]. by eapply (sim_update r u e x (set_state Terminal x)).
Qed.

Lemma tail_follows r u :
  sim r u → (∀ d e, t_main_executor r = Some d → t_cur_executor r = Some e → aligned (Some e) d r) →
  follows (executorMainFunc_tail r) (uexecutorMainFunc_tail u).
Proof.
  intros Hs Ha k' r' Hk. unfold executorMainFunc_tail in Hk. apply bind_Ok in Hk as (e & He%of_option_Ok & Hk).
  unfold uexecutorMainFunc_tail. assert (Hu : t_cur_executor (u_rt u) = Some e) by by rewrite (sim_rt _ _ Hs).
  rewrite Hu. simpl. unfold terminal in Hk. apply bind_Ok in Hk as (x & Hx%get_inv & Hk).
  unfold uterminal. rewrite (get_sim r u e x Hs Hx). simpl.
  case_bool_decide as Hst; [|done]. simpl in *.
  apply (state_leave_follows false e MainTail r u x Terminal Hs Hx Hst) in Hk; [done|done|]. intros d Hd. by apply Ha.
Qed.

Lemma new_sim f r u e r' :
  sim r u → Executor_callback f DefaultStackSize r = Ok (e, r') →
  ∃ u', uExecutor_callback f DefaultStackSize u = Ok (e, u') ∧ sim r' u'.
Proof.
  intros Hs Hn. destruct f as [f|]; [|done]. injection Hn as <- <-. eexists. split.
  { unfold uExecutor_callback. rewrite (sim_rt _ _ Hs). reflexivity. }
  destruct Hs as [H1 H2 H3 H4]. constructor; simpl; [|intros e y Hy|intros e y Hy He|done].
  - unfold forget, set_executors. simpl. by rewrite fmap_insert.
  - rewrite lookup_insert_Some in Hy. destruct Hy as [(<- & <-)|(_ & Hy)]; [done|by apply H2].
  - rewrite lookup_insert_Some in Hy. destruct Hy as [(<- & <-)|(_ & Hy)]; [done|by eapply H3].
Qed.

(** ** The machines in step *)

Record msim (c : config) (u : mconfig urt) : Prop := {
  ms_rt : sim (rt c) (m_rt u);
  ms_sch : m_sch u = sch c;
  ms_pc : m_pc u = pc c;
  ms_trace : m_trace u = trace c
}.

Definition move_sim (m : move) (n : mmove urt) : Prop :=
  match m, n with
  | Go c, MGo u | Block c, MBlock u => msim c u
  | Call op cb k, MCall op' cb' k' => op' = op ∧ cb' = cb ∧ k' = k
  | Done, MDone => True
  | _, _ => False
  end.

Definition mfollows (o : outcome move) (o' : outcome (mmove urt)) : Prop :=
  ∀ m, o = Ok m → ∃ n, o' = Ok n ∧ move_sim m n.

Lemma goto_follows o o' s t :
  follows o o' →
  mfollows (p ← o; Ok (Go (mkConfig p.2 s p.1 t))) (p ← o'; Ok (MGo (mkM p.2 s p.1 t))).
Proof.
  intros Hf m Hm. apply bind_Ok in Hm as ([k r] & Ho & [= <-]). destruct (Hf k r Ho) as (v & Hv & Hsim).
  exists (MGo (mkM v s k t)). split; [by rewrite Hv|]. by constructor.
Qed.

Lemma ret_follows c u s k t : msim c u →
  mfollows (Ok (Go (mkConfig (rt c) s k t))) (Ok (MGo (mkM (m_rt u) s k t))).
Proof. intros Hc m [= <-]. eexists. split; [done|]. constructor; try done. apply Hc. Qed.

Lemma leave_loop_follows b s c u :
  inv b s c → msim c u → mfollows (leave_loop c) (m_leave_loop u).
Proof.
  intros Hi Hc. unfold leave_loop, m_leave_loop, goto, mgoto. rewrite (ms_sch _ _ Hc), (ms_trace _ _ Hc).
  apply goto_follows. apply yield_follows; [apply Hc|]. intros d Hd. rewrite (i_base b s c Hi) in Hd.
  injection Hd as <-. destruct (i_b b s c Hi) as (x & Hx & _ & Hctx). intros y d' kd Hy Hcy.
  rewrite (i_sched b s c Hi). congruence.
Qed.

(** The scheduler switches to a task. *)
Lemma task_exec_follows b s c u e k :
  inv b s c → msim c u → pc c = SchedHead → valid b s (rt c) e →
  follows (exec e k (rt c)) (uexec e k (m_rt u)).
Proof.
  intros Hi Hc Hpc ((x & Hx) & Heb & Hes) k' r' Hk. unfold exec in Hk. apply bind_Ok in Hk as ([] & Ha & Hk).
  unfold uexec. assert (Hm : t_main_executor (u_rt (m_rt u)) = t_main_executor (rt c))
    by by rewrite (sim_rt _ _ (ms_rt _ _ Hc)).
  rewrite Hm, Ha. simpl. refine (doExec_follows false e k _ _ (ms_rt _ _ Hc) _ _ k' r' Hk).
  - exists s. destruct (i_s b s c Hi) as (y & Hy & Hst). rewrite Hpc in Hst. split_and!; [apply Hi|by eexists|].
    by eapply (sim_exec _ _ (ms_rt _ _ Hc)).
  - intros y d kd Hy Hst Hcy. rewrite (i_main b s c Hi). pose proof (i_tasks b s c Hi e y Hy Heb Hes) as Ht.
    unfold task_ok in Ht. destruct Hst as [Hst|Hst]; rewrite Hst in Ht; [|done].
    destruct Ht as (k0 & Hk0 & _). congruence.
Qed.

Lemma head_follows b s c u :
  inv b s c → msim c u → pc c = SchedHead → mfollows (threadScheduleFunc_head c) (m_head u).
Proof.
  intros Hi Hc Hpc. unfold threadScheduleFunc_head, m_head. rewrite (ms_sch _ _ Hc), (ms_pc _ _ Hc), (ms_trace _ _ Hc).
  destruct (stop_pending (sch c)); [by eapply leave_loop_follows|].
  assert (Hq : ∀ q, (∀ o, Some o ∈ q → Some o ∈ ready_executors_ (scheduleAll (sch c))) →
    mfollows (leave_loop (mkConfig (rt c) (set_ready q (scheduleAll (sch c))) (pc c) (trace c)))
      (m_leave_loop (mkM (m_rt u) (set_ready q (scheduleAll (sch c))) (pc c) (trace c)))).
  { intros q Hq. apply (leave_loop_follows b s); [|by constructor; try done; apply Hc].
    destruct (scheduleAll_spec (sch c)) as (_ & Hrem & _ & _ & _ & _ & Hse).
    apply (inv_queues b s c); simpl; try done; [|by apply Hi].
    intros o. rewrite Hrem, app_nil_r. intros Ho. by apply (i_queue_all b s c), Hq. }
  destruct (ready_executors_ (scheduleAll (sch c))) as [|[e|] q] eqn:Eq.
  - replace (scheduleAll (sch c)) with (set_ready [] (scheduleAll (sch c)))
      by (destruct (scheduleAll (sch c)); simpl in *; by subst).
    cbn -[stopping_ leave_loop m_leave_loop set_ready scheduleAll].
    destruct (stopping_ _); [by apply Hq|]. intros m [= <-]. eexists. split; [done|]. constructor; try done. apply Hc.
  - assert (He : valid b s (rt c) e) by (apply (i_queue_all b s c); [done|rewrite Eq; set_solver]).
    pose proof He as ((x & Hx) & _). simpl. rewrite (get_Some e _ x Hx), (get_sim _ _ e x (ms_rt _ _ Hc) Hx). simpl.
    case_bool_decide; [|apply ret_follows; [done..|exact Hc]].
    apply goto_follows. by eapply task_exec_follows.
  - destruct (stopping_ (set_ready q _)); [apply Hq; set_solver|].
    intros m [= <-]. eexists. split; [done|]. constructor; try done. apply Hc.
Qed.

Lemma code_follows_run b s c u k :
  inv b s c → msim c u → pc c = Run k → mfollows (exec_code c) (m_code u).
Proof.
  intros Hi Hc Hpc. pose proof (i_pc b s c Hi) as Hp. rewrite Hpc in Hp.
  destruct Hp as (Hk & e & (_ & Heb & Hes) & Hm & Hcur & (x & Hx & Hst) & (y & Hy & Hcy)).
  pose proof (ms_rt _ _ Hc) as Hs.
  assert (Hal : aligned (Some e) s (rt c)) by (intros z d kd Hz Hcz; congruence).
  assert (Hucur : t_cur_executor (u_rt (m_rt u)) = Some e) by by rewrite (sim_rt _ _ Hs).
  unfold exec_code, m_code. rewrite (ms_pc _ _ Hc), Hpc.
  assert (Htail : mfollows (p ← executorMainFunc_tail (rt c); Ok (goto c p))
    (p ← b_tail (m_rt u); Ok (mgoto u p))).
  { unfold goto, mgoto. rewrite (ms_sch _ _ Hc), (ms_trace _ _ Hc). apply goto_follows, tail_follows; [done|].
    intros d e' Hd He'. rewrite Hm in Hd. rewrite Hcur in He'. by simplify_eq. }
  destruct k as [| |k|e' k|e' k|body k|e' k|k|k|n k|op cb k]; try done;
    try exact Htail; cbn [run_coro m_run]; unfold goto, mgoto; rewrite ?(ms_sch _ _ Hc), ?(ms_trace _ _ Hc).
  - change (b_getCurrent (m_rt u)) with (ugetCurrent (m_rt u)). unfold getCurrent, ugetCurrent. rewrite Hcur, Hucur.
    apply goto_follows. apply yield_follows; [done|]. intros d Hd. rewrite Hm in Hd. by simplify_eq.
  - destruct Hk as (((x' & Hx') & Hb' & Hs') & _). apply goto_follows, kill_follows; [done|].
    intros d z Hd Hz Hzst. rewrite Hm in Hd. injection Hd as <-.
    pose proof (i_tasks b s c Hi e' z Hz Hb' Hs') as Ht. unfold task_ok in Ht. rewrite Hzst, Hcur in Ht. by simplify_eq.
  - intros m Hmv. apply bind_Ok in Hmv as ([e' r'] & Hn & [= <-]).
    destruct (new_sim _ _ _ _ _ Hs Hn) as (u' & Hu' & Hs'). eexists. split.
    { change (b_new (Some (Body body)) DefaultStackSize (m_rt u)) with
        (uExecutor_callback (Some (Body body)) DefaultStackSize (m_rt u)). rewrite Hu'. reflexivity. }
    by constructor.
  - destruct Hk as (((x' & Hx') & _) & _). rewrite (get_Some e' _ x' Hx').
    change (view (m_rt u)) with (u_rt (m_rt u)). rewrite (get_sim _ _ e' x' Hs Hx'). cbn [mbind outcome_bind].
    destruct (addExecutor _ _) as [add s']. by apply ret_follows.
  - by apply ret_follows.
  - change (view (m_rt u)) with (u_rt (m_rt u)). rewrite Hucur, Hcur. by apply ret_follows.
  - intros m [= <-]. eexists. split; [done|]. done.
Qed.

Lemma after_follows e c u :
  msim c u → mfollows (threadScheduleFunc_after e c) (m_after e u).
Proof.
  intros Hc m Hm. unfold threadScheduleFunc_after in Hm. apply bind_Ok in Hm as (x & Hx%get_inv & Hm).
  unfold m_after. change (view (m_rt u)) with (u_rt (m_rt u)). rewrite (get_sim _ _ e x (ms_rt _ _ Hc) Hx).
  rewrite (ms_sch _ _ Hc), (ms_trace _ _ Hc). simpl. destruct (state_ x); try done; by eapply ret_follows.
Qed.

Lemma inv_follows b s c u : inv b s c → msim c u → mfollows (exec_code c) (m_code u).
Proof.
  intros Hi Hc. destruct (pc c) as [k|k| |e| |] eqn:Hpc; [by eapply code_follows_run|..];
    pose proof (i_pc b s c Hi) as Hp; rewrite Hpc in Hp; try done;
    unfold exec_code, m_code; rewrite (ms_pc _ _ Hc), Hpc.
  - destruct Hp as (-> & _). intros m [= <-]. by exists MDone.
  - by eapply head_follows.
  - by apply after_follows.
Qed.

Lemma starting_follows b s c u : starting b s c → msim c u → mfollows (exec_code c) (m_code u).
Proof.
  intros (Hp & l & _ & Hl) Hc. pose proof (ms_rt _ _ Hc) as Hs.
  unfold exec_code, m_code. rewrite (ms_pc _ _ Hc). destruct Hl as [Hpc|(n & Hpc & ((x & Hx) & _))].
  - destruct l as [|body l]; rewrite Hpc; cbn [launch run_coro m_run]; unfold goto, mgoto;
      rewrite (ms_sch _ _ Hc), (ms_trace _ _ Hc).
    + apply goto_follows. rewrite (p_sched b s c Hp). apply (doExec_follows true s); [done| |].
      * rewrite (p_base b s c Hp). destruct (p_b b s c Hp) as (xb & Hxb & _). exists b. split_and!; [done|by eexists|].
        apply (sim_base _ _ Hs), Hp.
      * intros y d kd Hy Hst. destruct (p_s b s c Hp) as (xs & Hxs & Hi & _). destruct Hst; congruence.
    + intros m Hmv. apply bind_Ok in Hmv as ([e' r'] & Hn & [= <-]).
      destruct (new_sim _ _ _ _ _ Hs Hn) as (u' & Hu' & Hs'). eexists. split.
      { change (b_new (Some (Body body)) DefaultStackSize (m_rt u)) with
          (uExecutor_callback (Some (Body body)) DefaultStackSize (m_rt u)). rewrite Hu'. reflexivity. }
      by constructor.
  - rewrite Hpc. cbn [run_coro m_run]. rewrite (get_Some n _ x Hx).
    change (view (m_rt u)) with (u_rt (m_rt u)). rewrite (get_sim _ _ n x Hs Hx). cbn [mbind outcome_bind].
    rewrite (ms_sch _ _ Hc), (ms_trace _ _ Hc). destruct (addExecutor _ _) as [add s']. by apply ret_follows.
Qed.

Lemma code_follows b s c u :
  starting b s c ∨ inv b s c → msim c u →
  ∃ m n, exec_code c = Ok m ∧ m_code u = Ok n ∧ move_sim m n.
Proof.
  intros [Hst|Hi] Hc.
  - destruct (starting_code b s c Hst) as (c' & Hc' & _).
    destruct (starting_follows b s c u Hst Hc _ Hc') as (n & Hn & Hmn). eauto.
  - destruct (code_ok b s c Hi) as (m & Hm & _). destruct (inv_follows b s c u Hi Hc _ Hm) as (n & Hn & Hmn). eauto.
Qed.

(** *** Steps, both ways *)

Lemma task_sim c u e : msim c u → task c e ↔ m_task u e.
Proof.
  intros Hc. unfold task, m_task. change (view (m_rt u)) with (u_rt (m_rt u)).
  rewrite (sim_rt _ _ (ms_rt _ _ Hc)), (ms_sch _ _ Hc), forget_lookup, fmap_is_Some. done.
Qed.

Lemma msim_sch s c u : msim c u → msim (with_sch s c) (m_with_sch s u).
Proof. intros Hc. constructor; try done; apply Hc. Qed.

Lemma effect_follows null c c' u :
  msim c u → io_effect null c c' → ∃ u', m_effect null u u' ∧ msim c' u'.
Proof.
  intros Hc He. destruct He as [c o Hn Ht|c body [e r'] Hb Hn|c].
  - eexists. split; [apply (m_eff_add null u o); [done|]|rewrite (ms_sch _ _ Hc); by apply msim_sch].
    intros e He. by eapply task_sim, Ht.
  - destruct (new_sim _ _ _ _ _ (ms_rt _ _ Hc) Hn) as (v & Hv & Hs).
    eexists. split; [apply (m_eff_new null u body (e, v)); [|done]|constructor; [done|apply Hc..]].
    eapply managed_mono, Hb. intros e' He'. by eapply task_sim.
  - eexists. split; [apply (m_eff_stop null u)|rewrite (ms_sch _ _ Hc); by apply msim_sch].
Qed.

Lemma effect_back null c u u' :
  msim c u → m_effect null u u' → ∃ c', io_effect null c c' ∧ msim c' u'.
Proof.
  intros Hc He. destruct He as [u o Hn Ht|u body [e v] Hb Hn|u].
  - eexists. split; [apply (eff_add null c o); [done|]|rewrite (ms_sch _ _ Hc); by apply msim_sch].
    intros e He. by eapply task_sim, Ht.
  - destruct (new_sim (Some (Body body)) (rt c) (m_rt u) _ _ (ms_rt _ _ Hc) eq_refl) as (v' & Hv & Hs).
    pose proof (eq_trans (eq_sym Hn) Hv) as [= -> ->].
    eexists. split; [eapply (eff_new null c body); [|reflexivity]|constructor; [done|apply Hc..]].
    eapply managed_mono, Hb. intros e' He'. by eapply task_sim.
  - eexists. split; [apply (eff_stop null c)|rewrite (ms_sch _ _ Hc); by apply msim_sch].
Qed.

Lemma effects_follow null c c' : star (io_effect null) c c' → ∀ u, msim c u →
  ∃ u', star (m_effect null) u u' ∧ msim c' u'.
Proof.
  induction 1 as [c|c c1 c2 He _ IH]; intros u Hc; [by exists u; split; [apply star_refl|]|].
  destruct (effect_follows null c c1 u Hc He) as (u1 & Hu1 & Hc1). destruct (IH u1 Hc1) as (u2 & Hu2 & Hc2).
  exists u2. split; [by eapply star_step|done].
Qed.

Lemma effects_back null u u' : star (m_effect null) u u' → ∀ c, msim c u →
  ∃ c', star (io_effect null) c c' ∧ msim c' u'.
Proof.
  induction 1 as [u|u u1 u2 He _ IH]; intros c Hc; [by exists c; split; [apply star_refl|]|].
  destruct (effect_back null c u u1 Hc He) as (c1 & Hu1 & Hc1). destruct (IH c1 Hc1) as (c2 & Hu2 & Hc2).
  exists c2. split; [by eapply star_step|done].
Qed.

Lemma msim_code k c u : msim c u → msim (at_code k c) (mkM (m_rt u) (m_sch u) k (m_trace u)).
Proof. intros Hc. constructor; try done; apply Hc. Qed.

Lemma step_follows b s c c' u :
  starting b s c ∨ inv b s c → msim c u → step c c' → ∃ u', m_step u u' ∧ msim c' u'.
Proof.
  intros Hi Hc Hs. destruct (code_follows b s c u Hi Hc) as (m & n & Hm & Hn & Hmn).
  destruct Hs as [c c' Hu|c c1 c2 Hb He|c e Ht].
  - destruct Hu as [c c' Hg|c op cb k c1 a Hg He]; rewrite Hg in Hm; injection Hm as <-; destruct n as [v| |op' cb' k'|]; try done.
    + exists v. split; [by apply m_step_go|done].
    + destruct Hmn as (-> & -> & ->). destruct (effects_follow _ _ _ He u Hc) as (u1 & Hu1 & Hc1).
      eexists. split; [by eapply m_step_call|by apply msim_code].
  - rewrite Hb in Hm. injection Hm as <-. destruct n as [|v| |]; try done.
    destruct (effects_follow _ _ _ He v Hmn) as (u1 & Hu1 & Hc1). exists u1. split; [by eapply m_step_block|done].
  - eexists. split; [apply m_step_remote; by eapply task_sim|]. rewrite (ms_sch _ _ Hc). by apply msim_sch.
Qed.

Lemma step_back b s c u u' :
  starting b s c ∨ inv b s c → msim c u → m_step u u' → ∃ c', step c c' ∧ msim c' u'.
Proof.
  intros Hi Hc Hs. destruct (code_follows b s c u Hi Hc) as (m & n & Hm & Hn & Hmn).
  destruct Hs as [u u' Hg|u op cb k u1 a Hg He|u u1 u2 Hb He|u e Ht].
  - rewrite Hg in Hn. injection Hn as <-. destruct m as [c'| | |]; try done.
    exists c'. split; [by apply step_own, ustep_go|done].
  - rewrite Hg in Hn. injection Hn as <-. destruct m as [| |op' cb' k'|]; try done. destruct Hmn as (<- & <- & <-).
    destruct (effects_back _ _ _ He c Hc) as (c1 & Hc1 & Hs1).
    eexists. split; [by eapply step_own, ustep_call|by apply msim_code].
  - rewrite Hb in Hn. injection Hn as <-. destruct m as [|c1| |]; try done.
    destruct (effects_back _ _ _ He c1 Hmn) as (c2 & Hc2 & Hs2). exists c2. split; [by eapply step_block|done].
  - eexists. split; [apply step_remote; by eapply task_sim|]. rewrite (ms_sch _ _ Hc). by apply msim_sch.
Qed.

Lemma run_follows b s c c' : star step c c' → ∀ u, starting b s c ∨ inv b s c → msim c u →
  ∃ u', star m_step u u' ∧ msim c' u'.
Proof.
  induction 1 as [c|c c1 c2 He _ IH]; intros u Hi Hc; [by exists u; split; [apply star_refl|]|].
  destruct (step_follows b s c c1 u Hi Hc He) as (u1 & Hu1 & Hc1).
  destruct (IH u1) as (u2 & Hu2 & Hc2); [by eapply starting_step|done|].
  exists u2. split; [by eapply star_step|done].
Qed.

Lemma run_back b s u u' : star m_step u u' → ∀ c, starting b s c ∨ inv b s c → msim c u →
  ∃ c', star step c c' ∧ (starting b s c' ∨ inv b s c') ∧ msim c' u'.
Proof.
  induction 1 as [u|u u1 u2 He _ IH]; intros c Hi Hc; [by exists c; split; [apply star_refl|]|].
  destruct (step_back b s c u u1 Hi Hc He) as (c1 & Hc1 & Hs1).
  destruct (IH c1) as (c2 & Hu2 & Hc2); [by eapply starting_step|done|].
  exists c2. split; [by eapply star_step|done].
Qed.

Definition uthread_config (k : coro) : mconfig urt :=
  match uthread k with Ok u => u | _ => mkM (mkU runtime_init ∅) (mkScheduler false false true false [] 0 []) (Base CRet) [] end.

Lemma thread_sim k : uthread k = Ok (uthread_config k) ∧ msim (thread_config k) (uthread_config k).
Proof.
  split; [reflexivity|]. constructor; try reflexivity. constructor.
  - vm_compute. reflexivity.
  - intros e x Hx. change (executors (rt (thread_config k))) with
      (<[1%nat := mkExecutor true Init 2 DefaultStackSize None (Some ScheduleLoop) None]>
        (<[0%nat := mkExecutor false Ready 1 0 None None None]> (∅ : gmap eid Executor))) in Hx.
    rewrite !lookup_insert_Some, lookup_empty in Hx. naive_solver.
  - intros e x Hx. change (executors (rt (thread_config k))) with
      (<[1%nat := mkExecutor true Init 2 DefaultStackSize None (Some ScheduleLoop) None]>
        (<[0%nat := mkExecutor false Ready 1 0 None None None]> (∅ : gmap eid Executor))) in Hx.
    rewrite !lookup_insert_Some, lookup_empty in Hx. naive_solver.
  - intros b Hb. injection Hb as <-. by eexists.
Qed.

(** ** Starting a finished executor again *)

(** After [reuse] a finished executor runs its callback from the start: here
    [resetContext] sets up the context that is used, unlike the one of the other
    build ([reuse_does_not_restart]). *)
Lemma reuse_restarts m e k c u x y :
  t_main_executor (u_rt u) = Some m → m ≠ e → executors (u_rt u) !! m = Some y → is_Some (uctxs u !! m) →
  executors (u_rt u) !! e = Some x → is_call_back_type_ x = true → state_ x = Terminal →
  callback_ x = Some (Body c) → is_Some (stack_ x) → is_Some (uctxs u !! e) →
  ∃ u1 u2, ureuse e u = Ok u1 ∧ uexec e k u1 = Ok (Run c, u2) ∧
    t_cur_executor (u_rt u2) = Some e ∧ uctxs u2 !! m = Some (USaved k).
Proof.
  intros Hm Hne Hy [cm Hcm] Hx Hcb Hst Hbody [st Hstk] [ce Hce].
  eexists _, _. split.
  { unfold ureuse. rewrite (get_Some e _ x Hx). simpl. rewrite Hcb, Hst. simpl.
    unfold uresetContext. simpl. rewrite (get_Some e _ (set_state Ready x)) by apply lookup_insert_eq. simpl.
    rewrite Hstk, Hce. reflexivity. }
  split.
  { unfold uexec. simpl. rewrite Hm. rewrite bool_decide_true by congruence. simpl.
    unfold udoExec. simpl. rewrite (get_Some e _ (set_state Ready x)) by apply lookup_insert_eq. simpl.
    unfold uexecInner, uswapContext. simpl. rewrite Hm. simpl.
    rewrite (get_Some m _ y) by (simpl; by rewrite !lookup_insert_ne). simpl.
    rewrite (get_Some e _ (set_state Exec (set_state Ready x))) by apply lookup_insert_eq. simpl.
    rewrite (lookup_insert_ne (uctxs u) e m UEntry) by (intros ->; done). rewrite Hcm. simpl. rewrite lookup_insert_eq. simpl.
    rewrite Hbody. reflexivity. }
  split; [done|]. simpl. by rewrite lookup_insert_eq.
Qed.

(** ** Properties *)

(** C4: The two builds of the coroutines agree.  For every program of [managed]
    tasks (which do not switch to executors themselves nor reuse them, where the
    builds differ), each configuration the scheduler reaches on fcontext is matched by
    one it reaches on ucontext and conversely, whatever other threads, waiting and
    the IO manager do: same executors and states, same queues, same code to run,
    same trace, every suspended executor holding the same code; so the ucontext
    build does not fault either. *)
Theorem builds_agree bodies :
  Forall (managed (λ _, False)) bodies →
  (∀ c, star step (thread_config (launch bodies)) c →
     ∃ u, star m_step (uthread_config (launch bodies)) u ∧ msim c u) ∧
  (∀ u, star m_step (uthread_config (launch bodies)) u →
     ∃ c, star step (thread_config (launch bodies)) c ∧ msim c u ∧ safe c ∧ ∃ n, m_code u = Ok n).
Proof.
  intros Hb. pose proof (launch_starting bodies Hb) as Hst. destruct (thread_sim (launch bodies)) as (_ & Hs). split.
  - intros c Hc. exact (run_follows 0 1 _ _ Hc _ (or_introl Hst) Hs).
  - intros u Hu. destruct (run_back 0 1 _ _ Hu _ (or_introl Hst) Hs) as (c & Hc & Hi & Hcu).
    exists c. destruct (code_follows 0 1 c u Hi Hcu) as (m & n & _ & Hn & _).
    split_and!; [done|done|by apply starting_safe|by exists n].
Qed.

(** ** Witnesses *)

Module UContextEx.

(** Runs the machine's own steps. *)
Fixpoint m_run_steps (fuel : nat) (u : mconfig urt) : outcome (mmove urt) :=
  match fuel with
  | O => Ok (MGo u)
  | S n =>
      m ← m_code u;
      match m with MGo u' => m_run_steps n u' | _ => Ok m end
  end.

(** The whole program of the scheduler's tests ends on this build too. *)
Example sequence_thread_ends : (u ← uthread sequence_thread; m_run_steps 40 u) = Ok MDone.
Proof. vm_compute. reflexivity. Qed.

(** The first task has run up to its yield. *)
Definition c9 : config := SchedulerEx.config_after 9.

Lemma c9_reached : star step (thread_config (launch SchedulerEx.bodies)) c9.
Proof.
  assert (Hd : star dstep (thread_config (launch SchedulerEx.bodies)) c9)
    by (apply (SchedulerEx.run_steps_star 9); vm_compute; reflexivity).
  induction Hd as [|c c1 c2 Hc _ IH]; [apply star_refl|]. eapply star_step; [by apply step_own, ustep_go|done].
Qed.

Lemma builds_agree_witness :
  ∃ u, star m_step (uthread_config (launch SchedulerEx.bodies)) u ∧ m_pc u = Run (CYield CRet) ∧
    m_trace u = [EvExec 2; EvDo (Some 2) 0]%nat.
Proof.
  destruct (builds_agree SchedulerEx.bodies SchedulerEx.bodies_managed) as (Hf & _).
  destruct (Hf c9 c9_reached) as (u & Hu & Hs). exists u. split; [exact Hu|].
  rewrite (ms_pc _ _ Hs), (ms_trace _ _ Hs). vm_compute. split; reflexivity.
Defined.
End UContextEx.
