(* ===== verification/RemoteTaskList.v ===== *)
(** * The lock-free list of remote tasks (include/coroutine/scheduler.h, RemoteTaskList)

    Any number of threads run [insertFront] while the scheduler's thread runs
    [scheduleAll].  Each atomic operation on [head] and each access to a node is
    a transition of its own, the threads are interleaved arbitrarily, and
    addresses of deleted nodes may be handed out again by [new].  The
    interleaving is sequentially consistent.

    The specification is the pair of atomic operations [addRemoteExecutor] and
    [scheduleAll] of Scheduler.v. *)

From S2P Require Import Prelude Executor Scheduler.
From stdpp Require Import options.

Abbreviation addr := nat.

Record Node := mkNode { value : option eid; next : option addr }.

(** The memory the threads share. *)
Record shared := mkShared {
  head : option addr;
  nodes : gmap addr Node
}.

(** ** insertFront *)

Inductive producer :=
| PIdle
| PCall (v : option eid)                   (* new Node(executor, nullptr) *)
| PLoad (n : addr)                         (* head.load *)
| PLink (n : addr) (old : option addr)     (* new_node->next = old_head *)
| PCas (n : addr) (old : option addr)      (* compare_exchange_strong *)
| PRet (b : bool).

(** One step; [fresh] is the address [new] returns. *)
Definition insertFront_step (p : producer) (fresh : addr) (m : shared)
    : outcome (producer * shared) :=
  match p with
  | PCall v => Ok (PLoad fresh, mkShared (head m) (<[fresh := mkNode v None]> (nodes m)))
  | PLoad n => Ok (PLink n (head m), m)
  | PLink n old =>
      x ← of_option UseAfterFree (nodes m !! n);
      Ok (PCas n old, mkShared (head m) (<[n := mkNode (value x) old]> (nodes m)))
  | PCas n old =>
      if decide (head m = old)
      then Ok (PRet (bool_decide (old = None)), mkShared (Some n) (nodes m))
      else Ok (PLink n (head m), m)
  | PIdle | PRet _ => Ok (p, m)
  end.

(** ** scheduleAll *)

Inductive consumer :=
| CIdle
| CDrain (_head : option addr).

Definition scheduleAll_step (k : consumer) (m : shared) (s : Scheduler)
    : outcome (consumer * shared * Scheduler) :=
  match k with
  | CIdle => Ok (CDrain (head m), mkShared None (nodes m), s)
  | CDrain None => Ok (CIdle, m, s)
  | CDrain (Some a) =>
      x ← of_option UseAfterFree (nodes m !! a);
      Ok (CDrain (next x), mkShared (head m) (delete a (nodes m)), (addExecutor (value x) s).2)
  end.

(** [empty] *)
Definition empty (m : shared) : bool := bool_decide (head m = None).

(** ** The system of threads *)

Record sys := mkSys {
  mem : shared;
  producers : list producer;
  drainer : consumer;
  sched : Scheduler
}.

(** What a step amounts to for the specification. *)
Inductive label :=
| Push (v : option eid) (b : bool)   (* insertFront has inserted and returns b *)
| Take                               (* scheduleAll *)
| Local (e : option eid).            (* addExecutor on the scheduler's thread *)

(** The successful exchange of [insertFront] is where it takes effect. *)
Definition label_of (p p' : producer) (m : shared) : list label :=
  match p, p' with
  | PCas n _, PRet b =>
      match nodes m !! n with Some x => [Push (value x) b] | None => [] end
  | _, _ => []
  end.

Inductive sys_step : sys → list label → sys → Prop :=
| sys_call c i v :
    producers c !! i = Some PIdle →
    sys_step c [] (mkSys (mem c) (<[i := PCall v]> (producers c)) (drainer c) (sched c))
| sys_insert c i p fresh p' m' :
    producers c !! i = Some p → nodes (mem c) !! fresh = None →
    insertFront_step p fresh (mem c) = Ok (p', m') →
    sys_step c (label_of p p' (mem c)) (mkSys m' (<[i := p']> (producers c)) (drainer c) (sched c))
| sys_return c i b :
    producers c !! i = Some (PRet b) →
    sys_step c [] (mkSys (mem c) (<[i := PIdle]> (producers c)) (drainer c) (sched c))
| sys_take c k m' s' :
    scheduleAll_step (drainer c) (mem c) (sched c) = Ok (k, m', s') →
    sys_step c (match drainer c with CIdle => [Take] | _ => [] end) (mkSys m' (producers c) k s')
| sys_local c e :
    drainer c = CIdle →
    sys_step c [Local e] (mkSys (mem c) (producers c) (drainer c) ((addExecutor e (sched c)).2)).

Inductive sys_run : sys → list label → sys → Prop :=
| sys_run_nil c : sys_run c [] c
| sys_run_snoc c ls c1 l c2 : sys_run c ls c1 → sys_step c1 l c2 → sys_run c (ls ++ l) c2.

(** The specification: atomic operations on the scheduler. *)
Inductive spec_step : Scheduler → label → Scheduler → Prop :=
| spec_push s v : spec_step s (Push v (addRemoteExecutor v s).1) (addRemoteExecutor v s).2
| spec_take s : spec_step s Take (scheduleAll s)
| spec_local s e : spec_step s (Local e) (addExecutor e s).2.

Inductive spec_run : Scheduler → list label → Scheduler → Prop :=
| spec_run_nil s : spec_run s [] s
| spec_run_cons s l s1 ls s2 : spec_step s l s1 → spec_run s1 ls s2 → spec_run s (l :: ls) s2.

(** ** Invariant *)

(** From [o] on, the nodes [l] hold the values [vs]. *)
Inductive chain (h : gmap addr Node) : option addr → list addr → list (option eid) → Prop :=
| chain_nil : chain h None [] []
| chain_cons a v nx l vs :
    h !! a = Some (mkNode v nx) → chain h nx l vs → chain h (Some a) (a :: l) (v :: vs).

Definition owned (p : producer) : option addr :=
  match p with
  | PLoad n | PLink n _ | PCas n _ => Some n
  | _ => None
  end.

Definition taken (k : consumer) : option addr :=
  match k with CIdle => None | CDrain o => o end.

Record list_inv (c : sys) (lh : list addr) (vh : list (option eid))
    (lc : list addr) (vc : list (option eid)) : Prop := {
  li_head : chain (nodes (mem c)) (head (mem c)) lh vh;
  li_cons : chain (nodes (mem c)) (taken (drainer c)) lc vc;
  li_nodup : NoDup (lh ++ lc);
  li_owned : ∀ i p n, producers c !! i = Some p → owned p = Some n →
    n ∉ lh ++ lc ∧ is_Some (nodes (mem c) !! n) ∧
    ∀ j q, producers c !! j = Some q → owned q = Some n → i = j;
  li_linked : ∀ i n old, producers c !! i = Some (PCas n old) →
    ∃ v, nodes (mem c) !! n = Some (mkNode v old);
  li_dom : ∀ a, is_Some (nodes (mem c) !! a) →
    a ∈ lh ++ lc ∨ ∃ i p, producers c !! i = Some p ∧ owned p = Some a
}.

(** The abstract scheduler behind a system state: what is still being drained
    counts as added. *)
Definition abstracts (c : sys) (s : Scheduler) : Prop :=
  ∃ lh vh lc vc, list_inv c lh vh lc vc ∧
    s = foldl (λ s e, (addExecutor e s).2) (set_remote vh (sched c)) vc.

(** ** Lemmas *)

Lemma chain_in h o l vs a : chain h o l vs → a ∈ l → is_Some (h !! a).
Proof. induction 1; set_solver. Qed.

Lemma chain_frame h h' o l vs :
  chain h o l vs → (∀ a, a ∈ l → h' !! a = h !! a) → chain h' o l vs.
Proof.
  induction 1 as [|a v nx l vs Ha Hc IH]; intros Hf; [constructor|].
  econstructor; [rewrite Hf; [done|set_solver]|]. apply IH. set_solver.
Qed.

Lemma chain_None h l vs : chain h None l vs → l = [] ∧ vs = [].
Proof. by inversion 1. Qed.

Lemma chain_empty h o l vs : chain h o l vs → (o = None ↔ vs = []).
Proof. inversion 1; naive_solver. Qed.

Lemma add_set_remote r s e :
  (addExecutor e (set_remote r s)).2 = set_remote r (addExecutor e s).2.
Proof. unfold addExecutor. simpl. by destruct (stopping_ s). Qed.

Lemma foldl_add_remote r vc : ∀ s,
  foldl (λ s e, (addExecutor e s).2) (set_remote r s) vc =
  set_remote r (foldl (λ s e, (addExecutor e s).2) s vc).
Proof. induction vc as [|v vc IH]; intros s; [done|]. cbn [foldl]. by rewrite add_set_remote, IH. Qed.

Lemma list_inv_owner c lh vh lc vc i p p' m' lh' vh' :
  list_inv c lh vh lc vc → producers c !! i = Some p →
  chain (nodes m') (head m') lh' vh' →
  (∀ a, a ∈ lc → nodes m' !! a = nodes (mem c) !! a) →
  NoDup (lh' ++ lc) →
  (∀ a, is_Some (nodes m' !! a) → a ∈ lh' ++ lc ∨ owned p' = Some a ∨
     (is_Some (nodes (mem c) !! a) ∧ a ∉ lh ++ lc ∧ owned p ≠ Some a)) →
  (∀ n, owned p' = Some n → n ∉ lh' ++ lc ∧ is_Some (nodes m' !! n) ∧
     (owned p = Some n ∨ nodes (mem c) !! n = None)) →
  (∀ n old, p' = PCas n old → ∃ v, nodes m' !! n = Some (mkNode v old)) →
  (∀ n, is_Some (nodes (mem c) !! n) → n ∉ lh ++ lc → owned p ≠ Some n →
     n ∉ lh' ++ lc ∧ nodes m' !! n = nodes (mem c) !! n) →
  list_inv (mkSys m' (<[i := p']> (producers c)) (drainer c) (sched c)) lh' vh' lc vc.
Proof.
  intros Hi Hp Hch Hlc Hnd Hdom Hown Hlk Hkeep.
  assert (Hin : producers c !! i = Some p) by done.
  apply lookup_lt_Some in Hin.
  constructor; simpl; try done.
  - eapply chain_frame; [apply Hi|done].
  - intros j q n Hq Hn. rewrite list_lookup_insert_Some in Hq.
    destruct Hq as [(-> & <- & _)|(Hij & Hq)].
    + destruct (Hown n Hn) as (H1 & H2 & H3). split_and!; [done..|].
      intros j' q' Hq' Hn'. rewrite list_lookup_insert_Some in Hq'.
      destruct Hq' as [(-> & _)|(Hne & Hq')]; [done|].
      destruct H3 as [H3|H3].
      * destruct (li_owned _ _ _ _ _ Hi j p n Hp H3) as (_ & _ & Hu). by eapply Hu.
      * destruct (li_owned _ _ _ _ _ Hi j' q' n Hq' Hn') as (_ & [? ?] & _). congruence.
    + destruct (li_owned _ _ _ _ _ Hi j q n Hq Hn) as (H1 & H2 & Hu).
      assert (Hpn : owned p ≠ Some n) by (intros Hpn; by rewrite (Hu i p Hp Hpn) in Hij).
      destruct (Hkeep n H2 H1 Hpn) as (H3 & H4). split_and!; [done|by rewrite H4|].
      intros j' q' Hq' Hn'. rewrite list_lookup_insert_Some in Hq'.
      destruct Hq' as [(-> & <- & _)|(Hne & Hq')]; [|by eapply Hu].
      destruct (Hown n Hn') as (_ & _ & [?|Hno]); [done|]. destruct H2. congruence.
  - intros j n old Hq. rewrite list_lookup_insert_Some in Hq.
    destruct Hq as [(-> & Hq & _)|(Hij & Hq)]; [by eapply Hlk|].
    destruct (li_linked _ _ _ _ _ Hi j n old Hq) as (v & Hv).
    destruct (li_owned _ _ _ _ _ Hi j _ n Hq eq_refl) as (H1 & H2 & Hu).
    assert (Hpn : owned p ≠ Some n) by (intros Hpn; by rewrite (Hu i p Hp Hpn) in Hij).
    destruct (Hkeep n H2 H1 Hpn) as (_ & H4). exists v. by rewrite H4.
  - intros a Ha. destruct (Hdom a Ha) as [H|[H|(H1 & H2 & H3)]]; [by left|right..].
    + exists i, p'. split; [by apply list_lookup_insert_eq|done].
    + destruct (li_dom _ _ _ _ _ Hi a H1) as [?|(j & q & Hq & Hqa)]; [done|].
      exists j, q. split; [|done]. rewrite list_lookup_insert_ne; [done|].
      intros ->. congruence.
Qed.

(** A producer that writes only a node of its own, or a new one. *)
Lemma list_inv_write c lh vh lc vc i p p' n x :
  list_inv c lh vh lc vc → producers c !! i = Some p → owned p' = Some n →
  (owned p = Some n ∨ owned p = None ∧ nodes (mem c) !! n = None) →
  (∀ m old, p' = PCas m old → next x = old) →
  list_inv (mkSys (mkShared (head (mem c)) (<[n := x]> (nodes (mem c))))
              (<[i := p']> (producers c)) (drainer c) (sched c)) lh vh lc vc.
Proof.
  intros Hi Hp Hp' Hn Hx.
  assert (Hnl : n ∉ lh ++ lc).
  { destruct Hn as [Hn|(_ & Hn)]; [by apply (li_owned _ _ _ _ _ Hi i p n Hp Hn)|].
    intros [H|H]%elem_of_app; eapply chain_in in H; try apply Hi; destruct H; congruence. }
  assert (Hne : ∀ a, a ∈ lh ++ lc → n ≠ a) by (intros a Ha ->; done).
  eapply list_inv_owner; eauto; simpl; try apply Hi.
  - eapply chain_frame; [apply Hi|]. intros a Ha. apply lookup_insert_ne. set_solver.
  - intros a Ha. apply lookup_insert_ne. set_solver.
  - intros a Ha. destruct (decide (n = a)) as [->|Hna]; [by right; left|].
    rewrite lookup_insert_ne in Ha by done.
    destruct (decide (a ∈ lh ++ lc)); [by left|]. right. right. split_and!; [done..|].
    destruct Hn as [Hn|(Hn & _)]; congruence.
  - intros m Hm. assert (m = n) as -> by congruence. rewrite lookup_insert_eq.
    split_and!; [done|done|]. destruct Hn as [Hn|(_ & Hn)]; auto.
  - intros m old ->. simpl in Hp'. assert (m = n) as -> by congruence.
    rewrite lookup_insert_eq. exists (value x). rewrite <- (Hx n old eq_refl). by destruct x.
  - intros m Hm Hml Hmp. split; [done|]. apply lookup_insert_ne. intros ->.
    destruct Hn as [Hn|(_ & Hn)]; [done|]. destruct Hm. congruence.
Qed.

(** A producer that changes no memory and keeps what it owns. *)
Lemma list_inv_move c lh vh lc vc i p p' :
  list_inv c lh vh lc vc → producers c !! i = Some p → owned p' = owned p →
  (∀ n old, p' = PCas n old → p' = p) →
  list_inv (mkSys (mem c) (<[i := p']> (producers c)) (drainer c) (sched c)) lh vh lc vc.
Proof.
  intros Hi Hp Hp' Hx. eapply list_inv_owner; eauto; simpl; try apply Hi; try done.
  - intros a Ha. destruct (decide (a ∈ lh ++ lc)); [by left|]. right. rewrite Hp'.
    destruct (decide (owned p = Some a)); auto.
  - intros n Hn. rewrite Hp' in Hn.
    destruct (li_owned _ _ _ _ _ Hi i p n Hp Hn) as (? & ? & _). auto.
  - intros n old Heq. rewrite (Hx n old Heq) in Heq. subst p. by eapply (li_linked _ _ _ _ _ Hi).
Qed.

(** The successful exchange. *)
Lemma list_inv_push c lh vh lc vc i n v b :
  list_inv c lh vh lc vc → producers c !! i = Some (PCas n (head (mem c))) →
  nodes (mem c) !! n = Some (mkNode v (head (mem c))) →
  list_inv (mkSys (mkShared (Some n) (nodes (mem c)))
              (<[i := PRet b]> (producers c)) (drainer c) (sched c)) (n :: lh) (v :: vh) lc vc.
Proof.
  intros Hi Hp Hn.
  destruct (li_owned _ _ _ _ _ Hi i _ n Hp eq_refl) as (Hnl & _ & _).
  eapply list_inv_owner; eauto; simpl; try done.
  - econstructor; [done|apply Hi].
  - apply NoDup_cons. split; [done|apply Hi].
  - intros a Ha. destruct (decide (a ∈ n :: lh ++ lc)); [by left|]. right. right. set_solver.
  - intros m Hm Hml Hmp. split; [|done]. set_solver.
Qed.

Lemma insert_simulates c i p fresh p' m' s :
  abstracts c s → producers c !! i = Some p → nodes (mem c) !! fresh = None →
  insertFront_step p fresh (mem c) = Ok (p', m') →
  ∃ s', spec_run s (label_of p p' (mem c)) s' ∧
    abstracts (mkSys m' (<[i := p']> (producers c)) (drainer c) (sched c)) s'.
Proof.
  intros (lh & vh & lc & vc & Hi & Hs) Hp Hf Hst.
  destruct p as [|v|n|n old|n old|b]; simpl in Hst.
  1,6: injection Hst as <- <-; exists s; split; [constructor|];
    exists lh, vh, lc, vc; split; [|done]; by eapply list_inv_move.
  - injection Hst as <- <-. exists s. split; [constructor|]. exists lh, vh, lc, vc.
    split; [|done]. eapply list_inv_write; eauto; done.
  - injection Hst as <- <-. exists s. split; [constructor|]. exists lh, vh, lc, vc.
    split; [|done]. by eapply list_inv_move.
  - destruct (nodes (mem c) !! n) as [x|] eqn:Hn; simpl in Hst; [|done].
    injection Hst as <- <-. exists s. split; [constructor|]. exists lh, vh, lc, vc.
    split; [|done]. eapply list_inv_write; eauto; simpl; congruence.
  - destruct (li_linked _ _ _ _ _ Hi i n old Hp) as (v & Hn).
    case_decide as Hd; injection Hst as <- <-.
    + subst old. simpl. rewrite Hn. simpl. eexists. split.
      { replace (bool_decide (head (mem c) = None)) with (addRemoteExecutor v s).1;
          [apply (spec_run_cons _ _ _ _ _ (spec_push s v)), spec_run_nil|].
        subst s. rewrite foldl_add_remote. simpl. symmetry.
        pose proof (chain_empty _ _ _ _ (li_head _ _ _ _ _ Hi)) as He.
        destruct vh; [by apply bool_decide_eq_true_2, He|]. apply bool_decide_eq_false_2. naive_solver. }
      exists (n :: lh), (v :: vh), lc, vc. split; [by apply list_inv_push|].
      subst s. rewrite !foldl_add_remote. done.
    + exists s. split; [constructor|]. exists lh, vh, lc, vc.
      split; [|done]. by eapply list_inv_move.
Qed.

Lemma take_simulates c k m' s' s :
  abstracts c s → scheduleAll_step (drainer c) (mem c) (sched c) = Ok (k, m', s') →
  ∃ s2, spec_run s (match drainer c with CIdle => [Take] | _ => [] end) s2 ∧
    abstracts (mkSys m' (producers c) k s') s2.
Proof.
  intros (lh & vh & lc & vc & Hi & Hs) Hst.
  destruct (drainer c) as [|[a|]] eqn:Hk; simpl in Hst.
  - injection Hst as <- <- <-.
    pose proof (li_cons _ _ _ _ _ Hi) as Hc. rewrite Hk in Hc.
    apply chain_None in Hc as (-> & ->). simpl in Hs.
    exists (scheduleAll s). split; [eapply spec_run_cons, spec_run_nil; constructor|].
    exists [], [], lh, vh. split.
    + destruct Hi as [H1 H2 H3 H4 H5 H6]. rewrite app_nil_r in *.
      constructor; simpl; try done. constructor.
    + subst s. unfold scheduleAll. simpl. done.
  - pose proof (li_cons _ _ _ _ _ Hi) as Hc. rewrite Hk in Hc. simpl in Hc.
    inversion Hc as [|a' v nx l vs Ha Hch]; subst a' lc vc. rewrite Ha in Hst. simpl in Hst.
    injection Hst as <- <- <-. exists s. split; [constructor|].
    destruct Hi as [H1 H2 H3 H4 H5 H6].
    apply NoDup_app in H3 as (Hd1 & Hd2 & Hd3). apply NoDup_cons in Hd3 as (Hd3 & Hd4).
    exists lh, vh, l, vs. split.
    + constructor; simpl.
      * eapply chain_frame; [done|]. intros b Hb. apply lookup_delete_ne. set_solver.
      * eapply chain_frame; [done|]. intros b Hb. apply lookup_delete_ne. set_solver.
      * apply NoDup_app. set_solver.
      * intros i p n Hp Hn. destruct (H4 i p n Hp Hn) as (Hx & Hy & Hz).
        split_and!; [set_solver|rewrite lookup_delete_ne; [done|set_solver]|done].
      * intros i n old Hp. destruct (H4 i _ n Hp eq_refl) as (Hx & _).
        destruct (H5 i n old Hp) as (w & Hw). exists w.
        rewrite lookup_delete_ne; [done|set_solver].
      * intros b Hb. destruct (decide (a = b)) as [->|Hab].
        { rewrite lookup_delete_eq in Hb. by destruct Hb. }
        rewrite lookup_delete_ne in Hb by done. destruct (H6 b Hb) as [?|?]; [left; set_solver|by right].
    + subst s. cbn [foldl]. rewrite add_set_remote. done.
  - injection Hst as <- <- <-. exists s. split; [constructor|].
    exists lh, vh, lc, vc. split; [|done]. destruct Hi as [H1 H2 H3 H4 H5 H6].
    rewrite Hk in H2. by constructor.
Qed.

Lemma step_simulates c l c' s :
  abstracts c s → sys_step c l c' → ∃ s', spec_run s l s' ∧ abstracts c' s'.
Proof.
  intros Ha Hst. inversion Hst as [? i v Hp|? i p fr p' m' Hp Hf He|? i b Hp|? k m' s' He|? e Hk];
    subst.
  - exists s. split; [constructor|]. destruct Ha as (lh & vh & lc & vc & Hi & Hs).
    exists lh, vh, lc, vc. split; [|done]. by eapply list_inv_move.
  - by eapply insert_simulates.
  - exists s. split; [constructor|]. destruct Ha as (lh & vh & lc & vc & Hi & Hs).
    exists lh, vh, lc, vc. split; [|done]. by eapply list_inv_move.
  - by eapply take_simulates.
  - destruct Ha as (lh & vh & lc & vc & Hi & Hs).
    pose proof (li_cons _ _ _ _ _ Hi) as Hc. rewrite Hk in Hc.
    apply chain_None in Hc as (-> & ->). simpl in Hs.
    exists (addExecutor e s).2. split; [eapply spec_run_cons, spec_run_nil; constructor|].
    exists lh, vh, [], []. split; [destruct Hi; by constructor|].
    subst s. simpl. by rewrite add_set_remote.
Qed.

Lemma spec_run_app s1 l1 s2 l2 s3 :
  spec_run s1 l1 s2 → spec_run s2 l2 s3 → spec_run s1 (l1 ++ l2) s3.
Proof. induction 1; intros; simpl; [done|]. econstructor; eauto. Qed.

(** n threads that have not yet called anything, an empty list. *)
Definition sys_init (n : nat) (s : Scheduler) : sys :=
  mkSys (mkShared None ∅) (replicate n PIdle) CIdle s.

Lemma init_abstracts n s : abstracts (sys_init n s) (set_remote [] s).
Proof.
  exists [], [], [], []. split; [|done]. constructor; simpl.
  - constructor.
  - constructor.
  - constructor.
  - intros i p m Hp Hn. apply lookup_replicate in Hp as (-> & _). done.
  - intros i m old Hp. apply lookup_replicate in Hp as (? & _). done.
  - intros a [x Hx]. by rewrite lookup_empty in Hx.
Qed.

Lemma run_abstracts n s ls c :
  sys_run (sys_init n s) ls c → ∃ s', spec_run (set_remote [] s) ls s' ∧ abstracts c s'.
Proof.
  intros Hr. remember (sys_init n s) as c0 eqn:H0. induction Hr as [c0|c0 ls c1 l c2 Hr IH Hst].
  - exists (set_remote [] s). subst. split; [constructor|apply init_abstracts].
  - destruct (IH H0) as (s1 & H1 & H2). destruct (step_simulates _ _ _ _ H2 Hst) as (s2 & H3 & H4).
    exists s2. split; [by eapply spec_run_app|done].
Qed.

(** The tasks the labels hand over, in order. *)
Definition handed (ls : list label) : list (option eid) :=
  omap (λ l, match l with Push v _ => Some v | Local e => Some e | Take => None end) ls.

Lemma spec_conserves s ls s' :
  spec_run s ls s' → stopping_ s = false →
  stopping_ s' = false ∧
  ready_executors_ s' ++ remote_tasks_ s' ≡ₚ ready_executors_ s ++ remote_tasks_ s ++ handed ls.
Proof.
  induction 1 as [s|s l s1 ls s2 Hst Hr IH]; intros Hs.
  { split; [done|]. by rewrite app_nil_r. }
  assert (Hs1 : stopping_ s1 = false ∧
    ready_executors_ s1 ++ remote_tasks_ s1 ≡ₚ
      ready_executors_ s ++ remote_tasks_ s ++ handed [l]).
  { inversion Hst; subst; simpl.
    - split; [done|]. f_equiv. by rewrite Permutation_app_comm.
    - assert (H : ∀ r s, stopping_ s = false →
        foldl (λ s e, (addExecutor e s).2) s r = set_ready (ready_executors_ s ++ r) s).
      { clear. induction r as [|e r IH]; intros s Hs; cbn [foldl].
        - rewrite app_nil_r. by destruct s.
        - rewrite IH; unfold addExecutor; rewrite Hs; simpl; [by rewrite <- app_assoc|done]. }
      unfold scheduleAll. rewrite H by done. simpl. split; [done|]. by rewrite !app_nil_r.
    - unfold addExecutor. rewrite Hs. simpl. split; [done|].
      rewrite <- app_assoc. f_equiv. by rewrite Permutation_app_comm. }
  destruct Hs1 as (Hs1 & Hp1). destruct (IH Hs1) as (H2 & H3). split; [done|].
  rewrite H3, app_assoc, Hp1, <- !app_assoc. do 2 f_equiv. by destruct l.
Qed.

(** ** Properties *)

(** C10: linearizability: whatever the interleaving of the inserting threads with
    the draining scheduler, a run of the list is a run of the atomic
    [addRemoteExecutor] (with the value it returns) and [scheduleAll], taking
    effect at the successful exchanges; and no thread ever touches a deleted node. *)
Theorem remote_list_linearizable n s ls c :
  sys_run (sys_init n s) ls c →
  (∃ s', spec_run (set_remote [] s) ls s' ∧ abstracts c s') ∧
  (∀ i p fresh, producers c !! i = Some p → nodes (mem c) !! fresh = None →
     ∃ q, insertFront_step p fresh (mem c) = Ok q) ∧
  (∃ q, scheduleAll_step (drainer c) (mem c) (sched c) = Ok q).
Proof.
  intros Hr. destruct (run_abstracts n s ls c Hr) as (s' & H1 & H2).
  split; [by eauto|]. destruct H2 as (lh & vh & lc & vc & Hi & _). split.
  - intros i p fresh Hp _. destruct p as [| | |m old|m old|]; simpl; eauto; [|by case_decide; eauto].
    destruct (li_owned _ _ _ _ _ Hi i _ m Hp eq_refl) as (_ & [x Hx] & _). rewrite Hx. simpl. eauto.
  - pose proof (li_cons _ _ _ _ _ Hi) as Hc. destruct (drainer c) as [|[a|]]; simpl; eauto.
    inversion Hc as [|? v nx l vs Ha]; subst. rewrite Ha. simpl. eauto.
Qed.

(** C11: no task is lost or duplicated, no node leaks: when every insertion has
    returned and the list has been drained and is empty, the ready queue holds
    exactly the tasks that were there or handed over, and no node is left. *)
Theorem remote_list_conserves n s ls c :
  sys_run (sys_init n s) ls c → stopping_ s = false →
  drainer c = CIdle → head (mem c) = None →
  (∀ p, p ∈ producers c → owned p = None) →
  ready_executors_ (sched c) ≡ₚ ready_executors_ s ++ handed ls ∧ nodes (mem c) = ∅.
Proof.
  intros Hr Hs Hk Hh Hp. destruct (run_abstracts n s ls c Hr) as (s' & H1 & H2).
  destruct (spec_conserves _ _ _ H1 Hs) as (_ & H3).
  destruct H2 as (lh & vh & lc & vc & Hi & ->).
  pose proof (li_cons _ _ _ _ _ Hi) as Hc. rewrite Hk in Hc. apply chain_None in Hc as (-> & ->).
  pose proof (li_head _ _ _ _ _ Hi) as Hd. rewrite Hh in Hd. apply chain_None in Hd as (-> & ->).
  split; [by rewrite app_nil_r in H3|].
  apply map_eq. intros a. rewrite lookup_empty. destruct (nodes (mem c) !! a) as [x|] eqn:Ha; [|done].
  destruct (li_dom _ _ _ _ _ Hi a) as [H|(i & p & Hpi & Ho)]; [by eauto|by apply not_elem_of_nil in H|].
  apply list_elem_of_lookup_2, Hp in Hpi. congruence.
Qed.

(** ** Executions by a given schedule *)

Inductive action :=
| ACall (i : nat) (v : option eid)
| AInsert (i : nat) (fresh : addr)
| AReturn (i : nat)
| ATake
| ALocal (e : option eid).

Definition act (a : action) (c : sys) : option (list label * sys) :=
  match a with
  | ACall i v =>
      match producers c !! i with
      | Some PIdle => Some ([], mkSys (mem c) (<[i := PCall v]> (producers c)) (drainer c) (sched c))
      | _ => None
      end
  | AInsert i fresh =>
      match producers c !! i, nodes (mem c) !! fresh with
      | Some p, None =>
          match insertFront_step p fresh (mem c) with
          | Ok (p', m') => Some (label_of p p' (mem c),
                                 mkSys m' (<[i := p']> (producers c)) (drainer c) (sched c))
          | _ => None
          end
      | _, _ => None
      end
  | AReturn i =>
      match producers c !! i with
      | Some (PRet b) => Some ([], mkSys (mem c) (<[i := PIdle]> (producers c)) (drainer c) (sched c))
      | _ => None
      end
  | ATake =>
      match scheduleAll_step (drainer c) (mem c) (sched c) with
      | Ok (k, m', s') => Some (match drainer c with CIdle => [Take] | _ => [] end,
                                mkSys m' (producers c) k s')
      | _ => None
      end
  | ALocal e =>
      match drainer c with
      | CIdle => Some ([Local e], mkSys (mem c) (producers c) (drainer c) (addExecutor e (sched c)).2)
      | _ => None
      end
  end.

Fixpoint acts (l : list action) (c : sys) : option (list label * sys) :=
  match l with
  | [] => Some ([], c)
  | a :: l => p ← act a c; q ← acts l p.2; Some (p.1 ++ q.1, q.2)
  end.

Lemma act_sound a c l c' : act a c = Some (l, c') → sys_step c l c'.
Proof.
  destruct a as [i v|i fresh|i| |e]; simpl; intros H.
  4: { destruct (scheduleAll_step (drainer c) (mem c) (sched c)) as [[[k m'] s']| |] eqn:He;
         simplify_eq. by apply (sys_take c k m' s'). }
  - destruct (producers c !! i) as [[]|] eqn:Hi; simplify_eq. by apply sys_call.
  - destruct (producers c !! i) as [p|] eqn:Hi; [|done].
    destruct (nodes (mem c) !! fresh) eqn:Hf; [done|].
    destruct (insertFront_step p fresh (mem c)) as [[p' m']| |] eqn:He; simplify_eq.
    by eapply sys_insert.
  - destruct (producers c !! i) as [[]|] eqn:Hi; simplify_eq. by eapply sys_return.
  - destruct (drainer c) eqn:Hk; simplify_eq. rewrite <- Hk. by apply sys_local.
Qed.

Lemma sys_run_app c1 l1 c2 l2 c3 : sys_run c1 l1 c2 → sys_run c2 l2 c3 → sys_run c1 (l1 ++ l2) c3.
Proof.
  intros H1 H2. induction H2 as [|c2 l2 c3 l c4 H2 IH Hs]; [by rewrite app_nil_r|].
  rewrite app_assoc. econstructor; eauto.
Qed.

Lemma acts_sound l : ∀ c ls c', acts l c = Some (ls, c') → sys_run c ls c'.
Proof.
  induction l as [|a l IH]; intros c ls c' H; simpl in H; [simplify_eq; constructor|].
  destruct (act a c) as [[l1 c1]|] eqn:Ha; simpl in H; [|done].
  destruct (acts l c1) as [[l2 c2]|] eqn:Hl; simpl in H; [|done]. simplify_eq.
  eapply sys_run_app; [|by eapply IH].
  apply (sys_run_snoc c [] c l1 c1); [apply sys_run_nil|by apply (act_sound a)].
Qed.

Module RemoteTaskListEx.
Definition s0 : Scheduler := mkScheduler false false true false [] 1 [].

(** Thread 0 loses its first exchange to thread 1; the list is drained, the
    address of the node of thread 1 is used again, and thread 0, which still
    holds that address as the old head, succeeds. *)
Definition schedule : list action :=
  [ACall 0 (Some 7); AInsert 0 0; AInsert 0 2;
   ACall 1 (Some 8); AInsert 1 1; AInsert 1 2; AInsert 1 2; AInsert 1 2; AReturn 1;
   AInsert 0 2; AInsert 0 2; ATake; ATake; ATake;
   ACall 1 (Some 9); AInsert 1 1; AInsert 1 2; AInsert 1 2; AInsert 1 2;
   AInsert 0 2; AInsert 0 2; AReturn 0; AReturn 1;
   ATake; ATake; ATake; ATake]%nat.

Definition final : list label * sys :=
  match acts schedule (sys_init 2 s0) with Some p => p | None => ([], sys_init 2 s0) end.

Lemma final_run : sys_run (sys_init 2 s0) final.1 final.2.
Proof. apply (acts_sound schedule). vm_compute. reflexivity. Qed.

Lemma remote_list_linearizable_witness :
  ∃ s', spec_run (set_remote [] s0) final.1 s' ∧ abstracts final.2 s'.
Proof. apply (remote_list_linearizable 2 s0 final.1 final.2). apply final_run. Defined.

Lemma remote_list_conserves_witness :
  ready_executors_ (sched final.2) ≡ₚ [Some 8; Some 9; Some 7]%nat ∧ nodes (mem final.2) = ∅.
Proof.
  apply (remote_list_conserves 2 s0 final.1 final.2).
  - apply final_run.
  - reflexivity.
  - vm_compute. reflexivity.
  - vm_compute. reflexivity.
  - apply Forall_forall. vm_compute. repeat constructor.
Defined.
End RemoteTaskListEx.
