(* ===== verification/IOManager.v ===== *)
(** * The IO manager (include/io/io_manager.h, src/io/io_manager.cpp)

    Ties a scheduler to an epoll instance and a timer manager: executors wait
    for an event of a file descriptor, [blockPending] is what the scheduler's
    loop calls when no executor is ready.  Executors, the scheduler and the
    timers are those of Executor.v, Scheduler.v and Timer.v; the kernel is any
    instance of [EpollLaws]. *)

From S2P Require Import Prelude Timer FdManager Sys Executor Scheduler SchedulerInv.
From stdpp Require Import options.

Definition Read := EPOLLIN.
Definition Write := EPOLLOUT.
Definition epoll_wait_max_size : nat := 64.

Record FdEvents := mkFdEvents {
  registered_events : Z;
  read_call_once : bool;
  write_call_once : bool;
  read_executor : option eid;
  write_executor : option eid
}.

Definition FdEvents_init : FdEvents := mkFdEvents 0 true true None None.

Definition set_registered (ev : Z) (x : FdEvents) : FdEvents :=
  mkFdEvents ev (read_call_once x) (write_call_once x) (read_executor x) (write_executor x).
Definition set_read (e : option eid) (once : bool) (x : FdEvents) : FdEvents :=
  mkFdEvents (registered_events x) once (write_call_once x) e (write_executor x).
Definition set_write (e : option eid) (once : bool) (x : FdEvents) : FdEvents :=
  mkFdEvents (registered_events x) (read_call_once x) once (read_executor x) e.

Section IOManager.
Context {K : Type} `{EpollKernel K}.
Variable gettimeofday : nat → Z * Z.
(** How often an interrupted call is repeated at most. *)
Variable fuel : nat.

Record IOManager := mkIO {
  stopped : bool;
  epoll_fd_ : Z;
  wakeup_pipe_fd_ : Z * Z;
  scheduler_ : Scheduler;
  timer_manager_ : @TimerManager callback;
  fd_events_ : list FdEvents;
  kernel_ : K;         (* the kernel's state *)
  io_rt : runtime      (* the executors of the thread *)
}.

Definition set_fd_events (l : list FdEvents) (io : IOManager) : IOManager :=
  mkIO (stopped io) (epoll_fd_ io) (wakeup_pipe_fd_ io) (scheduler_ io) (timer_manager_ io) l
    (kernel_ io) (io_rt io).
Definition set_kernel (k : K) (io : IOManager) : IOManager :=
  mkIO (stopped io) (epoll_fd_ io) (wakeup_pipe_fd_ io) (scheduler_ io) (timer_manager_ io)
    (fd_events_ io) k (io_rt io).
Definition set_scheduler (s : Scheduler) (io : IOManager) : IOManager :=
  mkIO (stopped io) (epoll_fd_ io) (wakeup_pipe_fd_ io) s (timer_manager_ io)
    (fd_events_ io) (kernel_ io) (io_rt io).
Definition set_timers (t : @TimerManager callback) (io : IOManager) : IOManager :=
  mkIO (stopped io) (epoll_fd_ io) (wakeup_pipe_fd_ io) (scheduler_ io) t
    (fd_events_ io) (kernel_ io) (io_rt io).
Definition set_rt (r : runtime) (io : IOManager) : IOManager :=
  mkIO (stopped io) (epoll_fd_ io) (wakeup_pipe_fd_ io) (scheduler_ io) (timer_manager_ io)
    (fd_events_ io) (kernel_ io) r.

(** ** Operations *)

Definition epollAdd (fd events : Z) (io : IOManager) : outcome IOManager :=
  k ← epoll_do fuel (epoll_fd_ io) EPOLL_CTL_ADD events fd (kernel_ io); Ok (set_kernel k io).
Definition epollMod (fd events : Z) (io : IOManager) : outcome IOManager :=
  k ← epoll_do fuel (epoll_fd_ io) EPOLL_CTL_MOD events fd (kernel_ io); Ok (set_kernel k io).
Definition epollDel (fd : Z) (io : IOManager) : outcome IOManager :=
  k ← epoll_do fuel (epoll_fd_ io) EPOLL_CTL_DEL EPOLLET fd (kernel_ io); Ok (set_kernel k io).

(** [fd_events_[fd]], checked. *)
Definition fd_event (fd : Z) (io : IOManager) : outcome FdEvents :=
  of_option OutOfBounds (at_fd (fd_events_ io) fd).

Definition update_fd (fd : Z) (f : FdEvents → FdEvents) (io : IOManager) : outcome IOManager :=
  x ← fd_event fd io; Ok (set_fd_events (<[Z.to_nat fd := f x]> (fd_events_ io)) io).

(** [static_cast<size_t>(fd) >= fd_events_.size()] *)
Definition beyond (fd : Z) (io : IOManager) : bool :=
  Z.of_nat (length (fd_events_ io)) <=? u64 fd.

(** The conversion of a negative [fd * 1.5] to size_t has no meaning. *)
Definition grow (fd : Z) (io : IOManager) : outcome IOManager :=
  if beyond fd io then
    if fd <? 0 then Fault OutOfBounds
    else Ok (set_fd_events (resize (grown_size fd) FdEvents_init (fd_events_ io)) io)
  else Ok io.

Definition epAdd (fd type : Z) (io : IOManager) : outcome IOManager :=
  x ← fd_event fd io;
  let events_dst := Z.lor (registered_events x) type in
  io ← (if registered_events x =? 0 then epollAdd fd (Z.lor events_dst EPOLLET) io
        else epollMod fd events_dst io);
  update_fd fd (set_registered events_dst) io.

Definition registerEvent (fd type : Z) (executor : option eid) (call_once : bool) (io : IOManager)
    : outcome (bool * IOManager) :=
  if stopped io then Ok (false, io)
  else
    io ← grow fd io;
    if type =? Read then
      io ← update_fd fd (set_read executor call_once) io;
      io ← epAdd fd type io; Ok (true, io)
    else if type =? Write then
      io ← update_fd fd (set_write executor call_once) io;
      io ← epAdd fd type io; Ok (true, io)
    else Ok (false, io).

Definition hasEvent (fd type : Z) (io : IOManager) : outcome bool :=
  if beyond fd io then Ok false
  else x ← fd_event fd io; Ok (has (registered_events x) type).

Definition removeEvent (fd events : Z) (io : IOManager) : outcome IOManager :=
  if beyond fd io then Ok io
  else
    x ← fd_event fd io;
    if negb (has (registered_events x) events) then Ok io
    else
      let events_dst := u32 (Z.land (Z.lnot (registered_events x)) events) in
      io ← (if events_dst =? 0 then epollDel fd io else epollMod fd events_dst io);
      io ← (if has events_dst Read then Ok io
            else update_fd fd (λ x, set_read None (read_call_once x) x) io);
      (if has events_dst Write then Ok io
       else update_fd fd (λ x, set_write None (write_call_once x) x) io).

Definition registerTimer (timer : option (@Timer callback)) (io : IOManager)
    : outcome (bool * IOManager) :=
  if stopped io then Ok (false, io)
  else
    t ← of_option NullDeref timer;
    _ ← of_option AssertFailed (Timer.callback t);
    m ← addTimer timer (timer_manager_ io);
    Ok (true, set_timers m io).

Definition cancelTimer (timer : option (@Timer callback)) (io : IOManager) : outcome IOManager :=
  m ← removeTimer timer (timer_manager_ io); Ok (set_timers m io).

Definition io_stop (io : IOManager) : IOManager :=
  mkIO true (epoll_fd_ io) (wakeup_pipe_fd_ io) (stop (scheduler_ io)) (timer_manager_ io)
    (fd_events_ io) (kernel_ io) (io_rt io).

(** The spin lock only orders the writers. *)
Definition wakeup (io : IOManager) : outcome IOManager :=
  let '(r, k) := write_byte (wakeup_pipe_fd_ io).2 (kernel_ io) in
  match r with
  | Ret _ => Ok (set_kernel k io)
  | Err _ => Fault AssertFailed
  end.

Definition addRemoteTask (e : option eid) (io : IOManager) : outcome IOManager :=
  wakeup (set_scheduler (addRemoteExecutor e (scheduler_ io)).2 io).

(** ** blockPending *)

(** [while (read(wakeup_pipe_fd_[0], dummy, sizeof(dummy)) > 0);] *)
Fixpoint drain_pipe (n : nat) (fd : Z) (k : K) : outcome K :=
  match n with
  | O => Fault Hang
  | S n =>
      let '(r, k) := read_bytes fd 8 k in
      match r with
      | Ret v => if v >? 0 then drain_pipe n fd k else Ok k
      | Err _ => Ok k
      end
  end.

(** Making an expired timer's executor. *)
Definition run_timer (timer : @Timer callback) (io : IOManager) : outcome IOManager :=
  p ← Executor_callback (Timer.callback timer) DefaultStackSize (io_rt io);
  Ok (set_rt p.2 (set_scheduler (addExecutor (Some p.1) (scheduler_ io)).2 io)).

(** The events that stay registered; [first] is the descriptor of the first
    entry of the array, which the code looks the flags up with. *)
Definition left_read (first : Z) (ev : epoll_event) (left_events : Z) (io : IOManager)
    : outcome (Z * IOManager) :=
  if has (events ev) EPOLLIN then
    f ← fd_event first io;
    if read_call_once f then Ok (Z.land left_events (Z.lnot EPOLLIN), io)
    else
      e ← of_option NullDeref (read_executor f);
      r ← reuse e (io_rt io); Ok (left_events, set_rt r io)
  else Ok (left_events, io).

Definition left_write (first : Z) (ev : epoll_event) (left_events : Z) (io : IOManager)
    : outcome (Z * IOManager) :=
  if has (events ev) EPOLLOUT then
    f ← fd_event first io;
    if write_call_once f then Ok (Z.land left_events (Z.lnot EPOLLOUT), io)
    else
      e ← of_option NullDeref (write_executor f);
      r ← reuse e (io_rt io); Ok (left_events, set_rt r io)
  else Ok (left_events, io).

Definition unregister (fd left_events : Z) (io : IOManager) : outcome IOManager :=
  x ← fd_event fd io;
  if left_events =? registered_events x then Ok io
  else
    io ← (if left_events =? 0 then epollDel fd io else epollMod fd left_events io);
    update_fd fd (set_registered left_events) io.

Definition enqueue (e : option eid) (io : IOManager) : outcome IOManager :=
  let '(add_ret, s) := addExecutor e (scheduler_ io) in
  _ ← assert_ add_ret; Ok (set_scheduler s io).

Definition wake_read (ev : epoll_event) (io : IOManager) : outcome IOManager :=
  if has (events ev) (Z.lor EPOLLIN (Z.lor EPOLLERR EPOLLHUP)) then
    x ← fd_event (data_fd ev) io;
    io ← enqueue (read_executor x) io;
    update_fd (data_fd ev) (λ x, if read_call_once x then set_read None true x else x) io
  else Ok io.

Definition wake_write (ev : epoll_event) (io : IOManager) : outcome IOManager :=
  if has (events ev) (Z.lor EPOLLOUT (Z.lor EPOLLERR EPOLLHUP)) then
    x ← fd_event (data_fd ev) io;
    io ← enqueue (write_executor x) io;
    update_fd (data_fd ev) (λ x, if write_call_once x then set_write None true x else x) io
  else Ok io.

Definition handle_event (first : Z) (ev : epoll_event) (io : IOManager) : outcome IOManager :=
  let fd := data_fd ev in
  if fd =? (wakeup_pipe_fd_ io).1 then
    k ← drain_pipe (S (readable (kernel_ io) fd)) fd (kernel_ io); Ok (set_kernel k io)
  else
    x ← fd_event fd io;
    p ← left_read first ev (registered_events x) io;
    p ← left_write first ev p.1 p.2;
    io ← unregister fd p.1 p.2;
    io ← wake_read ev io;
    wake_write ev io.

Definition wait_errno (r : list epoll_event + Z) : option Z :=
  match r with inl _ => None | inr e => Some e end.

Definition first_fd (l : list epoll_event) : Z :=
  match l with e :: _ => data_fd e | [] => 0 end.

Definition blockPending (io : IOManager) : outcome IOManager :=
  let '(next_interval, tm) := getNextInterval gettimeofday (timer_manager_ io) in
  p ← invokeNoIntr wait_errno fuel
        (epoll_wait (epoll_fd_ io) epoll_wait_max_size (i32 next_interval)) (kernel_ io);
  l ← match p.1 with inl l => Ok l | inr _ => Fault AssertFailed end;
  let '(timers, tm) := takeExpiredTimers gettimeofday tm in
  io ← ofold run_timer timers (set_timers tm (set_kernel p.2 io));
  ofold (handle_event (first_fd l)) l io.
End IOManager.
