(* ===== verification/IOManagerThm.v ===== *)
(** * Correctness of the IO manager

    The invariant [io_inv] says that the table [fd_events_] and the kernel's
    interest list agree; [registerEvent] and [blockPending] keep it, and
    [blockPending] moves exactly the executors whose event has occurred, and one
    new executor per expired timer, to the ready queue.  Registrations are for
    one wake-up ([call_once]) or for every one, then their executors are reused;
    lemmas that end in [_run] are for tables with the first kind only. *)

From S2P Require Import Prelude Timer FdManager Sys Executor Scheduler SchedulerInv IOManager.
From stdpp Require Import options.
Set Default Proof Using "Type*".

(** A table entry's events and what the kernel watches. *)
Definition watch_ok (r : Z) (w : option Z) : Prop :=
  match w with
  | None => r = 0
  | Some ev => (r = 1 ∨ r = 4 ∨ r = 5) ∧ (ev = r ∨ ev = Z.lor r EPOLLET)
  end.

Definition is_type (t : Z) : Prop := t = Read ∨ t = Write.

Lemma watch_ok_add r w t :
  watch_ok r w → is_type t → (Z.lor r t = 1 ∨ Z.lor r t = 4 ∨ Z.lor r t = 5) ∧ (r = 0 ↔ w = None).
Proof.
  unfold is_type, Read, Write, EPOLLIN, EPOLLOUT.
  destruct w as [ev|]; simpl; intros Hw Ht.
  - destruct Hw as ([-> |[-> | ->]] & _); destruct Ht as [-> | ->]; (split; [by auto|]);
      split; intros; (lia || done).
  - subst r. destruct Ht as [-> | ->]; (split; [by auto|done]).
Qed.

Lemma watch_ok_has r w ev m :
  watch_ok r w → (m = EPOLLIN ∨ m = EPOLLOUT) → w = Some ev → has r m = has ev m.
Proof.
  intros Hw Hm ->. destruct Hw as ([-> |[-> | ->]] & [-> | ->]); destruct Hm as [-> | ->]; done.
Qed.

Lemma watch_ok_new r w t ev :
  watch_ok r w → is_type t → ev = Z.lor r t ∨ ev = Z.lor (Z.lor r t) EPOLLET → has ev t = true.
Proof.
  intros Hw Ht Hev. assert (Hr : r = 0 ∨ r = 1 ∨ r = 4 ∨ r = 5) by (destruct w; simpl in Hw; tauto).
  destruct Hr as [-> |[-> |[-> | ->]]]; destruct Ht as [-> | ->]; destruct Hev as [-> | ->]; done.
Qed.

(** Clearing reported events. *)
Definition cleared (ev r : Z) : Z :=
  let r := if has ev EPOLLIN then Z.land r (Z.lnot EPOLLIN) else r in
  if has ev EPOLLOUT then Z.land r (Z.lnot EPOLLOUT) else r.

Lemma cleared_ok r w ev :
  watch_ok r (Some w) → cleared ev r = 0 ∨ watch_ok (cleared ev r) (Some (cleared ev r)).
Proof.
  intros (Hr & _). unfold cleared.
  destruct Hr as [-> |[-> | ->]]; destruct (has ev EPOLLIN), (has ev EPOLLOUT); simpl;
    unfold EPOLLIN, EPOLLOUT; simpl; auto 10.
Qed.

(** Which of the reported events a registration with the flags of [f] gives up. *)
Definition dropped (f : FdEvents) (ev : Z) : Z :=
  Z.lor (if has ev EPOLLIN && read_call_once f then EPOLLIN else 0)
    (if has ev EPOLLOUT && write_call_once f then EPOLLOUT else 0).

Lemma cleared_dropped f ev r :
  cleared (dropped f ev) r =
    let r := if has ev EPOLLIN && read_call_once f then Z.land r (Z.lnot EPOLLIN) else r in
    if has ev EPOLLOUT && write_call_once f then Z.land r (Z.lnot EPOLLOUT) else r.
Proof.
  unfold dropped. by destruct (has ev EPOLLIN && read_call_once f), (has ev EPOLLOUT && write_call_once f).
Qed.

(** ** Executors that are used again *)

(** What [reuse] makes of an executor. *)
Definition renewed (x : Executor) : Executor :=
  if is_call_back_type_ x && bool_decide (state_ x = Terminal)
  then set_context (match context_ x with
                    | Some Entry => Some Entry
                    | Some _ => Some Smashed
                    | None => None
                    end) (set_state Ready x)
  else x.

Definition revive (es : list eid) (r : runtime) : runtime :=
  foldl (λ r e, set_executors (alter renewed e (executors r)) r) r es.

(** An executor [reuse] can be called on. *)
Definition reusable (r : runtime) (o : option eid) : Prop :=
  ∃ e x, o = Some e ∧ executors r !! e = Some x ∧ is_Some (stack_ x).

Lemma reuse_Ok e r x :
  executors r !! e = Some x → is_Some (stack_ x) → reuse e r = Ok (revive [e] r).
Proof.
  intros Hx [st Hst]. unfold reuse, get, revive. rewrite Hx. simpl.
  rewrite (map_eq (alter renewed e (executors r)) (<[e := renewed x]> (executors r))).
  2:{ intros o. destruct (decide (o = e)) as [->|].
      - by rewrite lookup_alter_eq, lookup_insert_eq, Hx.
      - by rewrite lookup_alter_ne, lookup_insert_ne. }
  unfold renewed. destruct (is_call_back_type_ x && bool_decide (state_ x = Terminal)).
  - unfold resetContext, get; simpl. rewrite lookup_insert_eq. simpl. rewrite Hst.
    unfold put; simpl. by rewrite insert_insert_eq.
  - rewrite insert_id by done. by destruct r.
Qed.

Lemma renewed_twice x : renewed (renewed x) = renewed x.
Proof.
  unfold renewed at 2 3. destruct (is_call_back_type_ x && bool_decide (state_ x = Terminal)) eqn:Hb; unfold renewed.
  - simpl. by rewrite andb_false_r.
  - by rewrite Hb.
Qed.

Lemma revive_lookup es : ∀ r o,
  executors (revive es r) !! o =
    (if decide (o ∈ es) then renewed <$> executors r !! o else executors r !! o).
Proof.
  unfold revive. induction es as [|e es IH]; intros r o.
  { by rewrite decide_False by set_solver. }
  cbn [foldl]. rewrite IH. cbn [executors set_executors]. destruct (decide (o = e)) as [->|Hne].
  - rewrite lookup_alter_eq, (decide_True (P := e ∈ e :: es)) by set_solver.
    case_decide; [|done]. destruct (executors r !! e); simpl; [by rewrite renewed_twice|done].
  - rewrite lookup_alter_ne by done. case_decide as H1; case_decide as H2; (done || set_solver).
Qed.

Lemma revive_app a b r : revive (a ++ b) r = revive b (revive a r).
Proof. apply foldl_app. Qed.

Lemma revive_next es : ∀ r, next_eid (revive es r) = next_eid r.
Proof. unfold revive. induction es as [|e es IH]; intros r; [done|]. simpl. by rewrite IH. Qed.

Lemma revive_reusable es r o : reusable r o → reusable (revive es r) o.
Proof.
  intros (e & x & -> & Hx & Hs). exists e, (if decide (e ∈ es) then renewed x else x).
  rewrite revive_lookup, Hx. split_and!; [done|by case_decide|]. case_decide; [|done].
  unfold renewed. by destruct (is_call_back_type_ x && bool_decide (state_ x = Terminal)).
Qed.

Section Inv.
Context {K : Type} `{EpollLaws K}.
Implicit Types io : @IOManager K.

Record io_inv (io : @IOManager K) : Prop := {
  io_len : Z.of_nat (length (fd_events_ io)) <= 2 ^ 32;
  io_watch : ∀ fd x, at_fd (fd_events_ io) fd = Some x → fd ≠ (wakeup_pipe_fd_ io).1 →
    watch_ok (registered_events x) (interest (kernel_ io) (epoll_fd_ io) fd);
  io_unwatched : ∀ fd, at_fd (fd_events_ io) fd = None → fd ≠ (wakeup_pipe_fd_ io).1 →
    interest (kernel_ io) (epoll_fd_ io) fd = None;
  io_sorted : timers_sorted (timer_manager_ io);
  io_callbacks : Forall (λ t, is_Some (Timer.callback t)) (timers_ (timer_manager_ io))
}.

(** ** The table *)

Lemma at_fd_Some {A} (l : list A) fd x :
  at_fd l fd = Some x ↔ 0 <= fd ∧ l !! Z.to_nat fd = Some x.
Proof.
  unfold at_fd. destruct (Z.leb_spec 0 fd); (split; [intros; split|intros (? & ?)]); (done || lia).
Qed.

Lemma at_fd_insert {A} (l : list A) fd fd' x y :
  at_fd l fd = Some x →
  at_fd (<[Z.to_nat fd := y]> l) fd' = if decide (fd' = fd) then Some y else at_fd l fd'.
Proof.
  intros (Hp & Hx)%at_fd_Some. assert (Hlt := lookup_lt_Some _ _ _ Hx).
  unfold at_fd. destruct (Z.leb_spec 0 fd').
  - case_decide; [subst; by rewrite list_lookup_insert_eq|].
    rewrite list_lookup_insert_ne; [done|lia].
  - by rewrite decide_False by lia.
Qed.

Lemma at_fd_resize fd fd' (l : list FdEvents) :
  Z.of_nat (length l) <= fd → 0 <= fd →
  at_fd (resize (grown_size fd) FdEvents_init l) fd' =
    match at_fd l fd' with
    | Some x => Some x
    | None => if decide (0 <= fd' < Z.of_nat (grown_size fd)) then Some FdEvents_init else None
    end.
Proof.
  intros Hl Hf. assert (Hg : (length l <= grown_size fd)%nat).
  { unfold grown_size. assert (fd <= fd * 3 / 2) by (apply Z.div_le_lower_bound; lia). lia. }
  unfold at_fd. destruct (Z.leb_spec 0 fd'); [|by rewrite decide_False by lia].
  destruct (l !! Z.to_nat fd') as [x|] eqn:Hx.
  - rewrite lookup_resize; [done|apply lookup_lt_Some in Hx; lia..].
  - apply lookup_ge_None in Hx. case_decide.
    + rewrite lookup_resize_new; [done|lia..].
    + apply lookup_ge_None. rewrite length_resize. lia.
Qed.

(** The entry of a descriptor; beyond the table there is nothing registered. *)
Definition entry (io : @IOManager K) (fd : Z) : FdEvents :=
  default FdEvents_init (at_fd (fd_events_ io) fd).

Lemma fd_event_Ok fd io x : at_fd (fd_events_ io) fd = Some x → fd_event fd io = Ok x.
Proof. unfold fd_event. by intros ->. Qed.

(** Replacing one entry together with what the kernel watches for it. *)
Lemma io_inv_update fd x y k' io :
  io_inv io → at_fd (fd_events_ io) fd = Some x →
  (fd ≠ (wakeup_pipe_fd_ io).1 → watch_ok (registered_events y) (interest k' (epoll_fd_ io) fd)) →
  (∀ fd', fd' ≠ fd → interest k' (epoll_fd_ io) fd' = interest (kernel_ io) (epoll_fd_ io) fd') →
  io_inv (set_fd_events (<[Z.to_nat fd := y]> (fd_events_ io)) (set_kernel k' io)).
Proof.
  intros [H1 H2 H3 H4 H5] Hx Hy Hk. constructor; simpl; try done.
  - by rewrite length_insert.
  - intros fd' z Hz Hw. rewrite (at_fd_insert _ _ _ _ _ Hx) in Hz. case_decide as Hd.
    + simplify_eq. auto.
    + rewrite Hk by done. auto.
  - intros fd' Hz Hw. rewrite (at_fd_insert _ _ _ _ _ Hx) in Hz. case_decide as Hd; [done|].
    rewrite Hk by done. auto.
Qed.

Lemma entry_update fd x y io fd' :
  at_fd (fd_events_ io) fd = Some x →
  entry (set_fd_events (<[Z.to_nat fd := y]> (fd_events_ io)) io) fd' =
    if decide (fd' = fd) then y else entry io fd'.
Proof.
  intros Hx. unfold entry; simpl. rewrite (at_fd_insert _ _ _ _ _ Hx). by case_decide.
Qed.

Lemma update_fd_Ok fd f io x :
  at_fd (fd_events_ io) fd = Some x →
  update_fd fd f io = Ok (set_fd_events (<[Z.to_nat fd := f x]> (fd_events_ io)) io).
Proof. intros Hx. unfold update_fd. by rewrite (fd_event_Ok _ _ _ Hx). Qed.

Lemma grow_ok fd io :
  io_inv io → 0 <= fd < 2 ^ 31 → (is_Some (at_fd (fd_events_ io) fd) ∨ 2 <= fd) →
  ∃ l, grow fd io = Ok (set_fd_events l io) ∧ io_inv (set_fd_events l io) ∧
    is_Some (at_fd l fd) ∧ ∀ fd', entry (set_fd_events l io) fd' = entry io fd'.
Proof.
  intros Hi Hr Hin. unfold grow, beyond. rewrite u64_small by lia.
  destruct (Z.leb_spec (Z.of_nat (length (fd_events_ io))) fd) as [Hl|Hl].
  - destruct (Z.ltb_spec fd 0); [lia|]. eexists. split; [reflexivity|].
    assert (H2 : 2 <= fd).
    { destruct Hin as [[x Hx]|]; [|done]. apply at_fd_Some in Hx as (_ & Hx).
      apply lookup_lt_Some in Hx. lia. }
    assert (Hat : ∀ fd', _) by (intros fd'; exact (at_fd_resize fd fd' (fd_events_ io) Hl ltac:(lia))).
    destruct Hi as [Hn1 Hn2 Hn3 Hn4 Hn5]. split_and!.
    + constructor; simpl; try done.
      * rewrite length_resize. unfold grown_size.
        assert (fd * 3 / 2 < 2 ^ 32) by (apply Z.div_lt_upper_bound; lia). lia.
      * intros fd' x Hx Hw. rewrite Hat in Hx.
        destruct (at_fd (fd_events_ io) fd') as [z|] eqn:Hz; [simplify_eq; auto|].
        case_decide; simplify_eq. by rewrite Hn3.
      * intros fd' Hx Hw. rewrite Hat in Hx.
        destruct (at_fd (fd_events_ io) fd') as [z|] eqn:Hz; [done|auto].
    + rewrite Hat. case_match; [done|]. rewrite decide_True; [done|].
      split; [lia|by apply grown_size_room].
    + intros fd'. unfold entry; simpl. rewrite Hat. case_match; [done|]. by case_decide.
  - exists (fd_events_ io). destruct io. split_and!; try done. unfold at_fd; simpl in *.
    destruct (Z.leb_spec 0 fd); [|lia]. apply lookup_lt_is_Some. lia.
Qed.

Lemma epAdd_ok fuel fd t io x :
  io_inv io → (0 < fuel)%nat → at_fd (fd_events_ io) fd = Some x → fd ≠ (wakeup_pipe_fd_ io).1 →
  is_type t → pollable (kernel_ io) fd = true →
  ∃ k w, epAdd fuel fd t io =
      Ok (set_fd_events (<[Z.to_nat fd := set_registered (Z.lor (registered_events x) t) x]>
            (fd_events_ io)) (set_kernel k io)) ∧
    interest k (epoll_fd_ io) fd = Some w ∧
    (w = Z.lor (registered_events x) t ∨ w = Z.lor (Z.lor (registered_events x) t) EPOLLET) ∧
    (∀ fd', fd' ≠ fd → interest k (epoll_fd_ io) fd' = interest (kernel_ io) (epoll_fd_ io) fd').
Proof.
  intros Hi Hf Hx Hw Ht Hp. unfold epAdd. rewrite (fd_event_Ok _ _ _ Hx). simpl.
  pose proof (io_watch io Hi fd x Hx Hw) as Hwo.
  destruct (watch_ok_add _ _ t Hwo Ht) as (_ & Hz).
  destruct (Z.eqb_spec (registered_events x) 0) as [He|He].
  - destruct (ctl_add (epoll_fd_ io) fd (Z.lor (Z.lor (registered_events x) t) EPOLLET)
                (kernel_ io) Hp) as (r & Hr & Hin); [by apply Hz|].
    unfold epollAdd. rewrite (epoll_do_Ret _ _ _ _ _ _ r) by done. simpl.
    rewrite (update_fd_Ok _ _ _ x) by done. do 2 eexists. split; [reflexivity|]. simpl.
    split_and!; [done|by right|]. intros fd' Hne. by rewrite ctl_other.
  - destruct (ctl_mod (epoll_fd_ io) fd (Z.lor (registered_events x) t) (kernel_ io))
      as (r & Hr & Hin); [naive_solver|].
    unfold epollMod. rewrite (epoll_do_Ret _ _ _ _ _ _ r) by done. simpl.
    rewrite (update_fd_Ok _ _ _ x) by done. do 2 eexists. split; [reflexivity|]. simpl.
    split_and!; [done|by left|]. intros fd' Hne. by rewrite ctl_other.
Qed.

(** ** Handling one event *)

Definition READ_WAKE := Z.lor EPOLLIN (Z.lor EPOLLERR EPOLLHUP).
Definition WRITE_WAKE := Z.lor EPOLLOUT (Z.lor EPOLLERR EPOLLHUP).

(** An entry after the events [ev] have been reported for it, and the executors
    this makes ready.  Which events stay registered is decided by the flags of
    [f], the entry of the first event of the batch; which executors are
    forgotten, by the entry's own. *)
Definition fired_by (f : FdEvents) (ev : Z) (x : FdEvents) : FdEvents :=
  mkFdEvents (cleared (dropped f ev) (registered_events x)) (read_call_once x) (write_call_once x)
    (if has ev READ_WAKE && read_call_once x then None else read_executor x)
    (if has ev WRITE_WAKE && write_call_once x then None else write_executor x).

(** The same when every registration is [call_once]. *)
Definition fired (ev : Z) (x : FdEvents) : FdEvents :=
  mkFdEvents (cleared ev (registered_events x)) (read_call_once x) (write_call_once x)
    (if has ev READ_WAKE then None else read_executor x)
    (if has ev WRITE_WAKE then None else write_executor x).

Definition woken (ev : Z) (x : FdEvents) : list (option eid) :=
  (if has ev READ_WAKE then [read_executor x] else []) ++
  (if has ev WRITE_WAKE then [write_executor x] else []).

(** The executors [reuse] is called on for the events [ev]. *)
Definition reused_by (f : FdEvents) (ev : Z) : list eid :=
  (if has ev EPOLLIN && negb (read_call_once f) then option_list (read_executor f) else []) ++
  (if has ev EPOLLOUT && negb (write_call_once f) then option_list (write_executor f) else []).

(** The persistent registrations of an entry have executors that can be used again. *)
Definition renewable (r : runtime) (f : FdEvents) : Prop :=
  (read_call_once f = false → reusable r (read_executor f)) ∧
  (write_call_once f = false → reusable r (write_executor f)).

(** Handling events keeps the flags of an entry and its persistent executors. *)
Record persists (f f' : FdEvents) : Prop := {
  persists_read : read_call_once f' = read_call_once f;
  persists_write : write_call_once f' = write_call_once f;
  persists_reader : read_call_once f = false → read_executor f' = read_executor f;
  persists_writer : write_call_once f = false → write_executor f' = write_executor f
}.

Lemma fired_persists f f' g ev : persists f f' → persists f (fired_by g ev f').
Proof.
  clear. intros [H1 H2 H3 H4]. constructor; simpl; [done|done| |]; intros Hf; rewrite ?H1, ?H2, Hf, andb_false_r; auto.
Qed.

Definition once (x : FdEvents) : Prop := read_call_once x = true ∧ write_call_once x = true.
Definition all_once (io : @IOManager K) : Prop :=
  ∀ fd x, at_fd (fd_events_ io) fd = Some x → once x.

Lemma once_fired f ev x : once f → once x → fired_by f ev x = fired ev x.
Proof.
  clear. intros (H1 & H2) (H3 & H4). unfold fired_by, fired. rewrite cleared_dropped, H1, H2, H3, H4.
  by rewrite !andb_true_r.
Qed.

Lemma once_reused f ev : once f → reused_by f ev = [].
Proof. clear. intros (H1 & H2). unfold reused_by. by rewrite H1, H2, !andb_false_r. Qed.

Definition replace (io : @IOManager K) (l : list FdEvents) (s : Scheduler) (k : K) : @IOManager K :=
  mkIO (stopped io) (epoll_fd_ io) (wakeup_pipe_fd_ io) s (timer_manager_ io) l k (io_rt io).

Definition push (es : list (option eid)) (s : Scheduler) : Scheduler :=
  set_ready (ready_executors_ s ++ es) s.

Lemma push_nil s : push [] s = s.
Proof. unfold push. rewrite app_nil_r. by destruct s. Qed.

Lemma push_push a b s : push b (push a s) = push (a ++ b) s.
Proof. unfold push; simpl. by rewrite <- app_assoc. Qed.

Lemma reuse_slot o (q : Z) io :
  reusable (io_rt io) o →
  (e ← of_option NullDeref o; r ← reuse e (io_rt io); Ok (q, set_rt r io)) =
    Ok (q, set_rt (revive (option_list o) (io_rt io)) io).
Proof. intros (e & x & -> & Hx & Hs). simpl. by rewrite (reuse_Ok e _ x). Qed.

Lemma left_read_ok first ev r io f f' :
  at_fd (fd_events_ io) first = Some f' → persists f f' → renewable (io_rt io) f →
  left_read first ev r io =
    Ok (if has (events ev) EPOLLIN && read_call_once f then Z.land r (Z.lnot EPOLLIN) else r,
        set_rt (revive (if has (events ev) EPOLLIN && negb (read_call_once f)
                        then option_list (read_executor f) else []) (io_rt io)) io).
Proof.
  intros Hf [P1 P2 P3 P4] (Hr & _). unfold left_read. rewrite (fd_event_Ok _ _ _ Hf).
  destruct (has (events ev) EPOLLIN); simpl; [|by destruct io].
  rewrite P1. destruct (read_call_once f) eqn:R; simpl; [by destruct io|].
  rewrite P3 by done. by apply reuse_slot, Hr.
Qed.

Lemma left_write_ok first ev r io f f' :
  at_fd (fd_events_ io) first = Some f' → persists f f' → renewable (io_rt io) f →
  left_write first ev r io =
    Ok (if has (events ev) EPOLLOUT && write_call_once f then Z.land r (Z.lnot EPOLLOUT) else r,
        set_rt (revive (if has (events ev) EPOLLOUT && negb (write_call_once f)
                        then option_list (write_executor f) else []) (io_rt io)) io).
Proof.
  intros Hf [P1 P2 P3 P4] (_ & Hw). unfold left_write. rewrite (fd_event_Ok _ _ _ Hf).
  destruct (has (events ev) EPOLLOUT); simpl; [|by destruct io].
  rewrite P2. destruct (write_call_once f) eqn:W; simpl; [by destruct io|].
  rewrite P4 by done. by apply reuse_slot, Hw.
Qed.

Lemma revive_renewable es r f : renewable r f → renewable (revive es r) f.
Proof. clear. intros (Hr & Hw). split; auto using revive_reusable. Qed.

Lemma left_ok first ev r io f f' :
  at_fd (fd_events_ io) first = Some f' → persists f f' → renewable (io_rt io) f →
  (p ← left_read first ev r io; left_write first ev p.1 p.2) =
    Ok (cleared (dropped f (events ev)) r, set_rt (revive (reused_by f (events ev)) (io_rt io)) io).
Proof.
  intros Hf Hp Hre. rewrite (left_read_ok _ _ _ _ f f') by done. cbn [mbind outcome_bind fst snd].
  rewrite (left_write_ok _ _ _ _ f f') by (done || by apply revive_renewable).
  unfold reused_by. by rewrite cleared_dropped, revive_app.
Qed.

Lemma unregister_ok fuel fd io x ev w :
  io_inv io → (0 < fuel)%nat → at_fd (fd_events_ io) fd = Some x → fd ≠ (wakeup_pipe_fd_ io).1 →
  interest (kernel_ io) (epoll_fd_ io) fd = Some w →
  ∃ k, unregister fuel fd (cleared ev (registered_events x)) io =
      Ok (replace io (<[Z.to_nat fd := set_registered (cleared ev (registered_events x)) x]>
            (fd_events_ io)) (scheduler_ io) k) ∧
    watch_ok (cleared ev (registered_events x)) (interest k (epoll_fd_ io) fd) ∧
    (∀ fd', fd' ≠ fd → interest k (epoll_fd_ io) fd' = interest (kernel_ io) (epoll_fd_ io) fd') ∧
    (∀ fd', readable k fd' = readable (kernel_ io) fd').
Proof.
  intros Hi Hf Hx Hw Hin. unfold unregister. rewrite (fd_event_Ok _ _ _ Hx). simpl.
  pose proof (io_watch io Hi fd x Hx Hw) as Hwo. rewrite Hin in Hwo.
  destruct (cleared_ok _ _ ev Hwo) as [Hc|Hc];
    destruct (Z.eqb_spec (cleared ev (registered_events x)) (registered_events x)) as [He|He].
  - destruct Hwo as (Hr & _). lia.
  - rewrite Hc. simpl. destruct (ctl_del (epoll_fd_ io) fd EPOLLET (kernel_ io)) as (r & Hr & Hd);
      [by rewrite Hin|].
    unfold epollDel. rewrite (epoll_do_Ret _ _ _ _ _ _ r) by done. simpl.
    rewrite (update_fd_Ok _ _ _ x) by done. eexists. split; [reflexivity|]. simpl. rewrite Hd.
    split_and!; [done|intros; by apply ctl_other|intros; by apply ctl_readable].
  - exists (kernel_ io). rewrite He, Hin. split_and!; try done. f_equal.
    apply at_fd_Some in Hx as (_ & Hx). rewrite list_insert_id; [by destruct io|].
    rewrite Hx. by destruct x.
  - assert (Hnz : cleared ev (registered_events x) ≠ 0) by (destruct Hc as (Hc & _); lia).
    destruct (Z.eqb_spec (cleared ev (registered_events x)) 0) as [|_]; [done|].
    destruct (ctl_mod (epoll_fd_ io) fd (cleared ev (registered_events x)) (kernel_ io))
      as (r & Hr & Hd); [by rewrite Hin|].
    unfold epollMod. rewrite (epoll_do_Ret _ _ _ _ _ _ r) by done. simpl.
    rewrite (update_fd_Ok _ _ _ x) by done. eexists. split; [reflexivity|]. simpl. rewrite Hd.
    split_and!; [done|intros; by apply ctl_other|intros; by apply ctl_readable].
Qed.

Lemma enqueue_ok e io :
  stopping_ (scheduler_ io) = false → enqueue e io = Ok (set_scheduler (push [e] (scheduler_ io)) io).
Proof. intros Hs. unfold enqueue, addExecutor. by rewrite Hs. Qed.

Lemma wake_read_ok ev io x :
  at_fd (fd_events_ io) (data_fd ev) = Some x → stopping_ (scheduler_ io) = false →
  wake_read ev io = Ok (replace io
    (<[Z.to_nat (data_fd ev) := set_read
         (if has (events ev) READ_WAKE && read_call_once x then None else read_executor x)
         (read_call_once x) x]> (fd_events_ io))
    (push (if has (events ev) READ_WAKE then [read_executor x] else []) (scheduler_ io)) (kernel_ io)).
Proof.
  intros Hx Hs. unfold wake_read. fold READ_WAKE. destruct (has (events ev) READ_WAKE); simpl.
  - rewrite (fd_event_Ok _ _ _ Hx). simpl. rewrite enqueue_ok by done. simpl.
    rewrite (update_fd_Ok _ _ _ x) by done. by destruct x as [? [] ? ? ?].
  - rewrite push_nil. apply at_fd_Some in Hx as (_ & Hx).
    rewrite list_insert_id; [by destruct io|]. rewrite Hx. by destruct x.
Qed.

Lemma wake_write_ok ev io x :
  at_fd (fd_events_ io) (data_fd ev) = Some x → stopping_ (scheduler_ io) = false →
  wake_write ev io = Ok (replace io
    (<[Z.to_nat (data_fd ev) := set_write
         (if has (events ev) WRITE_WAKE && write_call_once x then None else write_executor x)
         (write_call_once x) x]> (fd_events_ io))
    (push (if has (events ev) WRITE_WAKE then [write_executor x] else []) (scheduler_ io)) (kernel_ io)).
Proof.
  intros Hx Hs. unfold wake_write. fold WRITE_WAKE. destruct (has (events ev) WRITE_WAKE); simpl.
  - rewrite (fd_event_Ok _ _ _ Hx). simpl. rewrite enqueue_ok by done. simpl.
    rewrite (update_fd_Ok _ _ _ x) by done. by destruct x as [? ? [] ? ?].
  - rewrite push_nil. apply at_fd_Some in Hx as (_ & Hx).
    rewrite list_insert_id; [by destruct io|]. rewrite Hx. by destruct x.
Qed.

Lemma handle_event_ok fuel first ev io x w f f' :
  io_inv io → stopping_ (scheduler_ io) = false → (0 < fuel)%nat →
  at_fd (fd_events_ io) first = Some f' → persists f f' → renewable (io_rt io) f →
  data_fd ev ≠ (wakeup_pipe_fd_ io).1 → at_fd (fd_events_ io) (data_fd ev) = Some x →
  interest (kernel_ io) (epoll_fd_ io) (data_fd ev) = Some w →
  ∃ k, handle_event fuel first ev io =
      Ok (set_rt (revive (reused_by f (events ev)) (io_rt io))
            (replace io (<[Z.to_nat (data_fd ev) := fired_by f (events ev) x]> (fd_events_ io))
               (push (woken (events ev) x) (scheduler_ io)) k)) ∧
    watch_ok (cleared (dropped f (events ev)) (registered_events x))
      (interest k (epoll_fd_ io) (data_fd ev)) ∧
    (∀ fd', fd' ≠ data_fd ev →
       interest k (epoll_fd_ io) fd' = interest (kernel_ io) (epoll_fd_ io) fd') ∧
    (∀ fd', readable k fd' = readable (kernel_ io) fd').
Proof.
  intros Hi Hs Hf Hfi Hp Hre Hw Hx Hin. unfold handle_event.
  destruct (Z.eqb_spec (data_fd ev) (wakeup_pipe_fd_ io).1) as [|_]; [done|].
  rewrite (fd_event_Ok _ _ _ Hx). simpl.
  pose proof (left_ok first ev (registered_events x) io f f' Hfi Hp Hre) as Hl.
  destruct (left_read first ev (registered_events x) io) as [[r1 io1]| |]; try done. simpl in *.
  rewrite Hl. simpl. clear Hl. set (ior := set_rt _ io).
  destruct (unregister_ok fuel (data_fd ev) ior x (dropped f (events ev)) w) as (k & Hu & Hk); try done.
  { by destruct Hi; constructor. }
  rewrite Hu. simpl. exists k. split; [|done].
  set (x1 := set_registered (cleared _ (registered_events x)) x) in *.
  set (io1' := replace ior _ _ k).
  assert (Hx1 : at_fd (fd_events_ io1') (data_fd ev) = Some x1)
    by (simpl; rewrite (at_fd_insert _ _ _ _ _ Hx); by rewrite decide_True).
  rewrite (wake_read_ok ev io1' x1 Hx1 Hs). simpl. set (io2 := replace io1' _ _ k).
  eassert (Hx2 : at_fd (fd_events_ io2) (data_fd ev) = Some _)
    by (simpl; rewrite (at_fd_insert _ _ _ _ _ Hx1); by rewrite decide_True).
  rewrite (wake_write_ok ev io2 _ Hx2 Hs). f_equal. unfold io2, io1', ior; simpl.
  unfold replace, set_rt; simpl. by rewrite push_push, !list_insert_insert_eq.
Qed.

(** ** A batch of events *)

Lemma drain_ok fd n : ∀ k, (readable k fd < n)%nat →
  ∃ k', drain_pipe n fd k = Ok k' ∧ readable k' fd = 0%nat ∧
    ∀ ep fd', interest k' ep fd' = interest k ep fd'.
Proof.
  induction n as [|n IH]; intros k Hn; [lia|]. cbn [drain_pipe].
  destruct (readable k fd) as [|m] eqn:Hr.
  - rewrite read_none by done. eauto.
  - destruct (read_some fd 8 k) as (H1 & H2); [lia..|].
    destruct (read_bytes fd 8 k) as [r k1] eqn:Hb. cbn [fst snd] in H1, H2. subst r.
    rewrite (proj2 (Z.gtb_lt _ _)) by lia.
    destruct (IH k1) as (k' & Hd & Hz & Hk); [lia|]. exists k'. split_and!; [done|done|].
    intros ep fd'. rewrite Hk.
    pose proof (read_interest ep fd 8 k fd') as Hri. by rewrite Hb in Hri.
Qed.

Definition woken_of (io : @IOManager K) (e : epoll_event) : list (option eid) :=
  if decide (data_fd e = (wakeup_pipe_fd_ io).1) then []
  else woken (events e) (entry io (data_fd e)).

Definition watched (io : @IOManager K) (fd : Z) : Prop :=
  is_Some (interest (kernel_ io) (epoll_fd_ io) fd).

Lemma watched_entry io fd :
  io_inv io → watched io fd → fd ≠ (wakeup_pipe_fd_ io).1 →
  ∃ x, at_fd (fd_events_ io) fd = Some x ∧ entry io fd = x.
Proof.
  intros Hi [w Hw] Hn. unfold entry. destruct (at_fd (fd_events_ io) fd) as [x|] eqn:Hx; [by eauto|].
  pose proof (io_unwatched io Hi fd Hx Hn). congruence.
Qed.

(** What handling events leaves as it was. *)
Record same_io (io io' : @IOManager K) : Prop := {
  same_ep : epoll_fd_ io' = epoll_fd_ io;
  same_wake : wakeup_pipe_fd_ io' = wakeup_pipe_fd_ io;
  same_tm : timer_manager_ io' = timer_manager_ io;
  same_stopped : stopped io' = stopped io
}.

Definition reused_of (io : @IOManager K) (f : FdEvents) (e : epoll_event) : list eid :=
  if decide (data_fd e = (wakeup_pipe_fd_ io).1) then [] else reused_by f (events e).

(** One event, of the wakeup pipe or of a registered descriptor. *)
Lemma event_ok fuel first f e io :
  io_inv io → stopping_ (scheduler_ io) = false → (0 < fuel)%nat → renewable (io_rt io) f →
  (data_fd e ≠ (wakeup_pipe_fd_ io).1 →
     (∃ f', at_fd (fd_events_ io) first = Some f' ∧ persists f f') ∧ watched io (data_fd e)) →
  ∃ io', handle_event fuel first e io = Ok io' ∧ io_inv io' ∧ same_io io io' ∧
    io_rt io' = revive (reused_of io f e) (io_rt io) ∧
    scheduler_ io' = push (woken_of io e) (scheduler_ io) ∧
    (∀ fd, at_fd (fd_events_ io') fd =
       if decide (fd = data_fd e ∧ fd ≠ (wakeup_pipe_fd_ io).1)
       then fired_by f (events e) <$> at_fd (fd_events_ io) fd else at_fd (fd_events_ io) fd) ∧
    (∀ fd, fd ≠ data_fd e → interest (kernel_ io') (epoll_fd_ io) fd = interest (kernel_ io) (epoll_fd_ io) fd) ∧
    (readable (kernel_ io') (wakeup_pipe_fd_ io).1 =
       if decide (data_fd e = (wakeup_pipe_fd_ io).1) then 0%nat
       else readable (kernel_ io) (wakeup_pipe_fd_ io).1).
Proof.
  intros Hi Hs Hf Hre He. unfold woken_of, reused_of.
  destruct (decide (data_fd e = (wakeup_pipe_fd_ io).1)) as [Hw|Hw].
  - unfold handle_event. rewrite (proj2 (Z.eqb_eq _ _) Hw).
    destruct (drain_ok (data_fd e) (S (readable (kernel_ io) (data_fd e))) (kernel_ io))
      as (k & Hd & Hz & Hk); [lia|].
    rewrite Hd. simpl. eexists. split; [reflexivity|]. rewrite push_nil. simpl.
    split_and!; try done.
    + destruct Hi. constructor; simpl; try done; intros; rewrite Hk; auto.
    + intros fd. rewrite decide_False; [done|]. naive_solver.
    + by rewrite <- Hw.
  - destruct (He Hw) as ((f' & Hfi & Hp) & Hwa).
    destruct (watched_entry io (data_fd e) Hi Hwa Hw) as (x & Hx & ->). destruct Hwa as [w Hwa].
    destruct (handle_event_ok fuel first e io x w f f' Hi Hs Hf Hfi Hp Hre Hw Hx Hwa)
      as (k & Hh & Hwk & Hk & Hr).
    rewrite Hh. eexists. split; [reflexivity|]. simpl. split_and!; try done.
    + pose proof (io_inv_update (data_fd e) x (fired_by f (events e) x) k io Hi Hx
                    (λ _, Hwk) Hk) as [? ? ? ? ?]. by constructor.
    + intros fd. rewrite (at_fd_insert _ _ _ _ _ Hx). destruct (decide (fd = data_fd e)) as [->|].
      * rewrite decide_True by done. by rewrite Hx.
      * rewrite decide_False; [done|]. naive_solver.
Qed.

(** The events a batch reports for a descriptor, and the table afterwards. *)
Fixpoint report_of (l : list epoll_event) (fd : Z) : option Z :=
  match l with
  | [] => None
  | e :: l => if decide (data_fd e = fd) then Some (events e) else report_of l fd
  end.

Definition entry_after_by (io : @IOManager K) (f : FdEvents) (l : list epoll_event) (fd : Z)
    : option FdEvents :=
  match report_of l fd with
  | Some ev => if decide (fd = (wakeup_pipe_fd_ io).1) then at_fd (fd_events_ io) fd
               else fired_by f ev <$> at_fd (fd_events_ io) fd
  | None => at_fd (fd_events_ io) fd
  end.

(** The same when every registration is [call_once]. *)
Definition entry_after (io : @IOManager K) (l : list epoll_event) (fd : Z) : option FdEvents :=
  match report_of l fd with
  | Some ev => if decide (fd = (wakeup_pipe_fd_ io).1) then at_fd (fd_events_ io) fd
               else fired ev <$> at_fd (fd_events_ io) fd
  | None => at_fd (fd_events_ io) fd
  end.

Lemma report_of_None l fd : fd ∉ (data_fd <$> l) → report_of l fd = None.
Proof.
  clear. induction l as [|e l IH]; [done|]. simpl. intros (Hn & Hl)%not_elem_of_cons.
  rewrite decide_False by done. auto.
Qed.

Lemma batch_ok fuel first f l : ∀ io,
  io_inv io → stopping_ (scheduler_ io) = false → (0 < fuel)%nat → renewable (io_rt io) f →
  NoDup (data_fd <$> l) →
  (∀ e, e ∈ l → data_fd e ≠ (wakeup_pipe_fd_ io).1 →
     (∃ f', at_fd (fd_events_ io) first = Some f' ∧ persists f f') ∧ watched io (data_fd e)) →
  ∃ io', ofold (handle_event fuel first) l io = Ok io' ∧ io_inv io' ∧ same_io io io' ∧
    io_rt io' = revive (concat (reused_of io f <$> l)) (io_rt io) ∧
    scheduler_ io' = push (concat (woken_of io <$> l)) (scheduler_ io) ∧
    (∀ fd, at_fd (fd_events_ io') fd = entry_after_by io f l fd) ∧
    ((wakeup_pipe_fd_ io).1 ∈ (data_fd <$> l) →
       readable (kernel_ io') (wakeup_pipe_fd_ io).1 = 0%nat) ∧
    ((wakeup_pipe_fd_ io).1 ∉ (data_fd <$> l) →
       readable (kernel_ io') (wakeup_pipe_fd_ io).1 = readable (kernel_ io) (wakeup_pipe_fd_ io).1).
Proof.
  induction l as [|e l IH]; intros io Hi Hs Hf Hre Hnd Hl.
  { exists io. simpl. rewrite push_nil. split_and!; try done. set_solver. }
  simpl in Hnd. apply NoDup_cons in Hnd as (Hn & Hnd).
  destruct (event_ok fuel first f e io Hi Hs Hf Hre) as (io1 & He & Hi1 & Hsm & Hrt & Hs1 & Hat & Hk & Hr).
  { apply Hl. set_solver. }
  destruct Hsm as [E1 E2 E3 E5].
  assert (Hne : ∀ e', e' ∈ l → data_fd e' ≠ data_fd e).
  { intros e' He' Heq. apply Hn. rewrite <- Heq. by apply list_elem_of_fmap_2. }
  destruct (IH io1) as (io' & H1 & H2 & H4 & Hrt' & H5 & H6 & H7 & H8); try done.
  { by rewrite Hs1. }
  { rewrite Hrt. by apply revive_renewable. }
  { intros e' He' Hw. rewrite E2 in Hw. destruct (Hl e') as ((z & Hz & Hp) & Hwa); [set_solver|done|].
    split.
    - rewrite Hat, Hz. destruct (decide (first = data_fd e ∧ first ≠ (wakeup_pipe_fd_ io).1));
        eexists; (split; [reflexivity|]); [by apply fired_persists|done].
    - unfold watched. rewrite E1, Hk by by apply Hne. done. }
  exists io'. simpl. rewrite He. simpl. split_and!; try done.
  - destruct H4 as [F1 F2 F3 F5]. constructor; congruence.
  - rewrite Hrt', Hrt, revive_app. unfold reused_of. by rewrite E2.
  - rewrite H5, Hs1, push_push. f_equal. f_equal. f_equal. apply list_fmap_ext.
    intros i e' He'. apply list_elem_of_lookup_2 in He'. unfold woken_of, entry. rewrite E2, Hat.
    rewrite (decide_False (P := data_fd e' = data_fd e ∧ _)); [done|]. intros [? _]. by apply (Hne e').
  - intros fd. rewrite H6. unfold entry_after_by. simpl. rewrite E2.
    rewrite Hat. destruct (decide (data_fd e = fd)) as [<-|Hd].
    + rewrite report_of_None by done. case_decide; case_decide; try done; naive_solver.
    + rewrite (decide_False (P := fd = data_fd e ∧ _)); [done|]. naive_solver.
  - rewrite E2 in H7, H8. intros Hin.
    destruct (decide ((wakeup_pipe_fd_ io).1 ∈ (data_fd <$> l))) as [Hin'|Hin']; [by apply H7|].
    rewrite H8 by done. rewrite Hr. rewrite decide_True; [done|set_solver].
  - rewrite E2 in H8. intros Hin. rewrite H8 by set_solver. rewrite Hr.
    rewrite decide_False; [done|set_solver].
Qed.

(** ** Expired timers *)

(** The executors made for the timers [ts], in order. *)
Definition timer_executors (r : runtime) (ts : list (@Timer callback)) (es : list eid) : Prop :=
  Forall2 (λ t e, ∃ x, executors r !! e = Some x ∧ state_ x = Init ∧
                       callback_ x = Timer.callback t ∧ is_call_back_type_ x = true) ts es.

Definition fresh_ids (r : runtime) : Prop := ∀ o, is_Some (executors r !! o) → (o < next_eid r)%nat.

Lemma run_timer_ok t io f :
  Timer.callback t = Some f → stopping_ (scheduler_ io) = false →
  run_timer t io =
    Ok (set_rt (construct true Init DefaultStackSize (Some f) (io_rt io)).2
          (set_scheduler (push [Some (next_eid (io_rt io))] (scheduler_ io)) io)).
Proof. intros Hf Hs. unfold run_timer, addExecutor. rewrite Hf. simpl. by rewrite Hs. Qed.

Lemma run_timers_ok ts : ∀ io,
  Forall (λ t, is_Some (Timer.callback t)) ts → stopping_ (scheduler_ io) = false →
  fresh_ids (io_rt io) →
  ∃ r es, ofold run_timer ts io = Ok (set_rt r (set_scheduler (push (Some <$> es) (scheduler_ io)) io)) ∧
    timer_executors r ts es ∧ NoDup es ∧
    (∀ e, e ∈ es → executors (io_rt io) !! e = None) ∧ fresh_ids r ∧
    (∀ o x, executors (io_rt io) !! o = Some x → executors r !! o = Some x).
Proof.
  induction ts as [|t ts IH]; intros io Hts Hs Hfr.
  { exists (io_rt io), []. simpl. rewrite push_nil. split_and!; try done; [by destruct io|constructor..|set_solver]. }
  inversion Hts as [|? ? [f Hf] Hts']; subst. cbn [ofold].
  rewrite (run_timer_ok t io f Hf Hs). cbn [mbind outcome_bind].
  set (r1 := (construct _ _ _ _ _).2). set (e := next_eid (io_rt io)).
  set (io1 := set_rt r1 _).
  assert (Hx1 : executors r1 !! e = Some (mkExecutor true Init (idGenerate (io_rt io)) DefaultStackSize
                                            None (Some f) None)) by (simpl; apply lookup_insert_eq).
  assert (Hnew : executors (io_rt io) !! e = None).
  { destruct (executors (io_rt io) !! e) eqn:Hx; [|done].
    assert (e < next_eid (io_rt io))%nat by (apply Hfr; eauto). unfold e in *. lia. }
  destruct (IH io1) as (r & es & H1 & H2 & H3 & H4 & H5 & H6); [done|done| |].
  { intros o [x Hx]. simpl in *. rewrite lookup_insert_Some in Hx.
    destruct Hx as [(<- & _)|(_ & Hx)]; [lia|]. assert (o < next_eid (io_rt io))%nat by (apply Hfr; eauto). lia. }
  exists r, (e :: es). split_and!; try done.
  - rewrite H1. f_equal. unfold io1, set_rt, set_scheduler; simpl. by rewrite push_push.
  - constructor; [|done]. eexists. split; [by apply H6|]. by rewrite Hf.
  - apply NoDup_cons. split; [|done]. intros Hin. apply H4 in Hin. simpl in Hin.
    by rewrite lookup_insert_eq in Hin.
  - intros o [->|Ho]%elem_of_cons; [done|]. apply H4 in Ho. simpl in Ho.
    apply lookup_insert_None in Ho. by destruct Ho.
  - intros o x Hx. apply H6. simpl. rewrite lookup_insert_ne; [done|]. fold e. congruence.
Qed.

Lemma timers_callbacks tod (tm : @TimerManager callback) :
  timers_sorted tm → Forall (λ t, is_Some (Timer.callback t)) (timers_ tm) →
  let r := takeExpiredTimers tod tm in
  Forall (λ t, is_Some (Timer.callback t)) r.1 ∧
  timers_sorted r.2 ∧ Forall (λ t, is_Some (Timer.callback t)) (timers_ r.2).
Proof.
  clear. intros Hs Hc r. destruct (takeExpired_run tod tm Hs) as (H1 & _ & H3 & fresh & H4 & H5).
  fold r in H1, H3, H4, H5.
  assert (Hr : Forall (λ t, is_Some (Timer.callback t)) r.1).
  { rewrite H1. by apply filter_subset_Forall. }
  split_and!; [done|done|]. rewrite H4. apply Forall_app. split; [by apply filter_subset_Forall|].
  apply (filter_subset_Forall (λ t, is_Some (Timer.callback t)) (λ t, Timer.repeat t = true)) in Hr.
  revert Hr. clear -H5. induction H5 as [|a b la lb Hab Hl IH]; intros Hr; [constructor|].
  inversion Hr as [|? ? Ha Hla]; subst. constructor; [|by apply IH].
  destruct Hab as (_ & -> & _). done.
Qed.

Lemma getNextInterval_timers tod (tm : @TimerManager callback) :
  timers_ (getNextInterval tod tm).2 = timers_ tm.
Proof.
  clear. unfold getNextInterval. destruct (timers_ tm) as [|t l] eqn:Ht; simpl; [done|].
  by destruct (target_timestamp t <? clock tod (ticks tm)).
Qed.

Lemma registerEvent_ok fuel fd t e call_once io :
  io_inv io → (0 < fuel)%nat → is_type t → 0 <= fd < 2 ^ 31 →
  (is_Some (at_fd (fd_events_ io) fd) ∨ 2 <= fd) → fd ≠ (wakeup_pipe_fd_ io).1 →
  pollable (kernel_ io) fd = true →
  (stopped io = true → registerEvent fuel fd t e call_once io = Ok (false, io)) ∧
  (stopped io = false →
   ∃ io' w, registerEvent fuel fd t e call_once io = Ok (true, io') ∧ io_inv io' ∧
     let x := entry io fd in
     entry io' fd = set_registered (Z.lor (registered_events x) t)
       (if t =? Read then set_read e call_once x else set_write e call_once x) ∧
     interest (kernel_ io') (epoll_fd_ io) fd = Some w ∧ has w t = true ∧
     (∀ fd', fd' ≠ fd → entry io' fd' = entry io fd' ∧
        interest (kernel_ io') (epoll_fd_ io) fd' = interest (kernel_ io) (epoll_fd_ io) fd') ∧
     scheduler_ io' = scheduler_ io ∧ timer_manager_ io' = timer_manager_ io ∧
     wakeup_pipe_fd_ io' = wakeup_pipe_fd_ io ∧ epoll_fd_ io' = epoll_fd_ io).
Proof.
  intros Hi Hf Ht Hr Hin Hw Hp. unfold registerEvent. split; intros Hs; rewrite Hs; [done|].
  destruct (grow_ok fd io Hi Hr Hin) as (l & Hg & Hi1 & [x Hx] & He). rewrite Hg. simpl.
  set (io1 := set_fd_events l io) in *.
  assert (Hex : entry io fd = x) by (rewrite <- He; unfold entry; simpl; by rewrite Hx).
  set (y := if t =? Read then set_read e call_once x else set_write e call_once x).
  set (io2 := set_fd_events (<[Z.to_nat fd := y]> l) io1).
  assert (Hy : registered_events y = registered_events x) by (unfold y; by destruct (t =? Read)).
  assert (Hi2 : io_inv io2).
  { destruct (io_inv_update fd x y (kernel_ io1) io1 Hi1 Hx) as [? ? ? ? ?]; [|done|by constructor].
    intros _. rewrite Hy. by apply Hi1. }
  assert (Hx2 : at_fd (fd_events_ io2) fd = Some y).
  { simpl. rewrite (at_fd_insert _ _ _ _ _ Hx). by rewrite decide_True. }
  destruct (epAdd_ok fuel fd t io2 y Hi2 Hf Hx2 Hw Ht Hp) as (k & w & Ha & Hk & Hwv & Hko).
  assert (Hi3 := io_watch io2 Hi2 fd y Hx2 Hw).
  destruct (watch_ok_add _ _ t Hi3 Ht) as (Hbits & _).
  set (io3 := set_fd_events _ (set_kernel k io2)) in Ha.
  exists io3, w. split_and!.
  - assert (Hy2 : if t =? Read then set_read e call_once x = y
                  else (t =? Write) = true ∧ set_write e call_once x = y).
    { unfold y. destruct Ht as [-> | ->]; done. }
    destruct (t =? Read); [|destruct Hy2 as (-> & Hy2)];
      rewrite (update_fd_Ok fd _ io1 x Hx), Hy2; cbn [mbind outcome_bind];
      change (fd_events_ io1) with l; fold io2; by rewrite Ha.
  - apply (io_inv_update fd y _ k io2 Hi2 Hx2); [|done]. intros _. simpl in *. rewrite Hk. by split.
  - unfold entry at 1, io3; cbn [fd_events_ set_fd_events set_kernel].
    rewrite (at_fd_insert _ _ _ _ _ Hx2), decide_True by done. rewrite Hex, <- Hy. done.
  - done.
  - by apply (watch_ok_new _ _ t w Hi3 Ht).
  - intros fd' Hne. split; [|by apply Hko]. rewrite <- (He fd').
    unfold entry, io3; cbn [fd_events_ set_fd_events set_kernel].
    rewrite (at_fd_insert _ _ _ _ _ Hx2), decide_False by done. simpl.
    by rewrite (at_fd_insert _ _ _ _ _ Hx), decide_False.
  - done.
  - done.
  - done.
  - done.
Qed.

(** The executors [reuse] is called on while the batch [l] is handled. *)
Definition reused (io : @IOManager K) (l : list epoll_event) : list eid :=
  concat (reused_of io (entry io (first_fd l)) <$> l).

Lemma renewable_mono r r' f :
  (∀ o x, executors r !! o = Some x → executors r' !! o = Some x) → renewable r f → renewable r' f.
Proof.
  clear. intros Hm (Hr & Hw). split; intros Hf; [destruct (Hr Hf) as (e & x & ? & Hx & ?)|
    destruct (Hw Hf) as (e & x & ? & Hx & ?)]; exists e, x; auto.
Qed.

Lemma timer_executors_revive r ts es l :
  timer_executors r ts es → timer_executors (revive l r) ts es.
Proof.
  clear. intros Hte. eapply Forall2_impl; [exact Hte|]. intros t e (x & Hx & Hst & Hcb & Hty). exists x.
  rewrite revive_lookup, Hx. split; [|done]. case_decide; [|done]. simpl. unfold renewed.
  by rewrite Hst, andb_false_r.
Qed.

(** What an answer of epoll_wait, after interruptions, says. *)
Lemma wait_reports n ivl l k1 io :
  interrupted wait_errno n (epoll_wait (epoll_fd_ io) epoll_wait_max_size ivl) (kernel_ io) = Some (inl l, k1) →
  (∀ fd, interest k1 (epoll_fd_ io) fd = interest (kernel_ io) (epoll_fd_ io) fd) ∧
  NoDup (data_fd <$> l) ∧ ∀ e, e ∈ l → watched io (data_fd e).
Proof.
  intros Hint. destruct (interrupted_last _ _ (λ k, ∀ fd, interest k (epoll_fd_ io) fd =
      interest (kernel_ io) (epoll_fd_ io) fd) n _ _ Hint) as (k0 & Hk0 & Hw0); [|done|].
  { intros k Hk fd. by rewrite wait_interest. }
  assert (Hl0 : (epoll_wait (epoll_fd_ io) epoll_wait_max_size ivl k0).1 = inl l) by by rewrite Hw0.
  split_and!; [|by eapply wait_nodup|].
  - intros fd. pose proof (wait_interest (epoll_fd_ io) epoll_wait_max_size ivl k0 fd) as Hx.
    rewrite Hw0 in Hx. simpl in Hx. by rewrite Hx.
  - intros e He. destruct (wait_watched _ _ _ _ _ e Hl0 He) as (v & Hv & _).
    exists v. by rewrite <- Hk0.
Qed.

Lemma blockPending_any tod fuel n l k1 io :
  io_inv io → stopping_ (scheduler_ io) = false → fresh_ids (io_rt io) →
  renewable (io_rt io) (entry io (first_fd l)) →
  let wake := (wakeup_pipe_fd_ io).1 in
  let iv := getNextInterval tod (timer_manager_ io) in
  interrupted wait_errno n (epoll_wait (epoll_fd_ io) epoll_wait_max_size (i32 iv.1)) (kernel_ io)
    = Some (inl l, k1) →
  (n < fuel)%nat →
  (∀ e, e ∈ l → data_fd e ≠ wake → first_fd l = wake → is_Some (at_fd (fd_events_ io) wake)) →
  ∃ io' es,
    blockPending tod fuel io = Ok io' ∧ io_inv io' ∧
    timer_executors (io_rt io')
      (filter (λ t, target_timestamp t <= clock tod (ticks iv.2)) (timers_ (timer_manager_ io))) es ∧
    (∀ o x, executors (io_rt io) !! o = Some x →
       executors (io_rt io') !! o = Some (if decide (o ∈ reused io l) then renewed x else x)) ∧
    scheduler_ io' = push ((Some <$> es) ++ concat (woken_of io <$> l)) (scheduler_ io) ∧
    (∀ fd, at_fd (fd_events_ io') fd = entry_after_by io (entry io (first_fd l)) l fd) ∧
    timer_manager_ io' = (takeExpiredTimers tod iv.2).2 ∧ wakeup_pipe_fd_ io' = wakeup_pipe_fd_ io ∧
    (wake ∈ (data_fd <$> l) → readable (kernel_ io') wake = 0%nat) ∧ fresh_ids (io_rt io').
Proof.
  intros Hi Hs Hfr Hre wake iv. unfold iv. clear iv. unfold blockPending.
  destruct (getNextInterval tod (timer_manager_ io)) as [ivl tm] eqn:Hiv. cbn [fst snd] in *.
  intros Hint Hn Hfirst.
  rewrite (invokeNoIntr_interrupted _ _ n _ _ _ Hint Hn). cbn [mbind outcome_bind fst snd].
  destruct (wait_reports _ _ _ _ _ Hint) as (Hk1 & Hnd & Hwat).
  assert (Htm : timers_ tm = timers_ (timer_manager_ io)).
  { rewrite <- (getNextInterval_timers tod (timer_manager_ io)). by rewrite Hiv. }
  assert (Htms : timers_sorted tm) by (unfold timers_sorted; rewrite Htm; apply Hi).
  destruct (timers_callbacks tod tm Htms) as (Hc1 & Hc2 & Hc3); [rewrite Htm; apply Hi|].
  destruct (takeExpired_run tod tm Htms) as (Hexp & _). rewrite Htm in Hexp.
  destruct (takeExpiredTimers tod tm) as [ts tm'] eqn:Htk. cbn [fst snd] in *.
  destruct (run_timers_ok ts (set_timers tm' (set_kernel k1 io)) Hc1 Hs Hfr)
    as (r & es & Hrun & Hte & _ & _ & Hfr' & Hold). rewrite Hrun. cbn [mbind outcome_bind].
  set (io1 := set_rt r _).
  assert (Hi1 : io_inv io1).
  { destruct Hi as [I1 I2 I3 I4 I5]. constructor; simpl; try done; intros; rewrite Hk1; auto. }
  destruct (batch_ok fuel (first_fd l) (entry io (first_fd l)) l io1 Hi1)
    as (io' & H1 & H2 & [? Hwk Htmr ?] & Hrt & H5 & H6 & H7 & _);
    [done|lia|by eapply renewable_mono|done| |].
  { intros e He Hne. split; [|destruct (Hwat e He) as [v Hv]; exists v; simpl; by rewrite Hk1]. assert (Hsome : is_Some (at_fd (fd_events_ io) (first_fd l))).
    { destruct (decide (first_fd l = wake)) as [Hfw|Hfw]; [rewrite Hfw; by apply (Hfirst e)|].
      destruct l as [|f l]; [by apply not_elem_of_nil in He|]. simpl in *.
      destruct (watched_entry io (data_fd f) Hi) as (x & Hx & _); [|done|by eexists].
      apply Hwat. set_solver. }
    destruct Hsome as [f Hf]. exists f. split; [done|]. unfold entry. by rewrite Hf. }
  exists io', es. split_and!; try done.
  - rewrite Hrt, <- Hexp. by apply timer_executors_revive.
  - intros o x Hx. rewrite Hrt, revive_lookup. change (reused_of io1) with (reused_of io). fold (reused io l).
    change (io_rt io1) with r. rewrite (Hold o x Hx). by case_decide.
  - rewrite H5. simpl. by rewrite push_push.
  - rewrite Hrt. intros o Ho. rewrite revive_next. apply Hfr'. rewrite revive_lookup in Ho.
    case_decide; [|done]. by apply fmap_is_Some in Ho.
Qed.

(** The same when every registration is [call_once]. *)
Lemma blockPending_run tod fuel n l k1 io :
  io_inv io → all_once io → stopping_ (scheduler_ io) = false → fresh_ids (io_rt io) →
  let wake := (wakeup_pipe_fd_ io).1 in
  let iv := getNextInterval tod (timer_manager_ io) in
  interrupted wait_errno n (epoll_wait (epoll_fd_ io) epoll_wait_max_size (i32 iv.1)) (kernel_ io)
    = Some (inl l, k1) →
  (n < fuel)%nat →
  (∀ e, e ∈ l → data_fd e ≠ wake → first_fd l = wake → is_Some (at_fd (fd_events_ io) wake)) →
  ∃ io' es,
    blockPending tod fuel io = Ok io' ∧ io_inv io' ∧ all_once io' ∧
    timer_executors (io_rt io')
      (filter (λ t, target_timestamp t <= clock tod (ticks iv.2)) (timers_ (timer_manager_ io))) es ∧
    scheduler_ io' = push ((Some <$> es) ++ concat (woken_of io <$> l)) (scheduler_ io) ∧
    (∀ fd, at_fd (fd_events_ io') fd = entry_after io l fd) ∧
    timer_manager_ io' = (takeExpiredTimers tod iv.2).2 ∧ wakeup_pipe_fd_ io' = wakeup_pipe_fd_ io ∧
    (wake ∈ (data_fd <$> l) → readable (kernel_ io') wake = 0%nat) ∧ fresh_ids (io_rt io').
Proof.
  intros Hi Ho Hs Hfr wake iv Hint Hn Hfirst.
  assert (Hf : once (entry io (first_fd l))).
  { unfold entry. destruct (at_fd (fd_events_ io) (first_fd l)) eqn:Hx; [by apply (Ho _ _ Hx)|done]. }
  destruct (blockPending_any tod fuel n l k1 io Hi Hs Hfr) with (3 := Hn)
    as (io' & es & H1 & H2 & H3 & _ & H5 & H6 & H7); [split; destruct Hf; congruence|done|done|].
  assert (Hat : ∀ fd, at_fd (fd_events_ io') fd = entry_after io l fd).
  { intros fd. rewrite H6. unfold entry_after_by, entry_after. destruct (report_of l fd); [|done].
    case_decide; [done|]. destruct (at_fd (fd_events_ io) fd) as [x|] eqn:Hx; [|done].
    simpl. by rewrite once_fired by eauto. }
  exists io', es. split_and!; try done; [|apply H7..]. intros fd x. rewrite Hat. unfold entry_after.
  destruct (report_of l fd); [case_decide|]; [apply Ho| |apply Ho].
  intros (y & Hy & ->)%fmap_Some. exact (Ho _ _ Hy).
Qed.

(** ** Properties *)

(** C15: [registerEvent] refuses when the manager is stopped; otherwise, for a
    descriptor inside the table or from 2 up, it makes the kernel watch the
    event in addition to those already registered, stores the executor in the
    slot of the event's direction, changes no other descriptor, and keeps the
    table and the kernel's interest list in agreement. *)
Theorem registerEvent_spec fuel fd t e call_once io :
  io_inv io → (0 < fuel)%nat → is_type t → 0 <= fd < 2 ^ 31 →
  (is_Some (at_fd (fd_events_ io) fd) ∨ 2 <= fd) → fd ≠ (wakeup_pipe_fd_ io).1 →
  pollable (kernel_ io) fd = true →
  (stopped io = true → registerEvent fuel fd t e call_once io = Ok (false, io)) ∧
  (stopped io = false →
   ∃ io' w, registerEvent fuel fd t e call_once io = Ok (true, io') ∧ io_inv io' ∧
     let x := entry io fd in
     entry io' fd = set_registered (Z.lor (registered_events x) t)
       (if t =? Read then set_read e call_once x else set_write e call_once x) ∧
     interest (kernel_ io') (epoll_fd_ io) fd = Some w ∧ has w t = true ∧
     (∀ fd', fd' ≠ fd → entry io' fd' = entry io fd' ∧
        interest (kernel_ io') (epoll_fd_ io) fd' = interest (kernel_ io) (epoll_fd_ io) fd') ∧
     scheduler_ io' = scheduler_ io ∧ timer_manager_ io' = timer_manager_ io ∧
     wakeup_pipe_fd_ io' = wakeup_pipe_fd_ io ∧ epoll_fd_ io' = epoll_fd_ io).
Proof. apply registerEvent_ok. Qed.

(** [hasEvent] answers what the kernel watches. *)
Lemma hasEvent_spec fd t io :
  io_inv io → is_type t → - 2 ^ 31 <= fd < 2 ^ 31 → fd ≠ (wakeup_pipe_fd_ io).1 →
  hasEvent fd t io = Ok (match interest (kernel_ io) (epoll_fd_ io) fd with
                         | Some w => has w t
                         | None => false
                         end).
Proof.
  intros Hi Ht Hr Hw. unfold hasEvent, beyond.
  destruct (at_fd (fd_events_ io) fd) as [x|] eqn:Hx.
  - pose proof Hx as (Hp & Hl)%at_fd_Some. apply lookup_lt_Some in Hl.
    rewrite u64_small by lia.
    destruct (Z.leb_spec (Z.of_nat (length (fd_events_ io))) fd); [lia|].
    rewrite (fd_event_Ok _ _ _ Hx). simpl. f_equal.
    pose proof (io_watch io Hi fd x Hx Hw) as Hwo.
    destruct (interest (kernel_ io) (epoll_fd_ io) fd) as [w|] eqn:Hin.
    + by eapply (watch_ok_has _ _ w t Hwo Ht).
    + simpl in Hwo. by rewrite Hwo.
  - rewrite (io_unwatched io Hi fd Hx Hw).
    destruct (Z.leb_spec (Z.of_nat (length (fd_events_ io))) (u64 fd)) as [|Hl]; [done|].
    exfalso. pose proof (io_len io Hi). unfold at_fd in Hx.
    destruct (Z.leb_spec 0 fd).
    + rewrite u64_small in Hl by lia. apply lookup_ge_None in Hx. lia.
    + unfold u64 in Hl. rewrite <- (Z.mod_add fd 1), Z.mod_small in Hl by lia. lia.
Qed.

(** C14: [blockPending] of a scheduler that is not stopping loses nothing and
    wakes nobody by mistake: after any number of interruptions of epoll_wait it
    appends to the ready queue one new executor per expired timer in expiry
    order, then for each reported event exactly the executors registered for
    it.  The flags of the entry of the first reported event decide for the
    whole batch: with its [call_once] a reported event is no longer registered
    and watched, otherwise it stays registered and that entry's executor is
    reused.  An executor is forgotten when its own registration is [call_once].
    All other entries and executors are untouched, table and kernel still
    agree, and the wakeup pipe is drained if it was reported.  (The persistent
    registrations of the first entry must hold an executor with a stack, or the
    code dereferences a null pointer; when the wakeup pipe is reported first
    together with other descriptors, it must lie inside the table, because the
    code reads the flags of the first entry.) *)
Theorem blockPending_delivers tod fuel n l k1 io :
  io_inv io → stopping_ (scheduler_ io) = false → fresh_ids (io_rt io) →
  renewable (io_rt io) (entry io (first_fd l)) →
  let wake := (wakeup_pipe_fd_ io).1 in
  let iv := getNextInterval tod (timer_manager_ io) in
  interrupted wait_errno n (epoll_wait (epoll_fd_ io) epoll_wait_max_size (i32 iv.1)) (kernel_ io)
    = Some (inl l, k1) →
  (n < fuel)%nat →
  (∀ e, e ∈ l → data_fd e ≠ wake → first_fd l = wake → is_Some (at_fd (fd_events_ io) wake)) →
  ∃ io' es,
    blockPending tod fuel io = Ok io' ∧ io_inv io' ∧
    timer_executors (io_rt io')
      (filter (λ t, target_timestamp t <= clock tod (ticks iv.2)) (timers_ (timer_manager_ io))) es ∧
    (∀ o x, executors (io_rt io) !! o = Some x →
       executors (io_rt io') !! o = Some (if decide (o ∈ reused io l) then renewed x else x)) ∧
    scheduler_ io' = push ((Some <$> es) ++ concat (woken_of io <$> l)) (scheduler_ io) ∧
    (∀ fd, at_fd (fd_events_ io') fd = entry_after_by io (entry io (first_fd l)) l fd) ∧
    timer_manager_ io' = (takeExpiredTimers tod iv.2).2 ∧ wakeup_pipe_fd_ io' = wakeup_pipe_fd_ io ∧
    (wake ∈ (data_fd <$> l) → readable (kernel_ io') wake = 0%nat) ∧ fresh_ids (io_rt io').
Proof. apply blockPending_any. Qed.

Lemma addRemoteTask_ok e io :
  pipe_end (kernel_ io) (wakeup_pipe_fd_ io).2 = Some (wakeup_pipe_fd_ io).1 →
  Z.of_nat (readable (kernel_ io) (wakeup_pipe_fd_ io).1) < pipe_capacity →
  ∃ io', addRemoteTask e io = Ok io' ∧
    remote_tasks_ (scheduler_ io') = e :: remote_tasks_ (scheduler_ io) ∧
    ready_executors_ (scheduler_ io') = ready_executors_ (scheduler_ io) ∧
    readable (kernel_ io') (wakeup_pipe_fd_ io).1 = S (readable (kernel_ io) (wakeup_pipe_fd_ io).1) ∧
    fd_events_ io' = fd_events_ io ∧ (io_inv io → io_inv io') ∧
    wakeup_pipe_fd_ io' = wakeup_pipe_fd_ io ∧
    pipe_end (kernel_ io') (wakeup_pipe_fd_ io).2 = Some (wakeup_pipe_fd_ io).1.
Proof.
  intros Hp Hroom. unfold addRemoteTask, wakeup. simpl.
  destruct (write_pipe _ _ _ Hp Hroom) as (Hr & Hb).
  pose proof (write_pipe_end (wakeup_pipe_fd_ io).2 (kernel_ io) (wakeup_pipe_fd_ io).2) as He.
  destruct (write_byte (wakeup_pipe_fd_ io).2 (kernel_ io)) as [r k] eqn:Hw. simpl in *. subst r.
  eexists. split; [reflexivity|]. split_and!; try done; [|simpl; by rewrite He].
  intros [? ? ? ? ?]. constructor; simpl; try done; intros;
    (replace k with (write_byte (wakeup_pipe_fd_ io).2 (kernel_ io)).2 by by rewrite Hw);
    rewrite write_interest; auto.
Qed.

(** Handing a task to another thread's manager while its wakeup pipe has
    room: the task is at the head of that scheduler's remote list and the pipe
    is readable, so that the thread's epoll_wait cannot sleep on; nothing else
    changes. *)
Lemma addRemoteTask_wakes e io :
  pipe_end (kernel_ io) (wakeup_pipe_fd_ io).2 = Some (wakeup_pipe_fd_ io).1 →
  Z.of_nat (readable (kernel_ io) (wakeup_pipe_fd_ io).1) < pipe_capacity →
  ∃ io', addRemoteTask e io = Ok io' ∧
    remote_tasks_ (scheduler_ io') = e :: remote_tasks_ (scheduler_ io) ∧
    ready_executors_ (scheduler_ io') = ready_executors_ (scheduler_ io) ∧
    readable (kernel_ io') (wakeup_pipe_fd_ io).1 = S (readable (kernel_ io) (wakeup_pipe_fd_ io).1) ∧
    fd_events_ io' = fd_events_ io ∧ (io_inv io → io_inv io') ∧
    wakeup_pipe_fd_ io' = wakeup_pipe_fd_ io ∧
    pipe_end (kernel_ io') (wakeup_pipe_fd_ io).2 = Some (wakeup_pipe_fd_ io).1.
Proof. apply addRemoteTask_ok. Qed.

(** [removeEvent] complements the registered events instead of the removed ones
    and does not store the result: removing one direction deletes the
    descriptor from epoll, forgets the executors of both directions, leaves
    [hasEvent] answering true, and makes the next [registerEvent] fail its
    assertion. *)
Lemma removeEvent_forgets_all fuel fd t io x :
  io_inv io → (0 < fuel)%nat → is_type t → fd ≠ (wakeup_pipe_fd_ io).1 →
  at_fd (fd_events_ io) fd = Some x → has (registered_events x) t = true → fd < 2 ^ 31 →
  ∃ io', removeEvent fuel fd t io = Ok io' ∧
    interest (kernel_ io') (epoll_fd_ io) fd = None ∧
    entry io' fd = mkFdEvents (registered_events x) (read_call_once x) (write_call_once x) None None ∧
    (∀ e call_once, stopped io = false →
       registerEvent fuel fd t e call_once io' = Fault AssertFailed) ∧
    scheduler_ io' = scheduler_ io.
Proof.
  intros Hi Hf Ht Hw Hx Hh Hb. pose proof Hx as (Hp & Hlt)%at_fd_Some. apply lookup_lt_Some in Hlt.
  assert (Hbe : ∀ l : list FdEvents, length l = length (fd_events_ io) →
            (Z.of_nat (length l) <=? u64 fd) = false).
  { intros l ->. rewrite u64_small by lia. apply Z.leb_gt. lia. }
  pose proof (io_watch io Hi fd x Hx Hw) as Hwo.
  assert (Hr : (registered_events x = 1 ∨ registered_events x = 4 ∨ registered_events x = 5) ∧
               interest (kernel_ io) (epoll_fd_ io) fd ≠ None).
  { destruct (interest (kernel_ io) (epoll_fd_ io) fd); simpl in Hwo; [by split; [apply Hwo|]|].
    rewrite Hwo in Hh. destruct Ht as [-> | ->]; done. }
  destruct Hr as (Hr & Hin).
  assert (Hz : u32 (Z.land (Z.lnot (registered_events x)) t) = 0).
  { revert Hh. destruct Hr as [-> |[-> | ->]]; destruct Ht as [-> | ->]; done. }
  unfold removeEvent, beyond. rewrite Hbe by done. rewrite (fd_event_Ok _ _ _ Hx). simpl.
  rewrite Hh, Hz. simpl. unfold epollDel.
  destruct (ctl_del (epoll_fd_ io) fd EPOLLET (kernel_ io) Hin) as (r & Hd & Hn).
  rewrite (epoll_do_Ret _ _ _ _ _ _ r) by done. simpl. change (has 0 Read) with false.
  change (has 0 Write) with false. cbv iota.
  rewrite (update_fd_Ok fd _ (set_kernel _ io) x Hx). simpl.
  set (io1 := set_fd_events _ _). set (y := set_read None (read_call_once x) x) in io1.
  assert (Hy : at_fd (fd_events_ io1) fd = Some y).
  { simpl. rewrite (at_fd_insert _ _ _ _ _ Hx). by rewrite decide_True. }
  rewrite (update_fd_Ok fd _ io1 y Hy). eexists. split; [reflexivity|]. split_and!; [done| | |done].
  - rewrite (entry_update fd y) by done. by rewrite decide_True.
  - intros e call_once Hs. set (io2 := set_fd_events _ io1). set (z := set_write _ _ _) in io2.
    assert (Hz2 : at_fd (fd_events_ io2) fd = Some z).
    { simpl. rewrite (at_fd_insert _ _ _ _ _ Hy). by rewrite decide_True. }
    unfold registerEvent. change (stopped io2) with (stopped io). rewrite Hs.
    unfold grow, beyond. rewrite Hbe by (simpl; by rewrite !length_insert). cbn [mbind outcome_bind].
    assert (Hep : ∀ v, registered_events v = registered_events x →
              epAdd fuel fd t (set_fd_events (<[Z.to_nat fd := v]> (fd_events_ io2)) io2) = Fault AssertFailed).
    { intros v Hv. unfold epAdd. rewrite (fd_event_Ok fd _ v);
        [|cbn [fd_events_ set_fd_events]; rewrite (at_fd_insert _ _ _ _ _ Hz2); by rewrite decide_True].
      cbn [mbind outcome_bind]. rewrite Hv.
      destruct (Z.eqb_spec (registered_events x) 0) as [|_]; [lia|]. unfold epollMod.
      rewrite (epoll_do_Err _ _ _ _ _ _ ENOENT); [done|done| |done]. by apply ctl_absent. }
    destruct Ht as [-> | ->]; simpl; rewrite (update_fd_Ok fd _ io2 z Hz2); simpl;
      by rewrite Hep.
Qed.
End Inv.

(** When the wakeup pipe comes first in a batch and lies beyond the table, the
    flags of its non-existing entry are read. *)
Lemma first_event_out_of_range {K} `{EpollKernel K} fuel first ev (io : @IOManager K) x :
  data_fd ev ≠ (wakeup_pipe_fd_ io).1 → at_fd (fd_events_ io) (data_fd ev) = Some x →
  at_fd (fd_events_ io) first = None → has (events ev) EPOLLIN = true →
  handle_event fuel first ev io = Fault OutOfBounds.
Proof.
  intros Hw Hx Hf He. unfold handle_event, left_read, fd_event.
  destruct (Z.eqb_spec (data_fd ev) (wakeup_pipe_fd_ io).1); [done|].
  rewrite Hx. simpl. rewrite He, Hf. done.
Qed.

(** ** Witnesses *)

Module IOManagerEx.
Import SimpleKernel.

(** Pipe 3 -> 4 watched, sockets 5 and 6 open. *)
Definition k0 : kernel :=
  mkKernel {[(2, 3) := 5]} [3; 5; 6] [mkEvent 5 1; mkEvent 3 1; mkEvent 6 12] {[3 := 2%nat]} [(4, 3)] ∅.
Definition tod (n : nat) : Z * Z := (1, Z.of_nat n).
Definition tms : @TimerManager callback :=
  mkManager [mkTimer 0 false 900 0 (Some (Body CRet)); mkTimer 1 false 5000 0 (Some (Body CRet))] 0 2.
Definition s0 : Scheduler := mkScheduler false false true false [] 1 [].
Definition io0 : @IOManager kernel := mkIO false 2 (3, 4) s0 tms [] k0 runtime_init.

Lemma io0_inv : io_inv io0.
Proof.
  constructor.
  - vm_compute. discriminate.
  - intros fd x Hx. apply at_fd_Some in Hx as (_ & Hx). done.
  - intros fd _ Hw. unfold interest; simpl. apply lookup_singleton_ne. intros [= <-]. by apply Hw.
  - repeat constructor; simpl; unfold tle; simpl; lia.
  - repeat constructor; by eexists.
Qed.

Lemma registerEvent_spec_witness :
  ∃ io' w, registerEvent 1 5 Read (Some 9%nat) true io0 = Ok (true, io') ∧ io_inv io' ∧
    interest (kernel_ io') 2 5 = Some w ∧ has w Read = true.
Proof.
  destruct (registerEvent_spec 1 5 Read (Some 9%nat) true io0) as (_ & Hr).
  - apply io0_inv.
  - lia.
  - by left.
  - lia.
  - right; lia.
  - discriminate.
  - reflexivity.
  - destruct (Hr eq_refl) as (io' & w & H1 & H2 & _ & H3 & H4 & _). exists io', w. auto.
Defined.

(** Executor 9 has run to its end. *)
Definition r0 : runtime :=
  mkRuntime None None None
    {[9%nat := mkExecutor true Terminal 1 DefaultStackSize (Some 0%nat) (Some (Body CRet)) (Some Entry)]}
    10 1 1 {[0%nat]} 1.

(** Executor 9 is registered persistently for reading from 5, executor 8 once
    for writing to 6. *)
Definition io1 : @IOManager kernel :=
  match registerEvent 1 5 Read (Some 9%nat) false (set_rt r0 io0) with
  | Ok (_, io) => match registerEvent 1 6 Write (Some 8%nat) true io with Ok (_, io) => io | _ => io0 end
  | _ => io0
  end.

Lemma io1_inv : io_inv io1.
Proof.
  destruct (grow_ok 5 io0 io0_inv) as (l & Hg & Hi & _); [lia|right; lia|].
  assert (Hl : l = replicate 7 FdEvents_init) by (vm_compute in Hg; by simplify_eq).
  subst l. clear Hg.
  destruct Hi as [I1 I2 I3 I4 I5]. constructor; try done.
  - intros fd x Hx Hw. replace (fd_events_ io1) with
      [FdEvents_init; FdEvents_init; FdEvents_init; FdEvents_init; FdEvents_init;
       mkFdEvents 1 false true (Some 9%nat) None; mkFdEvents 4 true true None (Some 8%nat)] in Hx
      by (vm_compute; reflexivity).
    apply at_fd_Some in Hx as (Hp & Hx).
    assert (Hfd : fd = 0 ∨ fd = 1 ∨ fd = 2 ∨ fd = 3 ∨ fd = 4 ∨ fd = 5 ∨ fd = 6).
    { apply lookup_lt_Some in Hx. simpl in Hx. lia. }
    destruct Hfd as [-> |[-> |[-> |[-> |[-> |[-> | ->]]]]]]; simpl in Hx; simplify_eq;
      vm_compute; auto.
  - intros fd Hx Hw. replace (kernel_ io1) with
      (set_watch (<[(2, 6) := Z.lor 4 EPOLLET]> (<[(2, 5) := Z.lor 1 EPOLLET]> {[(2, 3) := 5]})) k0)
      by (vm_compute; reflexivity).
    replace (wakeup_pipe_fd_ io1).1 with 3 in Hw by (vm_compute; reflexivity).
    replace (epoll_fd_ io1) with 2 by (vm_compute; reflexivity). unfold interest; simpl.
    rewrite !lookup_insert_ne; [apply lookup_singleton_ne; congruence|..];
      intros [= <-]; vm_compute in Hx; done.
Qed.

Lemma hasEvent_spec_witness : hasEvent 5 Read io1 = Ok true ∧ hasEvent (-1) Write io1 = Ok false.
Proof.
  assert (H1 : 5 ≠ (wakeup_pipe_fd_ io1).1) by (vm_compute; discriminate).
  assert (H2 : -1 ≠ (wakeup_pipe_fd_ io1).1) by (vm_compute; discriminate).
  split.
  - eapply eq_trans; [exact (hasEvent_spec 5 Read io1 io1_inv (or_introl eq_refl)
      ltac:(lia) H1)|vm_compute; reflexivity].
  - eapply eq_trans; [exact (hasEvent_spec (-1) Write io1 io1_inv (or_intror eq_refl)
      ltac:(lia) H2)|vm_compute; reflexivity].
Defined.

Lemma blockPending_delivers_witness :
  ∃ io' es, blockPending tod 1 io1 = Ok io' ∧
    ready_executors_ (scheduler_ io') = (Some <$> es) ++ [Some 9; None; Some 8]%nat ∧
    at_fd (fd_events_ io') 5 = Some (mkFdEvents 1 false true (Some 9%nat) None) ∧
    at_fd (fd_events_ io') 6 = Some (mkFdEvents 0 true true None None) ∧
    state_ <$> executors (io_rt io') !! 9%nat = Some Ready ∧
    readable (kernel_ io') 3 = 0%nat.
Proof.
  destruct (blockPending_delivers tod 1 0 [mkEvent 5 1; mkEvent 3 1; mkEvent 6 12] (kernel_ io1) io1)
    as (io' & es & H1 & _ & _ & Ho & H2 & Hat & _ & _ & H3 & _).
  - apply io1_inv.
  - reflexivity.
  - intros o [x Hx]. replace (io_rt io1) with r0 in * by (vm_compute; reflexivity).
    unfold r0 in Hx; simpl in Hx. apply lookup_singleton_Some in Hx as (<- & _). simpl. lia.
  - split; [intros _|intros Hx; vm_compute in Hx; done].
    eexists 9%nat, _. split_and!; [vm_compute; reflexivity..|vm_compute; by eexists].
  - vm_compute. reflexivity.
  - lia.
  - intros e _ _ Hx. vm_compute in Hx. done.
  - exists io', es. split_and!.
    + exact H1.
    + rewrite H2. vm_compute. reflexivity.
    + rewrite Hat. vm_compute. reflexivity.
    + rewrite Hat. vm_compute. reflexivity.
    + erewrite Ho; [|vm_compute; reflexivity]. vm_compute. reflexivity.
    + apply H3. vm_compute. right. left.
Defined.

Lemma addRemoteTask_wakes_witness :
  ∃ io', addRemoteTask (Some 7%nat) io1 = Ok io' ∧
    remote_tasks_ (scheduler_ io') = [Some 7%nat] ∧ readable (kernel_ io') 3 = 3%nat.
Proof.
  destruct (addRemoteTask_wakes (Some 7%nat) io1) as (io' & H1 & H2 & _ & H3 & _);
    [reflexivity|vm_compute; reflexivity|]. exists io'. auto.
Defined.
End IOManagerEx.
