(* ===== verification/Wakeup.v ===== *)
(** * Waking a waiting thread (IOManager::addRemoteTask, wakeup, blockPending)

    Other threads hand executors over with [addRemoteTask]: an insertion into the
    list of remote tasks, then one byte written to the pipe the owning thread
    watches, under the spin lock [wake_lock_].  The owner runs the loop of
    [threadScheduleFunc], waits in [epoll_wait] and empties the pipe.  Here the
    owner and any number of writers are interleaved between any two of these
    accesses.  The insertion is one step (RemoteTaskList.v); the pipe is a number
    of bytes, read in pieces of eight, whose write end blocks when it is full.
    The owner's tasks may hand executors over to their own thread too. *)

From S2P Require Import Prelude Sys Executor Scheduler IOManager IOManagerThm.
From stdpp Require Import options.
Set Default Proof Using "Type*".

(** ** A call of addRemoteTask *)

(** What the threads share. *)
Record wshared := mkShared {
  sched : Scheduler;
  wake_lock_ : bool;
  pipe : nat
}.

(** Where a thread is in its call. *)
Inductive call :=
| AtInsert (e : option eid)   (* scheduler_.addRemoteExecutor(executor) *)
| AtSpin                      (* wake_lock_.test_and_set *)
| AtWrite                     (* write(wakeup_pipe_fd_[1], "1", 1) *)
| AtClear.                    (* wake_lock_.clear *)
#[global] Instance call_eq_dec : EqDecision call.
Proof. solve_decision. Defined.

Definition capacity : nat := Z.to_nat pipe_capacity.

(** The next access of the call, which has returned when no place is left; no
    result when it cannot advance: it spins, or [write] blocks. *)
Definition call_step (c : call) (m : wshared) : option (option call * wshared) :=
  match c with
  | AtInsert e => Some (Some AtSpin, mkShared (addRemoteExecutor e (sched m)).2 (wake_lock_ m) (pipe m))
  | AtSpin => if wake_lock_ m then None else Some (Some AtWrite, mkShared (sched m) true (pipe m))
  | AtWrite =>
      if decide (pipe m < capacity)%nat
      then Some (Some AtClear, mkShared (sched m) (wake_lock_ m) (S (pipe m))) else None
  | AtClear => Some (None, mkShared (sched m) false (pipe m))
  end.

(** ** The owning thread *)

Inductive owner :=
| OHead                       (* the loop test, scheduleAll *)
| OPick                       (* the front of the ready queue *)
| ORun (c : option call)      (* a task runs, perhaps inside addRemoteTask *)
| OWait                       (* epoll_wait *)
| ODrain                      (* while (read(wakeup_pipe_fd_[0], ...) > 0) *)
| OEnd.                       (* the loop is left *)

(** What decides how the owner goes on: nothing, what the running task does, or
    what [epoll_wait] reports. *)
Inductive input :=
| Next
| Hand (e : option eid)                                  (* the task calls addRemoteTask *)
| Add (e : option eid)                                   (* addExecutor *)
| Stop                                                   (* stop *)
| Return                                                 (* exec() returns *)
| Report (wake : bool) (others : list (option eid)).     (* the pipe; executors of other events *)

(** Level-triggered [epoll_wait]: the pipe is reported only when it can be read,
    and while it can be read the call does not return empty-handed. *)
Definition reports (wake : bool) (others : list (option eid)) (n : nat) : bool :=
  match n with O => negb wake | S _ => wake || negb (bool_decide (others = [])) end.

Definition add_all (l : list (option eid)) (s : Scheduler) : Scheduler :=
  foldl (λ s e, (addExecutor e s).2) s l.

(** [stop_pending()] *)
Definition halted (s : Scheduler) : bool := stopped_ s && stop_pending_func_ s.

Definition owner_step (i : input) (o : owner) (m : wshared) : option (owner * wshared) :=
  let with_sched s := mkShared s (wake_lock_ m) (pipe m) in
  match o, i with
  | OHead, Next =>
      if halted (sched m) then Some (OEnd, m)
      else Some (OPick, with_sched (scheduleAll (sched m)))
  | OPick, Next =>
      let idle := if stopping_ (sched m) then OEnd else OWait in
      match ready_executors_ (sched m) with
      | Some _ :: l => Some (ORun None, with_sched (set_ready l (sched m)))
      | None :: l => Some (idle, with_sched (set_ready l (sched m)))
      | [] => Some (idle, m)
      end
  | ORun None, Hand e => Some (ORun (Some (AtInsert e)), m)
  | ORun None, Add e => Some (ORun None, with_sched (addExecutor e (sched m)).2)
  | ORun None, Stop => Some (ORun None, with_sched (stop (sched m)))
  | ORun None, Return => Some (OHead, m)
  | ORun (Some c), Next => p ← call_step c m; Some (ORun p.1, p.2)
  | OWait, Report wake others =>
      if reports wake others (pipe m)
      then Some (if wake then ODrain else OHead, with_sched (add_all others (sched m))) else None
  | ODrain, Next =>
      match pipe m with
      | O => Some (OHead, m)
      | S _ => Some (ODrain, mkShared (sched m) (wake_lock_ m) (pipe m - 8))
      end
  | _, _ => None
  end.

(** ** All threads *)

Record wsys := mkWsys {
  mem : wshared;
  own : owner;
  writers : list (option call)     (* the other threads *)
}.

Inductive action :=
| Owner (i : input)
| Begin (j : nat) (e : option eid)     (* thread j calls addRemoteTask *)
| Writer (j : nat).

Definition act (a : action) (s : wsys) : option wsys :=
  match a with
  | Owner i => p ← owner_step i (own s) (mem s); Some (mkWsys p.2 p.1 (writers s))
  | Begin j e =>
      match writers s !! j with
      | Some None => Some (mkWsys (mem s) (own s) (<[j := Some (AtInsert e)]> (writers s)))
      | _ => None
      end
  | Writer j =>
      match writers s !! j with
      | Some (Some c) => p ← call_step c (mem s); Some (mkWsys p.2 (own s) (<[j := p.1]> (writers s)))
      | _ => None
      end
  end.

Definition wstep (s s' : wsys) : Prop := ∃ a, act a s = Some s'.

Fixpoint acts (l : list action) (s : wsys) : option wsys :=
  match l with
  | [] => Some s
  | a :: l => s ← act a s; acts l s
  end.

(** A scheduler about to run its loop, [n] other threads. *)
Definition wstart (s : Scheduler) (n : nat) : wsys := mkWsys (mkShared s false 0) OHead (replicate n None).

(** ** Invariant *)

Definition held (x : option call) : nat :=
  match x with Some AtWrite | Some AtClear => 1 | _ => 0 end.

(** The call has inserted its executor and not yet written its byte. *)
Definition waking (x : option call) : bool :=
  match x with Some AtSpin | Some AtWrite => true | _ => false end.

Definition own_call (o : owner) : option call :=
  match o with ORun c => c | _ => None end.

Definition holders (o : owner) (l : list (option call)) : nat :=
  (held (own_call o) + sum_list_with held l)%nat.

Definition flag (b : bool) : nat := if b then 1%nat else 0%nat.

(** The lock has as many holders as its flag says, and a thread that is about to
    wait has been told of every task in its list, or will be; nothing has stopped
    it. *)
Record winv (s : wsys) : Prop := {
  wi_lock : holders (own s) (writers s) = flag (wake_lock_ (mem s));
  wi_pipe : (pipe (mem s) <= capacity)%nat;
  wi_wake : own s = OPick ∨ own s = OWait → remote_tasks_ (sched (mem s)) ≠ [] →
    (0 < pipe (mem s))%nat ∨ ∃ j x, writers s !! j = Some x ∧ waking x = true;
  wi_halt : own s = OPick ∨ own s = OWait → halted (sched (mem s)) = false;
  wi_stop : own s = OWait → stopping_ (sched (mem s)) = false
}.

Lemma sum_insert (l : list (option call)) j x y :
  l !! j = Some x → (sum_list_with held (<[j := y]> l) + held x = sum_list_with held l + held y)%nat.
Proof.
  revert j; induction l as [|z l IH]; intros [|j] Hj; try done; simpl.
  - injection Hj as ->. lia.
  - specialize (IH j Hj). lia.
Qed.

Lemma sum_lookup (l : list (option call)) j x : l !! j = Some x → (held x <= sum_list_with held l)%nat.
Proof. revert j; induction l as [|z l IH]; intros [|j] Hj; simplify_eq/=; [lia|]. specialize (IH j Hj). lia. Qed.

Lemma sum_holder (l : list (option call)) :
  (0 < sum_list_with held l)%nat → ∃ j x, l !! j = Some x ∧ held x = 1%nat.
Proof.
  induction l as [|z l IH]; simpl; [lia|]. intros Hl. destruct (decide (held z = 0%nat)) as [Hz|Hz].
  - destruct IH as (j & x & ? & ?); [lia|]. by exists (S j), x.
  - exists 0%nat, z. split; [done|]. destruct z as [[]|]; simpl in *; done.
Qed.

Lemma add_remote e s : remote_tasks_ (addExecutor e s).2 = remote_tasks_ s.
Proof. unfold addExecutor. by destruct (stopping_ s). Qed.

Lemma add_all_remote l : ∀ s, remote_tasks_ (add_all l s) = remote_tasks_ s.
Proof. induction l as [|e l IH]; intros s; [done|]. unfold add_all in *. cbn [foldl]. by rewrite IH, add_remote. Qed.

Lemma add_flags e s : halted (addExecutor e s).2 = halted s ∧ stopping_ (addExecutor e s).2 = stopping_ s.
Proof. unfold addExecutor. by destruct (stopping_ s) eqn:?. Qed.

Lemma add_all_flags l : ∀ s, halted (add_all l s) = halted s ∧ stopping_ (add_all l s) = stopping_ s.
Proof.
  induction l as [|e l IH]; intros s; [done|]. unfold add_all in *. cbn [foldl].
  destruct (IH (addExecutor e s).2) as (-> & ->). apply add_flags.
Qed.

Lemma scheduleAll_flags s : halted (scheduleAll s) = halted s ∧ stopping_ (scheduleAll s) = stopping_ s.
Proof. exact (add_all_flags (remote_tasks_ s) (set_remote [] s)). Qed.

Lemma add_all_ready l : ∀ s, stopping_ s = false →
  ready_executors_ (add_all l s) = ready_executors_ s ++ l.
Proof.
  induction l as [|e l IH]; intros s Hs; [by rewrite app_nil_r|]. unfold add_all in *. cbn [foldl].
  rewrite IH by by rewrite (proj2 (add_flags e s)). unfold addExecutor. rewrite Hs. simpl. by rewrite <- app_assoc.
Qed.

Lemma scheduleAll_remote s : remote_tasks_ (scheduleAll s) = [].
Proof. unfold scheduleAll. fold (add_all (remote_tasks_ s) (set_remote [] s)). by rewrite add_all_remote. Qed.

(** What a step of a call does to lock, pipe and list. *)
Lemma call_step_lock c m x m' :
  call_step c m = Some (x, m') → (held (Some c) <= flag (wake_lock_ m))%nat →
  (held x + flag (wake_lock_ m) = held (Some c) + flag (wake_lock_ m'))%nat.
Proof.
  destruct c; simpl; intros Hc Hl; repeat case_match; simplify_eq/=; try lia.
  destruct (wake_lock_ m); simpl in *; lia.
Qed.

Lemma call_step_pipe c m x m' :
  call_step c m = Some (x, m') → (pipe m <= capacity)%nat → (pipe m' <= capacity)%nat.
Proof. destruct c; simpl; intros Hc Hp; repeat case_match; simplify_eq/=; lia. Qed.

Lemma call_step_wake c m x m' :
  call_step c m = Some (x, m') →
  (0 < pipe m')%nat ∨ waking x = true ∨
  remote_tasks_ (sched m') = remote_tasks_ (sched m) ∧ pipe m' = pipe m ∧ waking (Some c) = false.
Proof. destruct c; simpl; intros Hc; repeat case_match; simplify_eq/=; auto. left. lia. Qed.

Lemma call_step_flags c m x m' :
  call_step c m = Some (x, m') →
  halted (sched m') = halted (sched m) ∧ stopping_ (sched m') = stopping_ (sched m).
Proof. destruct c; simpl; intros Hc; repeat case_match; by simplify_eq/=. Qed.

Lemma writer_inv s j c x m' :
  winv s → writers s !! j = Some (Some c) → call_step c (mem s) = Some (x, m') →
  winv (mkWsys m' (own s) (<[j := x]> (writers s))).
Proof.
  intros [Hl Hp Hw Hh Hst] Hj Hc. destruct (call_step_flags _ _ _ _ Hc) as (Hf & Hf'). pose proof (sum_insert _ j _ x Hj) as Hs. pose proof (sum_lookup _ j _ Hj) as Hle.
  unfold holders in Hl. assert (Hlt : (j < length (writers s))%nat) by by eapply lookup_lt_Some.
  constructor; simpl.
  - unfold holders. pose proof (call_step_lock c (mem s) x m' Hc). lia.
  - by eapply call_step_pipe.
  - intros Ho Hr. destruct (call_step_wake c (mem s) x m' Hc) as [?|[Hx|(Hr' & Hp' & Hcw)]]; [by left| |].
    + right. exists j, x. by rewrite list_lookup_insert_eq.
    + rewrite Hr' in Hr. rewrite Hp'. destruct (Hw Ho Hr) as [?|(j' & y & Hy & Hyw)]; [by left|right].
      exists j', y. split; [|done]. rewrite list_lookup_insert_ne; [done|]. intros ->. congruence.
  - by rewrite Hf.
  - by rewrite Hf'.
Qed.

Lemma begin_inv s j e :
  winv s → writers s !! j = Some None → winv (mkWsys (mem s) (own s) (<[j := Some (AtInsert e)]> (writers s))).
Proof.
  intros [Hl Hp Hw Hh Hst] Hj. pose proof (sum_insert _ j _ (Some (AtInsert e)) Hj) as Hs.
  constructor; simpl; [|done| |done|done].
  - unfold holders in *. simpl in Hs. lia.
  - intros Ho Hr. destruct (Hw Ho Hr) as [?|(j' & y & Hy & Hyw)]; [by left|right].
    exists j', y. split; [|done]. rewrite list_lookup_insert_ne; [done|]. intros ->. rewrite Hj in Hy. by simplify_eq.
Qed.

(** A step of the owner outside a call leaves the lock alone; it stands before its
    wait only with an empty list, or with what it has had there before. *)
Lemma owner_step_inv i o m o' m' :
  owner_step i o m = Some (o', m') →
  (∃ c x, o = ORun (Some c) ∧ o' = ORun x ∧ call_step c m = Some (x, m')) ∨
  held (own_call o) = 0%nat ∧ held (own_call o') = 0%nat ∧ wake_lock_ m' = wake_lock_ m ∧
  (pipe m' <= pipe m)%nat ∧
  (o' = OPick ∨ o' = OWait → remote_tasks_ (sched m') = [] ∨
     o = OPick ∧ remote_tasks_ (sched m') = remote_tasks_ (sched m) ∧ pipe m' = pipe m) ∧
  (o' = OPick ∨ o' = OWait → halted (sched m') = false ∨ o = OPick ∧ halted (sched m') = halted (sched m)) ∧
  (o' = OWait → stopping_ (sched m') = false).
Proof.
  intros Ho. destruct o as [| |[c|]| | |], i; simpl in Ho; try done.
  - right. destruct (halted (sched m)) eqn:Hh; simplify_eq/=.
    { split_and!; try done; by intros [|]. }
    split_and!; try done; intros _; left; [apply scheduleAll_remote|by rewrite (proj1 (scheduleAll_flags _))].
  - right. repeat case_match; simplify_eq/=; split_and!; try done; try (by intros [|]); auto.
  - left. apply bind_Some in Ho as ([x m1] & Hc & [= <- <-]). eauto.
  - right. simplify_eq/=. split_and!; try done; by intros [|].
  - right. simplify_eq/=. split_and!; try done; by intros [|].
  - right. simplify_eq/=. split_and!; try done; by intros [|].
  - right. simplify_eq/=. split_and!; try done; by intros [|].
  - right. repeat case_match; simplify_eq/=; split_and!; try done; by intros [|].
  - right. repeat case_match; simplify_eq/=; split_and!; try done; try lia; by intros [|].
Qed.

Lemma owner_inv s i o' m' :
  winv s → owner_step i (own s) (mem s) = Some (o', m') → winv (mkWsys m' o' (writers s)).
Proof.
  intros [Hl Hp Hw Hh Hst] Ho. unfold holders in Hl.
  destruct (owner_step_inv _ _ _ _ _ Ho) as [(c & x & Hown & -> & Hc)|(H1 & H2 & H3 & H4 & H5 & H6 & H7)].
  - rewrite Hown in Hl. constructor; simpl; [|by eapply call_step_pipe|by intros [|]..|done].
    unfold holders. cbn [own_call] in *. pose proof (call_step_lock c _ x _ Hc). lia.
  - constructor; simpl; [unfold holders; rewrite H3; lia|lia| | |done].
    + intros Ho' Hr. destruct (H5 Ho') as [?|(Hpk & Hr' & Hp')]; [done|]. rewrite Hp'.
      apply Hw; [by left|by rewrite <- Hr'].
    + intros Ho'. destruct (H6 Ho') as [?|(Hpk & ->)]; [done|]. apply Hh. by left.
Qed.

Lemma act_inv a s s' : winv s → act a s = Some s' → winv s'.
Proof.
  intros Hi Ha. destruct a as [i|j e|j]; simpl in Ha.
  - apply bind_Some in Ha as ([o m] & Ho & [= <-]). by eapply owner_inv.
  - repeat case_match; simplify_eq. by apply begin_inv.
  - repeat case_match; simplify_eq. apply bind_Some in Ha as ([x m] & Hc & [= <-]). by eapply writer_inv.
Qed.

Lemma start_inv s n : winv (wstart s n).
Proof.
  constructor; simpl; [|lia|by intros [|]..|done]. unfold holders. simpl.
  induction n as [|n IH]; [done|]. exact IH.
Qed.

Lemma reach_inv s0 n s : star wstep (wstart s0 n) s → winv s.
Proof.
  intros Hs. eapply star_invariant; [|apply start_inv|exact Hs]. intros x y Hx (a & Ha). by eapply act_inv.
Qed.

Lemma acts_star l : ∀ s s', acts l s = Some s' → star wstep s s'.
Proof.
  induction l as [|a l IH]; intros s s' Hl; [injection Hl as <-; apply star_refl|].
  apply bind_Some in Hl as (s1 & Ha & Hl). eapply star_step; [by exists a|by apply IH].
Qed.

Lemma acts_app l1 l2 s : acts (l1 ++ l2) s = acts l1 s ≫= acts l2.
Proof. revert s; induction l1 as [|a l1 IH]; intros s; [done|]. simpl. destruct (act a s); [apply IH|done]. Qed.

Lemma acts_one a s : acts [a] s = act a s.
Proof. simpl. by destruct (act a s). Qed.

(** ** What the owner does when it is told *)

(** The pipe is emptied in at most one read per byte and one more. *)
Lemma drain_steps s lk ws n :
  ∃ k, (k <= S n)%nat ∧
    acts (replicate k (Owner Next)) (mkWsys (mkShared s lk n) ODrain ws) =
    Some (mkWsys (mkShared s lk 0) OHead ws).
Proof.
  induction n as [n IH] using lt_wf_ind. destruct n as [|n]; [by exists 1%nat|].
  destruct (IH (S n - 8)%nat) as (k & Hk & Ha); [lia|]. exists (S k). split; [lia|]. exact Ha.
Qed.

Lemma head_steps s lk n ws :
  halted s = false →
  act (Owner Next) (mkWsys (mkShared s lk n) OHead ws) = Some (mkWsys (mkShared (scheduleAll s) lk n) OPick ws).
Proof. intros Hh. simpl. by rewrite Hh. Qed.

Lemma replicate_snoc {A} n (x : A) : replicate (S n) x = replicate n x ++ [x].
Proof. induction n as [|n IH]; [done|]. simpl. by rewrite <- IH. Qed.

(** After [epoll_wait] the owner takes the whole list over. *)
Lemma reported_taken s wake others s1 :
  winv s → own s = OWait → act (Owner (Report wake others)) s = Some s1 →
  ∃ k s2, (k <= S (S (pipe (mem s))))%nat ∧ acts (replicate k (Owner Next)) s1 = Some s2 ∧ own s2 = OPick ∧
    remote_tasks_ (sched (mem s2)) = [] ∧
    ready_executors_ (sched (mem s2)) =
      ready_executors_ (sched (mem s)) ++ others ++ remote_tasks_ (sched (mem s)).
Proof.
  intros Hi Ho Ha. destruct s as [[sc lk n] o ws]. simpl in *. subst o.
  pose proof (wi_halt _ Hi (or_intror eq_refl)) as Hh. pose proof (wi_stop _ Hi eq_refl) as Hst. simpl in *.
  destruct (reports wake others n); [|done]. injection Ha as <-.
  assert (Hend : ∀ n', act (Owner Next) (mkWsys (mkShared (add_all others sc) lk n') OHead ws) =
    Some (mkWsys (mkShared (scheduleAll (add_all others sc)) lk n') OPick ws)).
  { intros n'. apply head_steps. by rewrite (proj1 (add_all_flags others sc)). }
  assert (Hready : ready_executors_ (scheduleAll (add_all others sc)) =
    ready_executors_ sc ++ others ++ remote_tasks_ sc).
  { unfold scheduleAll. fold (add_all (remote_tasks_ (add_all others sc)) (set_remote [] (add_all others sc))).
    rewrite add_all_ready by (simpl; by rewrite (proj2 (add_all_flags others sc))). simpl.
    by rewrite add_all_ready, add_all_remote, app_assoc. }
  destruct wake; simpl.
  - destruct (drain_steps (add_all others sc) lk ws n) as (k & Hk & Hd).
    eexists (S k), _. split; [lia|]. rewrite replicate_snoc, acts_app, Hd.
    change (Some ?x ≫= ?f) with (f x). rewrite acts_one, Hend.
    split; [done|]. simpl. split_and!; [done|apply scheduleAll_remote|done].
  - eexists 1%nat, _. split; [lia|]. cbn [replicate]. rewrite acts_one, Hend. split; [done|]. simpl.
    split_and!; [done|apply scheduleAll_remote|done].
Qed.

(** ** The operations of the IO manager *)

Section Manager.
Context {K : Type} `{EpollLaws K}.
Implicit Types io : @IOManager K.

Definition shared_of io : wshared :=
  mkShared (scheduler_ io) false (readable (kernel_ io) (wakeup_pipe_fd_ io).1).

(** A call that nobody interrupts is [addRemoteTask] of IOManager.v. *)
Lemma call_alone e io :
  pipe_end (kernel_ io) (wakeup_pipe_fd_ io).2 = Some (wakeup_pipe_fd_ io).1 →
  Z.of_nat (readable (kernel_ io) (wakeup_pipe_fd_ io).1) < pipe_capacity →
  ∃ io' m1 m2 m3, addRemoteTask e io = Ok io' ∧
    call_step (AtInsert e) (shared_of io) = Some (Some AtSpin, m1) ∧
    call_step AtSpin m1 = Some (Some AtWrite, m2) ∧
    call_step AtWrite m2 = Some (Some AtClear, m3) ∧
    call_step AtClear m3 = Some (None, shared_of io').
Proof.
  intros He Hr. destruct (write_pipe _ _ _ He Hr) as (H1 & H2). unfold addRemoteTask, wakeup. simpl.
  destruct (write_byte _ _) as [r k] eqn:Hw. simpl in H1, H2. subst r.
  eexists _, _, _, _. split_and!; [done..| |]; simpl.
  - rewrite decide_True; [done|]. unfold capacity, pipe_capacity in *. lia.
  - simpl. unfold shared_of. simpl. by rewrite H2.
Qed.

(** Emptying the pipe is [drain_pipe] of IOManager.v. *)
Lemma drain_alone io :
  ∃ k j, drain_pipe (S (readable (kernel_ io) (wakeup_pipe_fd_ io).1)) (wakeup_pipe_fd_ io).1 (kernel_ io) = Ok k ∧
    acts (replicate j (Owner Next)) (mkWsys (shared_of io) ODrain []) =
    Some (mkWsys (shared_of (set_kernel k io)) OHead []).
Proof.
  destruct (drain_ok (wakeup_pipe_fd_ io).1 (S (readable (kernel_ io) (wakeup_pipe_fd_ io).1)) (kernel_ io))
    as (k & Hk & Hz & _); [lia|].
  destruct (drain_steps (scheduler_ io) false [] (readable (kernel_ io) (wakeup_pipe_fd_ io).1)) as (j & _ & Hj).
  exists k, j. split; [done|]. unfold shared_of. simpl. by rewrite Hj, Hz.
Qed.
End Manager.

(** ** Who can be stuck *)

(** What threads do by themselves, [epoll_wait] returning for the pipe included;
    other events and new calls come from outside. *)
Definition internal (a : action) : bool :=
  match a with
  | Owner (Next | Return | Report true []) | Writer _ => true
  | _ => false
  end.

Definition stuck (s : wsys) : Prop := ∀ a, internal a = true → act a s = None.

Lemma stuck_writer s j c : stuck s → writers s !! j = Some (Some c) → call_step c (mem s) = None.
Proof.
  intros Hs Hj. specialize (Hs (Writer j) eq_refl). simpl in Hs. rewrite Hj in Hs.
  by destruct (call_step c (mem s)).
Qed.

Lemma stuck_call c m : call_step c m = None → (pipe m <= capacity)%nat →
  c = AtSpin ∧ wake_lock_ m = true ∨ c = AtWrite ∧ pipe m = capacity.
Proof. destruct c; simpl; intros Hc Hp; repeat case_match; try done; [by left|right]. split; [done|lia]. Qed.

(** A lock that another thread holds for ever means a full pipe. *)
Lemma stuck_lock s :
  winv s → stuck s → held (own_call (own s)) = 0%nat → wake_lock_ (mem s) = true → pipe (mem s) = capacity.
Proof.
  intros Hi Hs Ho Hl. pose proof (wi_lock _ Hi) as Hk. unfold holders in Hk. rewrite Hl, Ho in Hk. simpl in Hk.
  destruct (sum_holder (writers s)) as (j & x & Hj & Hx); [lia|]. destruct x as [c|]; [|done].
  destruct (stuck_call c (mem s) (stuck_writer s j c Hs Hj) (wi_pipe _ Hi)) as [(-> & _)|(_ & ?)]; done.
Qed.

Lemma stuck_cases s : winv s → stuck s →
  own s = OWait ∧ pipe (mem s) = 0%nat ∧ remote_tasks_ (sched (mem s)) = [] ∧ Forall (eq None) (writers s) ∨
  own s = OEnd ∨
  pipe (mem s) = capacity ∧ (own s = ORun (Some AtWrite) ∨ own s = ORun (Some AtSpin)).
Proof.
  intros Hi Hs. pose proof (Hs (Owner Next) eq_refl) as Hn. pose proof (Hs (Owner Return) eq_refl) as Hr.
  pose proof (Hs (Owner (Report true [])) eq_refl) as Hp. simpl in Hn, Hr, Hp.
  destruct (own s) as [| |[c|]| | |] eqn:Ho; simpl in Hn, Hr, Hp; try done; [| | | | |by auto].
  - by destruct (halted _).
  - destruct (ready_executors_ _) as [|[]]; done.
  - right; right. destruct (call_step c (mem s)) as [[x m]|] eqn:Hc; [done|].
    destruct (stuck_call _ _ Hc (wi_pipe _ Hi)) as [(-> & Hl)|(-> & ?)]; [|by auto].
    split; [|by auto]. by apply stuck_lock; [..|rewrite Ho|].
  - left. destruct (pipe (mem s)) as [|p] eqn:Hz; [|done].
    assert (Hidle : Forall (eq None) (writers s)).
    { apply Forall_lookup. intros j [c|] Hj; [|done].
      destruct (stuck_call _ _ (stuck_writer s j c Hs Hj) (wi_pipe _ Hi)) as [(-> & Hl)|(-> & Hz')].
      - rewrite (stuck_lock s Hi Hs) in Hz; [done|by rewrite Ho|done].
      - rewrite Hz' in Hz. done. }
    split_and!; [done..| |done]. destruct (remote_tasks_ _) eqn:Hrt; [done|].
    destruct (wi_wake _ Hi) as [Hp0|(j & x & Hj & Hx)]; [by right|by rewrite Hrt|lia|].
    rewrite Forall_lookup in Hidle. by rewrite <- (Hidle j x Hj) in Hx.
  - by destruct (pipe (mem s)).
Qed.

(** *** A thread that hands too much to itself *)

Definition self_hand (e : option eid) : list action := Owner (Hand e) :: replicate 4 (Owner Next).

Lemma hand_one e s n ws : (n < capacity)%nat →
  acts (self_hand e) (mkWsys (mkShared s false n) (ORun None) ws) =
  Some (mkWsys (mkShared (addRemoteExecutor e s).2 false (S n)) (ORun None) ws).
Proof. intros Hn. simpl. rewrite decide_True by done. done. Qed.

Lemma hand_many e k : ∀ s n ws, (n + k <= capacity)%nat →
  ∃ s', star wstep (mkWsys (mkShared s false n) (ORun None) ws) (mkWsys (mkShared s' false (n + k)) (ORun None) ws) ∧
    remote_tasks_ s' = replicate k e ++ remote_tasks_ s.
Proof.
  induction k as [|k IH]; intros s n ws Hk.
  - exists s. rewrite Nat.add_0_r. split; [apply star_refl|done].
  - destruct (IH (addRemoteExecutor e s).2 (S n) ws) as (s' & Hs & Hr); [lia|]. exists s'. split.
    + eapply star_trans; [apply (acts_star (self_hand e)), hand_one; lia|].
      by replace (n + S k)%nat with (S n + k)%nat by lia.
    + rewrite Hr, replicate_snoc, <- app_assoc. done.
Qed.

Lemma full_blocks s lk : call_step AtWrite (mkShared s lk capacity) = None.
Proof. cbn [call_step pipe]. by rewrite decide_False by lia. Qed.

(** The owner blocks in its own [write], and nobody is left to read. *)
Lemma self_handover_blocks (e : option eid) :
  ∃ s, star wstep (wstart (mkScheduler false false true false [Some 2%nat] 1 []) 0) s ∧
    own s = ORun (Some AtWrite) ∧ length (remote_tasks_ (sched (mem s))) = S capacity ∧
    ∀ a, act a s = None.
Proof.
  destruct (hand_many e capacity (mkScheduler false false true false [] 1 []) 0 []) as (s & Hs & Hr); [lia|].
  exists (mkWsys (mkShared (addRemoteExecutor e s).2 true capacity) (ORun (Some AtWrite)) []). split_and!.
  - eapply star_trans; [apply (acts_star [Owner Next; Owner Next]); reflexivity|].
    eapply star_trans; [exact Hs|]. rewrite Nat.add_0_l.
    apply (acts_star [Owner (Hand e); Owner Next; Owner Next]). reflexivity.
  - done.
  - change (S (length (remote_tasks_ s)) = S capacity). rewrite Hr, length_app, length_replicate.
    change (length (remote_tasks_ _)) with 0%nat. by rewrite Nat.add_0_r.
  - intros [i|j x|j]; [|done|done]. destruct i; [|done..].
    cbn [act owner_step own mem]. by rewrite full_blocks.
Qed.

(** ** Properties *)

(** C12: No wake-up is lost.  However the owner's loop and any number of threads in
    addRemoteTask are interleaved: when the owner waits in epoll_wait and its list
    of remote tasks is not empty, some thread has still to write its byte, or the
    pipe can be read, so that epoll_wait returns; and whatever it then reports,
    the owner empties the pipe in a bounded number of reads and takes the whole
    list over, behind the ready executors and those of the other events. *)
Theorem no_lost_wakeup s0 n s :
  star wstep (wstart s0 n) s → own s = OWait → remote_tasks_ (sched (mem s)) ≠ [] →
  (∃ j x, writers s !! j = Some x ∧ waking x = true) ∨
  is_Some (act (Owner (Report true [])) s) ∧
  ∀ wake others s1, act (Owner (Report wake others)) s = Some s1 →
    ∃ k s2, (k <= S (S (pipe (mem s))))%nat ∧ acts (replicate k (Owner Next)) s1 = Some s2 ∧ own s2 = OPick ∧
      remote_tasks_ (sched (mem s2)) = [] ∧
      ready_executors_ (sched (mem s2)) =
        ready_executors_ (sched (mem s)) ++ others ++ remote_tasks_ (sched (mem s)).
Proof.
  intros Hs Ho Hr. pose proof (reach_inv s0 n s Hs) as Hi.
  destruct (wi_wake _ Hi (or_intror Ho) Hr) as [Hp|?]; [right|by left]. split.
  - simpl. rewrite Ho. simpl. destruct (pipe (mem s)); [lia|]. simpl. by eexists.
  - intros wake others s1. by apply reported_taken.
Qed.

(** C13: Handing over to another thread cannot deadlock.  A reachable state in which
    no thread can go on by itself is one where nothing is left to do (the owner
    waits, its list and the pipe are empty and no call is under way), where the
    owner's loop has ended, or where the owner itself is inside addRemoteTask with
    the pipe full. *)
Theorem handover_progress s0 n s :
  star wstep (wstart s0 n) s → stuck s →
  own s = OWait ∧ pipe (mem s) = 0%nat ∧ remote_tasks_ (sched (mem s)) = [] ∧ Forall (eq None) (writers s) ∨
  own s = OEnd ∨
  pipe (mem s) = capacity ∧ (own s = ORun (Some AtWrite) ∨ own s = ORun (Some AtSpin)).
Proof. intros Hs. apply stuck_cases. by eapply reach_inv. Qed.

(** ** Witnesses *)

Module WakeupEx.

Definition fresh : Scheduler := mkScheduler false false true false [] 1 [].

(** The owner waits; one thread has handed over a task and returned, another one
    is between its insertion and its write. *)
Definition told : wsys :=
  default (wstart fresh 2)
    (acts (Owner Next :: Owner Next :: Begin 0 (Some 5%nat) :: replicate 4 (Writer 0)) (wstart fresh 2)).

Lemma no_lost_wakeup_witness :
  is_Some (act (Owner (Report true [])) told) ∧
  ∀ wake others s1, act (Owner (Report wake others)) told = Some s1 →
    ∃ k s2, (k <= 3)%nat ∧ acts (replicate k (Owner Next)) s1 = Some s2 ∧ own s2 = OPick ∧
      remote_tasks_ (sched (mem s2)) = [] ∧ ready_executors_ (sched (mem s2)) = [] ++ others ++ [Some 5%nat].
Proof.
  destruct (no_lost_wakeup fresh 2 told) as [(j & x & Hj & Hx)|H].
  - apply (acts_star (Owner Next :: Owner Next :: Begin 0 (Some 5%nat) :: replicate 4 (Writer 0))).
    vm_compute. reflexivity.
  - reflexivity.
  - discriminate.
  - destruct j as [|[|j]]; vm_compute in Hj; simplify_eq.
  - exact H.
Defined.

Definition waiting : wsys := default (wstart fresh 2) (acts [Owner Next; Owner Next] (wstart fresh 2)).

Lemma waiting_stuck : stuck waiting.
Proof. intros [[]|j e|[|[|j]]] Ha; try done. by destruct wake, others. Qed.

Lemma handover_progress_witness : own waiting = OWait ∧ Forall (eq None) (writers waiting).
Proof.
  destruct (handover_progress fresh 2 waiting) as [(H1 & _ & _ & H2)|[H|(H & _)]].
  - apply (acts_star [Owner Next; Owner Next]). vm_compute. reflexivity.
  - exact waiting_stuck.
  - exact (conj H1 H2).
  - discriminate H.
  - discriminate H.
Defined.
End WakeupEx.
