(* ===== verification/IOThread.v ===== *)
(** * The IO manager of a thread (src/io/io_manager.cpp)

    The constructor of [IOManager] with [initEpoll] and [initPipe], the manager of
    the current thread, and the soundness of the manager's operations: from a new
    manager on, every operation that is called within its contract returns and
    keeps the manager well-formed.  Making an epoll instance and a pipe are calls
    of the class [ThreadCalls]. *)

From S2P Require Import Prelude Timer FdManager Sys Executor Scheduler SchedulerInv IOManager IOManagerThm.
From stdpp Require Import options.
Set Default Proof Using "Type*".

Class ThreadCalls (K : Type) := {
  sys_epoll_create : Z → K → sysres * K;
  (* the read and the write end *)
  sys_pipe : K → (sysres * (Z * Z)) * K;
  (* fcntl(fd, F_SETFL, O_NONBLOCK) *)
  sys_set_nonblock : Z → K → sysres * K
}.

(** epoll_create(2), pipe(2), fcntl(2). *)
Class ThreadLaws (K : Type) `{EpollKernel K} `{ThreadCalls K} := {
  create_empty n k ep k' : sys_epoll_create n k = (Ret ep, k') → ∀ fd, interest k' ep fd = None;
  pipe_ok k v p k' : sys_pipe k = ((Ret v, p), k') →
    pollable k' p.1 = true ∧ pipe_end k' p.2 = Some p.1 ∧ readable k' p.1 = 0%nat ∧
    ∀ ep fd, interest k' ep fd = interest k ep fd;
  nonblock_keeps fd k r k' : sys_set_nonblock fd k = (r, k') →
    (∀ ep fd', interest k' ep fd' = interest k ep fd') ∧
    (∀ fd', pollable k' fd' = pollable k fd' ∧ pipe_end k' fd' = pipe_end k fd' ∧ readable k' fd' = readable k fd')
}.

Definition epoll_create_size : Z := 1000.

Section IOThread.
Context {K : Type} `{EpollKernel K} `{!ThreadCalls K}.
Variable tod : nat → Z * Z.
Variable fuel : nat.

Definition initEpoll (io : @IOManager K) : outcome (@IOManager K) :=
  let '(r, k) := sys_epoll_create epoll_create_size (kernel_ io) in
  match r with
  | Ret ep => Ok (mkIO (stopped io) ep (wakeup_pipe_fd_ io) (scheduler_ io) (timer_manager_ io) (fd_events_ io) k (io_rt io))
  | Err _ => Fault AssertFailed
  end.

Definition initPipe (io : @IOManager K) : outcome (@IOManager K) :=
  let '((r, p), k) := sys_pipe (kernel_ io) in
  match r with
  | Err _ => Fault AssertFailed
  | Ret _ =>
      let '(r, k) := sys_set_nonblock p.1 k in
      match r with
      | Err _ => Fault AssertFailed
      | Ret _ =>
          epollAdd fuel p.1 (Z.lor EPOLLIN EPOLLOUT)
            (mkIO (stopped io) (epoll_fd_ io) p (scheduler_ io) (timer_manager_ io) (fd_events_ io) k (io_rt io))
      end
  end.

(** [IOManager::IOManager], on the executors [r] of the thread. *)
Definition IOManager_new (r : runtime) (k : K) : outcome (@IOManager K) :=
  p ← Scheduler_new r;
  let s := setExitWithTasksProcessed true p.1 in
  io ← initEpoll (mkIO false (-1) (-1, -1) s (Timer.mkManager [] 0 0) [] k p.2);
  initPipe io.

(** [t_io_manager]: made by its first use, or set. *)
Definition getThreadLocal (t_io_manager : option (@IOManager K)) (r : runtime) (k : K) : outcome (@IOManager K) :=
  match t_io_manager with
  | Some io => Ok io
  | None => IOManager_new r k
  end.

Definition setThreadLocal (io : option (@IOManager K)) (t_io_manager : option (@IOManager K)) : option (@IOManager K) := io.

(** ** Operations *)

Inductive io_op :=
| OpRegister (fd type : Z) (e : option eid) (call_once : bool)
| OpUnregister (fd events : Z)
| OpTimer (t : option (@Timer callback))
| OpCancel (t : option (@Timer callback))
| OpAdd (e : option eid)
| OpRemove (e : option eid)
| OpAddRemote (e : option eid)
| OpSetExit (b : bool)
| OpStop
| OpBlock.

Definition run_op (op : io_op) (io : @IOManager K) : outcome (@IOManager K) :=
  match op with
  | OpRegister fd t e call_once => p ← registerEvent fuel fd t e call_once io; Ok p.2
  | OpUnregister fd events => removeEvent fuel fd events io
  | OpTimer t => p ← registerTimer t io; Ok p.2
  | OpCancel t => cancelTimer t io
  | OpAdd e => Ok (set_scheduler (addExecutor e (scheduler_ io)).2 io)
  | OpRemove e => Ok (set_scheduler (removeExecutor e (scheduler_ io)) io)
  | OpAddRemote e => addRemoteTask e io
  | OpSetExit b => Ok (set_scheduler (setExitWithTasksProcessed b (scheduler_ io)) io)
  | OpStop => Ok (io_stop io)
  | OpBlock => blockPending tod fuel io
  end.

(** What the caller, and for [blockPending] the kernel, must provide.  A
    descriptor is registered above the wakeup pipe's, or when the table already
    reaches that; [removeEvent] is called only for events that are not
    registered, as it breaks the table otherwise ([removeEvent_forgets_all]);
    [blockPending] needs a scheduler that is not stopping and executors with
    stacks for the persistent registrations of the first descriptor reported. *)
Definition op_ok (op : io_op) (io : @IOManager K) : Prop :=
  match op with
  | OpRegister fd t e call_once =>
      is_type t ∧ 0 <= fd < 2 ^ 31 ∧ (is_Some (at_fd (fd_events_ io) fd) ∨ 2 <= fd) ∧
      fd ≠ (wakeup_pipe_fd_ io).1 ∧ pollable (kernel_ io) fd = true ∧
      (is_Some (at_fd (fd_events_ io) (wakeup_pipe_fd_ io).1) ∨ 0 <= (wakeup_pipe_fd_ io).1 < fd)
  | OpUnregister fd events => hasEvent fd events io = Ok false
  | OpTimer t => ∃ x, t = Some x ∧ is_Some (Timer.callback x)
  | OpCancel t => ∀ x, t = Some x → x ∈ timers_ (timer_manager_ io)
  | OpAddRemote _ => Z.of_nat (readable (kernel_ io) (wakeup_pipe_fd_ io).1) < pipe_capacity
  | OpBlock =>
      stopping_ (scheduler_ io) = false ∧
      ∃ n l k1, (n < fuel)%nat ∧
        interrupted wait_errno n (epoll_wait (epoll_fd_ io) epoll_wait_max_size
          (i32 (getNextInterval tod (timer_manager_ io)).1)) (kernel_ io) = Some (inl l, k1) ∧
        renewable (io_rt io) (entry io (first_fd l))
  | _ => True
  end.

(** The wakeup pipe [p] is connected, and the epoll instance watches it. *)
Definition wake_ok (p : Z * Z) (ep : Z) (k : K) : Prop :=
  pipe_end k p.2 = Some p.1 ∧ ∃ w, interest k ep p.1 = Some w ∧ has w EPOLLIN = true.

(** Table and kernel agree, a table that has entries reaches the wakeup pipe,
    executors are numbered, and the wakeup pipe works. *)
Record io_ok (io : @IOManager K) : Prop := {
  ok_inv : io_inv io;
  ok_reach : fd_events_ io = [] ∨ is_Some (at_fd (fd_events_ io) (wakeup_pipe_fd_ io).1);
  ok_ids : fresh_ids (io_rt io);
  ok_pipe : wake_ok (wakeup_pipe_fd_ io) (epoll_fd_ io) (kernel_ io)
}.

(** A manager that the thread can have. *)
Inductive io_reachable : @IOManager K → Prop :=
| reach_new r k io : fresh_ids r → IOManager_new r k = Ok io → io_reachable io
| reach_op op io io' : io_reachable io → op_ok op io → run_op op io = Ok io' → io_reachable io'.
End IOThread.

(** ** What [blockPending] keeps of the kernel

    A property of the kernel's state that epoll_wait, read and the changes of
    this epoll instance to descriptors other than the wakeup pipe preserve. *)

Lemma invokeNoIntr_P {K R} (P : K → Prop) (errno_of : R → option Z) (f : K → R * K) n : ∀ k p,
  (∀ k, P k → P (f k).2) → P k → invokeNoIntr errno_of n f k = Ok p → P p.2.
Proof.
  induction n as [|n IH]; intros k p Hf Hk Hi; simpl in Hi; [done|].
  pose proof (Hf k Hk) as Hk'. destruct (f k) as [r k']. case_decide; [by eapply IH|by injection Hi as <-].
Qed.

(** Neither the descriptors of the manager nor the kernel change. *)
Definition same_kernel {K} (io io' : @IOManager K) : Prop :=
  epoll_fd_ io' = epoll_fd_ io ∧ wakeup_pipe_fd_ io' = wakeup_pipe_fd_ io ∧ kernel_ io' = kernel_ io.

Section SameKernel.
Context {K : Type} `{EpollKernel K}.
Implicit Types io : @IOManager K.

Lemma update_fd_kernel fd f io io' : update_fd fd f io = Ok io' → same_kernel io io'.
Proof. intros Hu. apply bind_Ok in Hu as (x & _ & [= <-]). done. Qed.

Lemma left_kernel first ev l io p :
  (left_read first ev l io = Ok p ∨ left_write first ev l io = Ok p) → same_kernel io p.2.
Proof.
  intros [Hl|Hl]; [unfold left_read in Hl|unfold left_write in Hl];
    (destruct (has _ _); [|by injection Hl as <-]); apply bind_Ok in Hl as (f & _ & Hl); case_match;
    try (by injection Hl as <-); apply bind_Ok in Hl as (e & _ & Hl); by apply bind_Ok in Hl as (r & _ & [= <-]).
Qed.

Lemma wake_kernel ev io io' : (wake_read ev io = Ok io' ∨ wake_write ev io = Ok io') → same_kernel io io'.
Proof.
  intros [Hw|Hw]; [unfold wake_read in Hw|unfold wake_write in Hw];
    (destruct (has _ _); [|by injection Hw as <-]); apply bind_Ok in Hw as (x & _ & Hw);
    apply bind_Ok in Hw as (io1 & He & Hw); apply update_fd_kernel in Hw as (A & B & C);
    unfold enqueue in He; destruct (addExecutor _ _) as [b s]; apply bind_Ok in He as (u & _ & [= <-]);
    by unfold same_kernel; rewrite A, B, C.
Qed.

Lemma run_timers_kernel ts : ∀ io io', ofold run_timer ts io = Ok io' → same_kernel io io'.
Proof.
  induction ts as [|t ts IH]; intros io io' Ho; simpl in Ho; [by injection Ho as <-|].
  apply bind_Ok in Ho as (io1 & H1 & H2). apply bind_Ok in H1 as (p & _ & [= <-]). exact (IH _ _ H2).
Qed.
End SameKernel.

Section KernelFrame.
Context {K : Type} `{EpollKernel K}.
Variable P : K → Prop.
Variable ep wk : Z.
Hypothesis ctl_P : ∀ op fd ev k, fd ≠ wk → P k → P (epoll_ctl ep op fd ev k).2.
Hypothesis wait_P : ∀ n t k, P k → P (epoll_wait ep n t k).2.
Hypothesis read_P : ∀ fd n k, P k → P (read_bytes fd n k).2.
Variable tod : nat → Z * Z.
Variable fuel : nat.
Implicit Types io : @IOManager K.

Definition keeps io : Prop := epoll_fd_ io = ep ∧ (wakeup_pipe_fd_ io).1 = wk ∧ P (kernel_ io).

Lemma keeps_same io io' : same_kernel io io' → keeps io → keeps io'.
Proof using Type. intros (A & B & C). unfold keeps. by rewrite A, B, C. Qed.

Lemma epoll_do_P op ev fd k k' : fd ≠ wk → P k → epoll_do fuel ep op ev fd k = Ok k' → P k'.
Proof.
  intros Hne Hk Hd. unfold epoll_do in Hd. apply bind_Ok in Hd as (p & Hi & Hd).
  apply (invokeNoIntr_P P) in Hi; [|intros; by apply ctl_P|done]. destruct p.1; [by injection Hd as <-|done].
Qed.

Lemma epollMod_P fd ev io io' : fd ≠ wk → keeps io → epollMod fuel fd ev io = Ok io' → keeps io'.
Proof.
  intros Hne (A & B & C) Hd. apply bind_Ok in Hd as (k & Hd & [= <-]). rewrite A in Hd.
  split; [done|]. split; [done|]. simpl. by eapply epoll_do_P.
Qed.

Lemma epollAdd_P fd ev io io' : fd ≠ wk → keeps io → epollAdd fuel fd ev io = Ok io' → keeps io'.
Proof.
  intros Hne (A & B & C) Hd. apply bind_Ok in Hd as (k & Hd & [= <-]). rewrite A in Hd.
  split; [done|]. split; [done|]. simpl. by eapply epoll_do_P.
Qed.

Lemma epollDel_P fd io io' : fd ≠ wk → keeps io → epollDel fuel fd io = Ok io' → keeps io'.
Proof.
  intros Hne (A & B & C) Hd. apply bind_Ok in Hd as (k & Hd & [= <-]). rewrite A in Hd.
  split; [done|]. split; [done|]. simpl. by eapply epoll_do_P.
Qed.

Lemma unregister_P fd left io io' : fd ≠ wk → keeps io → unregister fuel fd left io = Ok io' → keeps io'.
Proof.
  intros Hne Hp Hu. apply bind_Ok in Hu as (x & _ & Hu). destruct (left =? registered_events x); [by injection Hu as <-|].
  apply bind_Ok in Hu as (io1 & Hd & Hu). apply update_fd_kernel in Hu. eapply keeps_same; [exact Hu|].
  destruct (left =? 0); [by eapply epollDel_P|by eapply epollMod_P].
Qed.

Lemma drain_pipe_P n fd : ∀ k k', P k → drain_pipe n fd k = Ok k' → P k'.
Proof.
  induction n as [|n IH]; intros k k' Hk Hd; simpl in Hd; [done|]. pose proof (read_P fd 8 k Hk) as Hk'.
  destruct (read_bytes fd 8 k) as [[v|e] k1]; simpl in Hk'; [|by injection Hd as <-].
  destruct (v >? 0); [by eapply IH|by injection Hd as <-].
Qed.

Lemma handle_event_P first ev io io' : keeps io → handle_event fuel first ev io = Ok io' → keeps io'.
Proof.
  intros Hp Hh. pose proof Hp as (A & B & C). unfold handle_event in Hh.
  destruct (Z.eqb_spec (data_fd ev) (wakeup_pipe_fd_ io).1) as [|Hne].
  { apply bind_Ok in Hh as (k & Hd & [= <-]). split; [done|]. split; [done|]. simpl. by eapply drain_pipe_P. }
  apply bind_Ok in Hh as (x & _ & Hh). apply bind_Ok in Hh as (p & H1 & Hh). apply bind_Ok in Hh as (q & H2 & Hh).
  apply bind_Ok in Hh as (io1 & H3 & Hh). apply bind_Ok in Hh as (io2 & H4 & H5).
  eapply keeps_same; [exact (wake_kernel ev io2 io' (or_intror H5))|].
  eapply keeps_same; [exact (wake_kernel ev io1 io2 (or_introl H4))|].
  eapply unregister_P, H3; [congruence|]. eapply keeps_same; [exact (left_kernel first ev p.1 p.2 q (or_intror H2))|].
  eapply keeps_same; [exact (left_kernel first ev _ io p (or_introl H1))|done].
Qed.

Lemma handle_events_P first l : ∀ io io', keeps io → ofold (handle_event fuel first) l io = Ok io' → keeps io'.
Proof.
  induction l as [|e l IH]; intros io io' Hp Ho; simpl in Ho; [by injection Ho as <-|].
  apply bind_Ok in Ho as (io1 & H1 & H2). eapply IH, H2. by eapply handle_event_P.
Qed.

Lemma blockPending_P io io' : keeps io → blockPending tod fuel io = Ok io' → keeps io'.
Proof.
  intros (A & B & C) Hb. unfold blockPending in Hb. destruct (getNextInterval tod (timer_manager_ io)) as [iv tm].
  rewrite A in Hb. apply bind_Ok in Hb as (p & Hi & Hb). apply (invokeNoIntr_P P) in Hi; [|intros; by apply wait_P|done].
  apply bind_Ok in Hb as (l & _ & Hb). destruct (takeExpiredTimers tod tm) as [ts tm'].
  apply bind_Ok in Hb as (io1 & H1 & H2). eapply handle_events_P, H2.
  eapply keeps_same; [exact (run_timers_kernel _ _ _ H1)|]. by split.
Qed.

Lemma epAdd_P fd t io io' : fd ≠ wk → keeps io → epAdd fuel fd t io = Ok io' → keeps io'.
Proof.
  intros Hne Hp Ha. apply bind_Ok in Ha as (x & _ & Ha). apply bind_Ok in Ha as (io1 & H1 & H2).
  eapply keeps_same; [exact (update_fd_kernel _ _ _ _ H2)|].
  destruct (registered_events x =? 0); [by eapply epollAdd_P|by eapply epollMod_P].
Qed.

Lemma registerEvent_P fd t e once io b io' :
  fd ≠ wk → keeps io → registerEvent fuel fd t e once io = Ok (b, io') → keeps io'.
Proof.
  intros Hne Hp. unfold registerEvent. destruct (stopped io); [by intros [= _ <-]|]. intros Hr.
  apply bind_Ok in Hr as (io1 & Hg & Hr).
  assert (H1 : keeps io1).
  { eapply keeps_same, Hp. unfold grow in Hg. destruct (beyond fd io); [|by injection Hg as <-].
    destruct (fd <? 0); [done|by injection Hg as <-]. }
  assert (Hx : ∀ f, (io ← update_fd fd f io1; io ← epAdd fuel fd t io; Ok (true, io)) = Ok (b, io') → keeps io').
  { intros f Hf. apply bind_Ok in Hf as (io2 & H2 & Hf). apply bind_Ok in Hf as (io3 & H3 & [= _ <-]).
    eapply epAdd_P, H3; [done|]. eapply keeps_same; [exact (update_fd_kernel _ _ _ _ H2)|done]. }
  destruct (t =? Read); [by eapply Hx|]. destruct (t =? Write); [by eapply Hx|]. by injection Hr as _ <-.
Qed.
End KernelFrame.

(** ** Soundness *)

Section Sound.
Context {K : Type} `{EpollLaws K} `{!ThreadCalls K} `{!ThreadLaws K}.
Variable tod : nat → Z * Z.
Variable fuel : nat.
Implicit Types io : @IOManager K.

Lemma construct_ids b st n f r : fresh_ids r → fresh_ids (construct b st n f r).2.
Proof.
  clear. intros Hr o [x Hx]. simpl in *. apply lookup_insert_Some in Hx as [(<- & _)|(_ & Hx)]; [lia|].
  assert (o < next_eid r)%nat by (apply Hr; by eexists). lia.
Qed.

Lemma Scheduler_new_ids r s r' : fresh_ids r → Scheduler_new r = Ok (s, r') → fresh_ids r'.
Proof.
  clear. intros Hr Hn. unfold Scheduler_new in Hn. destruct (getCurrent r) as [c r1] eqn:Hc.
  assert (Hr1 : fresh_ids r1).
  { unfold getCurrent in Hc. destruct (t_cur_executor r); [by injection Hc as _ <-|].
    pose proof (construct_ids false Ready 0 None r Hr) as Hi. unfold Executor_current in Hc.
    destruct (construct false Ready 0 None r) as [e r2]. by injection Hc as _ <-. }
  simpl in Hn. injection Hn as _ <-. exact (construct_ids true Init DefaultStackSize (Some ScheduleLoop) r1 Hr1).
Qed.

(** A new manager. *)
Lemma io_ok_new r k io : (0 < fuel)%nat → fresh_ids r → IOManager_new fuel r k = Ok io → io_ok io.
Proof.
  intros Hf Hr Hn. unfold IOManager_new in Hn. apply bind_Ok in Hn as ([s r'] & Hs & Hn).
  apply Scheduler_new_ids in Hs; [|done]. apply bind_Ok in Hn as (io1 & He & Hp).
  unfold initEpoll in He. cbn [kernel_] in He. destruct (sys_epoll_create epoll_create_size k) as [[ep|e] k1] eqn:Hc; [|done].
  pose proof (create_empty _ _ _ _ Hc) as Hep. injection He as <-. unfold initPipe in Hp. cbn [kernel_] in Hp.
  destruct (sys_pipe k1) as [[[v|e] p] k2] eqn:Hpi; [|done]. apply pipe_ok in Hpi as (P1 & P2 & _ & P4).
  destruct (sys_set_nonblock p.1 k2) as [[v'|e] k3] eqn:Hb; [|done]. apply nonblock_keeps in Hb as (B1 & B2).
  unfold epollAdd in Hp. cbn [epoll_fd_ kernel_] in Hp. apply bind_Ok in Hp as (k4 & Hd & [= <-]).
  destruct (ctl_add ep p.1 (Z.lor EPOLLIN EPOLLOUT) k3) as (rr & Hrr & Hint);
    [by rewrite (proj1 (B2 p.1))|by rewrite B1, P4|].
  rewrite (epoll_do_Ret _ _ _ _ _ _ rr Hf Hrr) in Hd. injection Hd as <-.
  split; cbn [set_kernel wakeup_pipe_fd_ kernel_ io_rt fd_events_ epoll_fd_]; [| |done|].
  - split; cbn [set_kernel fd_events_ wakeup_pipe_fd_ kernel_ epoll_fd_ timer_manager_ timers_ length].
    + lia.
    + intros fd x Hx. apply at_fd_Some in Hx as [_ Hx]. by rewrite lookup_nil in Hx.
    + intros fd _ Hw. by rewrite ctl_other, B1, P4.
    + constructor.
    + constructor.
  - by left.
  - split; [by rewrite ctl_pipe_end, (proj1 (proj2 (B2 p.2)))|]. eexists. split; [exact Hint|reflexivity].
Qed.

Lemma io_ok_scheduler s io : io_ok io → io_ok (set_scheduler s io).
Proof. intros [[] ? ? ?]. by constructor; [constructor|..]. Qed.

Lemma io_ok_timers m io :
  io_ok io → timers_sorted m → Forall (λ t, is_Some (Timer.callback t)) (timers_ m) → io_ok (set_timers m io).
Proof. intros [[] ? ? ?] Hs Hc. by constructor; [constructor|..]. Qed.

Lemma update_fd_rt fd f io io' : update_fd fd f io = Ok io' → io_rt io' = io_rt io.
Proof. clear. intros Hu. by apply bind_Ok in Hu as (x & _ & [= <-]). Qed.

Lemma registerEvent_rt fd t e once io b io' : registerEvent fuel fd t e once io = Ok (b, io') → io_rt io' = io_rt io.
Proof.
  unfold registerEvent. destruct (stopped io); [by intros [= _ <-]|]. intros Hr.
  apply bind_Ok in Hr as (io1 & Hg & Hr).
  assert (H1 : io_rt io1 = io_rt io).
  { unfold grow in Hg. destruct (beyond fd io); [|by injection Hg as <-]. destruct (fd <? 0); [done|by injection Hg as <-]. }
  assert (Hx : ∀ f, (io ← update_fd fd f io1; io ← epAdd fuel fd t io; Ok (true, io)) = Ok (b, io') → io_rt io' = io_rt io).
  { intros f Hf. apply bind_Ok in Hf as (io2 & H2 & Hf). apply bind_Ok in Hf as (io3 & H3 & [= _ <-]).
    apply update_fd_rt in H2. apply bind_Ok in H3 as (x & _ & H3). apply bind_Ok in H3 as (io4 & H4 & H3).
    apply update_fd_rt in H3. rewrite H3, <- H1, <- H2.
    destruct (registered_events x =? 0); by apply bind_Ok in H4 as (k & _ & [= <-]). }
  destruct (t =? Read); [by eapply Hx|]. destruct (t =? Write); [by eapply Hx|]. by injection Hr as _ <-.
Qed.

(** The wakeup pipe stays as it is. *)
Lemma wake_ok_frame p ep :
  (∀ op fd ev k, fd ≠ p.1 → wake_ok p ep k → wake_ok p ep (epoll_ctl ep op fd ev k).2) ∧
  (∀ n t k, wake_ok p ep k → wake_ok p ep (epoll_wait ep n t k).2) ∧
  (∀ fd n k, wake_ok p ep k → wake_ok p ep (read_bytes fd n k).2).
Proof.
  unfold wake_ok. split; [|split].
  - intros op fd ev k Hne. by rewrite ctl_pipe_end, ctl_other.
  - intros n t k. by rewrite wait_pipe_end, wait_interest.
  - intros fd n k. by rewrite read_pipe_end, read_interest.
Qed.

Lemma at_fd_mono {A} (l l' : list A) fd :
  (length l <= length l')%nat → is_Some (at_fd l fd) → is_Some (at_fd l' fd).
Proof.
  clear. intros Hl [x (Hp & Hx)%at_fd_Some]. apply lookup_lt_Some in Hx.
  destruct (lookup_lt_is_Some_2 l' (Z.to_nat fd)) as [y Hy]; [lia|]. exists y. by apply at_fd_Some.
Qed.

Lemma update_fd_length fd f io io' :
  update_fd fd f io = Ok io' → length (fd_events_ io') = length (fd_events_ io).
Proof. clear. intros Hu. apply bind_Ok in Hu as (x & _ & [= <-]). apply length_insert. Qed.

(** The table never shrinks. *)
Lemma registerEvent_length fd t e once io b io' :
  0 <= fd < 2 ^ 31 → registerEvent fuel fd t e once io = Ok (b, io') →
  (length (fd_events_ io) <= length (fd_events_ io'))%nat.
Proof.
  intros Hfd. unfold registerEvent. destruct (stopped io); [by intros [= _ <-]|]. intros Hr.
  apply bind_Ok in Hr as (io1 & Hg & Hr).
  assert (H1 : (length (fd_events_ io) <= length (fd_events_ io1))%nat).
  { unfold grow, beyond in Hg. rewrite u64_small in Hg by lia.
    destruct (Z.leb_spec (Z.of_nat (length (fd_events_ io))) fd); [|by injection Hg as <-].
    destruct (Z.ltb_spec fd 0); [lia|]. injection Hg as <-. simpl. rewrite length_resize. unfold grown_size.
    assert (fd <= fd * 3 / 2) by (apply Z.div_le_lower_bound; lia). lia. }
  assert (Hx : ∀ f, (io ← update_fd fd f io1; io ← epAdd fuel fd t io; Ok (true, io)) = Ok (b, io') →
    length (fd_events_ io') = length (fd_events_ io1)).
  { intros f Hf. apply bind_Ok in Hf as (io2 & H2 & Hf). apply bind_Ok in Hf as (io3 & H3 & [= _ <-]).
    apply update_fd_length in H2. apply bind_Ok in H3 as (x & _ & H3). apply bind_Ok in H3 as (io4 & H4 & H3).
    apply update_fd_length in H3. rewrite H3, <- H2.
    destruct (registered_events x =? 0); by apply bind_Ok in H4 as (k & _ & [= <-]). }
  destruct (t =? Read); [by rewrite (Hx _ Hr)|]. destruct (t =? Write); [by rewrite (Hx _ Hr)|].
  by injection Hr as _ <-.
Qed.

Lemma register_sound fd t e call_once io :
  (0 < fuel)%nat → io_ok io → op_ok tod fuel (OpRegister fd t e call_once) io →
  ∃ b io', registerEvent fuel fd t e call_once io = Ok (b, io') ∧ io_ok io'.
Proof.
  intros Hf [Hi Ho Hr Hp] (Ht & Hfd & Hin & Hw & Hpo & Habove).
  destruct (registerEvent_ok fuel fd t e call_once io Hi Hf Ht Hfd Hin Hw Hpo) as (G1 & G2).
  destruct (stopped io) eqn:Hs; [exists false, io; split; [by apply G1|by constructor]|].
  destruct (G2 eq_refl) as (io' & w & Hreg & Hi' & He & Hint & _ & Hother & _ & _ & Hwk & Hep). exists true, io'.
  split; [done|]. pose proof (registerEvent_rt _ _ _ _ _ _ _ Hreg) as A1.
  pose proof (registerEvent_length _ _ _ _ _ _ _ Hfd Hreg) as Hlen.
  destruct (wake_ok_frame (wakeup_pipe_fd_ io) (epoll_fd_ io)) as (W1 & W2 & W3).
  destruct (registerEvent_P _ _ _ W1 W2 W3 fuel _ _ _ _ _ _ _ Hw (conj eq_refl (conj eq_refl Hp)) Hreg) as (A2 & _ & A3).
  split; [done| |by rewrite A1|by rewrite A2, Hwk]. right. rewrite Hwk.
  destruct Habove as [Hat|Hlt]; [by eapply at_fd_mono|].
  destruct (at_fd (fd_events_ io') fd) as [x|] eqn:Hx.
  - apply at_fd_Some in Hx as (_ & Hx). apply lookup_lt_Some in Hx.
    destruct (lookup_lt_is_Some_2 (fd_events_ io') (Z.to_nat (wakeup_pipe_fd_ io).1)) as [y Hy]; [lia|].
    exists y. apply at_fd_Some. split; [lia|done].
  - rewrite <- Hwk in Hw. rewrite <- Hep, (io_unwatched io' Hi' fd Hx Hw) in Hint. done.
Qed.

Lemma unregister_sound fd ev io :
  hasEvent fd ev io = Ok false → removeEvent fuel fd ev io = Ok io.
Proof.
  unfold hasEvent, removeEvent. destruct (beyond fd io); [done|].
  destruct (fd_event fd io) as [x| |]; simpl; [|done..]. by intros [= ->].
Qed.

Lemma cancel_sound t io :
  io_ok io → op_ok tod fuel (OpCancel t) io → ∃ io', cancelTimer t io = Ok io' ∧ io_ok io'.
Proof.
  intros Hok Hc. destruct t as [t|]; [|exists io; split; [by destruct io|done]].
  specialize (Hc t eq_refl). pose proof (ok_inv io Hok) as Hi.
  assert (Ha : ∃ l a r, timers_ (timer_manager_ io) = l ++ a :: r ∧ target_timestamp a = target_timestamp t ∧
    Forall (λ x, target_timestamp x ≠ target_timestamp a) l).
  { destruct (list_find (λ x, target_timestamp x = target_timestamp t) (timers_ (timer_manager_ io))) as [[i a]|] eqn:Hf.
    - apply list_find_Some in Hf as (Hl & Ha & Hb). exists (take i (timers_ (timer_manager_ io))), a, (drop (S i) (timers_ (timer_manager_ io))).
      split; [by rewrite take_drop_middle|]. split; [done|]. apply Forall_lookup_2. intros j y Hj.
      apply lookup_take_Some in Hj as [Hj Hlt]. rewrite Ha. by eapply Hb.
    - apply list_find_None in Hf. rewrite Forall_forall in Hf. by destruct (Hf t Hc). }
  destruct Ha as (l & a & r & Heq & Hta & Hl). unfold cancelTimer.
  rewrite (removeTimer_first (timer_manager_ io) t a l r (io_sorted io Hi) Heq Hta Hl). cbn [mbind outcome_bind].
  eexists. split; [reflexivity|]. pose proof (io_callbacks io Hi) as Hcb. pose proof (io_sorted io Hi) as Hso.
  unfold timers_sorted in Hso. rewrite Heq in Hcb, Hso. apply io_ok_timers; [done| |].
  - unfold timers_sorted. cbn [timers_]. apply StronglySorted_app in Hso as (S1 & S2 & S3).
    apply StronglySorted_inv in S3 as [S3 _]. apply StronglySorted_app_2; [|done|done].
    intros x y Hx Hy. apply S1; [done|]. by apply elem_of_cons; right.
  - cbn [timers_]. rewrite Forall_app, Forall_cons in Hcb. apply Forall_app. tauto.
Qed.

Lemma timer_sound t io :
  io_ok io → op_ok tod fuel (OpTimer t) io → ∃ b io', registerTimer t io = Ok (b, io') ∧ io_ok io'.
Proof.
  intros Hok (x & -> & [f Hf]). unfold registerTimer. destruct (stopped io); [by exists false, io|].
  cbn [of_option mbind outcome_bind]. rewrite Hf. cbn [of_option mbind outcome_bind]. unfold addTimer. rewrite Hf.
  cbn [mbind outcome_bind]. do 2 eexists. split; [reflexivity|].
  pose proof (ok_inv io Hok) as Hi. apply io_ok_timers; [done| |].
  - unfold timers_sorted. cbn [timers_ Timer.insert]. apply ms_insert_sorted, Hi.
  - cbn [timers_ Timer.insert]. rewrite ms_insert_perm. constructor; [by eexists|apply Hi].
Qed.

Lemma block_sound io :
  io_ok io → op_ok tod fuel OpBlock io → ∃ io', blockPending tod fuel io = Ok io' ∧ io_ok io'.
Proof.
  intros [Hi Ho Hr Hp] (Hs & n & l & k1 & Hn & Hint & Hre).
  destruct (blockPending_any tod fuel n l k1 io Hi Hs Hr Hre Hint Hn)
    as (io' & es & Hb & Hi' & _ & _ & _ & Hat & _ & Hw & _ & Hr').
  { intros e He Hne Hfw. destruct Ho as [Hnil|Ho]; [|done]. exfalso.
    destruct (wait_reports _ _ _ _ _ Hint) as (_ & _ & Hwat). destruct (Hwat e He) as [w Hwa].
    rewrite (io_unwatched io Hi) in Hwa; [done| |done].
    rewrite Hnil. unfold at_fd. by destruct (0 <=? data_fd e). }
  assert (Hsome : ∀ fd, is_Some (at_fd (fd_events_ io) fd) ↔ is_Some (at_fd (fd_events_ io') fd)).
  { intros fd. rewrite Hat. unfold entry_after_by. destruct (report_of l fd); [|done].
    case_decide; [done|]. by rewrite fmap_is_Some. }
  exists io'. split; [done|]. split; [done| |done|].
  - rewrite Hw. destruct Ho as [Hnil|Ho]; [left|right; by apply Hsome].
    destruct (fd_events_ io') as [|x l'] eqn:Hl; [done|]. exfalso.
    destruct (proj2 (Hsome 0)) as [y Hy]; [rewrite ?Hl; by eexists|]. by rewrite Hnil in Hy.
  - rewrite Hw. destruct (wake_ok_frame (wakeup_pipe_fd_ io) (epoll_fd_ io)) as (W1 & W2 & W3).
    by destruct (blockPending_P _ _ _ W1 W2 W3 tod fuel _ _ (conj eq_refl (conj eq_refl Hp)) Hb) as (-> & _ & ?).
Qed.

Lemma op_sound op io :
  (0 < fuel)%nat → io_ok io → op_ok tod fuel op io → ∃ io', run_op tod fuel op io = Ok io' ∧ io_ok io'.
Proof.
  intros Hf Hok Hop. destruct op as [fd t e c|fd ev|t|t|e|e|e|b| |]; cbn [run_op].
  - destruct (register_sound fd t e c io Hf Hok Hop) as (b & io' & -> & H'). by exists io'.
  - exists io. split; [by apply unregister_sound|done].
  - destruct (timer_sound t io Hok Hop) as (b & io' & -> & H'). by exists io'.
  - by apply cancel_sound.
  - eexists. split; [reflexivity|]. by apply io_ok_scheduler.
  - eexists. split; [reflexivity|]. by apply io_ok_scheduler.
  - destruct (addRemoteTask_ok e io (proj1 (ok_pipe io Hok)) Hop) as (io' & Ha & _ & _ & _ & He & Hi & Hw & Hpe).
    exists io'. split; [done|]. destruct Hok as [I O R [P1 P2]].
    unfold addRemoteTask, wakeup in Ha. simpl in Ha. destruct (write_byte _ _) as [[v|er] k] eqn:Hwr; [|done].
    injection Ha as <-. split; [by apply Hi|done|done|]. split; [exact Hpe|].
    cbn [set_kernel kernel_ epoll_fd_ wakeup_pipe_fd_ set_scheduler].
    replace k with (write_byte (wakeup_pipe_fd_ io).2 (kernel_ io)).2 by by rewrite Hwr. by rewrite write_interest.
  - eexists. split; [reflexivity|]. by apply io_ok_scheduler.
  - eexists. split; [reflexivity|]. destruct Hok as [[] ? ? ?]. by constructor; [constructor|..].
  - by apply block_sound.
Qed.

(** C17: the IO manager is sound: a manager that was constructed and has gone
    through a sequence of registrations of events (for one or for every
    wake-up) and timers, cancellations, hand-overs, stop and [blockPending], all
    called within the contract [op_ok], is well-formed (the table of descriptors
    is what epoll watches, timers are sorted and have callbacks, the wakeup pipe
    is connected and watched, and inside the table once that has entries), and
    every further operation within its contract returns without a failed
    assertion, an access out of bounds or a null dereference, in a well-formed
    state again.  [removeEvent] is within its contract only for events that are
    not registered. *)
Theorem io_manager_sound io :
  (0 < fuel)%nat → io_reachable tod fuel io →
  io_ok io ∧ ∀ op, op_ok tod fuel op io → ∃ io', run_op tod fuel op io = Ok io' ∧ io_ok io'.
Proof.
  intros Hf Hre. assert (Hok : io_ok io).
  { induction Hre as [r k io Hr Hn|op io io' _ IH Hop Hrun]; [by eapply io_ok_new|].
    destruct (op_sound op io Hf IH Hop) as (io2 & Hrun' & Hok'). congruence. }
  split; [done|]. intros op Hop. by apply op_sound.
Qed.

(** A manager can be made when the kernel has a descriptor left for each call. *)
Lemma IOManager_new_works r (k : K) ep k1 v p k2 v' k3 :
  (0 < fuel)%nat → sys_epoll_create epoll_create_size k = (Ret ep, k1) → sys_pipe k1 = ((Ret v, p), k2) →
  sys_set_nonblock p.1 k2 = (Ret v', k3) → ∃ io, IOManager_new fuel r k = Ok io ∧ epoll_fd_ io = ep ∧ wakeup_pipe_fd_ io = p.
Proof.
  intros Hf Hc Hp Hn. unfold IOManager_new, Scheduler_new. destruct (getCurrent r) as [c r1]. simpl.
  unfold initEpoll. simpl. rewrite Hc. simpl. unfold initPipe. simpl. rewrite Hp, Hn. unfold epollAdd. simpl.
  pose proof (create_empty _ _ _ _ Hc) as Hep. apply pipe_ok in Hp as (P1 & _ & _ & P4). apply nonblock_keeps in Hn as (B1 & B2).
  destruct (ctl_add ep p.1 (Z.lor EPOLLIN EPOLLOUT) k3) as (rr & Hr & _).
  { by rewrite (proj1 (B2 p.1)). }
  { by rewrite B1, P4. }
  rewrite (epoll_do_Ret _ _ _ _ _ _ rr Hf Hr). simpl. by eexists.
Qed.
End Sound.

Module IOThreadEx.
Import SimpleKernel.

(** Descriptors from 10 up are handed out in turn: an epoll instance takes one, a
    pipe two; those from 100 up are sockets. *)
Definition low (k : kernel) : Z :=
  foldr (λ fd x, if fd <? 100 then Z.max fd x else x) 10 (openfds k).
Definition top (k : kernel) : Z := 1 + map_fold (λ p _ x, Z.max p.1 x) (low k) (watch k).

Lemma top_watch k fd : watch k !! (top k, fd) = None.
Proof.
  destruct (watch k !! (top k, fd)) as [x|] eqn:Hx; [|done]. exfalso. unfold top in Hx.
  assert (Hm : ∀ m b, ∀ p, is_Some (m !! p) → p.1 <= map_fold (λ (p : Z * Z) (_ : Z) x, Z.max p.1 x) b m).
  { intros m b. apply (map_fold_weak_ind (λ r (m : gmap (Z * Z) Z), ∀ p, is_Some (m !! p) → p.1 <= r)).
    - intros p [y Hy]. by rewrite lookup_empty in Hy.
    - intros q y m' r Hq IH p [z Hz]. apply lookup_insert_Some in Hz as [(<- & _)|(_ & Hz)]; [lia|].
      specialize (IH p (mk_is_Some _ _ Hz)). lia. }
  specialize (Hm (watch k) (low k) _ (mk_is_Some _ _ Hx)). simpl in Hm. lia.
Qed.

#[export] Instance thread_calls : ThreadCalls kernel := {
  sys_epoll_create _ k := (Ret (top k), mkKernel (watch k) (top k :: openfds k) (pending k) (bytes k) (pipes k) (flags k));
  sys_pipe k := ((Ret 0, (top k, top k + 1)),
    mkKernel (watch k) (top k :: (top k + 1) :: openfds k) (pending k) (delete (top k) (bytes k))
      ((top k + 1, top k) :: pipes k) (flags k));
  sys_set_nonblock fd k := (Ret 0, k)
}.

#[export] Instance thread_laws : ThreadLaws kernel.
Proof.
  split.
  - intros n k ep k' [= <- <-] fd. exact (top_watch k fd).
  - intros k v p k' [= <- <- <-]. cbn [fst snd]. split_and!; try done.
    + simpl. apply bool_decide_eq_true. left.
    + simpl. unfold find_pipe. cbn [pipes list_find fst]. by rewrite decide_True.
    + simpl. unfold count. simpl. by rewrite lookup_delete_eq.
  - by intros fd k r k' [= <- <-].
Qed.

Definition k0 : kernel := mkKernel ∅ [5; 6; 105; 106] [] ∅ [] ∅.
Definition io0 : @IOManager kernel :=
  match IOManager_new 1 runtime_init k0 with Ok io => io | _ => IOManagerEx.io0 end.

Lemma io_manager_sound_witness :
  ∃ io1 io2, run_op IOManagerEx.tod 1 (OpRegister 105 Read (Some 7%nat) false) io0 = Ok io1 ∧
    run_op IOManagerEx.tod 1 (OpAddRemote (Some 8%nat)) io1 = Ok io2 ∧ io_ok io2.
Proof.
  assert (H0 : io_reachable IOManagerEx.tod 1 io0).
  { apply (reach_new _ _ runtime_init k0); [|vm_compute; reflexivity]. intros o [x Hx]. vm_compute in Hx. done. }
  destruct (io_manager_sound IOManagerEx.tod 1 io0) as (_ & Hop); [lia|exact H0|].
  assert (Hr : op_ok IOManagerEx.tod 1 (OpRegister 105 Read (Some 7%nat) false) io0).
  { split; [by left|]. split; [lia|]. split; [right; lia|]. split; [vm_compute; discriminate|].
    split; [vm_compute; reflexivity|]. right. vm_compute. split; [discriminate|reflexivity]. }
  destruct (Hop _ Hr) as (io1 & H1 & _). exists io1.
  assert (Hre : io_reachable IOManagerEx.tod 1 io1) by (eapply reach_op; [exact H0|exact Hr|exact H1]).
  destruct (io_manager_sound IOManagerEx.tod 1 io1) as (_ & Hop1); [lia|exact Hre|].
  destruct (Hop1 (OpAddRemote (Some 8%nat))) as (io2 & H2 & Hok).
  - vm_compute in H1. injection H1 as <-. vm_compute. reflexivity.
  - exists io2. split; [exact H1|]. split; [exact H2|exact Hok].
Defined.
End IOThreadEx.
