(* ===== verification/CoIO.v ===== *)
(** * Coroutine versions of the blocking calls (src/io/co_io_function.cpp, src/io/hook.cpp)

    A call on a socket that would block registers the running coroutine with
    the IO manager and yields; the coroutine is resumed when the descriptor is
    ready or the call times out.  [ioInner] is cut at its [yield]: the part up
    to it ([ioInner_try]), the part after it ([ioInner_resume]) and the callback
    of its timer ([io_timeout]), which runs in an executor of its own.

    The kernel's socket calls are the class [SocketCalls]. *)

From S2P Require Import Prelude Timer FdManager Sys Executor Scheduler SchedulerInv IOManager IOManagerThm.
From stdpp Require Import options.
Set Default Proof Using "Type*".

Definition EBADF := 9.
Definition EINPROGRESS := 115.
Definition O_NONBLOCK := 2048.
Definition FIONBIO := 21537.
Definition SOL_SOCKET := 1.
Definition SO_RCVTIMEO := 20.
Definition SO_SNDTIMEO := 21.

(** The real calls, as found by dlsym. *)
Class SocketCalls (K : Type) := {
  socket_sys : Z → Z → Z → K → sysres * K;
  connect_sys : Z → K → sysres * K;
  close_sys : Z → K → sysres * K;
  fcntl_sys : Z → fcntl_cmd → option Z → K → sysres * K;
  ioctl_sys : Z → Z → Z → K → sysres * K;
  (* the pending error of a socket, SO_ERROR *)
  getsockopt_error : Z → K → (sysres * Z) * K;
  setsockopt_sys : Z → Z → Z → Z * Z → K → sysres * K;
  (* the status flags of an open descriptor *)
  status_flags : K → Z → option Z
}.

(** socket(2), fcntl(2). *)
Class SocketLaws (K : Type) `{SocketCalls K} := {
  socket_opens d t p k fd k' : socket_sys d t p k = (Ret fd, k') →
    0 <= fd < 2 ^ 30 ∧ is_Some (status_flags k' fd);
  fcntl_getfl fd a k v : status_flags k fd = Some v →
    0 <= v ∧ fcntl_sys fd F_GETFL a k = (Ret v, k);
  fcntl_setfl fd k v v' : status_flags k fd = Some v →
    ∃ r w k', fcntl_sys fd F_SETFL (Some v') k = (Ret r, k') ∧
      status_flags k' fd = Some w ∧ has w O_NONBLOCK = has v' O_NONBLOCK
}.

(** The calls [ioInner] repeats, as found by dlsym. *)
Class IoCalls (K : Type) := {
  accept_sys : Z → Z → Z → K → sysres * K;
  read_sys : Z → Z → Z → K → sysres * K;
  readv_sys : Z → Z → Z → K → sysres * K;
  recv_sys : Z → Z → Z → Z → K → sysres * K;
  recvfrom_sys : Z → Z → Z → Z → Z → Z → K → sysres * K;
  recvmsg_sys : Z → Z → Z → K → sysres * K;
  write_sys : Z → Z → Z → K → sysres * K;
  writev_sys : Z → Z → Z → K → sysres * K;
  send_sys : Z → Z → Z → Z → K → sysres * K;
  sendto_sys : Z → Z → Z → Z → Z → Z → K → sysres * K;
  sendmsg_sys : Z → Z → Z → K → sysres * K
}.

Definition to_int (r : sysres) : Z := match r with Ret v => v | Err _ => -1 end.

Section CoIO.
Context {K : Type} `{EpollKernel K} `{SocketCalls K}.
Variable tod : nat → Z * Z.
Variable fuel : nat.

(** The thread's IO manager, the descriptors' contexts and the live
    [shared_ptr<bool>] timeout flags. *)
Record world := mkWorld {
  w_io : @IOManager K;
  w_fds : FdManager;
  w_flags : gmap nat bool;
  w_next_flag : nat
}.

Definition set_io (io : @IOManager K) (w : world) : world :=
  mkWorld io (w_fds w) (w_flags w) (w_next_flag w).
Definition set_fds (m : FdManager) (w : world) : world :=
  mkWorld (w_io w) m (w_flags w) (w_next_flag w).
Definition set_flags (f : gmap nat bool) (w : world) : world :=
  mkWorld (w_io w) (w_fds w) f (w_next_flag w).
Definition w_kernel (w : world) : K := kernel_ (w_io w).
Definition set_k (k : K) (w : world) : world := set_io (set_kernel k (w_io w)) w.

(** A call that is passed on. *)
Definition sys_call {A} (f : K → A * K) (w : world) : A * world :=
  let '(a, k) := f (w_kernel w) in (a, set_k k w).

(** [FdManager::getInstance()->getContext(fd)] and the context it points to. *)
Definition context_at (fd : Z) (w : world) : outcome (option (nat * FdContext)) :=
  p ← getContext fd (w_fds w);
  match p with
  | None => Ok None
  | Some p => c ← of_option UseAfterFree (heap (w_fds w) !! p); Ok (Some (p, c))
  end.

Definition write_context (p : nat) (f : FdContext → FdContext) (w : world) : outcome world :=
  m ← write_through p f (w_fds w); Ok (set_fds m w).

(** ** Sleeping *)

(** The timer of [sleepInner]; its callback adds the current executor again. *)
Definition sleepInner (ms : Z) (cb : callback) (w : world) : outcome world :=
  let io := w_io w in
  let '(timer, tm) := make_Timer tod (timer_manager_ io) ms (Some cb) false in
  p ← registerTimer (Some timer) (set_timers tm io); Ok (set_io p.2 w).

Definition sleep_wakeup (current : eid) (w : world) : world :=
  set_io (set_scheduler (addExecutor (Some current) (scheduler_ (w_io w))).2 (w_io w)) w.

(** Milliseconds each call sleeps; [unsigned] arithmetic. *)
Definition co_sleep_ms (seconds : Z) : Z := u32 (seconds * 1000).
Definition co_usleep_ms (usec : Z) : Z := usec `div` 1000.
Definition co_nanosleep_ms (tv_sec tv_nsec : Z) : Z :=
  u32 (tv_sec * 1000 + tv_nsec ÷ 1000 ÷ 1000).

(** ** ioInner *)

Inductive io_pc :=
| IoTry
| IoWait (timer : @Timer callback) (flag : nat)
| IoDone (r : sysres)
| IoTimedOut.

(** [None]: the call is made directly; otherwise the timeout. *)
Definition ioInner_timeout (fd event_type : Z) (w : world) : outcome (option Z) :=
  c ← context_at fd w;
  match c with
  | None => Ok None
  | Some (_, c) =>
      if negb (is_socket c) || is_user_non_block c then Ok None
      else Ok (Some (if event_type =? Read then readTimeout c
                     else if event_type =? Write then writeTimeout c else 0))
  end.

Definition ioInner_try (fd event_type time_out_ms : Z) (func : K → sysres * K)
    (current : eid) (cb : nat → callback) (w : world) : outcome (io_pc * world) :=
  p ← invokeNoIntr errno fuel func (w_kernel w);
  let w := set_k p.2 w in
  match p.1 with
  | Ret r => Ok (IoDone (Ret r), w)
  | Err e =>
      if decide (e = EAGAIN) then
        let flag := w_next_flag w in
        let io := w_io w in
        let '(timer, tm) := make_Timer tod (timer_manager_ io) time_out_ms (Some (cb flag)) false in
        q ← registerTimer (Some timer) (set_timers tm io);
        q ← registerEvent fuel fd event_type (Some current) true q.2;
        Ok (IoWait timer flag, mkWorld q.2 (w_fds w) (<[flag := false]> (w_flags w)) (S flag))
      else Ok (IoDone (Err e), w)
  end.

(** After the [yield]; [time_out_ptr] goes out of scope. *)
Definition ioInner_resume (timer : @Timer callback) (flag : nat) (w : world)
    : outcome (io_pc * world) :=
  b ← of_option UseAfterFree (w_flags w !! flag);
  let w := set_flags (delete flag (w_flags w)) w in
  if b : bool then Ok (IoTimedOut, w)
  else io ← cancelTimer (Some timer) (w_io w); Ok (IoTry, set_io io w).

(** The timer's callback. *)
Definition io_timeout (fd event_type : Z) (flag : nat) (current : eid) (w : world)
    : outcome world :=
  w ← match w_flags w !! flag with
      | Some false =>
          io ← removeEvent fuel fd event_type (w_io w);
          Ok (set_flags (<[flag := true]> (w_flags w)) (set_io io w))
      | _ => Ok w
      end;
  Ok (set_io (set_scheduler (addExecutor (Some current) (scheduler_ (w_io w))).2 (w_io w)) w).

(** The call up to its first [yield], or its result when it does not wait. *)
Definition ioInner (fd event_type : Z) (func : K → sysres * K) (current : eid) (cb : nat → callback) (w : world)
    : outcome (io_pc * world) :=
  t ← ioInner_timeout fd event_type w;
  match t with
  | None => let '(r, w) := sys_call func w in Ok (IoDone r, w)
  | Some time_out_ms => ioInner_try fd event_type time_out_ms func current cb w
  end.

(** *** The calls that go through it

    Pointers are addresses; [current] and [cb] are the running executor and what
    its timer calls. *)

Section Calls.
Context `{!IoCalls K}.
Variable current : eid.
Variable cb : nat → callback.

Definition co_accept (sockfd addr addrlen : Z) : world → outcome (io_pc * world) :=
  ioInner sockfd Read (accept_sys sockfd addr addrlen) current cb.
Definition co_read (fd buf count : Z) : world → outcome (io_pc * world) :=
  ioInner fd Read (read_sys fd buf count) current cb.
Definition co_readv (fd iov iovcnt : Z) : world → outcome (io_pc * world) :=
  ioInner fd Read (readv_sys fd iov iovcnt) current cb.
Definition co_recv (sockfd buf len flags : Z) : world → outcome (io_pc * world) :=
  ioInner sockfd Read (recv_sys sockfd buf len flags) current cb.
Definition co_recvfrom (sockfd buf len flags src_addr addrlen : Z) : world → outcome (io_pc * world) :=
  ioInner sockfd Read (recvfrom_sys sockfd buf len flags src_addr addrlen) current cb.
Definition co_recvmsg (sockfd msg flags : Z) : world → outcome (io_pc * world) :=
  ioInner sockfd Read (recvmsg_sys sockfd msg flags) current cb.
Definition co_write (fd buf count : Z) : world → outcome (io_pc * world) :=
  ioInner fd Write (write_sys fd buf count) current cb.
Definition co_writev (fd iov iovcnt : Z) : world → outcome (io_pc * world) :=
  ioInner fd Write (writev_sys fd iov iovcnt) current cb.
Definition co_send (s msg len flags : Z) : world → outcome (io_pc * world) :=
  ioInner s Write (send_sys s msg len flags) current cb.
Definition co_sendto (s msg len flags to_ tolen : Z) : world → outcome (io_pc * world) :=
  ioInner s Write (sendto_sys s msg len flags to_ tolen) current cb.
Definition co_sendmsg (s msg flags : Z) : world → outcome (io_pc * world) :=
  ioInner s Write (sendmsg_sys s msg flags) current cb.
End Calls.

(** ** Sockets *)

(** Makes a new descriptor non-blocking and gives it a context. *)
Definition adopt (fd : Z) (w : world) : outcome world :=
  let '(r, w) := sys_call (fcntl_sys fd F_GETFL (Some 0)) w in
  let flags := to_int r in
  let w := if has flags O_NONBLOCK then w
           else (sys_call (fcntl_sys fd F_SETFL (Some (Z.lor flags O_NONBLOCK))) w).2 in
  let context := mkFdContext true true false true size_max size_max in
  m ← setContext fd context (w_fds w);
  Ok (set_fds m w).

Definition co_socket (domain type protocol : Z) (w : world) : outcome (sysres * world) :=
  let '(r, w) := sys_call (socket_sys domain type protocol) w in
  match r with
  | Err _ => Ok (r, w)
  | Ret fd => w ← adopt fd w; Ok (r, w)
  end.

(** The end of [co_accept], with the result of [ioInner]. *)
Definition co_accept_done (r : sysres) (w : world) : outcome (sysres * world) :=
  if 0 <=? to_int r then w ← adopt (to_int r) w; Ok (r, w) else Ok (r, w).

(** [co_connect] up to its [yield]: a result, or suspended. *)
Definition co_connect_try (sockfd : Z) (current : eid) (w : world)
    : outcome (option sysres * world) :=
  c ← context_at sockfd w;
  match c with
  | None => Ok (Some (Err EBADF), w)
  | Some (_, c) =>
      if negb (is_socket c) || is_user_non_block c then
        let '(r, w) := sys_call (connect_sys sockfd) w in Ok (Some r, w)
      else
        let '(r, w) := sys_call (connect_sys sockfd) w in
        if decide (r = Err EINPROGRESS) then
          q ← registerEvent fuel sockfd Write (Some current) true (w_io w);
          Ok (None, set_io q.2 w)
        else Ok (Some r, w)
  end.

(** The rest of [co_connect]. *)
Definition co_connect_resume (sockfd : Z) (w : world) : sysres * world :=
  let '(p, w) := sys_call (getsockopt_error sockfd) w in
  match p.1 with
  | Err e => (Err e, w)
  | Ret _ => if p.2 =? 0 then (Ret 0, w) else (Err p.2, w)
  end.

Definition co_close (fd : Z) (w : world) : outcome (sysres * world) :=
  h ← hasFd fd (w_fds w);
  w ← (if h : bool then
         io ← removeEvent fuel fd (Z.lor Read Write) (w_io w);
         m ← delContext fd (w_fds w); Ok (set_fds m (set_io io w))
       else Ok w);
  Ok (sys_call (close_sys fd) w).

Definition set_user_non_block (b : bool) (c : FdContext) : FdContext :=
  mkFdContext (is_socket c) (is_initialized c) b (is_sys_non_block c)
    (readTimeout c) (writeTimeout c).
Definition set_sys_non_block (b : bool) (c : FdContext) : FdContext :=
  mkFdContext (is_socket c) (is_initialized c) (is_user_non_block c) b
    (readTimeout c) (writeTimeout c).
Definition set_readTimeout (t : Z) (c : FdContext) : FdContext :=
  mkFdContext (is_socket c) (is_initialized c) (is_user_non_block c) (is_sys_non_block c)
    t (writeTimeout c).
Definition set_writeTimeout (t : Z) (c : FdContext) : FdContext :=
  mkFdContext (is_socket c) (is_initialized c) (is_user_non_block c) (is_sys_non_block c)
    (readTimeout c) t.

(** [arg] is the variable argument, for the commands that take one. *)
Definition co_fcntl (fd : Z) (cmd : fcntl_cmd) (arg : Z) (w : world) : outcome (Z * world) :=
  match cmd with
  | F_SETFL =>
      c ← context_at fd w;
      match c with
      | None => let '(r, w) := sys_call (fcntl_sys fd F_SETFL (Some arg)) w in Ok (to_int r, w)
      | Some (p, c) =>
          if is_socket c then
            let '(r, w) := sys_call (fcntl_sys fd F_SETFL (Some arg)) w in Ok (to_int r, w)
          else
            w ← write_context p (set_user_non_block (has arg O_NONBLOCK)) w;
            w ← write_context p (set_sys_non_block true) w;
            let '(r, w) := sys_call (fcntl_sys fd F_SETFL (Some (Z.lor arg O_NONBLOCK))) w in
            Ok (to_int r, w)
      end
  | F_GETFL =>
      let '(r, w) := sys_call (fcntl_sys fd F_GETFL None) w in
      let raw_result := to_int r in
      c ← context_at fd w;
      match c with
      | None => Ok (raw_result, w)
      | Some (_, c) =>
          if is_socket c then Ok (raw_result, w)
          else if is_user_non_block c then Ok (Z.lor raw_result O_NONBLOCK, w)
          else Ok (Z.land raw_result (Z.lnot O_NONBLOCK), w)
      end
  | F_int _ | F_ptr _ => let '(r, w) := sys_call (fcntl_sys fd cmd (Some arg)) w in Ok (to_int r, w)
  | F_void _ => let '(r, w) := sys_call (fcntl_sys fd cmd None) w in Ok (to_int r, w)
  end.

(** [arg] is what the pointer argument points to. *)
Definition co_ioctl (d request arg : Z) (w : world) : outcome (sysres * world) :=
  if request =? FIONBIO then
    c ← context_at d w;
    match c with
    | None => Ok (sys_call (ioctl_sys d request arg) w)
    | Some (p, c) =>
        if negb (is_socket c) then Ok (sys_call (ioctl_sys d request arg) w)
        else
          w ← write_context p (set_user_non_block (negb (arg =? 0))) w;
          Ok (sys_call (ioctl_sys d request arg) w)
    end
  else Ok (sys_call (ioctl_sys d request arg) w).

(** [optval] is the timeval argument (tv_sec, tv_usec). *)
Definition co_setsockopt (sockfd level optname : Z) (optval : Z * Z) (w : world)
    : outcome (sysres * world) :=
  w ← (if (level =? SOL_SOCKET) && ((optname =? SO_RCVTIMEO) || (optname =? SO_SNDTIMEO)) then
         c ← context_at sockfd w;
         match c with
         | None => Ok w
         | Some (p, _) =>
             let timeout := optval.1 * 1000 + optval.2 ÷ 1000 in
             if optname =? SO_RCVTIMEO then write_context p (set_readTimeout (u64 timeout)) w
             else write_context p (set_writeTimeout (u64 timeout)) w
         end
       else Ok w);
  Ok (sys_call (setsockopt_sys sockfd level optname optval) w).
End CoIO.
