(* ===== verification/CoIOThm.v ===== *)
(** * Correctness of the coroutine calls

    A call that would block suspends with its event and its timeout registered,
    is made ready again by the event or by the timeout, and then retries or
    reports the timeout; the socket calls keep the contexts of FdManager.v in
    step with the kernel. *)

From S2P Require Import Prelude Timer FdManager Sys Executor Scheduler SchedulerInv IOManager IOManagerThm CoIO.
From stdpp Require Import options.
Set Default Proof Using "Type*".

(** ** Contexts *)

Lemma context_at_ok {K} (w : @world K) fd :
  fd_inv (w_fds w) → 0 <= fd →
  ∃ o, context_at fd w = Ok o ∧ snd <$> o = ctx_of (w_fds w) fd ∧
    ∀ p c, o = Some (p, c) → contexts_ (w_fds w) !! Z.to_nat fd = Some (Some p) ∧ heap (w_fds w) !! p = Some c.
Proof.
  intros Hi Hp. unfold context_at, ctx_of. rewrite getContext_run by done. simpl.
  rewrite at_fd_lookup by done.
  destruct (contexts_ (w_fds w) !! Z.to_nat fd) as [[p|]|] eqn:E; try by exists None.
  destruct (inv_live _ Hi _ _ E) as [c Hc]. rewrite Hc. simpl. exists (Some (p, c)).
  split_and!; try done. intros ? ? [= <- <-]. done.
Qed.

(** A write through a descriptor's context changes that descriptor only. *)
Lemma write_through_ctx m fd p c f :
  fd_inv m → 0 <= fd → contexts_ m !! Z.to_nat fd = Some (Some p) → heap m !! p = Some c →
  ∃ m', write_through p f m = Ok m' ∧ fd_inv m' ∧ contexts_ m' = contexts_ m ∧
    heap m' !! p = Some (f c) ∧
    ∀ g, ctx_of m' g = if decide (g = fd) then Some (f c) else ctx_of m g.
Proof.
  intros Hi Hfd Hp Hc. unfold write_through. rewrite Hc. eexists. split; [reflexivity|].
  split_and!.
  - destruct Hi as [I1 I2 I3 I4]. constructor; simpl; try done.
    + intros i q Hq. rewrite lookup_insert_is_Some. destruct (decide (p = q)); eauto.
    + intros q. rewrite lookup_insert_is_Some'. intros [<-|Hq]; apply I3; eauto.
  - done.
  - simpl. apply lookup_insert_eq.
  - intros g. unfold ctx_of; simpl. unfold at_fd. destruct (Z.leb_spec 0 g).
    + case_decide; [subst g; rewrite Hp; apply lookup_insert_eq|].
      destruct (contexts_ m !! Z.to_nat g) as [[q|]|] eqn:E; try done.
      rewrite lookup_insert_ne; [done|]. intros <-.
      pose proof (inv_distinct m Hi _ _ _ Hp E). lia.
    + rewrite decide_False by lia. done.
Qed.

Section CoIOThm.
Context {K : Type} `{EpollLaws K} `{SocketLaws K}.
Variable tod : nat → Z * Z.
Implicit Types w : @world K.

(** ** Suspension *)

(** The coroutine [current] waits for event [ev] of [fd]. *)
Record suspended (w : @world K) (fd ev : Z) (timer : @Timer callback) (flag : nat) (current : eid) : Prop := {
  su_inv : io_inv (w_io w);
  su_fd : fd ≠ (wakeup_pipe_fd_ (w_io w)).1;
  su_range : 0 <= fd < 2 ^ 31;
  su_flag : w_flags w !! flag = Some false;
  su_timer : timer ∈ timers_ (timer_manager_ (w_io w));
  su_entry : is_Some (at_fd (fd_events_ (w_io w)) fd) ∧ has (registered_events (entry (w_io w) fd)) ev = true ∧
    (if ev =? Read then read_executor (entry (w_io w) fd) else write_executor (entry (w_io w) fd)) = Some current
}.

Lemma registerTimer_ok t f (io : @IOManager K) :
  io_inv io → stopped io = false → Timer.callback t = Some f →
  ∃ io', registerTimer (Some t) io = Ok (true, io') ∧ io_inv io' ∧
    t ∈ timers_ (timer_manager_ io') ∧
    io' = set_timers (Timer.insert t (timer_manager_ io)) io.
Proof.
  intros Hi Hs Ht. unfold registerTimer, addTimer. rewrite Hs. simpl. rewrite Ht. simpl.
  eexists. split_and!; [reflexivity| | |done].
  - destruct Hi as [I1 I2 I3 I4 I5]. constructor; simpl; try done.
    + by apply ms_insert_sorted.
    + rewrite ms_insert_perm. constructor; [by eexists|done].
  - simpl. rewrite ms_insert_perm. set_solver.
Qed.

Lemma entry_in_table (io : @IOManager K) fd :
  io_inv io → fd ≠ (wakeup_pipe_fd_ io).1 → is_Some (interest (kernel_ io) (epoll_fd_ io) fd) →
  is_Some (at_fd (fd_events_ io) fd).
Proof. intros Hi Hw Hs. destruct (watched_entry io fd Hi Hs Hw) as (x & -> & _). eauto. Qed.

Lemma has_lor r t : is_type t → (r = 0 ∨ r = 1 ∨ r = 4 ∨ r = 5) → has (Z.lor r t) t = true.
Proof. clear. intros [-> | ->] [-> |[-> |[-> | ->]]]; done. Qed.

Lemma entry_bits (io : @IOManager K) fd :
  io_inv io → fd ≠ (wakeup_pipe_fd_ io).1 →
  registered_events (entry io fd) = 0 ∨ registered_events (entry io fd) = 1 ∨
  registered_events (entry io fd) = 4 ∨ registered_events (entry io fd) = 5.
Proof.
  intros Hi Hw. unfold entry. destruct (at_fd (fd_events_ io) fd) as [x|] eqn:Hx; [|by left].
  pose proof (io_watch io Hi fd x Hx Hw) as Ho.
  destruct (interest (kernel_ io) (epoll_fd_ io) fd); simpl in *; tauto.
Qed.

Lemma has_or a m n : has a (Z.lor m n) = has a m || has a n.
Proof.
  clear. unfold has. rewrite Z.land_lor_distr_r. rewrite <- negb_andb. f_equal.
  apply eq_true_iff_eq. rewrite andb_true_iff, !Z.eqb_eq. apply Z.lor_eq_0_iff.
Qed.

Lemma report_of_elem l e :
  e ∈ l → NoDup (data_fd <$> l) → report_of l (data_fd e) = Some (events e).
Proof.
  clear. induction l as [|x l IH]; simpl; [by intros ?%not_elem_of_nil|].
  intros [->|He]%elem_of_cons (Hn & Hnd)%NoDup_cons; [by rewrite decide_True|].
  rewrite decide_False; [auto|]. intros Heq. apply Hn. rewrite Heq. by apply list_elem_of_fmap_2.
Qed.

Lemma cleared_not ev r t :
  is_type t → has ev t = true → (r = 0 ∨ r = 1 ∨ r = 4 ∨ r = 5) → has (cleared ev r) t = false.
Proof.
  clear. intros Ht Hh Hr. unfold cleared.
  destruct Ht as [-> | ->]; unfold Read, Write in Hh; rewrite Hh;
    [destruct (has ev EPOLLOUT)|destruct (has ev EPOLLIN)];
    destruct Hr as [-> |[-> |[-> | ->]]]; done.
Qed.

Lemma fired_read ev x : has ev Read = true → woken ev x = read_executor x :: (if has ev WRITE_WAKE then [write_executor x] else []).
Proof. clear. intros Hh. unfold woken, READ_WAKE. rewrite has_or. unfold Read in Hh. by rewrite Hh. Qed.

Lemma woken_elem ev x t :
  is_type t → has ev t = true →
  (if t =? Read then read_executor x else write_executor x) ∈ woken ev x.
Proof.
  clear. intros Ht Hh. unfold woken, READ_WAKE, WRITE_WAKE. rewrite !has_or.
  destruct Ht as [-> | ->]; unfold Read, Write in Hh; simpl; rewrite Hh; simpl; [set_solver|].
  apply elem_of_app. right. set_solver.
Qed.

(** Cancelling the only timer with its expiry. *)
(** The timer that [cancelTimer] takes away: the first one with the deadline of
    [timer], which is [timer] itself when no other timer shares it. *)
Definition same_deadline (timer : @Timer callback) (ts : list (@Timer callback)) : list (@Timer callback) :=
  filter (λ x, target_timestamp x = target_timestamp timer) ts.

Lemma same_deadline_first timer ts : timer ∈ ts → ∃ t, head (same_deadline timer ts) = Some t.
Proof.
  intros Ht. unfold same_deadline. destruct (filter _ ts) as [|t l] eqn:Hf; [|by exists t].
  assert (Hin : timer ∈ filter (λ x, target_timestamp x = target_timestamp timer) ts) by by apply list_elem_of_filter.
  rewrite Hf in Hin. by apply elem_of_nil in Hin.
Qed.

Lemma cancelTimer_ok timer t (io : @IOManager K) :
  io_inv io → head (same_deadline timer (timers_ (timer_manager_ io))) = Some t →
  ∃ tm, cancelTimer (Some timer) io = Ok (set_timers tm io) ∧
    timers_ (timer_manager_ io) ≡ₚ t :: timers_ tm.
Proof.
  intros Hi Hh. unfold cancelTimer. assert (Hd : target_timestamp t = target_timestamp timer).
  { unfold same_deadline in Hh. destruct (filter _ _) as [|x l] eqn:Hf; [done|]. injection Hh as ->.
    assert (Ht : t ∈ t :: l) by left. rewrite <- Hf in Ht. by apply list_elem_of_filter in Ht as [? _]. }
  unfold same_deadline in Hh. apply head_filter_Some in Hh as (l & r & Heq & Hl).
  rewrite (removeTimer_first _ timer t l r); [|apply Hi|done|done|by rewrite Hd].
  simpl. eexists. split; [reflexivity|]. rewrite Heq. simpl. by rewrite Permutation_middle.
Qed.

Lemma ioInner_suspend_ok fuel n fd ev ms func current cb w r k' :
  io_inv (w_io w) → stopped (w_io w) = false → is_type ev → 2 <= fd < 2 ^ 31 →
  fd ≠ (wakeup_pipe_fd_ (w_io w)).1 → pollable (w_kernel w) fd = true →
  (∀ k ep g, interest (func k).2 ep g = interest k ep g) →
  (∀ k g, pollable (func k).2 g = pollable k g) →
  interrupted errno n func (w_kernel w) = Some (r, k') → (n < fuel)%nat →
  (r = Err EAGAIN →
   ∃ timer flag w', ioInner_try tod fuel fd ev ms func current cb w = Ok (IoWait timer flag, w') ∧
     suspended w' fd ev timer flag current ∧
     target_timestamp timer = Timer_target (clock tod (ticks (timer_manager_ (w_io w)))) ms ∧
     Timer.callback timer = Some (cb flag)) ∧
  (r ≠ Err EAGAIN →
   ioInner_try tod fuel fd ev ms func current cb w = Ok (IoDone r, set_k k' w)).
Proof.
  intros Hi Hs Ht Hr Hw Hp Hfi Hfp Hint Hn.
  pose proof (invokeNoIntr_interrupted errno func n fuel (w_kernel w) (r, k') Hint Hn) as Hinv.
  unfold ioInner_try. rewrite Hinv. simpl. split; intros Hre.
  - destruct (interrupted_last errno func (λ k, (∀ ep g, interest k ep g = interest (w_kernel w) ep g) ∧
        ∀ g, pollable k g = pollable (w_kernel w) g) n _ _ Hint) as (k0 & (Hk1 & Hk2) & Hk0).
    { intros k (H3 & H4). split; intros; [rewrite Hfi|rewrite Hfp]; auto. }
    { done. }
    assert (Hki : ∀ ep g, interest k' ep g = interest (w_kernel w) ep g).
    { intros ep g. rewrite <- Hk1, <- (Hfi k0), Hk0. done. }
    assert (Hkp : ∀ g, pollable k' g = pollable (w_kernel w) g).
    { intros g. rewrite <- Hk2, <- (Hfp k0), Hk0. done. }
    subst r. rewrite decide_True by done.
    set (timer := mkTimer _ _ _ _ _). set (tm := mkManager _ _ _).
    set (io1 := set_timers tm (set_kernel k' (w_io w))).
    assert (Hi1 : io_inv io1).
    { destruct Hi as [I1 I2 I3 I4 I5]. constructor; simpl; try done; intros; rewrite Hki; auto. }
    destruct (registerTimer_ok timer (cb (w_next_flag w)) io1 Hi1 Hs eq_refl) as (io2 & Ha & Hi2 & Hin & Heq).
    rewrite Ha. cbn [mbind outcome_bind snd].
    destruct (registerEvent_ok fuel fd ev (Some current) true io2 Hi2) as (_ & Hreg);
      try (subst io2; simpl; done || lia || (rewrite Hkp; done)).
    destruct Hreg as (io3 & wv & He & Hi3 & Hen & Hiv & _ & _ & _ & Htm & Hwk & Hep);
      [by subst io2|].
    rewrite He. cbn [mbind outcome_bind snd].
    do 3 eexists. split; [reflexivity|]. split; [|done].
    assert (Hw3 : fd ≠ (wakeup_pipe_fd_ io3).1) by (rewrite Hwk; by subst io2).
    constructor; cbn [w_io w_flags].
    + done.
    + done.
    + lia.
    + apply lookup_insert_eq.
    + by rewrite Htm.
    + split_and!.
      * apply entry_in_table; [done|done|]. rewrite Hep. by eexists.
      * rewrite Hen. simpl. apply has_lor; [done|]. apply entry_bits; [done|]. by subst io2.
      * rewrite Hen. by destruct Ht as [-> | ->].
  - destruct r as [v|e]; [done|]. rewrite decide_False by congruence. done.
Qed.

(** What the event does to a suspended call. *)
Lemma event_wakes fuel n l k1 w fd ev timer flag current e :
  suspended w fd ev timer flag current → is_type ev →
  all_once (w_io w) → stopping_ (scheduler_ (w_io w)) = false → fresh_ids (io_rt (w_io w)) →
  let iv := getNextInterval tod (timer_manager_ (w_io w)) in
  let tm := (takeExpiredTimers tod iv.2).2 in
  interrupted wait_errno n (epoll_wait (epoll_fd_ (w_io w)) epoll_wait_max_size (i32 iv.1))
    (w_kernel w) = Some (inl l, k1) → (n < fuel)%nat →
  (∀ e, e ∈ l → data_fd e ≠ (wakeup_pipe_fd_ (w_io w)).1 → first_fd l = (wakeup_pipe_fd_ (w_io w)).1 →
     is_Some (at_fd (fd_events_ (w_io w)) (wakeup_pipe_fd_ (w_io w)).1)) →
  NoDup (data_fd <$> l) → e ∈ l → data_fd e = fd → has (events e) ev = true →
  ∃ io', blockPending tod fuel (w_io w) = Ok io' ∧ io_inv io' ∧
    timer_manager_ io' = tm ∧
    (∃ es, scheduler_ io' = push ((Some <$> es) ++ concat (woken_of (w_io w) <$> l)) (scheduler_ (w_io w)) ∧
       timer_executors (io_rt io') (filter (λ t, target_timestamp t <= clock tod (ticks iv.2))
         (timers_ (timer_manager_ (w_io w)))) es) ∧
    Some current ∈ woken_of (w_io w) e ∧
    has (registered_events (entry io' fd)) ev = false.
Proof.
  intros Hsu Ht Ho Hs Hfr iv tm Hint Hn Hfirst Hnd He Hfd Hev.
  destruct (su_entry _ _ _ _ _ _ Hsu) as ([x Hx] & Hreg & Hexe).
  assert (Hent : entry (w_io w) fd = x) by (unfold entry; by rewrite Hx).
  destruct (blockPending_run tod fuel n l k1 (w_io w)) as
    (io' & es & Hb & Hi' & _ & Hte & Hready & Hat & Htm & Hwk & _); try done; [apply Hsu|].
  pose proof (su_fd _ _ _ _ _ _ Hsu) as Hne.
  exists io'. split_and!; try done; [by exists es|..].
  - unfold woken_of. rewrite decide_False by congruence.
    rewrite Hfd, Hent in *. rewrite <- Hexe. by apply woken_elem.
  - unfold entry. rewrite Hat. unfold entry_after. rewrite <- Hfd, report_of_elem by done.
    rewrite decide_False by congruence. rewrite Hfd, Hx. simpl. apply cleared_not; [done|done|].
    rewrite <- Hent. apply entry_bits; [apply Hsu|done].
Qed.

(** The resumed call cancels a timer with its deadline and tries again. *)
Lemma resume_retries timer flag t w :
  io_inv (w_io w) → w_flags w !! flag = Some false →
  head (same_deadline timer (timers_ (timer_manager_ (w_io w)))) = Some t →
  ∃ tm, ioInner_resume timer flag w =
      Ok (IoTry, set_io (set_timers tm (w_io w)) (set_flags (delete flag (w_flags w)) w)) ∧
    timers_ (timer_manager_ (w_io w)) ≡ₚ t :: timers_ tm.
Proof.
  intros Hi Hf Hu. destruct (cancelTimer_ok timer t (w_io w) Hi Hu) as (tm & Hc & Hp).
  exists tm. split; [|done]. unfold ioInner_resume. rewrite Hf. simpl. by rewrite Hc.
Qed.

(** ** Properties *)

(** C16: a call on a descriptor.  When the library has no context for it, or it is
    no socket, or the user has made it non-blocking, the kernel's answer is
    returned and nothing else happens.  A blocking socket of the library, on a
    manager that is not stopped, after any number of interruptions: an answer
    EAGAIN leaves the coroutine registered for the event (the kernel watches it,
    the table holds the coroutine) and a timer armed at the saturated sum of now
    and the socket's read timeout for Read, its write timeout for Write, whose
    callback is the timeout's; any other answer is returned unchanged and nothing
    is registered. *)
Theorem ioInner_suspends fuel n fd ev func current cb w r k' :
  fd_inv (w_fds w) → 2 <= fd < 2 ^ 31 → is_type ev →
  let passed_on :=
    ioInner tod fuel fd ev func current cb w = Ok (IoDone (func (w_kernel w)).1, set_k (func (w_kernel w)).2 w) in
  (ctx_of (w_fds w) fd = None → passed_on) ∧
  ∀ c, ctx_of (w_fds w) fd = Some c →
    (is_socket c = false → passed_on) ∧ (is_user_non_block c = true → passed_on) ∧
    (is_socket c = true → is_user_non_block c = false →
     io_inv (w_io w) → stopped (w_io w) = false →
     fd ≠ (wakeup_pipe_fd_ (w_io w)).1 → pollable (w_kernel w) fd = true →
     (∀ k ep g, interest (func k).2 ep g = interest k ep g) → (∀ k g, pollable (func k).2 g = pollable k g) →
     interrupted errno n func (w_kernel w) = Some (r, k') → (n < fuel)%nat →
     (r = Err EAGAIN →
      ∃ timer flag w', ioInner tod fuel fd ev func current cb w = Ok (IoWait timer flag, w') ∧
        suspended w' fd ev timer flag current ∧
        (ev = Read → target_timestamp timer = Timer_target (clock tod (ticks (timer_manager_ (w_io w)))) (readTimeout c)) ∧
        (ev = Write → target_timestamp timer = Timer_target (clock tod (ticks (timer_manager_ (w_io w)))) (writeTimeout c)) ∧
        Timer.callback timer = Some (cb flag)) ∧
     (r ≠ Err EAGAIN → ioInner tod fuel fd ev func current cb w = Ok (IoDone r, set_k k' w))).
Proof.
  intros Hfds Hfd Hty passed_on. destruct (context_at_ok w fd Hfds) as (o & Ho & Hoc & _); [lia|].
  unfold passed_on, ioInner, ioInner_timeout. rewrite Ho. cbn [mbind outcome_bind]. rewrite <- Hoc.
  destruct o as [[p c]|]; cbn [fmap option_fmap option_map snd].
  2:{ split; [|done]. intros _. unfold sys_call. by destruct (func (w_kernel w)). }
  split; [done|]. intros _ [= <-]. split_and!.
  - intros ->. unfold sys_call. by destruct (func (w_kernel w)).
  - intros ->. rewrite orb_true_r. unfold sys_call. by destruct (func (w_kernel w)).
  - intros -> -> Hi Hs Hw Hp Hfi Hfp Hint Hn. cbn [negb orb mbind outcome_bind].
    destruct (ioInner_suspend_ok fuel n fd ev (if ev =? Read then readTimeout c else if ev =? Write then writeTimeout c else 0)
      func current cb w r k' Hi Hs Hty Hfd Hw Hp Hfi Hfp Hint Hn) as (Hag & Hret). split; [|exact Hret].
    intros Hr. destruct (Hag Hr) as (timer & flag & w' & Hw' & Hsu & Htt & Hcb). exists timer, flag, w'.
    split_and!; try done; intros ->; by rewrite Htt.
Qed.

(** The event wakes the call: when epoll reports the event a suspended call
    waits for before its timer is due, [blockPending] puts the coroutine into
    the ready queue and unregisters the event, and the resumed call cancels its
    timer (no other timer expiring at the same moment), drops its flag and
    tries again. *)
Lemma ioInner_event_wakes fuel n l k1 w fd ev timer flag current e :
  suspended w fd ev timer flag current → is_type ev →
  all_once (w_io w) → stopping_ (scheduler_ (w_io w)) = false → fresh_ids (io_rt (w_io w)) →
  let iv := getNextInterval tod (timer_manager_ (w_io w)) in
  let tm := (takeExpiredTimers tod iv.2).2 in
  interrupted wait_errno n (epoll_wait (epoll_fd_ (w_io w)) epoll_wait_max_size (i32 iv.1))
    (w_kernel w) = Some (inl l, k1) → (n < fuel)%nat →
  (∀ e, e ∈ l → data_fd e ≠ (wakeup_pipe_fd_ (w_io w)).1 → first_fd l = (wakeup_pipe_fd_ (w_io w)).1 →
     is_Some (at_fd (fd_events_ (w_io w)) (wakeup_pipe_fd_ (w_io w)).1)) →
  NoDup (data_fd <$> l) → e ∈ l → data_fd e = fd → has (events e) ev = true →
  filter (λ x, target_timestamp x = target_timestamp timer) (timers_ tm) = [timer] →
  ∃ io' w2, blockPending tod fuel (w_io w) = Ok io' ∧
    Some current ∈ ready_executors_ (scheduler_ io') ∧
    has (registered_events (entry io' fd)) ev = false ∧
    ioInner_resume timer flag (set_io io' w) = Ok (IoTry, w2) ∧
    timers_ tm ≡ₚ timer :: timers_ (timer_manager_ (w_io w2)) ∧ w_flags w2 !! flag = None.
Proof.
  intros Hsu Ht Ho Hs Hfr iv tm Hint Hn Hfirst Hnd He Hfd Hev Huniq.
  destruct (event_wakes fuel n l k1 w fd ev timer flag current e Hsu Ht Ho Hs Hfr Hint Hn Hfirst Hnd He Hfd Hev)
    as (io' & Hb & Hi' & Htm & (es & Hsch & _) & Hin & Hreg).
  destruct (resume_retries timer flag timer (set_io io' w)) as (tm' & Hr & Hp);
    [done|apply Hsu|simpl; rewrite Htm; unfold same_deadline; by unfold tm, iv in Huniq; rewrite Huniq|].
  do 2 eexists. split_and!; [exact Hb| |done|exact Hr| |].
  - rewrite Hsch. simpl. apply elem_of_app. right. apply elem_of_app. right.
    apply list_elem_of_In, in_concat. exists (woken_of (w_io w) e).
    split; [apply in_map; by apply list_elem_of_In|by apply list_elem_of_In].
  - unfold tm, iv. rewrite <- Htm. exact Hp.
  - simpl. apply lookup_delete_eq.
Qed.

(** The timeout wakes the call: when the timer of a suspended call fires
    first, the descriptor is taken out of epoll, the coroutine is appended to
    the ready queue once, and the resumed call reports the timeout. *)
Lemma ioInner_timeout_wakes fuel w fd ev timer flag current :
  suspended w fd ev timer flag current → is_type ev → (0 < fuel)%nat →
  stopping_ (scheduler_ (w_io w)) = false →
  ∃ w1 w2, io_timeout fuel fd ev flag current w = Ok w1 ∧
    ready_executors_ (scheduler_ (w_io w1)) = ready_executors_ (scheduler_ (w_io w)) ++ [Some current] ∧
    interest (w_kernel w1) (epoll_fd_ (w_io w)) fd = None ∧
    ioInner_resume timer flag w1 = Ok (IoTimedOut, w2) ∧ w_flags w2 !! flag = None.
Proof.
  intros Hsu Ht Hf Hs. destruct (su_entry _ _ _ _ _ _ Hsu) as ([x Hx] & Hreg & _).
  assert (Hent : entry (w_io w) fd = x) by (unfold entry; by rewrite Hx). rewrite Hent in Hreg.
  destruct (removeEvent_forgets_all fuel fd ev (w_io w) x) as (io' & Hr & Hin & _ & _ & Hsch);
    try done; try apply Hsu.
  unfold io_timeout. rewrite (su_flag _ _ _ _ _ _ Hsu), Hr. simpl. rewrite Hsch.
  unfold addExecutor. rewrite Hs.
  do 2 eexists. split; [reflexivity|]. split_and!; try done.
  - unfold ioInner_resume. simpl. rewrite lookup_insert_eq. simpl. reflexivity.
  - simpl. apply lookup_delete_eq.
Qed.

(** Taking over a new descriptor: it does not block in the kernel, its context says
    that the user did not ask for that; nothing else changes. *)
Lemma adopt_ok fd v w :
  fd_inv (w_fds w) → 2 <= fd < 2 ^ 30 → status_flags (w_kernel w) fd = Some v →
  ∃ w' v', adopt fd w = Ok w' ∧ fd_inv (w_fds w') ∧
    status_flags (w_kernel w') fd = Some v' ∧ has v' O_NONBLOCK = true ∧
    w_io w' = set_kernel (w_kernel w') (w_io w) ∧ w_flags w' = w_flags w ∧
    ∀ g, ctx_of (w_fds w') g =
         if decide (g = fd) then Some (mkFdContext true true false true size_max size_max)
         else ctx_of (w_fds w) g.
Proof.
  intros Hi Hfd Hv. destruct (fcntl_getfl fd (Some 0) (w_kernel w) v Hv) as (Hv0 & Hg).
  unfold adopt, sys_call at 1. rewrite Hg. simpl.
  destruct (setContext_map fd (mkFdContext true true false true size_max size_max) (w_fds w))
    as (m & Hm & Him & Hctx); [done|lia|right; lia|].
  destruct (has v O_NONBLOCK) eqn:Hnb.
  - simpl. rewrite Hm. simpl. eexists _, v. split; [reflexivity|]. by split_and!.
  - destruct (fcntl_setfl fd (w_kernel w) v (Z.lor v O_NONBLOCK) Hv) as (r & v' & k2 & Hset & Hv' & Hh).
    unfold sys_call. change (w_kernel (set_k (w_kernel w) w)) with (w_kernel w). rewrite Hset. simpl.
    rewrite Hm. simpl. do 2 eexists. split; [reflexivity|]. split_and!; try done.
    rewrite Hh, Z.lor_comm. unfold has. rewrite Z.land_lor_distr_l.
    destruct (Z.eqb_spec (Z.lor (Z.land O_NONBLOCK O_NONBLOCK) (Z.land v O_NONBLOCK)) 0) as [Hz|]; [|done].
    apply Z.lor_eq_0_iff in Hz as (Hz & _). done.
Qed.

(** A successful [co_socket] returns the kernel's descriptor, which the kernel
    then treats as non-blocking while its context says that the user did not
    ask for it; no other descriptor's context changes; errors are passed on. *)
Lemma co_socket_spec d t p w r k' :
  fd_inv (w_fds w) → socket_sys d t p (w_kernel w) = (r, k') →
  match r with
  | Err e => co_socket d t p w = Ok (Err e, set_k k' w)
  | Ret fd => 2 <= fd →
      ∃ w' v, co_socket d t p w = Ok (Ret fd, w') ∧ fd_inv (w_fds w') ∧
        status_flags (w_kernel w') fd = Some v ∧ has v O_NONBLOCK = true ∧
        ∀ g, ctx_of (w_fds w') g =
             if decide (g = fd) then Some (mkFdContext true true false true size_max size_max)
             else ctx_of (w_fds w) g
  end.
Proof.
  intros Hi Hs. destruct r as [fd|e].
  - intros Hfd. destruct (socket_opens _ _ _ _ _ _ Hs) as (Hb & [v Hv]).
    destruct (adopt_ok fd v (set_k k' w)) as (w' & v' & Ha & ? & ? & ? & _ & _ & ?); [done|lia|done|].
    unfold co_socket, sys_call. rewrite Hs. simpl. rewrite Ha. by exists w', v'.
  - unfold co_socket, sys_call. by rewrite Hs.
Qed.

Lemma write_context_ok w fd p c f :
  fd_inv (w_fds w) → 0 <= fd → contexts_ (w_fds w) !! Z.to_nat fd = Some (Some p) →
  heap (w_fds w) !! p = Some c →
  ∃ m, write_context p f w = Ok (set_fds m w) ∧ fd_inv m ∧
    ∀ g, ctx_of m g = if decide (g = fd) then Some (f c) else ctx_of (w_fds w) g.
Proof.
  intros Hi Hfd Hp Hc.
  destruct (write_through_ctx (w_fds w) fd p c f Hi Hfd Hp Hc) as (m & Hm & Him & _ & _ & Hctx).
  exists m. unfold write_context. by rewrite Hm.
Qed.

(** What an option call must do: make the kernel call once, and change the
    context of [fd] to [c] and no other. *)
Definition records (res : outcome (sysres * @world K)) (w : @world K) (call : K → sysres * K)
    (fd : Z) (c : FdContext) : Prop :=
  ∃ w', res = Ok ((call (w_kernel w)).1, w') ∧ w_kernel w' = (call (w_kernel w)).2 ∧
    fd_inv (w_fds w') ∧
    ∀ g, ctx_of (w_fds w') g = if decide (g = fd) then Some c else ctx_of (w_fds w) g.

Lemma records_write w call fd p f c :
  fd_inv (w_fds w) → 0 <= fd → contexts_ (w_fds w) !! Z.to_nat fd = Some (Some p) →
  heap (w_fds w) !! p = Some c →
  records (w1 ← write_context p f w; Ok (sys_call call w1)) w call fd (f c).
Proof.
  intros Hi Hfd Hp Hc. destruct (write_context_ok w fd p c f Hi Hfd Hp Hc) as (m & Hm & Him & Hctx).
  rewrite Hm. cbn [mbind outcome_bind]. unfold sys_call.
  change (w_kernel (set_fds m w)) with (w_kernel w).
  destruct (call (w_kernel w)) as [r k] eqn:Hk. unfold records. rewrite Hk.
  eexists. split; [reflexivity|]. done.
Qed.

(** Socket options: setting a receive or send timeout records it in
    milliseconds in the descriptor's context, switching FIONBIO records the
    user's wish in a socket's context; in each case the kernel call is made
    once with the given arguments and its answer returned, and no other
    context changes. *)
Lemma options_recorded fd w c tv arg :
  fd_inv (w_fds w) → 0 <= fd → ctx_of (w_fds w) fd = Some c →
  let ms := u64 (tv.1 * 1000 + tv.2 ÷ 1000) in
  records (co_setsockopt fd SOL_SOCKET SO_RCVTIMEO tv w) w
    (setsockopt_sys fd SOL_SOCKET SO_RCVTIMEO tv) fd (set_readTimeout ms c) ∧
  records (co_setsockopt fd SOL_SOCKET SO_SNDTIMEO tv w) w
    (setsockopt_sys fd SOL_SOCKET SO_SNDTIMEO tv) fd (set_writeTimeout ms c) ∧
  (is_socket c = true →
   records (co_ioctl fd FIONBIO arg w) w (ioctl_sys fd FIONBIO arg) fd
     (set_user_non_block (negb (arg =? 0)) c)).
Proof.
  intros Hi Hfd Hc ms. destruct (context_at_ok w fd Hi Hfd) as (o & Ho & Hoc & Hp).
  rewrite Hc in Hoc. destruct o as [[p c']|]; simpl in Hoc; [|done].
  injection Hoc as ->. destruct (Hp p c eq_refl) as (Hp1 & Hp2).
  unfold co_setsockopt, co_ioctl. rewrite Ho. simpl.
  split_and!; [by apply records_write..|].
  intros Hs. rewrite Hs. simpl. by apply records_write.
Qed.

(** [co_fcntl] tests [is_socket] the wrong way round: for a socket F_SETFL goes
    straight to the kernel, the context is not told, and the flags may lose
    O_NONBLOCK. *)
Lemma co_fcntl_bypasses_sockets fd arg w c :
  fd_inv (w_fds w) → 0 <= fd → ctx_of (w_fds w) fd = Some c → is_socket c = true →
  co_fcntl fd F_SETFL arg w =
    Ok (to_int (fcntl_sys fd F_SETFL (Some arg) (w_kernel w)).1,
        set_k (fcntl_sys fd F_SETFL (Some arg) (w_kernel w)).2 w).
Proof.
  intros Hi Hfd Hc Hs. destruct (context_at_ok w fd Hi Hfd) as (o & Ho & Hoc & _).
  rewrite Hc in Hoc. destruct o as [[p c']|]; simpl in Hoc; [|done]. injection Hoc as ->.
  unfold co_fcntl. rewrite Ho. simpl. rewrite Hs. unfold sys_call.
  by destruct (fcntl_sys fd F_SETFL (Some arg) (w_kernel w)).
Qed.

(** The callback of a timeout adds the coroutine to the queue even when the call
    it belongs to has long returned. *)
Lemma stale_timeout_resumes fuel fd ev flag current w :
  w_flags w !! flag = None → stopping_ (scheduler_ (w_io w)) = false →
  ∃ w', io_timeout fuel fd ev flag current w = Ok w' ∧
    ready_executors_ (scheduler_ (w_io w')) = ready_executors_ (scheduler_ (w_io w)) ++ [Some current].
Proof.
  intros Hf Hs. unfold io_timeout. rewrite Hf. simpl. unfold addExecutor. rewrite Hs.
  eexists. split; [reflexivity|]. done.
Qed.

(** When event and timeout fall into the same [blockPending], the coroutine is
    queued by the event, the timeout's callback runs first and queues it again. *)
Lemma event_and_timeout_resume_twice fuel fd ev flag current w q :
  w_flags w !! flag = Some false → stopping_ (scheduler_ (w_io w)) = false →
  removeEvent fuel fd ev (w_io w) = Ok (w_io w) →
  ready_executors_ (scheduler_ (w_io w)) = q ++ [Some current] →
  ∃ w', io_timeout fuel fd ev flag current w = Ok w' ∧
    ready_executors_ (scheduler_ (w_io w')) = q ++ [Some current; Some current].
Proof.
  intros Hf Hs Hr Hq. unfold io_timeout. rewrite Hf, Hr. simpl. unfold addExecutor. rewrite Hs.
  eexists. split; [reflexivity|]. simpl. by rewrite Hq, <- app_assoc.
Qed.
End CoIOThm.

(** The product wraps: 4294968 seconds are slept as 704 milliseconds. *)
Lemma co_sleep_wraps : co_sleep_ms 4294968 = 704.
Proof. reflexivity. Qed.

(** ** Witnesses *)

Module CoIOEx.
Import SimpleKernel IOManagerEx.

#[export] Instance simple_sockets : SocketCalls kernel := {
  socket_sys d t p k := (Ret 7, mkKernel (watch k) (7 :: openfds k) (pending k) (bytes k) (pipes k)
                                  (<[7 := 2]> (flags k)));
  connect_sys fd k := (Err EINPROGRESS, k);
  close_sys fd k := (Ret 0, k);
  fcntl_sys fd cmd arg k :=
    match cmd, Z.abs <$> flags k !! fd, arg with
    | F_GETFL, Some v, _ => (Ret v, k)
    | F_SETFL, Some v, Some a =>
        (Ret 0, mkKernel (watch k) (openfds k) (pending k) (bytes k) (pipes k)
                  (<[fd := if has a O_NONBLOCK then O_NONBLOCK else 0]> (flags k)))
    | _, _, _ => (Err EINVAL, k)
    end;
  ioctl_sys d req arg k := (Ret 0, k);
  getsockopt_error fd k := ((Ret 0, 0), k);
  setsockopt_sys fd l o v k := (Ret 0, k);
  status_flags k fd := Z.abs <$> flags k !! fd
}.

#[export] Instance simple_socket_laws : SocketLaws kernel.
Proof.
  split; simpl.
  - intros d t p k fd k' [= <- <-]. split; [lia|]. simpl. by rewrite lookup_insert_eq.
  - intros fd a k v Hv. rewrite Hv. split; [|done].
    destruct (flags k !! fd); simpl in Hv; simplify_eq. lia.
  - intros fd k v v' Hv. rewrite Hv. do 3 eexists. split; [reflexivity|]. simpl.
    rewrite lookup_insert_eq. split; [reflexivity|]. by destruct (has v' O_NONBLOCK).
Qed.

Definition w0 : @world kernel := mkWorld io0 FdManager_init ∅ 0.
Definition would_block (k : kernel) : sysres * kernel := (Err EAGAIN, k).
Definition cb (n : nat) : callback := Body CRet.

Lemma would_block_suspends :
  ∃ timer flag w', ioInner_try tod 1 5 Read 100 would_block 9 cb w0 = Ok (IoWait timer flag, w') ∧
    suspended w' 5 Read timer flag 9.
Proof.
  destruct (ioInner_suspend_ok tod 1 0 5 Read 100 would_block 9 cb w0 (Err EAGAIN) (w_kernel w0))
    as (Hs & _); try done; [apply io0_inv|by left|lia|].
  destruct (Hs eq_refl) as (timer & flag & w' & H1 & H2 & _). eauto.
Qed.

(** Descriptor 5 is a socket with a read timeout of 100 ms. *)
Definition fds5 : FdManager :=
  match setContext 5 (mkFdContext true true false true 100 size_max) FdManager_init with
  | Ok m => m
  | _ => FdManager_init
  end.
Definition w5 : @world kernel := mkWorld io0 fds5 ∅ 0.

Lemma fds5_inv : fd_inv fds5.
Proof.
  destruct (setContext_map 5 (mkFdContext true true false true 100 size_max) FdManager_init) as (m & Hm & Hi & _);
    [apply fd_inv_init|lia|right; lia|]. unfold fds5. by rewrite Hm.
Qed.

Lemma ioInner_suspends_witness :
  (∃ timer flag w', ioInner tod 1 5 Read would_block 9 cb w5 = Ok (IoWait timer flag, w') ∧
    suspended w' 5 Read timer flag 9 ∧ target_timestamp timer = 1100) ∧
  ioInner tod 1 6 Read would_block 9 cb w5 = Ok (IoDone (Err EAGAIN), w5).
Proof.
  split.
  - destruct (ioInner_suspends tod 1 0 5 Read would_block 9 cb w5 (Err EAGAIN) (w_kernel w5)) as (_ & Hc);
      [apply fds5_inv|lia|by left|].
    destruct (Hc (mkFdContext true true false true 100 size_max)) as (_ & _ & Hs); [vm_compute; reflexivity|].
    destruct Hs as (Hs & _); [reflexivity|reflexivity|apply io0_inv|reflexivity|discriminate|reflexivity|reflexivity|
      reflexivity|reflexivity|lia|].
    destruct (Hs eq_refl) as (timer & flag & w' & H1 & H2 & H3 & _). exists timer, flag, w'.
    split; [exact H1|]. split; [exact H2|]. rewrite (H3 eq_refl). vm_compute. reflexivity.
  - destruct (ioInner_suspends tod 1 0 6 Read would_block 9 cb w5 (Err EAGAIN) (w_kernel w5)) as (Hn & _);
      [apply fds5_inv|lia|by left|]. exact (Hn ltac:(vm_compute; reflexivity)).
Defined.

Definition w1 : @world kernel :=
  match ioInner_try tod 1 5 Read 100 would_block 9 cb w0 with Ok (_, w) => w | _ => w0 end.
Definition t1 : @Timer callback :=
  mkTimer 2 false 1100 100 (Some (Body CRet)).

Lemma w1_suspended : suspended w1 5 Read t1 0 9.
Proof.
  destruct would_block_suspends as (timer & flag & w' & H1 & H2).
  assert (Hc : ioInner_try tod 1 5 Read 100 would_block 9 cb w0 = Ok (IoWait t1 0, w1))
    by (vm_compute; reflexivity).
  rewrite Hc in H1.
  assert (timer = t1) as -> by congruence. assert (flag = 0%nat) as -> by congruence.
  assert (w' = w1) as -> by congruence. done.
Qed.

Lemma ioInner_event_wakes_witness :
  ∃ io' w2, blockPending tod 1 (w_io w1) = Ok io' ∧
    Some 9%nat ∈ ready_executors_ (scheduler_ io') ∧
    ioInner_resume t1 0 (set_io io' w1) = Ok (IoTry, w2).
Proof.
  destruct (ioInner_event_wakes tod 1 0 [mkEvent 5 1; mkEvent 3 1] (w_kernel w1) w1 5 Read t1 0 9
              (mkEvent 5 1)) as (io' & w2 & H1 & H2 & _ & H3 & _).
  - apply w1_suspended.
  - by left.
  - intros fd x Hx. apply at_fd_Some in Hx as (_ & Hx). apply list_elem_of_lookup_2 in Hx.
    revert x Hx. apply Forall_forall. vm_compute. repeat constructor.
  - reflexivity.
  - intros o [x Hx]. vm_compute in Hx. done.
  - vm_compute. reflexivity.
  - lia.
  - intros e _ _ Hx. vm_compute in Hx. done.
  - apply NoDup_cons. split; [|apply NoDup_singleton]. simpl. set_solver.
  - left.
  - reflexivity.
  - reflexivity.
  - vm_compute. reflexivity.
  - exists io', w2. auto.
Defined.

Lemma ioInner_timeout_wakes_witness :
  ∃ w2 w3, io_timeout 1 5 Read 0 9 w1 = Ok w2 ∧
    ready_executors_ (scheduler_ (w_io w2)) = [Some 9%nat] ∧
    ioInner_resume t1 0 w2 = Ok (IoTimedOut, w3).
Proof.
  destruct (ioInner_timeout_wakes 1 w1 5 Read t1 0 9) as (w2 & w3 & H1 & H2 & _ & H3 & _).
  - apply w1_suspended.
  - by left.
  - lia.
  - reflexivity.
  - exists w2, w3. auto.
Defined.

Lemma co_socket_spec_witness :
  ∃ w' v, co_socket 2 1 0 w0 = Ok (Ret 7, w') ∧ status_flags (w_kernel w') 7 = Some v ∧
    has v O_NONBLOCK = true.
Proof.
  destruct (co_socket_spec 2 1 0 w0 (Ret 7) (socket_sys 2 1 0 (w_kernel w0)).2)
    as (w' & v & H1 & _ & H2 & H3 & _).
  - apply fd_inv_init.
  - reflexivity.
  - lia.
  - exists w', v. auto.
Defined.

Definition w2 : @world kernel := mkWorld io0 FdManagerEx.m1 ∅ 0.

Lemma options_recorded_witness :
  ∃ c, ctx_of (w_fds w2) 5 = Some c ∧
  records (co_ioctl 5 FIONBIO 1 w2) w2 (ioctl_sys 5 FIONBIO 1) 5 (set_user_non_block true c).
Proof.
  exists FdManagerEx.c0. split; [vm_compute; reflexivity|].
  apply (options_recorded 5 w2 FdManagerEx.c0 (0, 0) 1).
  - apply FdManagerEx.m1_inv.
  - lia.
  - vm_compute. reflexivity.
  - reflexivity.
Defined.
End CoIOEx.
