(* ===== verification/EventLoop.v ===== *)
(** * The event loop of a thread

    The machine of Scheduler.v with the IO manager in place: the thread's
    executors and scheduler are those of its IO manager, a call of the IO manager
    runs the operation of IOManager.v or CoIO.v, and the scheduler's loop blocks
    in [blockPending] (src/io/io_manager.cpp, src/io/co_io_function.cpp).  The
    functions of co_io_function.cpp are given as the code the coroutine runs, cut
    at its calls of the runtime. *)

From S2P Require Import Prelude Timer FdManager Sys Executor Scheduler SchedulerInv SchedulerThm.
From S2P Require Import IOManager IOManagerThm IOThread CoIO CoIOThm.
From stdpp Require Import options.
Set Default Proof Using "Type*".

(** ** The coroutine calls as code *)

(** The event a call waits for. *)
Definition event_of (f : io_fun) : Z :=
  match f with
  | FAccept _ _ | FRead _ _ | FReadv _ _ | FRecv _ _ _ | FRecvfrom _ _ _ _ _ | FRecvmsg _ _ => Read
  | FWrite _ _ | FWritev _ _ | FSend _ _ _ | FSendto _ _ _ _ _ | FSendmsg _ _ => Write
  end.

Definition no_callback (_ : eid) (_ : nat) : coro := CRet.

(** The callback of the timer in [ioInner]. *)
Definition timeout_code (f : io_fun) (fd : Z) (current : eid) (flag : nat) : coro :=
  CIo (IoTimeout fd (event_of f) flag current) no_callback (λ _, CRet).

(** The loop of [ioInner] after its first attempt; at most [n] times suspended. *)
Fixpoint ioInner_loop (n : nat) (f : io_fun) (fd : Z) (k : Z → Z → coro) (a : answer) : coro :=
  match a with
  | Answer r errno => k r errno
  | Waiting flag =>
      CYield (match n with
              | O => CThrow
              | S n => CIo (IoResume f fd flag) (timeout_code f fd) (ioInner_loop n f fd k)
              end)
  end.

Definition ioInner_code (n : nat) (f : io_fun) (fd : Z) (k : Z → Z → coro) : coro :=
  CIo (IoInvoke f fd) (timeout_code f fd) (ioInner_loop n f fd k).

Definition accept_code (n : nat) (sockfd addr addrlen : Z) (k : Z → Z → coro) : coro :=
  ioInner_code n (FAccept addr addrlen) sockfd (λ fd errno,
    CIo (IoAdopt fd) no_callback (λ _, k fd errno)).

(** [sleepInner]: the timer's callback adds the sleeper again. *)
Definition sleep_code (ms : Z) (k : coro) : coro :=
  CIo (IoSleep ms) (λ current _, CAdd current (λ _, CRet)) (λ _, CYield k).

Definition connect_code (sockfd : Z) (k : Z → Z → coro) : coro :=
  let result a := match a with Answer r errno => k r errno | Waiting _ => CThrow end in
  CIo (IoConnect sockfd) no_callback (λ a,
    match a with
    | Answer r errno => k r errno
    | Waiting _ => CYield (CIo (IoConnected sockfd) no_callback result)
    end).

(** A call that does not wait. *)
Definition plain_code (op : io_call) (k : Z → Z → coro) : coro :=
  CIo op no_callback (λ a, match a with Answer r errno => k r errno | Waiting _ => CThrow end).

(** A failed assertion: the process ends here. *)
Definition abort_code : coro := CIo IoAbort no_callback (λ _, CRet).

(** ** The machine *)

(** The errno component is the one the call sets, 0 when it sets none. *)
Definition of_sysres (r : sysres) : answer :=
  match r with Ret v => Answer v 0 | Err e => Answer (-1) e end.

(** The timers and timeouts that suspended calls have on their stacks, by the
    number of the call. *)
Abbreviation frames := (gmap nat (@Timer callback * Z)).

Section EventLoop.
Context {K : Type} `{EpollKernel K} `{SocketCalls K} `{!IoCalls K}.
Variable tod : nat → Z * Z.
Variable fuel : nat.
Implicit Types w : @world K.

Definition sys_of (f : io_fun) (fd : Z) : K → sysres * K :=
  match f with
  | FAccept addr addrlen => accept_sys fd addr addrlen
  | FRead buf count => read_sys fd buf count
  | FReadv iov iovcnt => readv_sys fd iov iovcnt
  | FRecv buf len flags => recv_sys fd buf len flags
  | FRecvfrom buf len flags src_addr addrlen => recvfrom_sys fd buf len flags src_addr addrlen
  | FRecvmsg msg flags => recvmsg_sys fd msg flags
  | FWrite buf count => write_sys fd buf count
  | FWritev iov iovcnt => writev_sys fd iov iovcnt
  | FSend msg len flags => send_sys fd msg len flags
  | FSendto msg len flags to_ tolen => sendto_sys fd msg len flags to_ tolen
  | FSendmsg msg flags => sendmsg_sys fd msg flags
  end.

(** What the caller of [ioInner] gets, and the frame it leaves when it waits. *)
Definition suspend (ms : Z) (fr : frames) (p : io_pc * @world K) : outcome (answer * @world K * frames) :=
  match p.1 with
  | IoDone r => Ok (of_sysres r, p.2, fr)
  | IoTimedOut => Ok (Answer (-1) 0, p.2, fr)
  | IoWait timer flag => Ok (Waiting flag, p.2, <[flag := (timer, ms)]> fr)
  | IoTry => Fault Hang
  end.

Definition io_handle (current : eid) (op : io_call) (cb : nat → callback) (w : @world K) (fr : frames)
    : outcome (answer * @world K * frames) :=
  match op with
  | IoInvoke f fd =>
      t ← ioInner_timeout fd (event_of f) w;
      p ← ioInner tod fuel fd (event_of f) (sys_of f fd) current cb w;
      suspend (default 0 t) fr p
  | IoResume f fd flag =>
      frame ← of_option UseAfterFree (fr !! flag);
      p ← ioInner_resume frame.1 flag w;
      let fr := delete flag fr in
      match p.1 with
      | IoTry =>
          p ← ioInner_try tod fuel fd (event_of f) frame.2 (sys_of f fd) current cb p.2;
          suspend frame.2 fr p
      | _ => suspend frame.2 fr p
      end
  | IoTimeout fd type flag e => w ← io_timeout fuel fd type flag e w; Ok (Answer 0 0, w, fr)
  | IoAdopt fd => p ← co_accept_done (Ret fd) w; Ok (of_sysres p.1, p.2, fr)
  | IoSleep ms => w ← sleepInner tod ms (cb O) w; Ok (Waiting O, w, fr)
  | IoConnect fd =>
      p ← co_connect_try fuel fd current w;
      Ok (match p.1 with Some r => of_sysres r | None => Waiting O end, p.2, fr)
  | IoConnected fd => let '(r, w) := co_connect_resume fd w in Ok (of_sysres r, w, fr)
  | IoSocket domain type protocol => p ← co_socket domain type protocol w; Ok (of_sysres p.1, p.2, fr)
  | IoClose fd => p ← co_close fuel fd w; Ok (of_sysres p.1, p.2, fr)
  | IoRegister fd type e call_once =>
      p ← registerEvent fuel fd type (Some e) call_once (w_io w);
      Ok (Answer (if p.1 : bool then 1 else 0) 0, set_io p.2 w, fr)
  | IoRemove fd events => io ← removeEvent fuel fd events (w_io w); Ok (Answer 0 0, set_io io w, fr)
  | IoTimer interval repeat =>
      let '(timer, tm) := make_Timer tod (timer_manager_ (w_io w)) interval (Some (cb O)) repeat in
      p ← registerTimer (Some timer) (set_timers tm (w_io w));
      Ok (Answer (if p.1 : bool then 1 else 0) 0, set_io p.2 w, fr)
  | IoStop => Ok (Answer 0 0, set_io (io_stop (w_io w)) w, fr)
  | IoFcntl fd cmd arg => p ← co_fcntl fd cmd arg w; Ok (Answer p.1 0, p.2, fr)
  | IoIoctl d request arg => p ← co_ioctl d request arg w; Ok (of_sysres p.1, p.2, fr)
  | IoSetsockopt sockfd level optname optval =>
      p ← co_setsockopt sockfd level optname optval w; Ok (of_sysres p.1, p.2, fr)
  | IoRaw f fd => let '(r, w) := sys_call (sys_of f fd) w in Ok (of_sysres r, w, fr)
  | IoRawSocket domain type protocol =>
      let '(r, w) := sys_call (socket_sys domain type protocol) w in Ok (of_sysres r, w, fr)
  | IoRawConnect fd => let '(r, w) := sys_call (connect_sys fd) w in Ok (of_sysres r, w, fr)
  | IoRawClose fd => let '(r, w) := sys_call (close_sys fd) w in Ok (of_sysres r, w, fr)
  | IoRawSetsockopt sockfd level optname optval =>
      let '(r, w) := sys_call (setsockopt_sys sockfd level optname optval) w in Ok (of_sysres r, w, fr)
  | IoAbort => Fault AssertFailed
  end.

Record loop := mkLoop {
  lp_w : @world K;
  lp_pc : code;
  lp_trace : list event;
  lp_frames : frames
}.

Definition config_of (l : loop) : config :=
  mkConfig (io_rt (w_io (lp_w l))) (scheduler_ (w_io (lp_w l))) (lp_pc l) (lp_trace l).

(** The executors and the scheduler of the manager, replaced. *)
Definition store (r : runtime) (s : Scheduler) (w : @world K) : @world K :=
  set_io (set_scheduler s (set_rt r (w_io w))) w.

Definition with_config (c : config) (l : loop) : loop :=
  mkLoop (store (rt c) (sch c) (lp_w l)) (pc c) (trace c) (lp_frames l).

Definition loop_step (l : loop) : outcome (option loop) :=
  m ← exec_code (config_of l);
  match m with
  | Go c => Ok (Some (with_config c l))
  | Block c =>
      let l := with_config c l in
      io ← blockPending tod fuel (w_io (lp_w l));
      Ok (Some (mkLoop (set_io io (lp_w l)) (lp_pc l) (lp_trace l) (lp_frames l)))
  | Call op cb k =>
      let '(e, r) := getCurrent (io_rt (w_io (lp_w l))) in
      let w := set_io (set_rt r (w_io (lp_w l))) (lp_w l) in
      p ← io_handle e op (λ n, Body (cb e n)) w (lp_frames l);
      Ok (Some (mkLoop p.1.2 (k p.1.1) (lp_trace l) p.2))
  | Done => Ok None
  end.

Definition lstep (l l' : loop) : Prop := loop_step l = Ok (Some l').

(** Another thread hands over an executor ([IOManager::addRemoteTask]). *)
Definition remote (e : eid) (l : loop) : outcome loop :=
  io ← addRemoteTask (Some e) (w_io (lp_w l));
  Ok (mkLoop (set_io io (lp_w l)) (lp_pc l) (lp_trace l) (lp_frames l)).

(** Runs the loop for a number of steps; stops where the thread ends or faults. *)
Fixpoint run_loop (n : nat) (l : loop) : outcome loop :=
  match n with
  | O => Ok l
  | S n =>
      m ← loop_step l;
      match m with Some l' => run_loop n l' | None => Ok l end
  end.

(** A thread with a new IO manager, about to run the code [k]. *)
Definition io_thread `{!ThreadCalls K} (k : coro) (k0 : K) (m : FdManager) : outcome loop :=
  io ← IOManager_new fuel runtime_init k0;
  Ok (mkLoop (mkWorld io m ∅ 0) (Base k) [] ∅).
End EventLoop.
