(* ===== verification/EventLoopInv.v ===== *)
(** * The event loop refines the scheduler's machine

    Whatever the IO manager does, executors and scheduler only change in the ways
    Scheduler.v allows: every step of the machine of EventLoop.v is a step of the
    machine of Scheduler.v, so what SchedulerThm.v shows of all runs holds of the
    thread with its IO manager, its timeouts and late wake-ups included. *)

From S2P Require Import Prelude Timer FdManager Sys Executor Scheduler SchedulerInv SchedulerThm.
From S2P Require Import IOManager IOManagerThm IOThread CoIO CoIOThm EventLoop.
From stdpp Require Import options.
Set Default Proof Using "Type*".

(** ** The coroutine calls are well-behaved code *)

Lemma managed_plain V op k :
  call_managed V op → (∀ r e, managed V (k r e)) → managed V (plain_code op k).
Proof. intros Ho Hk. split; [done|]. split; [done|]. intros [r e|]; [apply Hk|done]. Qed.

Lemma managed_timeout (V : eid → Prop) f fd e n : managed (λ x, V x ∨ x = e) (timeout_code f fd e n).
Proof. split; [by right|]. done. Qed.

Lemma managed_ioInner_loop V n f fd k a :
  (∀ r e, managed V (k r e)) → managed V (ioInner_loop n f fd k a).
Proof.
  intros Hk. revert a. induction n as [|n IH]; intros [r e|flag]; simpl; try apply Hk; [done|].
  split; [done|]. split; [intros e m; apply (managed_timeout V f fd e m)|apply IH].
Qed.

Lemma managed_ioInner V n f fd k :
  (∀ r e, managed V (k r e)) → managed V (ioInner_code n f fd k).
Proof.
  intros Hk. split; [done|]. split; [intros e m; apply (managed_timeout V f fd e m)|]. intros a. by apply managed_ioInner_loop.
Qed.

Lemma managed_accept V n fd addr len k :
  (∀ r e, managed V (k r e)) → managed V (accept_code n fd addr len k).
Proof. intros Hk. apply managed_ioInner. intros r e. split; [done|]. split; [done|]. intros _. apply Hk. Qed.

Lemma managed_sleep V ms k : managed V k → managed V (sleep_code ms k).
Proof. intros Hk. split; [done|]. split; [|by intros _]. intros e n. split; [by right|done]. Qed.

Lemma managed_connect V fd k :
  (∀ r e, managed V (k r e)) → managed V (connect_code fd k).
Proof.
  intros Hk. split; [done|]. split; [done|]. intros [r e|n]; [apply Hk|]. simpl.
  split; [done|]. split; [done|]. intros [r e|m]; [apply Hk|done].
Qed.

Create HintDb managed_db.
#[export] Hint Resolve managed_plain managed_ioInner managed_accept managed_sleep managed_connect : managed_db.

(** ** What the IO manager refers to *)

(** An entry of the table is for one wake-up, and its executors are tasks. *)
Definition entry_ok (V : eid → Prop) (x : FdEvents) : Prop :=
  once x ∧ (∀ e, read_executor x = Some e → V e) ∧ (∀ e, write_executor x = Some e → V e).

(** A timer runs well-behaved code. *)
Definition timer_ok (V : eid → Prop) (t : @Timer callback) : Prop :=
  ∃ c, Timer.callback t = Some (Body c) ∧ managed V c.

Definition refs {K} (V : eid → Prop) (io : @IOManager K) : Prop :=
  Forall (entry_ok V) (fd_events_ io) ∧ Forall (timer_ok V) (timers_ (timer_manager_ io)).

Lemma entry_ok_mono (V W : eid → Prop) x : (∀ e, V e → W e) → entry_ok V x → entry_ok W x.
Proof. intros HVW (? & ? & ?). split; [done|]. split; auto. Qed.

Lemma timer_ok_mono (V W : eid → Prop) t : (∀ e, V e → W e) → timer_ok V t → timer_ok W t.
Proof. intros HVW (c & ? & ?). exists c. split; [done|]. by apply (managed_mono c V). Qed.

Lemma refs_mono {K} (V W : eid → Prop) (io : @IOManager K) :
  (∀ e, V e → W e) → refs V io → refs W io.
Proof.
  intros HVW (Ht & Hm). split; (eapply Forall_impl; [eassumption|]); intros x.
  - by apply entry_ok_mono.
  - by apply timer_ok_mono.
Qed.

(** An operation that changes neither executors nor scheduler. *)
Record quiet {K} (V : eid → Prop) (io io' : @IOManager K) : Prop := {
  q_rt : io_rt io' = io_rt io;
  q_sch : scheduler_ io' = scheduler_ io;
  q_refs : refs V io → refs V io'
}.

#[export] Instance quiet_preorder {K} V : PreOrder (@quiet K V).
Proof.
  split; [by split|]. intros x y z [A B C] [A' B' C']. split; [congruence..|auto].
Qed.

Lemma removeTimer_sub t m m' x :
  removeTimer (Some t) m = Ok m' → x ∈ timers_ m' → x ∈ timers_ (C := callback) m.
Proof.
  unfold removeTimer. pose proof (advance_app (λ x, Comparator x t) (timers_ m)) as Ha.
  fold (lower_bound t (timers_ m)) in Ha. destruct (lower_bound t (timers_ m)) as [a l]. simpl in Ha.
  destruct l as [|y l]; [done|]. destruct (Comparator t y); [done|]. intros [= <-]. simpl.
  rewrite <- Ha. set_solver.
Qed.

Section Quiet.
Context {K : Type} `{EpollKernel K}.
Variable V : eid → Prop.
Variable fuel : nat.
Implicit Types io : @IOManager K.

Lemma quiet_kernel k io : quiet V io (set_kernel k io).
Proof using Type. by split. Qed.

Lemma quiet_timers tm io :
  (Forall (timer_ok V) (timers_ (timer_manager_ io)) → Forall (timer_ok V) (timers_ tm)) →
  quiet V io (set_timers tm io).
Proof using Type. intros Ht. split; [done..|]. intros (? & ?). split; simpl; auto. Qed.

Lemma epoll_quiet io io' fd ev :
  epollAdd fuel fd ev io = Ok io' ∨ epollMod fuel fd ev io = Ok io' ∨ epollDel fuel fd io = Ok io' →
  quiet V io io'.
Proof. intros [Ho|[Ho|Ho]]; apply bind_Ok in Ho as (k & _ & [= <-]); apply quiet_kernel. Qed.

Lemma update_quiet fd f io io' :
  (∀ x, entry_ok V x → entry_ok V (f x)) → update_fd fd f io = Ok io' → quiet V io io'.
Proof using Type.
  intros Hf Hu. apply bind_Ok in Hu as (x & Hx & [= <-]). split; [done..|].
  intros (Ht & Hm). split; [|done]. simpl. unfold fd_event in Hx. apply of_option_Ok in Hx.
  apply at_fd_Some in Hx as (_ & Hx). apply Forall_insert; [done|].
  apply Hf. by eapply Forall_lookup_1.
Qed.

Lemma grow_quiet fd io io' : grow fd io = Ok io' → quiet V io io'.
Proof using Type.
  unfold grow. destruct (beyond fd io); [|by intros [= <-]]. destruct (fd <? 0); [done|].
  intros [= <-]. split; [done..|]. intros (Ht & Hm). split; [|done]. simpl.
  by apply Forall_resize.
Qed.

Lemma epAdd_quiet fd t io io' : epAdd fuel fd t io = Ok io' → quiet V io io'.
Proof.
  intros Ha. apply bind_Ok in Ha as (x & _ & Ha). apply bind_Ok in Ha as (io1 & H1 & H2).
  transitivity io1; [destruct (_ =? 0); eapply epoll_quiet; eauto|].
  eapply update_quiet, H2. done.
Qed.

Lemma registerEvent_quiet fd t e io b io' :
  V e → registerEvent fuel fd t (Some e) true io = Ok (b, io') → quiet V io io'.
Proof.
  intros He. unfold registerEvent. destruct (stopped io); [by intros [= _ <-]|]. intros Hr.
  apply bind_Ok in Hr as (io1 & Hg & Hr). transitivity io1; [by eapply grow_quiet|].
  assert (Hx : ∀ f, (∀ x, entry_ok V x → entry_ok V (f x)) →
    (io ← update_fd fd f io1; io ← epAdd fuel fd t io; Ok (true, io)) = Ok (b, io') → quiet V io1 io').
  { intros f Hf Hx. apply bind_Ok in Hx as (io2 & H2 & Hx). apply bind_Ok in Hx as (io3 & H3 & [= _ <-]).
    transitivity io2; [by eapply update_quiet|by eapply epAdd_quiet]. }
  destruct (t =? Read); [|destruct (t =? Write)].
  - apply (Hx _) in Hr; [done|]. intros x ((? & ?) & ? & ?). split; [done|]. split; simpl; [|done]. congruence.
  - apply (Hx _) in Hr; [done|]. intros x ((? & ?) & ? & ?). split; [done|]. split; simpl; [done|]. congruence.
  - by injection Hr as _ <-.
Qed.

Lemma removeEvent_quiet fd ev io io' : removeEvent fuel fd ev io = Ok io' → quiet V io io'.
Proof.
  unfold removeEvent. destruct (beyond fd io); [by intros [= <-]|]. intros Hr.
  apply bind_Ok in Hr as (x & _ & Hr). destruct (negb _); [by injection Hr as <-|].
  apply bind_Ok in Hr as (io1 & H1 & Hr). apply bind_Ok in Hr as (io2 & H2 & H3).
  transitivity io1; [destruct (_ =? 0); [eapply (epoll_quiet _ _ fd 0)|eapply epoll_quiet]; eauto|]. transitivity io2.
  - clear H1 H3. destruct (has _ _); [by injection H2 as <-|]. eapply update_quiet, H2. intros y ((? & ?) & ? & ?). by split.
  - clear H1 H2. destruct (has _ _); [by injection H3 as <-|]. eapply update_quiet, H3. intros y ((? & ?) & ? & ?). by split.
Qed.

Lemma registerTimer_quiet t io b io' :
  timer_ok V t → registerTimer (Some t) io = Ok (b, io') → quiet V io io'.
Proof using Type.
  intros Ht. unfold registerTimer. destruct (stopped io); [by intros [= _ <-]|]. simpl.
  intros Hr. apply bind_Ok in Hr as (f & Hf & Hr). apply bind_Ok in Hr as (m & Hm & [= _ <-]).
  apply quiet_timers. unfold addTimer in Hm. destruct (Timer.callback t); [|done].
  injection Hm as <-. simpl. rewrite ms_insert_perm. by constructor.
Qed.

Lemma cancelTimer_quiet t io io' : cancelTimer (Some t) io = Ok io' → quiet V io io'.
Proof using Type.
  intros Hc. apply bind_Ok in Hc as (m & Hm & [= <-]). apply quiet_timers.
  rewrite !Forall_forall. intros Ht x Hx. apply Ht. by eapply removeTimer_sub.
Qed.
End Quiet.

(** ** Operations that do change them *)

Section Moves.
Context {K : Type} `{EpollKernel K}.
Variable b s : eid.
Variable p : code.
Variable tr : list event.
Implicit Types io : @IOManager K.

(** The thread as the scheduler's machine sees it. *)
Definition cfg io : config := mkConfig (io_rt io) (scheduler_ io) p tr.

Definition good io : Prop := inv b s (cfg io) ∧ refs (valid b s (io_rt io)) io.

(** From a good state only allowed effects, and a good state again. *)
Definition moves (null : bool) io io' : Prop :=
  good io → star (io_effect null) (cfg io) (cfg io') ∧ good io'.

Lemma moves_trans null io1 io2 io3 : moves null io1 io2 → moves null io2 io3 → moves null io1 io3.
Proof using Type.
  intros H12 H23 Hg. destruct (H12 Hg) as (Hs & Hg'). destruct (H23 Hg') as (Hs' & ?).
  split; [by eapply star_trans|done].
Qed.

Lemma moves_quiet null io io' : (good io → quiet (valid b s (io_rt io)) io io') → moves null io io'.
Proof using Type.
  intros Hq Hg. destruct (Hq Hg) as [Hr Hs Hf]. unfold good, cfg. rewrite Hr, Hs.
  split; [apply star_refl|]. destruct Hg as (Hi & Hrefs). split; [done|auto].
Qed.

Lemma moves_add null io o :
  (o = None → null = true) → (good io → ∀ e, o = Some e → valid b s (io_rt io) e) →
  moves null io (set_scheduler (addExecutor o (scheduler_ io)).2 io).
Proof using Type.
  intros Hn Ho Hg. pose proof (Ho Hg) as Hv. destruct Hg as (Hi & Hr).
  assert (He : io_effect null (cfg io) (cfg (set_scheduler (addExecutor o (scheduler_ io)).2 io))).
  { apply (eff_add null (cfg io)); [done|]. intros e He. apply (task_valid b s (cfg io)); [done|]. by apply Hv. }
  split; [by apply star_one|]. split; [by eapply io_effect_inv|done].
Qed.

Lemma moves_new null io body r' e :
  managed (valid b s (io_rt io)) body →
  Executor_callback (Some (Body body)) DefaultStackSize (io_rt io) = Ok (e, r') →
  moves null io (set_rt r' io) ∧ (good io → valid b s r' e).
Proof using Type.
  intros Hb Hc. injection Hc as <- <-. split.
  - intros (Hi & Hr). destruct (inv_new b s (cfg io) body Hi Hb) as (Hi' & _ & Hold).
    split; [|split; [exact Hi'|]].
    + apply star_one.
      refine (eff_new null (cfg io) body (construct true Init DefaultStackSize (Some (Body body)) (io_rt io)) _ eq_refl).
      eapply managed_mono, Hb. intros o. by apply (task_valid b s (cfg io)).
    + eapply refs_mono, Hr. intros o ((x & Hx) & ?). split; [|done].
      eexists. by apply (Hold o x).
  - intros (Hi & _). by apply (inv_new b s (cfg io) body).
Qed.

Lemma moves_stop null io :
  moves null io (mkIO true (epoll_fd_ io) (wakeup_pipe_fd_ io) (stop (scheduler_ io)) (timer_manager_ io)
                   (fd_events_ io) (kernel_ io) (io_rt io)).
Proof using Type.
  intros (Hi & Hr). assert (He : io_effect null (cfg io) (with_sch (stop (scheduler_ io)) (cfg io)))
    by apply (eff_stop null (cfg io)).
  split; [by apply star_one|]. split; [by eapply io_effect_inv|done].
Qed.

(** *** blockPending *)

Variable fuel : nat.

Lemma run_timer_moves t io io' :
  (good io → timer_ok (valid b s (io_rt io)) t) → run_timer t io = Ok io' → moves true io io'.
Proof using Type.
  intros Ht Hr Hg. destruct (Ht Hg) as (body & Hc & Hb). unfold run_timer in Hr. rewrite Hc in Hr.
  apply bind_Ok in Hr as ([e r'] & He & [= <-]).
  destruct (moves_new true io body r' e Hb He) as (Hm & Hv). specialize (Hv Hg). revert Hg.
  apply (moves_trans _ _ (set_rt r' io)); [done|].
  apply (moves_add true (set_rt r' io) (Some e)); [done|]. by intros _ e' [= <-].
Qed.

Lemma run_timers_moves ts : ∀ io io',
  (good io → Forall (timer_ok (valid b s (io_rt io))) ts) → ofold run_timer ts io = Ok io' →
  moves true io io'.
Proof using Type.
  induction ts as [|t ts IH]; intros io io' Ht Ho Hg; simpl in Ho.
  { injection Ho as <-. split; [apply star_refl|done]. }
  apply bind_Ok in Ho as (io1 & H1 & H2). pose proof (Ht Hg) as Hts. inversion Hts as [|? ? Htt Htl]; subst.
  destruct (run_timer_moves t io io1 (λ _, Htt) H1 Hg) as (Hs1 & Hg1).
  assert (Hmono : ∀ e, valid b s (io_rt io) e → valid b s (io_rt io1) e).
  { intros e ((x & Hx) & ?). split; [|done]. apply bind_Ok in H1 as ([e0 r0] & He & [= <-]).
    destruct (Timer.callback t); [|done]. injection He as <- <-. simpl.
    apply lookup_insert_is_Some. destruct (decide (next_eid (io_rt io) = e)); eauto. }
  destruct (IH io1 io') as (Hs2 & Hg2); [|done|done|split; [by eapply star_trans|done]].
  intros _. eapply Forall_impl; [exact Htl|]. intros t'. by apply timer_ok_mono.
Qed.

Lemma left_same first ev l io q :
  refs (valid b s (io_rt io)) io → (left_read first ev l io = Ok q ∨ left_write first ev l io = Ok q) → q.2 = io.
Proof using Type.
  intros (Ht & _) Hl. assert (Hf : ∀ f, fd_event first io = Ok f → once f).
  { intros f Hf. unfold fd_event in Hf. apply of_option_Ok, at_fd_Some in Hf as (_ & Hf).
    by destruct (Forall_lookup_1 _ _ _ _ Ht Hf). }
  destruct Hl as [Hl|Hl]; [unfold left_read in Hl|unfold left_write in Hl];
    (destruct (has _ _); [|by injection Hl as <-]); apply bind_Ok in Hl as (f & Hx & Hl);
    destruct (Hf f Hx) as (H1 & H2); rewrite ?H1, ?H2 in Hl; by injection Hl as <-.
Qed.

Lemma unregister_quiet V fd l io io' : unregister fuel fd l io = Ok io' → quiet V io io'.
Proof using H.
  intros Hu. apply bind_Ok in Hu as (x & _ & Hu). destruct (l =? _); [by injection Hu as <-|].
  apply bind_Ok in Hu as (io1 & Hd & Hu). transitivity io1; [|by eapply update_quiet, Hu].
  destruct (l =? 0); [eapply (epoll_quiet _ _ _ _ fd 0)|eapply epoll_quiet]; eauto.
Qed.

Lemma enqueue_moves o io io' :
  (good io → ∀ e, o = Some e → valid b s (io_rt io) e) → enqueue o io = Ok io' → moves true io io'.
Proof using Type.
  intros Ho He. unfold enqueue in He. pose proof (moves_add true io o (λ _, eq_refl) Ho) as Hm.
  destruct (addExecutor o (scheduler_ io)) as [r s']. by apply bind_Ok in He as (u & _ & [= <-]).
Qed.

Lemma fd_event_ok V fd io x : refs V io → fd_event fd io = Ok x → entry_ok V x.
Proof using Type.
  intros (Ht & _) Hx. unfold fd_event in Hx. apply of_option_Ok, at_fd_Some in Hx as (_ & Hx).
  by eapply Forall_lookup_1.
Qed.

Lemma wake_read_moves ev io io' : wake_read ev io = Ok io' → moves true io io'.
Proof using H.
  unfold wake_read. destruct (has _ _); [|intros [= <-]; by apply moves_quiet].
  intros Hw. apply bind_Ok in Hw as (x & Hx & Hw). apply bind_Ok in Hw as (io1 & H1 & H2).
  apply (moves_trans _ _ io1).
  - apply (enqueue_moves (read_executor x)); [|done]. intros (_ & Hr).
    by apply (fd_event_ok _ _ _ _ Hr Hx).
  - apply moves_quiet. intros _. eapply update_quiet, H2. intros y ((? & ?) & ? & ?).
    destruct (read_call_once y) eqn:E; (split; [by split|]); done.
Qed.

Lemma wake_write_moves ev io io' : wake_write ev io = Ok io' → moves true io io'.
Proof using H.
  unfold wake_write. destruct (has _ _); [|intros [= <-]; by apply moves_quiet].
  intros Hw. apply bind_Ok in Hw as (x & Hx & Hw). apply bind_Ok in Hw as (io1 & H1 & H2).
  apply (moves_trans _ _ io1).
  - apply (enqueue_moves (write_executor x)); [|done]. intros (_ & Hr).
    by apply (fd_event_ok _ _ _ _ Hr Hx).
  - apply moves_quiet. intros _. eapply update_quiet, H2. intros y ((? & ?) & ? & ?).
    destruct (write_call_once y) eqn:E; (split; [by split|]); done.
Qed.

Lemma handle_event_moves first ev io io' : handle_event fuel first ev io = Ok io' → moves true io io'.
Proof using H.
  unfold handle_event. destruct (_ =? _).
  { intros Hh. apply bind_Ok in Hh as (k & _ & [= <-]). apply moves_quiet. intros _. apply quiet_kernel. }
  intros Hh Hg. apply bind_Ok in Hh as (x & _ & Hh). apply bind_Ok in Hh as (q1 & H1 & Hh).
  apply bind_Ok in Hh as (q2 & H2 & Hh). apply bind_Ok in Hh as (io1 & H3 & Hh).
  apply bind_Ok in Hh as (io2 & H4 & H5).
  assert (E1 : q1.2 = io) by (eapply left_same; [apply Hg|by left]). rewrite E1 in H2.
  assert (E2 : q2.2 = io) by (eapply left_same; [apply Hg|by right]). rewrite E2 in H3.
  revert Hg. apply (moves_trans _ _ io1); [apply moves_quiet; intros _; by eapply unregister_quiet|].
  apply (moves_trans _ _ io2); [by eapply wake_read_moves|by eapply wake_write_moves].
Qed.

Lemma handle_events_moves first l : ∀ io io', ofold (handle_event fuel first) l io = Ok io' → moves true io io'.
Proof using H.
  induction l as [|e l IH]; intros io io' Ho; simpl in Ho.
  { injection Ho as <-. by apply moves_quiet. }
  apply bind_Ok in Ho as (io1 & H1 & H2). apply (moves_trans _ _ io1); [by eapply handle_event_moves|by apply IH].
Qed.

Variable tod : nat → Z * Z.

Lemma rearm_ok V ts : ∀ m : @TimerManager callback,
  Forall (timer_ok V) (timers_ m) → Forall (timer_ok V) ts →
  Forall (timer_ok V) (timers_ (foldl (rearm tod) m ts)).
Proof using Type.
  induction ts as [|t ts IH]; intros m Hm Hts; simpl; [done|]. inversion Hts; subst.
  apply IH; [|done]. unfold rearm. destruct (repeat t); [|done]. simpl.
  rewrite ms_insert_perm. constructor; [|done]. done.
Qed.

Lemma takeExpired_ok V (m : @TimerManager callback) :
  Forall (timer_ok V) (timers_ m) →
  Forall (timer_ok V) (takeExpiredTimers tod m).1 ∧ Forall (timer_ok V) (timers_ (takeExpiredTimers tod m).2).
Proof using Type.
  intros Hm. unfold takeExpiredTimers, lower_bound. simpl.
  match goal with |- context [advance ?q (timers_ m)] =>
    pose proof (advance_app q (timers_ m)) as H1; destruct (advance q (timers_ m)) as [l1 r1] end.
  match goal with |- context [advance ?q r1] =>
    pose proof (advance_app q r1) as H2; destruct (advance q r1) as [l2 r2] end.
  simpl in *. rewrite <- H1, <- H2, !Forall_app in Hm. destruct Hm as (? & ? & ?).
  assert (Hl : Forall (timer_ok V) (l1 ++ l2)) by by apply Forall_app.
  split; [done|]. by apply rearm_ok.
Qed.

Lemma blockPending_moves io io' : blockPending tod fuel io = Ok io' → moves true io io'.
Proof using H.
  unfold blockPending. pose proof (getNextInterval_timers tod (timer_manager_ io)) as Hn.
  destruct (getNextInterval tod (timer_manager_ io)) as [iv tm]. simpl in Hn.
  intros Hb. apply bind_Ok in Hb as (q & _ & Hb). apply bind_Ok in Hb as (l & _ & Hb).
  pose proof (takeExpired_ok (valid b s (io_rt io)) tm) as Ht. rewrite Hn in Ht.
  destruct (takeExpiredTimers tod tm) as [ts tm']. apply bind_Ok in Hb as (io1 & H1 & H2).
  intros Hg. destruct (Ht (proj2 (proj2 Hg))) as (Hts & Htm). revert Hg. simpl in Hts, Htm.
  apply (moves_trans _ _ (set_timers tm' (set_kernel q.2 io))).
  { apply moves_quiet. intros _. split; [done..|]. intros (? & ?). by split. }
  apply (moves_trans _ _ io1); [|by eapply handle_events_moves].
  eapply run_timers_moves; [intros _; exact Hts|exact H1].
Qed.

(** *** Calls *)

Context `{SocketCalls K} `{!IoCalls K}.
Implicit Types w : @world K.

Lemma sys_call_io {A} (f : K → A * K) w V : quiet V (w_io w) (w_io (sys_call f w).2).
Proof using Type. unfold sys_call. destruct (f (w_kernel w)). apply quiet_kernel. Qed.

Lemma adopt_quiet V fd w w' : adopt fd w = Ok w' → quiet V (w_io w) (w_io w').
Proof using Type.
  unfold adopt. pose proof (sys_call_io (fcntl_sys fd F_GETFL (Some 0)) w V) as H1.
  destruct (sys_call (fcntl_sys fd F_GETFL (Some 0)) w) as [r w1]. simpl in H1. intros Ha.
  apply bind_Ok in Ha as (m & _ & [= <-]). simpl. transitivity (w_io w1); [done|].
  destruct (has _ _); [done|apply sys_call_io].
Qed.

Section Suspend.
Variable current : eid.
Variable cb : nat → coro.

Lemma make_Timer_quiet V io ms t rep tm :
  make_Timer tod (timer_manager_ io) ms t rep = (tm.1, tm.2) → quiet V io (set_timers tm.2 io).
Proof using Type.
  intros Ht. unfold make_Timer in Ht. simpl in Ht. destruct tm as [t' m]. simpl in *.
  injection Ht as <- <-. by apply quiet_timers.
Qed.

Lemma arm_quiet V io ms rep c p' :
  managed V c →
  (let '(timer, tm) := make_Timer tod (timer_manager_ io) ms (Some (Body c)) rep in
   registerTimer (Some timer) (set_timers tm io)) = Ok p' → quiet V io p'.2.
Proof using Type.
  intros Hm Ht. simpl in Ht. destruct p' as [r io'].
  etrans; [|eapply registerTimer_quiet, Ht; by exists c]. by apply quiet_timers.
Qed.

Lemma ioInner_try_quiet V fd ev ms f w p' :
  V current → (∀ n, managed V (cb n)) →
  ioInner_try tod fuel fd ev ms f current (λ n, Body (cb n)) w = Ok p' → quiet V (w_io w) (w_io p'.2).
Proof using Type*.
  intros Hc Hm Ht. unfold ioInner_try in Ht. apply bind_Ok in Ht as ([r k] & _ & Ht). cbn [fst snd] in Ht.
  destruct r as [v|er]; [injection Ht as <-; apply quiet_kernel|].
  destruct (decide (er = EAGAIN)); [|injection Ht as <-; apply quiet_kernel].
  simpl in Ht. apply bind_Ok in Ht as ([r1 io1] & H1 & Ht).
  apply bind_Ok in Ht as ([r2 io2] & H2 & [= <-]). simpl. transitivity io1; [|by eapply registerEvent_quiet].
  etrans; [|eapply registerTimer_quiet, H1; by eexists]. by split.
Qed.

Lemma ioInner_quiet V fd ev f w p' :
  V current → (∀ n, managed V (cb n)) →
  ioInner tod fuel fd ev f current (λ n, Body (cb n)) w = Ok p' → quiet V (w_io w) (w_io p'.2).
Proof using Type*.
  intros Hc Hm Ht. apply bind_Ok in Ht as ([ms|] & _ & Ht); [by eapply ioInner_try_quiet|].
  pose proof (sys_call_io f w V) as Hq. destruct (sys_call f w). by injection Ht as <-.
Qed.
End Suspend.

Lemma ioInner_resume_quiet V t flag w p' : ioInner_resume t flag w = Ok p' → quiet V (w_io w) (w_io p'.2).
Proof using Type.
  intros Hr. apply bind_Ok in Hr as (c & _ & Hr). destruct c; [by injection Hr as <-|].
  apply bind_Ok in Hr as (io & Hc & [= <-]). by eapply cancelTimer_quiet in Hc.
Qed.

Lemma suspend_world ms fr q (a : answer) w fr' : suspend ms fr q = Ok (a, w, fr') → w = q.2.
Proof using Type. unfold suspend. by destruct (q.1); intros [= ? ? ?]. Qed.

Lemma io_timeout_moves fd ev flag e w w' :
  valid b s (io_rt (w_io w)) e → io_timeout fuel fd ev flag e w = Ok w' →
  moves false (w_io w) (w_io w').
Proof using Type*.
  intros He Ht. apply bind_Ok in Ht as (w1 & H1 & [= <-]). simpl.
  assert (Hq : ∀ V, quiet V (w_io w) (w_io w1)).
  { intros V. destruct (w_flags w !! flag) as [[]|]; try by injection H1 as <-.
    apply bind_Ok in H1 as (io & Hr & [= <-]). by eapply removeEvent_quiet. }
  apply (moves_trans _ _ (w_io w1)); [apply moves_quiet; by intros _|].
  apply (moves_add false (w_io w1) (Some e)); [done|].
  intros _ e' [= <-]. by rewrite (q_rt _ _ _ (Hq (λ _, True))).
Qed.

Lemma co_connect_quiet V fd e w q :
  V e → co_connect_try fuel fd e w = Ok q → quiet V (w_io w) (w_io q.2).
Proof using Type*.
  intros He Hc. pose proof (sys_call_io (connect_sys fd) w V) as Hq.
  apply bind_Ok in Hc as ([[n c]|] & _ & Hc); [|by injection Hc as <-].
  destruct (sys_call (connect_sys fd) w) as [r w1]. simpl in Hq.
  destruct (_ || _); [by injection Hc as <-|]. destruct (decide (r = Err EINPROGRESS)); [|by injection Hc as <-].
  apply bind_Ok in Hc as ([r2 io2] & H2 & [= <-]). simpl. transitivity (w_io w1); [done|].
  by eapply registerEvent_quiet.
Qed.

Lemma co_close_quiet V fd w q : co_close fuel fd w = Ok q → quiet V (w_io w) (w_io q.2).
Proof using Type*.
  intros Hc. apply bind_Ok in Hc as (h & _ & Hc). apply bind_Ok in Hc as (w1 & H1 & [= <-]).
  transitivity (w_io w1); [|apply sys_call_io]. destruct h; [|by injection H1 as <-].
  apply bind_Ok in H1 as (io & Hr & H1). apply bind_Ok in H1 as (m & _ & [= <-]). by eapply removeEvent_quiet.
Qed.

Lemma write_context_quiet V i f w w' : write_context i f w = Ok w' → quiet V (w_io w) (w_io w').
Proof using Type. intros Hw. apply bind_Ok in Hw as (m & _ & [= <-]). by split. Qed.

Lemma passed_quiet {A} V (f : K → A * K) w q : Ok (sys_call f w) = Ok q → quiet V (w_io w) (w_io q.2).
Proof using Type. intros [= <-]. apply sys_call_io. Qed.

Lemma sys_quiet {A B} V (f : K → A * K) (g : A → B) w (q : B * @world K) :
  (let '(r, w) := sys_call f w in Ok (g r, w)) = Ok q → quiet V (w_io w) (w_io q.2).
Proof using Type.
  pose proof (sys_call_io f w V) as Hq. destruct (sys_call f w). by intros [= <-].
Qed.

Lemma raw_quiet V (f : K → sysres * K) w (fr fr' : frames) a w' :
  (let '(r, w) := sys_call f w in Ok (of_sysres r, w, fr)) = Ok (a, w', fr') → quiet V (w_io w) (w_io w').
Proof using Type.
  pose proof (sys_call_io f w V) as Hq. destruct (sys_call f w). by intros [= _ <- _].
Qed.

Lemma co_fcntl_quiet V fd cmd arg w q : co_fcntl fd cmd arg w = Ok q → quiet V (w_io w) (w_io q.2).
Proof using Type.
  intros Hc. destruct cmd as [| |c|c|c]; cbn [co_fcntl] in Hc; try by eapply sys_quiet.
  - apply bind_Ok in Hc as ([[i c]|] & _ & Hc); [destruct (is_socket c)|]; try by eapply sys_quiet.
    apply bind_Ok in Hc as (w1 & H1 & Hc). apply bind_Ok in Hc as (w2 & H2 & Hc).
    transitivity (w_io w1); [by eapply write_context_quiet|].
    transitivity (w_io w2); [by eapply write_context_quiet|by eapply sys_quiet].
  - pose proof (sys_call_io (fcntl_sys fd F_GETFL None) w V) as Hq.
    destruct (sys_call _ w) as [r w1]. simpl in Hq, Hc. apply bind_Ok in Hc as ([[i c]|] & _ & Hc).
    + destruct (is_socket c), (is_user_non_block c); by injection Hc as <-.
    + by injection Hc as <-.
Qed.

Lemma co_ioctl_quiet V d request arg w q : co_ioctl d request arg w = Ok q → quiet V (w_io w) (w_io q.2).
Proof using Type.
  unfold co_ioctl. intros Hc. destruct (request =? FIONBIO); [|by eapply passed_quiet].
  apply bind_Ok in Hc as ([[i c]|] & _ & Hc); [destruct (negb _)|]; try by eapply passed_quiet.
  apply bind_Ok in Hc as (w1 & H1 & Hc).
  transitivity (w_io w1); [by eapply write_context_quiet|by eapply passed_quiet].
Qed.

Lemma co_setsockopt_quiet V fd level opt v w q :
  co_setsockopt fd level opt v w = Ok q → quiet V (w_io w) (w_io q.2).
Proof using Type.
  intros Hc. apply bind_Ok in Hc as (w1 & H1 & Hc). transitivity (w_io w1); [|by eapply passed_quiet].
  destruct (_ && _); [|by injection H1 as <-].
  apply bind_Ok in H1 as ([[i c]|] & _ & H1); [|by injection H1 as <-].
  destruct (opt =? SO_RCVTIMEO); by eapply write_context_quiet.
Qed.

(** The operations that leave executors and scheduler alone. *)
Definition is_quiet (op : io_call) : bool :=
  match op with IoTimeout _ _ _ _ | IoStop => false | _ => true end.

Lemma io_handle_quiet V current op cb w fr a w' fr' :
  is_quiet op = true → V current → call_managed V op → (∀ n, managed V (cb n)) →
  io_handle tod fuel current op (λ n, Body (cb n)) w fr = Ok (a, w', fr') → quiet V (w_io w) (w_io w').
Proof using Type*.
  intros Hop Hcur Hman Hcb Hh.
  destruct op as [f fd|f fd flag| |fd|ms|fd|fd|d t pr|fd|fd t e o|fd ev|iv rep| |fd c v|fd rq v|fd lv o v|f fd|d t pr|fd|fd|fd lv o v|];
    try done; cbn [io_handle] in Hh.
  - apply bind_Ok in Hh as (t & _ & Hh). apply bind_Ok in Hh as (q & H1 & H2).
    apply suspend_world in H2 as ->. by eapply ioInner_quiet.
  - apply bind_Ok in Hh as (x & _ & Hh). apply bind_Ok in Hh as (q & H1 & Hh).
    transitivity (w_io q.2); [by eapply ioInner_resume_quiet|].
    destruct (q.1); try (apply suspend_world in Hh as ->; done).
    apply bind_Ok in Hh as (q2 & H2 & H3). apply suspend_world in H3 as ->. by eapply ioInner_try_quiet.
  - apply bind_Ok in Hh as (q & H1 & [= _ <- _]). unfold co_accept_done in H1.
    destruct (0 <=? _); [|by injection H1 as <-].
    apply bind_Ok in H1 as (w1 & H1 & [= <-]). by eapply adopt_quiet.
  - apply bind_Ok in Hh as (w1 & H1 & [= _ <- _]). unfold sleepInner in H1. simpl in H1.
    apply bind_Ok in H1 as (q & H1 & [= <-]). simpl. eapply (arm_quiet V _ ms false (cb O)); [done|]. exact H1.
  - apply bind_Ok in Hh as (q & H1 & [= _ <- _]). by eapply co_connect_quiet.
  - unfold co_connect_resume in Hh. pose proof (sys_call_io (getsockopt_error fd) w V) as Hq.
    destruct (sys_call (getsockopt_error fd) w) as [[r v] w1]. simpl in Hq, Hh.
    destruct r; [destruct (v =? 0)|]; by injection Hh as _ <- _.
  - apply bind_Ok in Hh as (q & H1 & [= _ <- _]). unfold co_socket in H1.
    pose proof (sys_call_io (socket_sys d t pr) w V) as Hq.
    destruct (sys_call (socket_sys d t pr) w) as [r w1]. simpl in Hq.
    destruct r; [|by injection H1 as <-]. apply bind_Ok in H1 as (w2 & H1 & [= <-]).
    transitivity (w_io w1); [done|]. by eapply adopt_quiet.
  - apply bind_Ok in Hh as (q & H1 & [= _ <- _]). by eapply co_close_quiet.
  - destruct Hman as (He & ->). apply bind_Ok in Hh as ([r io] & H1 & [= _ <- _]). by eapply registerEvent_quiet.
  - apply bind_Ok in Hh as (io & H1 & [= _ <- _]). by eapply removeEvent_quiet.
  - simpl in Hh. apply bind_Ok in Hh as (q & H1 & [= _ <- _]). simpl.
    eapply (arm_quiet V _ iv rep (cb O)); [done|]. exact H1.
  - apply bind_Ok in Hh as (q & H1 & [= _ <- _]). by eapply co_fcntl_quiet.
  - apply bind_Ok in Hh as (q & H1 & [= _ <- _]). by eapply co_ioctl_quiet.
  - apply bind_Ok in Hh as (q & H1 & [= _ <- _]). by eapply co_setsockopt_quiet.
  - by eapply raw_quiet.
  - by eapply raw_quiet.
  - by eapply raw_quiet.
  - by eapply raw_quiet.
  - by eapply raw_quiet.
Qed.

(** A call of a task. *)
Lemma io_handle_moves current op cb w fr a w' fr' :
  valid b s (io_rt (w_io w)) current → call_managed (valid b s (io_rt (w_io w))) op →
  (∀ n, managed (valid b s (io_rt (w_io w))) (cb n)) →
  io_handle tod fuel current op (λ n, Body (cb n)) w fr = Ok (a, w', fr') → moves false (w_io w) (w_io w').
Proof using Type*.
  intros Hv Hop Hcb Hh. destruct (is_quiet op) eqn:Hq; [apply moves_quiet; intros _; by eapply io_handle_quiet|].
  destruct op; try done; cbn [io_handle] in Hh.
  - apply bind_Ok in Hh as (w1 & H1 & [= _ <- _]). by eapply io_timeout_moves.
  - injection Hh as _ <- _. apply moves_stop.
Qed.
End Moves.

(** ** The refinement *)

(** What happens to the executors' identities while the loop runs: they are kept,
    and new executors are constructed. *)
Inductive id_step (r : runtime) : runtime → Prop :=
| id_same r' : same_ids r r' → id_step r r'
| id_new cb st sz f : id_step r (construct cb st sz f r).2.

Definition numbered : runtime → runtime → Prop := star id_step.

Lemma numbered_refl r : numbered r r.
Proof. apply star_refl. Qed.
Lemma numbered_same r r' : same_ids r r' → numbered r r'.
Proof. intros. by apply star_one, id_same. Qed.
Lemma numbered_new cb st sz f r : numbered r (construct cb st sz f r).2.
Proof. apply star_one, id_new. Qed.
Lemma numbered_trans r1 r2 r3 : numbered r1 r2 → numbered r2 r3 → numbered r1 r3.
Proof. apply star_trans. Qed.

Lemma numbered_put e x y r : get e r = Ok x → id_ y = id_ x → numbered r (put e y r).
Proof. intros Hx Hid. apply numbered_same. apply (put_same_ids e x); [by apply get_Ok|done]. Qed.

Lemma leaveInner_numbered main e k r q : leaveInner main e k r = Ok q → numbered r q.2.
Proof. destruct q. intros Hl. apply leaveInner_frame in Hl as (_ & Hl). by apply numbered_same. Qed.

Lemma yield_numbered main e k r q : yield main e k r = Ok q → numbered r q.2.
Proof.
  unfold yield. intros Hy. apply bind_Ok in Hy as (x & Hx & Hy). destruct (bool_decide _).
  - apply leaveInner_numbered in Hy. eapply numbered_trans, Hy. by eapply numbered_put.
  - injection Hy as <-. apply numbered_refl.
Qed.

Lemma doExec_numbered main e k r q : doExec main e k r = Ok q → numbered r q.2.
Proof. destruct q. intros Hd. apply doExec_frame in Hd as (x & _ & Hi & _). by apply numbered_same. Qed.

Lemma tail_numbered r q : executorMainFunc_tail r = Ok q → numbered r q.2.
Proof.
  unfold executorMainFunc_tail, terminal. intros Ht. apply bind_Ok in Ht as (e & _ & Ht).
  apply bind_Ok in Ht as (x & Hx & Ht). apply bind_Ok in Ht as (u & _ & Ht).
  apply leaveInner_numbered in Ht. eapply numbered_trans, Ht. by eapply numbered_put.
Qed.

Lemma kill_numbered e k r q : kill e k r = Ok q → numbered r q.2.
Proof.
  unfold kill. intros Hk. apply bind_Ok in Hk as (x & Hx & Hk). destruct (bool_decide _).
  - apply leaveInner_numbered in Hk. eapply numbered_trans, Hk. by eapply numbered_put.
  - injection Hk as <-. by eapply numbered_put.
Qed.

Lemma getCurrent_numbered r : numbered r (getCurrent r).2.
Proof.
  unfold getCurrent. destruct (t_cur_executor r); [apply numbered_refl|].
  eapply numbered_trans; [apply (numbered_new false Ready 0 None)|]. by apply numbered_same.
Qed.

Lemma goto_numbered c o c' :
  (∀ q, o = Ok q → numbered (rt c) q.2) → (q ← o; Ok (goto c q)) = Ok (Go c') → numbered (rt c) (rt c').
Proof. intros Ho Hc. apply bind_Ok in Hc as (q & Hq & [= <-]). by apply Ho. Qed.

Lemma run_coro_numbered wrap k c c' : run_coro wrap k c = Ok (Go c') → numbered (rt c) (rt c').
Proof.
  destruct k as [| |k|e k|e k|body k|e k|k|k|n k|op cb k]; simpl; try done.
  - pose proof (getCurrent_numbered (rt c)) as Hg. destruct (getCurrent (rt c)) as [e r].
    intros Hy. apply bind_Ok in Hy as (q & Hy & [= <-]). eapply numbered_trans; [exact Hg|]. by eapply yield_numbered.
  - apply goto_numbered. intros q Hq. unfold exec in Hq. apply bind_Ok in Hq as (u & _ & Hq). by eapply doExec_numbered.
  - apply goto_numbered. intros q. apply kill_numbered.
  - intros [= <-]. apply numbered_new.
  - intros Ha. apply bind_Ok in Ha as (x & _ & Ha). destruct (addExecutor _ _). injection Ha as <-. apply numbered_refl.
  - intros [= <-]. apply numbered_refl.
  - apply goto_numbered. intros q. apply doExec_numbered.
  - intros [= <-]. apply numbered_refl.
Qed.

Lemma leave_loop_numbered c d c' : rt d = rt c → leave_loop d = Ok (Go c') → numbered (rt c) (rt c').
Proof. intros Hd Hl. rewrite <- Hd. eapply goto_numbered, Hl. intros q. apply yield_numbered. Qed.

Lemma exec_code_numbered c c' : exec_code c = Ok (Go c') → numbered (rt c) (rt c').
Proof.
  unfold exec_code. destruct (pc c) as [k|k| |e| |]; try done.
  - destruct k; try apply run_coro_numbered; apply goto_numbered; intros q; apply tail_numbered.
  - destruct k; try done; apply run_coro_numbered.
  - unfold threadScheduleFunc_head. destruct (stop_pending (sch c)); [by apply leave_loop_numbered|].
    set (o := match ready_executors_ _ with [] => _ | _ => _ end). destruct o as [[e|] s1].
    + intros Hx. apply bind_Ok in Hx as (x & _ & Hx). destruct (bool_decide _); [|injection Hx as <-; apply numbered_refl].
      apply bind_Ok in Hx as (q & Hq & [= <-]). unfold exec in Hq. apply bind_Ok in Hq as (u & _ & Hq).
      by eapply doExec_numbered.
    + destruct (stopping_ s1); [|done]. by apply leave_loop_numbered.
  - unfold threadScheduleFunc_after. intros Hx. apply bind_Ok in Hx as (x & _ & Hx).
    destruct (state_ x); try done; injection Hx as <-; apply numbered_refl.
  - apply goto_numbered. intros q. apply tail_numbered.
Qed.

Lemma block_rt c c' : exec_code c = Ok (Block c') → rt c' = rt c.
Proof.
  assert (Hg : ∀ c0 (o : outcome (code * runtime)), (q ← o; Ok (goto c0 q)) ≠ Ok (Block c'))
    by (intros c0 [q|e|e]; done).
  assert (Hr : ∀ wrap k, run_coro wrap k c ≠ Ok (Block c')).
  { intros wrap k. destruct k; simpl; try done; try apply Hg.
    - destruct (getCurrent (rt c)) as [e r]. apply Hg.
    - destruct (get e (rt c)); simpl; try done. by destruct (addExecutor _ _). }
  unfold exec_code. destruct (pc c) as [k|k| |e| |]; try done.
  - destruct k; intros Hk; try (by apply Hr in Hk); by apply Hg in Hk.
  - destruct k; intros Hk; try done; by apply Hr in Hk.
  - unfold threadScheduleFunc_head.
    assert (Hl : ∀ d, leave_loop d ≠ Ok (Block c')) by (intros d; apply Hg).
    destruct (stop_pending (sch c)); [intros Hk; by apply Hl in Hk|].
    set (o := match ready_executors_ _ with [] => _ | _ => _ end). destruct o as [[e|] s1].
    + intros Hx. apply bind_Ok in Hx as (x & _ & Hx). destruct (bool_decide _); [|done].
      by apply bind_Ok in Hx as (q & Hq & [=]).
    + destruct (stopping_ s1); [intros Hk; by apply Hl in Hk|]. by intros [= <-].
  - unfold threadScheduleFunc_after. intros Hx. apply bind_Ok in Hx as (x & _ & Hx). by destruct (state_ x).
  - intros Hk. by apply Hg in Hk.
Qed.

Lemma io_effect_numbered null c c' : star (io_effect null) c c' → numbered (rt c) (rt c').
Proof.
  intros Hs. induction Hs as [c|c c1 c2 He _ IH]; [apply numbered_refl|]. eapply numbered_trans, IH.
  destruct He as [c o _ _|c body q _ Hq|c]; [apply numbered_refl| |apply numbered_refl].
  injection Hq as <-. apply numbered_new.
Qed.

(** Whatever a thread does. *)
Lemma step_numbered c c' : step c c' → numbered (rt c) (rt c').
Proof.
  intros Hs. destruct Hs as [c c' Hu|c c1 c2 Hb He|c e _]; [|rewrite <- (block_rt _ _ Hb); by eapply io_effect_numbered|apply numbered_refl].
  destruct Hu as [c c' Hg|c op cb k c1 a _ He]; [by apply exec_code_numbered|]. exact (io_effect_numbered false c c1 He).
Qed.

(** Executors are not destroyed while the loop runs. *)
Definition grows (r r' : runtime) : Prop :=
  ∀ e, is_Some (executors r !! e) → is_Some (executors r' !! e).

Lemma same_ids_dom r r' e : same_ids r r' → is_Some (executors r' !! e) ↔ is_Some (executors r !! e).
Proof.
  intros (Hi & _). rewrite <- (fmap_is_Some id_ (executors r !! e)), <- (fmap_is_Some id_ (executors r' !! e)).
  by rewrite <- !lookup_fmap, Hi.
Qed.

Lemma construct_grows cb st sz f r : grows r (construct cb st sz f r).2.
Proof.
  intros o Ho. simpl. rewrite lookup_insert_is_Some. destruct (decide (next_eid r = o)); auto.
Qed.

Lemma numbered_grows r r' : numbered r r' → grows r r'.
Proof.
  intros Hn. induction Hn as [r|r r1 r2 Hs _ IH]; [by intros e|]. intros e He. apply IH.
  destruct Hs as [r1 Hs|]; [by apply (same_ids_dom _ _ _ Hs)|by apply construct_grows].
Qed.

Section Refine.
Context {K : Type} `{EpollKernel K} `{SocketCalls K} `{!IoCalls K}.
Variable tod : nat → Z * Z.
Variable fuel : nat.
Variable b s : eid.
Implicit Types l : @loop K.

Definition loop_io l : @IOManager K := w_io (lp_w l).

Definition loop_inv l : Prop :=
  (starting b s (config_of l) ∨ inv b s (config_of l)) ∧ refs (valid b s (io_rt (loop_io l))) (loop_io l).

(** The thread's own steps, and what other threads hand over. *)
Inductive loop_trans : @loop K → @loop K → Prop :=
| trans_own l l' : lstep tod fuel l l' → loop_trans l l'
| trans_remote l l' e : task (config_of l) e → remote e l = Ok l' → loop_trans l l'.

Lemma valid_grows r r' : grows r r' → ∀ e, valid b s r e → valid b s r' e.
Proof using Type. intros Hg e (He & ?). split; [by apply Hg|done]. Qed.

Lemma go_refines l c :
  loop_inv l → exec_code (config_of l) = Ok (Go c) →
  step (config_of l) (config_of (with_config c l)) ∧ loop_inv (with_config c l).
Proof using Type.
  intros (Hi & Hr) Hc. assert (Hcfg : config_of (with_config c l) = c) by by destruct c.
  assert (Hs : step (config_of l) c) by by apply step_own, ustep_go.
  unfold loop_inv. rewrite Hcfg. split; [done|]. split; [by eapply starting_step|].
  eapply (refs_mono (valid b s (io_rt (loop_io l)))); [|exact Hr]. apply valid_grows.
  by apply exec_code_numbered, numbered_grows in Hc.
Qed.

Lemma block_refines l c io :
  inv b s (config_of l) → refs (valid b s (io_rt (loop_io l))) (loop_io l) →
  exec_code (config_of l) = Ok (Block c) →
  blockPending tod fuel (w_io (store (rt c) (sch c) (lp_w l))) = Ok io →
  let l' := mkLoop (set_io io (store (rt c) (sch c) (lp_w l))) (pc c) (trace c) (lp_frames l) in
  step (config_of l) (config_of l') ∧ inv b s (config_of l') ∧
  refs (valid b s (io_rt (loop_io l'))) (loop_io l').
Proof using Type.
  intros Hi Hr Hc Hb l'. destruct (code_ok b s _ Hi) as (m & Hm & Hk). rewrite Hc in Hm. injection Hm as <-.
  simpl in Hk. assert (Hrt : rt c = rt (config_of l)).
  { revert Hc. unfold exec_code. pose proof (i_pc b s _ Hi) as Hp.
    destruct (pc (config_of l)) as [k|k| |e| |]; simpl in Hp; try done.
    - destruct k; simpl; intros Hc; repeat match goal with
      | H : _ ≫= _ = Ok _ |- _ => apply bind_Ok in H as (? & _ & H)
      | H : context [let '(_, _) := ?x in _] |- _ => destruct x end; done.
    - by destruct Hp as (-> & _).
    - unfold threadScheduleFunc_head, leave_loop. destruct (stop_pending _).
      { intros Hc. by apply bind_Ok in Hc as (? & _ & Hc). }
      set (o := match ready_executors_ _ with [] => _ | _ => _ end). destruct o as [[e|] s1]; intros Hc.
      + apply bind_Ok in Hc as (x & _ & Hc). destruct (bool_decide _); [|done].
        by apply bind_Ok in Hc as (? & _ & Hc).
      + destruct (stopping_ s1); [by apply bind_Ok in Hc as (? & _ & Hc)|]. by injection Hc as <-.
    - unfold threadScheduleFunc_after. intros Hc. apply bind_Ok in Hc as (x & _ & Hc). by destruct (state_ x). }
  destruct (blockPending_moves b s (pc c) (trace c) fuel tod _ io Hb) as (Hs & Hi' & Hr').
  { split; [by destruct c|]. simpl. rewrite Hrt. exact Hr. }
  split; [|done]. eapply step_block; [exact Hc|]. by destruct c.
Qed.

Lemma call_refines l op cb k a w' fr' e :
  inv b s (config_of l) → refs (valid b s (io_rt (loop_io l))) (loop_io l) →
  exec_code (config_of l) = Ok (Call op cb k) → t_cur_executor (io_rt (loop_io l)) = Some e →
  io_handle tod fuel e op (λ n, Body (cb e n)) (lp_w l) (lp_frames l) = Ok (a, w', fr') →
  let l' := mkLoop w' (k a) (lp_trace l) fr' in
  step (config_of l) (config_of l') ∧ inv b s (config_of l') ∧
  refs (valid b s (io_rt (loop_io l'))) (loop_io l').
Proof using Type.
  intros Hi Hr Hc He Hh l'. destruct (call_code b s _ op cb k Hi Hc) as (k0 & Hpc & ->).
  pose proof (i_pc b s _ Hi) as Hp. rewrite Hpc in Hp. destruct Hp as ((Hop & Hcb & _) & e' & Hv & Hsw).
  assert (e' = e) as ->.
  { destruct Hsw as (_ & Hc' & _). change (t_cur_executor (io_rt (loop_io l)) = Some e') in Hc'. congruence. }
  assert (Hcbv : ∀ n, managed (valid b s (io_rt (loop_io l))) (cb e n)).
  { intros n. eapply managed_mono, Hcb. by intros o [?| ->]. }
  destruct (io_handle_moves b s (lp_pc l) (lp_trace l) fuel tod e op (cb e) _ _ a w' fr' Hv Hop Hcbv Hh
              (conj Hi Hr)) as (Hs & Hi' & Hr').
  split; [|split; [|done]].
  - exact (step_own _ _ (ustep_call (config_of l) op cb _ _ a Hc Hs)).
  - eapply (call_inv b s _ op cb (λ a, Run (k0 a)) _ a Hi Hc Hs).
Qed.

Lemma own_refines l l' :
  loop_inv l → lstep tod fuel l l' → step (config_of l) (config_of l') ∧ loop_inv l'.
Proof using Type.
  intros Hl Hs. apply bind_Ok in Hs as (m & Hc & Hs). destruct Hl as ([Hst|Hi] & Hr).
  { destruct (starting_code b s _ Hst) as (c' & Hc' & _). rewrite Hc in Hc'. injection Hc' as ->.
    injection Hs as <-. apply go_refines; [|done]. split; [by left|done]. }
  destruct m as [c|c|op cb k|]; [..|done].
  - injection Hs as <-. apply go_refines; [|done]. split; [by right|done].
  - apply bind_Ok in Hs as (io & Hb & [= <-]). destruct (block_refines l c io Hi Hr Hc Hb) as (? & ? & ?).
    split; [done|]. split; [by right|done].
  - destruct (call_code b s _ op cb k Hi Hc) as (k0 & Hpc & _).
    pose proof (i_pc b s _ Hi) as Hp. rewrite Hpc in Hp. destruct Hp as (_ & e & _ & _ & Hcur & _).
    simpl in Hcur. unfold getCurrent in Hs. rewrite Hcur in Hs. apply bind_Ok in Hs as ([[a w'] fr'] & Hh & [= <-]).
    replace (set_io (set_rt (io_rt (w_io (lp_w l))) (w_io (lp_w l))) (lp_w l)) with (lp_w l) in Hh
      by by destruct l as [[[] ? ? ?] ? ? ?].
    destruct (call_refines l op cb k a w' fr' e Hi Hr Hc Hcur Hh) as (? & ? & ?).
    split; [done|]. split; [by right|done].
Qed.

Lemma trans_refines l l' :
  loop_inv l → loop_trans l l' → step (config_of l) (config_of l') ∧ loop_inv l'.
Proof using Type.
  intros Hl Ht. destruct Ht as [l l' Hs|l l' e He Hs]; [by apply own_refines|].
  apply bind_Ok in Hs as (io & Ha & [= <-]). unfold addRemoteTask, wakeup in Ha.
  destruct (write_byte _ _) as [[v|er] k]; [|done]. injection Ha as <-. destruct Hl as (Hi & Hr).
  assert (Hs : step (config_of l) (with_sch (addRemoteExecutor (Some e) (scheduler_ (loop_io l))).2 (config_of l)))
    by by apply (step_remote (config_of l)).
  split; [exact Hs|]. split; [|done]. by eapply starting_step.
Qed.

Lemma loop_refines l l' :
  loop_inv l → star loop_trans l l' → star step (config_of l) (config_of l') ∧ loop_inv l'.
Proof using Type.
  intros Hl Hs. induction Hs as [l|l l1 l2 Ht _ IH]; [split; [apply star_refl|done]|].
  destruct (trans_refines l l1 Hl Ht) as (H1 & Hl1). destruct (IH Hl1) as (H2 & ?).
  split; [by eapply star_step|done].
Qed.
End Refine.

(** ** Properties *)

Section Thread.
Context {K : Type} `{EpollKernel K} `{SocketCalls K} `{!IoCalls K} `{!ThreadCalls K}.
Variable tod : nat → Z * Z.
Variable fuel : nat.

Lemma io_thread_config k (k0 : K) m l :
  io_thread fuel k k0 m = Ok l →
  config_of l = thread_config k ∧ fd_events_ (loop_io l) = [] ∧ timers_ (timer_manager_ (loop_io l)) = [].
Proof.
  intros Hl. apply bind_Ok in Hl as (io & Hio & [= <-]). unfold IOManager_new in Hio.
  apply bind_Ok in Hio as ([s r] & Hs & Hio). apply bind_Ok in Hio as (io1 & H1 & H2).
  unfold initEpoll in H1. destruct (sys_epoll_create _ _) as [[ep|e] k1]; [|done]. injection H1 as <-.
  unfold initPipe in H2. destruct (sys_pipe _) as [[[v|e] pp] k2]; [|done].
  destruct (sys_set_nonblock pp.1 k2) as [[v2|e] k3]; [|done].
  apply bind_Ok in H2 as (k4 & _ & [= <-]). unfold config_of, loop_io. simpl.
  injection Hs as <- <-. done.
Qed.

(** From the start of a thread with tasks that keep to the interface. *)
Lemma thread_refines bodies (k0 : K) m l0 l :
  Forall (managed (λ _, False)) bodies → io_thread fuel (launch bodies) k0 m = Ok l0 →
  star (loop_trans tod fuel) l0 l →
  star step (thread_config (launch bodies)) (config_of l) ∧ loop_inv 0 1 l.
Proof.
  intros Hb Hl Hs. destruct (io_thread_config _ k0 m l0 Hl) as (Hc & Ht & Htm).
  assert (Hinv : loop_inv 0 1 l0).
  { split; [left; rewrite Hc; by apply launch_starting|]. split; [by rewrite Ht|by rewrite Htm]. }
  destruct (loop_refines tod fuel 0 1 l0 l Hinv Hs) as (Hst & Hi). by rewrite Hc in Hst.
Qed.

Lemma thread_safe bodies (k0 : K) m l0 l :
  Forall (managed (λ _, False)) bodies → io_thread fuel (launch bodies) k0 m = Ok l0 →
  star (loop_trans tod fuel) l0 l → safe (config_of l).
Proof. intros Hb Hl Hs. destruct (thread_refines bodies k0 m l0 l Hb Hl Hs) as (_ & Hi & _). by apply starting_safe. Qed.

(** C5: the event loop refines the scheduler: a thread that makes an IO manager,
    tasks that use the coroutine calls, and runs, is at every moment in a
    configuration that the scheduler's machine can reach (whatever the kernel
    answers, whichever timers fire, whatever other threads hand over); so tasks
    execute one at a time, a suspended task resumes where it stopped, and the
    runtime itself never faults: only operations of the IO manager can. *)
Theorem event_loop_refines bodies (k0 : K) m l0 l :
  Forall (managed (λ _, False)) bodies → io_thread fuel (launch bodies) k0 m = Ok l0 →
  star (loop_trans tod fuel) l0 l →
  star step (thread_config (launch bodies)) (config_of l) ∧ safe (config_of l).
Proof.
  intros Hb Hl Hs. destruct (thread_refines bodies k0 m l0 l Hb Hl Hs) as (Hst & Hi & _).
  split; [done|]. by apply starting_safe.
Qed.
End Thread.

Lemma run_loop_star {K} `{EpollKernel K} `{SocketCalls K} `{!IoCalls K} tod fuel n : ∀ l l' : @loop K,
  run_loop tod fuel n l = Ok l' → star (lstep tod fuel) l l'.
Proof.
  induction n as [|n IH]; intros l l' Hr; [injection Hr as <-; apply star_refl|].
  apply bind_Ok in Hr as ([l1|] & Hs & Hr); [|injection Hr as <-; apply star_refl].
  eapply star_step; [exact Hs|by apply IH].
Qed.

Lemma star_lstep_trans {K} `{EpollKernel K} `{SocketCalls K} `{!IoCalls K} tod fuel (l l' : @loop K) :
  star (lstep tod fuel) l l' → star (loop_trans tod fuel) l l'.
Proof. induction 1; eauto using star, loop_trans. Qed.

(** ** Witnesses *)

Module EventLoopEx.
Import SimpleKernel CoIOEx IOThreadEx.

(** Reading takes what is there; nothing else is connected. *)
#[export] Instance simple_io : IoCalls kernel := {
  accept_sys _ _ _ k := (Err EAGAIN, k);
  read_sys fd _ n k := read_bytes fd (Z.to_nat n) k;
  readv_sys _ _ _ k := (Err EAGAIN, k);
  recv_sys _ _ _ _ k := (Err EAGAIN, k);
  recvfrom_sys _ _ _ _ _ _ k := (Err EAGAIN, k);
  recvmsg_sys _ _ _ k := (Err EAGAIN, k);
  write_sys _ _ n k := (Ret n, k);
  writev_sys _ _ _ k := (Err EAGAIN, k);
  send_sys _ _ n _ k := (Ret n, k);
  sendto_sys _ _ _ _ _ _ k := (Err EAGAIN, k);
  sendmsg_sys _ _ _ k := (Err EAGAIN, k)
}.

(** One task reads from the socket 5, one sleeps and then stops the manager. *)
Definition reader : coro := ioInner_code 1 (FRead 0 8) 5 (λ r _, CDo (Z.to_nat r) CRet).
Definition sleeper : coro := sleep_code 30 (plain_code IoStop (λ _ _, CRet)).
Definition bodies : list coro := [reader; sleeper].

Lemma loop_bodies_managed : Forall (managed (λ _, False)) bodies.
Proof.
  constructor; [by apply managed_ioInner|]. constructor; [|constructor]. by apply managed_sleep, managed_plain.
Qed.

Definition l0 : @loop kernel :=
  match io_thread 1 (launch bodies) k0 fds5 with Ok l => l | _ => mkLoop w0 (Base CRet) [] ∅ end.

Lemma l0_thread : io_thread 1 (launch bodies) k0 fds5 = Ok l0.
Proof. vm_compute. reflexivity. Qed.

(** A clock that is read once per second: the sleep and the timeout end. *)
Definition seconds (n : nat) : Z * Z := (Z.of_nat n, 0).
Definition l30 : @loop kernel :=
  match run_loop seconds 1 30 l0 with Ok l => l | _ => l0 end.

Lemma event_loop_refines_witness :
  lp_trace l30 = [EvExec 2; EvExec 3; EvExec 4; EvExec 5; EvExec 2; EvDo (Some 2) 0; EvExec 3]%nat ∧
  star step (thread_config (launch bodies)) (config_of l30) ∧ safe (config_of l30).
Proof.
  split; [vm_compute; reflexivity|].
  apply (event_loop_refines seconds 1 bodies k0 fds5 l0 l30).
  - apply loop_bodies_managed.
  - apply l0_thread.
  - apply star_lstep_trans, (run_loop_star seconds 1 30). vm_compute. reflexivity.
Defined.
End EventLoopEx.
