(* ===== verification/EventLoopThm.v ===== *)
(** * What a coroutine call gets

    A call that waits on a descriptor, and a coroutine that sleeps, on the machine
    of EventLoop.v: from the moment the scheduler has nothing else to do, through
    [blockPending], the wake-up and the switch back, to the result in the
    coroutine's hands. *)

From S2P Require Import Prelude Timer FdManager Sys Executor Scheduler SchedulerInv SchedulerThm.
From S2P Require Import IOManager IOManagerThm IOThread CoIO CoIOThm EventLoop EventLoopInv.
From stdpp Require Import options.
Set Default Proof Using "Type*".

(** Effects of the IO manager leave existing executors alone. *)
Lemma io_effects_keep b s null c c' e x :
  inv b s c → star (io_effect null) c c' → executors (rt c) !! e = Some x →
  executors (rt c') !! e = Some x.
Proof.
  intros Hi Hs. induction Hs as [c|c c1 c2 He _ IH]; [done|]. intros Hx.
  apply IH; [by eapply io_effect_inv|]. destruct He as [c o _ _|c body p _ Hp|c]; [done| |done].
  injection Hp as <-. simpl. rewrite lookup_insert_ne; [done|].
  intros Hn. pose proof (i_fresh b s c Hi e (mk_is_Some _ _ Hx)). lia.
Qed.

(** Nothing is ready: the loop is about to block. *)
Definition idle (s : Scheduler) : Prop :=
  ready_executors_ s = [] ∧ remote_tasks_ s = [] ∧ stopping_ s = false ∧ stop_pending s = false.

Lemma scheduleAll_none s : remote_tasks_ s = [] → scheduleAll s = s.
Proof. intros Hr. unfold scheduleAll. rewrite Hr. simpl. destruct s; simpl in *. by subst. Qed.

Lemma idle_blocks c : pc c = SchedHead → idle (sch c) → exec_code c = Ok (Block c).
Proof.
  intros Hpc (Hq & Hr & Hs & Hp). unfold exec_code. rewrite Hpc. unfold threadScheduleFunc_head.
  rewrite Hp, scheduleAll_none, Hq by done. rewrite Hs. destruct c; simpl in *. by subst.
Qed.

(** The executor [x] continues at, or starts with, the code [k]. *)
Definition holds (s : eid) (x : Executor) (k : coro) : Prop :=
  (state_ x = HoldUp ∧ context_ x = Some (Swapped s (Run k))) ∨
  (state_ x = Init ∧ callback_ x = Some (Body k)).

(** A single task in the queue is switched to. *)
Lemma head_switches b s c e x k :
  inv b s c → pc c = SchedHead → stop_pending (sch c) = false → remote_tasks_ (sch c) = [] →
  ready_executors_ (sch c) = [Some e] → executors (rt c) !! e = Some x → holds s x k →
  ∃ r', let c' := mkConfig r' (set_ready [] (sch c)) (Run k) (trace c ++ [EvExec e]) in
    exec_code c = Ok (Go c') ∧ inv b s c' ∧ t_cur_executor r' = Some e ∧
    ∀ o, o ≠ s → o ≠ e → executors r' !! o = executors (rt c) !! o.
Proof.
  intros Hi Hpc Hp Hr Hq Hx Hh. pose proof (scheduleAll_none (sch c) Hr) as Hall.
  assert (Hv : valid b s (rt c) e) by (apply (i_queue b s c Hi); rewrite Hq; set_solver).
  assert (Hk : managed (valid b s (rt c)) k ∧ resumes s e (Run k) (rt c)).
  { destruct Hv as (_ & Hb & Hs). pose proof (i_tasks b s c Hi e x Hx Hb Hs) as Ht. unfold task_ok in Ht.
    destruct Hh as [(Hst & Hc)|(Hst & Hc)]; rewrite Hst in Ht.
    - destruct Ht as (k' & Hk' & Hm). rewrite Hc in Hk'. injection Hk' as <-. split; [done|].
      exists x. by rewrite Hst.
    - destruct Ht as (Hsk & k' & Hk' & Hm). rewrite Hc in Hk'. injection Hk' as <-. split; [done|].
      exists x. rewrite Hst. eauto. }
  destruct Hk as (Hk & Hres).
  destruct (switch_to_task b s c e [] k Hi Hpc Hv) as (r' & He & Hi' & Hc & Hoth); [set_solver|done|done|].
  rewrite Hall in Hi'. exists r'. split_and!; [|done|done|done].
  unfold exec_code. rewrite Hpc. unfold threadScheduleFunc_head. rewrite Hp, Hall, Hq.
  cbn [rt]. rewrite (get_Some e _ x Hx). cbn [mbind outcome_bind].
  rewrite bool_decide_true by (destruct Hh as [(-> & _)|(-> & _)]; done). by rewrite He.
Qed.

(** A task that has put another into the queue ends, and the other runs on. *)
Lemma finish_round b s c n e y k :
  inv b s c → pc c = Run CRet → t_cur_executor (rt c) = Some n → stop_pending (sch c) = false →
  remote_tasks_ (sch c) = [] → ready_executors_ (sch c) = [Some e] →
  executors (rt c) !! e = Some y → state_ y = HoldUp → context_ y = Some (Swapped s (Run k)) → e ≠ n →
  ∃ r', let c' := mkConfig r' (set_ready [] (sch c)) (Run k) (trace c ++ [EvExec e]) in
    star dstep c c' ∧ inv b s c' ∧ t_cur_executor r' = Some e.
Proof.
  intros Hi Hpc Hc Hp Hr Hq Hy Hys Hyc Hen. pose proof (i_pc b s c Hi) as Hp2. rewrite Hpc in Hp2.
  destruct Hp2 as (_ & n' & Hn' & Hsw).
  assert (n' = n) as -> by (destruct Hsw as (_ & Hc' & _); congruence).
  destruct (terminal_switched s n (SchedAfter n) (rt c) Hsw) as (r3 & x3 & _ & Ht & _ & _ & _ & _ & Hex);
    [apply not_eq_sym, Hn'|].
  set (c3 := mkConfig r3 (sch c) (SchedAfter n) (trace c)).
  assert (H3 : dstep c c3).
  { unfold dstep, exec_code. rewrite Hpc. unfold executorMainFunc_tail. rewrite Hc. simpl. by rewrite Ht. }
  assert (Hi3 : inv b s c3) by (eapply ustep_inv; [exact Hi|by apply ustep_go]).
  destruct (after_ok b s c3 n Hi3 eq_refl) as (H4 & Hi4). set (c4 := mkConfig _ _ SchedHead _) in H4, Hi4.
  destruct (head_switches b s c4 e y k) as (r5 & H5 & Hi5 & Hc5 & _); try done.
  { simpl. by rewrite Hex, lookup_insert_ne. }
  { by left. }
  exists r5. split; [|by split].
  eapply star_step; [exact H3|]. eapply star_step; [exact H4|]. apply star_one. exact H5.
Qed.

Section Thm.
Context {K : Type} `{EpollLaws K} `{SocketLaws K} `{!IoCalls K}.
Variable tod : nat → Z * Z.
Variable fuel : nat.
Implicit Types l : @loop K.

(** The coroutine [e] is suspended in a call with [kk] left to do with its answer. *)
Record calling b s l (f : io_fun) (fd : Z) (flag : nat) (timer : @Timer callback) (e : eid)
    (kk : answer → coro) : Prop := {
  ca_inv : loop_inv b s l;
  ca_pc : lp_pc l = SchedHead;
  ca_idle : idle (scheduler_ (loop_io l));
  ca_susp : suspended (lp_w l) fd (event_of f) timer flag e;
  ca_code : ∃ x cb, executors (io_rt (loop_io l)) !! e = Some x ∧ state_ x = HoldUp ∧
    context_ x = Some (Swapped s (Run (CIo (IoResume f fd flag) cb kk)));
  ca_frame : ∃ ms, lp_frames l !! flag = Some (timer, ms)
}.

Lemma event_of_type f : is_type (event_of f).
Proof using Type. destruct f; simpl; (by left) || (by right). Qed.

Lemma woken_one ev (x : FdEvents) : is_type ev →
  woken ev x = [if ev =? Read then read_executor x else write_executor x].
Proof using Type. by intros [-> | ->]. Qed.

Lemma refs_once V (io : @IOManager K) : refs V io → all_once io.
Proof using Type.
  intros (Ht & _) fd x (_ & Hx)%at_fd_Some. by destruct (Forall_lookup_1 _ _ _ _ Ht Hx).
Qed.

Lemma loop_inv_head b s l : loop_inv b s l → lp_pc l = SchedHead → inv b s (config_of l).
Proof using Type.
  intros ([(_ & bs & _ & [Hp|(n & Hp & _)])|Hi] & _) Hpc; [..|done]; simpl in Hp; congruence.
Qed.

Lemma loop_step_block l io :
  lp_pc l = SchedHead → idle (scheduler_ (loop_io l)) → blockPending tod fuel (loop_io l) = Ok io →
  lstep tod fuel l (mkLoop (set_io io (lp_w l)) (lp_pc l) (lp_trace l) (lp_frames l)).
Proof using Type.
  intros Hpc Hid Hb. unfold lstep, loop_step.
  rewrite (idle_blocks (config_of l)) by done. cbn [mbind outcome_bind].
  replace (with_config (config_of l) l) with l by by destruct l as [[[] ? ? ?] ? ? ?].
  unfold loop_io in Hb. by rewrite Hb.
Qed.

(** The retry of a resumed call that does not block again. *)
Lemma resume_handle f fd flag timer t ms e cb (w : @world K) fr m r k' :
  io_inv (w_io w) → w_flags w !! flag = Some false → fr !! flag = Some (timer, ms) →
  head (same_deadline timer (timers_ (timer_manager_ (w_io w)))) = Some t →
  interrupted errno m (sys_of f fd) (w_kernel w) = Some (r, k') → (m < fuel)%nat → r ≠ Err EAGAIN →
  ∃ w', io_handle tod fuel e (IoResume f fd flag) cb w fr = Ok (of_sysres r, w', delete flag fr) ∧
    w_flags w' !! flag = None ∧ w_kernel w' = k' ∧ io_rt (w_io w') = io_rt (w_io w) ∧
    fd_events_ (w_io w') = fd_events_ (w_io w) ∧
    scheduler_ (w_io w') = scheduler_ (w_io w) ∧ w_fds w' = w_fds w ∧
    timers_ (timer_manager_ (w_io w)) ≡ₚ t :: timers_ (timer_manager_ (w_io w')).
Proof.
  intros Hi Hfl Hfr Hu Hint Hm Hr. destruct (resume_retries timer flag t w Hi Hfl Hu) as (tm & Hre & Hp).
  unfold io_handle. rewrite Hfr. cbn [of_option mbind outcome_bind fst snd]. rewrite Hre.
  cbn [mbind outcome_bind fst snd]. unfold ioInner_try.
  change (w_kernel (set_io (set_timers tm (w_io w)) _)) with (w_kernel w).
  rewrite (invokeNoIntr_interrupted errno (sys_of f fd) m fuel (w_kernel w) (r, k') Hint Hm).
  cbn [mbind outcome_bind fst snd].
  destruct r as [v|er]; [|rewrite decide_False by congruence];
    (eexists; split; [reflexivity|]; split_and!; try done; apply lookup_delete_eq).
Qed.

(** Steps of the scheduler's machine that are no calls are steps of the loop. *)
Lemma lift_dsteps l c' : star dstep (config_of l) c' → star (lstep tod fuel) l (with_config c' l).
Proof using Type.
  intros Hs. remember (config_of l) as c eqn:Hc. revert l Hc. induction Hs as [c|c c1 c2 Hd _ IH]; intros l ->.
  - replace (with_config (config_of l) l) with l by by destruct l as [[[] ? ? ?] ? ? ?]. apply star_refl.
  - eapply (star_step _ _ (with_config c1 l)).
    + unfold lstep, loop_step. unfold dstep in Hd. by rewrite Hd.
    + replace (with_config c2 l) with (with_config c2 (with_config c1 l)) by done. apply IH. by destruct c1.
Qed.

(** The event reaches the suspended coroutine: two steps later it runs again. *)
Lemma call_wakes b s l f fd flag timer e kk n k1 :
  calling b s l f fd flag timer e kk →
  let io := loop_io l in
  let iv := getNextInterval tod (timer_manager_ io) in
  interrupted wait_errno n (epoll_wait (epoll_fd_ io) epoll_wait_max_size (i32 iv.1)) (kernel_ io)
    = Some (inl [mkEvent fd (event_of f)], k1) → (n < fuel)%nat →
  filter (λ t, target_timestamp t <= clock tod (ticks iv.2)) (timers_ (timer_manager_ io)) = [] →
  ∃ io1 l2 cb, star (lstep tod fuel) l l2 ∧ blockPending tod fuel io = Ok io1 ∧ loop_inv b s l2 ∧
    lp_pc l2 = Run (CIo (IoResume f fd flag) cb kk) ∧ t_cur_executor (io_rt (loop_io l2)) = Some e ∧
    io_inv (loop_io l2) ∧ kernel_ (loop_io l2) = kernel_ io1 ∧
    timer_manager_ (loop_io l2) = (takeExpiredTimers tod iv.2).2 ∧
    has (registered_events (entry (loop_io l2) fd)) (event_of f) = false ∧
    w_flags (lp_w l2) = w_flags (lp_w l) ∧ lp_frames l2 = lp_frames l ∧
    w_fds (lp_w l2) = w_fds (lp_w l) ∧ idle (scheduler_ (loop_io l2)).
Proof.
  intros [Hinv Hpc Hid Hsu (x & cb & Hx & Hst & Hctx) _] io iv Hint Hn Hexp.
  pose proof (loop_inv_head b s l Hinv Hpc) as Hi. pose proof (event_of_type f) as Hty.
  destruct (event_wakes tod fuel n [mkEvent fd (event_of f)] k1 (lp_w l) fd (event_of f) timer flag e
              (mkEvent fd (event_of f))) as (io1 & Hb & Hi1 & Htm1 & (es & Hsch & Hte) & _ & Hreg); try done.
  { eapply refs_once, (proj2 Hinv). }
  { apply Hid. }
  { intros o Ho. by apply (i_fresh b s _ Hi). }
  { intros e' ->%list_elem_of_singleton Hne Hf. simpl in *. congruence. }
  { simpl. apply NoDup_singleton. }
  { set_solver. }
  { simpl. destruct Hty as [-> | ->]; done. }
  fold (loop_io l) io in Hb, Hsch, Hte, Htm1. fold iv in Hte, Htm1. rewrite Hexp in Hte.
  apply Forall2_nil_inv_l in Hte. subst es. simpl in Hsch.
  destruct (su_entry _ _ _ _ _ _ Hsu) as (_ & _ & Hexe).
  unfold woken_of in Hsch. rewrite decide_False in Hsch by apply Hsu. cbn [data_fd events] in Hsch.
  rewrite woken_one in Hsch by done. fold (loop_io l) io in Hexe. rewrite Hexe in Hsch.
  set (l1 := mkLoop (set_io io1 (lp_w l)) (lp_pc l) (lp_trace l) (lp_frames l)).
  assert (Hs1 : lstep tod fuel l l1) by by apply loop_step_block.
  destruct (own_refines tod fuel b s l l1 Hinv Hs1) as (_ & Hinv1).
  destruct (blockPending_moves b s (lp_pc l) (lp_trace l) fuel tod io io1 Hb (conj Hi (proj2 Hinv))) as (Heff & _).
  destruct Hid as (Hq & Hrm & Hstp & Hpend).
  destruct (head_switches b s (config_of l1) e x (CIo (IoResume f fd flag) cb kk)) as (r' & Hsw & Hi2 & Hcur & _);
    try done; simpl; rewrite ?Hsch; simpl; try done.
  { by apply loop_inv_head. }
  { unfold io. by rewrite Hq. }
  { by eapply (io_effects_keep b s true _ _ e x Hi Heff). }
  { by left. }
  set (c2 := mkConfig r' _ _ _) in Hsw, Hi2. set (l2 := with_config c2 l1).
  assert (Hs2 : lstep tod fuel l1 l2) by (unfold lstep, loop_step; by rewrite Hsw).
  destruct (own_refines tod fuel b s l1 l2 Hinv1 Hs2) as (_ & Hinv2).
  exists io1, l2, cb. split_and!; try done.
  - eapply star_step, star_one; [exact Hs1|exact Hs2].
  - destruct Hi1 as [I1 I2 I3 I4 I5]. by constructor.
  - unfold idle, loop_io. simpl. by rewrite Hsch.
Qed.

(** Only one timer is due and nothing is reported: its code runs next, in a new
    executor; everything else is as before. *)
Lemma timer_fires b s l timer k n k1 :
  loop_inv b s l → lp_pc l = SchedHead →
  let io := loop_io l in
  let iv := getNextInterval tod (timer_manager_ io) in
  idle (scheduler_ io) → io_inv io →
  filter (λ t, target_timestamp t <= clock tod (ticks iv.2)) (timers_ (timer_manager_ io)) = [timer] →
  Timer.callback timer = Some (Body k) →
  interrupted wait_errno n (epoll_wait (epoll_fd_ io) epoll_wait_max_size (i32 iv.1)) (kernel_ io)
    = Some (inl [], k1) → (n < fuel)%nat →
  ∃ l' m, star (lstep tod fuel) l l' ∧ loop_inv b s l' ∧ inv b s (config_of l') ∧ lp_pc l' = Run k ∧
    t_cur_executor (io_rt (loop_io l')) = Some m ∧ lp_trace l' = lp_trace l ++ [EvExec m] ∧
    idle (scheduler_ (loop_io l')) ∧ io_inv (loop_io l') ∧
    wakeup_pipe_fd_ (loop_io l') = wakeup_pipe_fd_ io ∧
    (∀ fd, at_fd (fd_events_ (loop_io l')) fd = at_fd (fd_events_ io) fd) ∧
    w_flags (lp_w l') = w_flags (lp_w l) ∧ lp_frames l' = lp_frames l ∧
    ∀ e y, executors (io_rt io) !! e = Some y → e ≠ s → state_ y ≠ Init →
      e ≠ m ∧ executors (io_rt (loop_io l')) !! e = Some y.
Proof.
  intros Hinv Hpc io iv Hid Hio Hdue Hcb Hint Hn.
  pose proof (loop_inv_head b s l Hinv Hpc) as Hi.
  destruct (blockPending_run tod fuel n [] k1 io Hio) as (io1 & es & Hb & Hi1 & _ & Hte & Hsch & Hat & _ & Hwk & _); try done.
  { eapply refs_once, (proj2 Hinv). }
  { apply Hid. }
  { intros o Ho. by apply (i_fresh b s _ Hi). }
  { set_solver. }
  fold iv in Hte. rewrite Hdue in Hte. apply Forall2_cons_inv_l in Hte as (m & es' & (x & Hx & Hxs & Hxc & _) & Hte & ->).
  apply Forall2_nil_inv_l in Hte as ->. rewrite Hcb in Hxc.
  set (l1 := mkLoop (set_io io1 (lp_w l)) (lp_pc l) (lp_trace l) (lp_frames l)).
  assert (Hs1 : lstep tod fuel l l1) by by apply loop_step_block.
  destruct (own_refines tod fuel b s l l1 Hinv Hs1) as (_ & Hinv1).
  destruct (blockPending_moves b s (lp_pc l) (lp_trace l) fuel tod io io1 Hb (conj Hi (proj2 Hinv))) as (Heff & _).
  destruct Hid as (Hq & Hrm & Hstp & Hpend).
  destruct (head_switches b s (config_of l1) m x k) as (r' & Hsw & Hi2 & Hcur & Hoth);
    try done; simpl; rewrite ?Hsch; simpl; try done.
  { by apply loop_inv_head. }
  { by rewrite Hq. }
  { by right. }
  set (c2 := mkConfig r' _ _ _) in Hsw, Hi2. set (l2 := with_config c2 l1).
  assert (Hs2 : lstep tod fuel l1 l2) by (unfold lstep, loop_step; by rewrite Hsw).
  destruct (own_refines tod fuel b s l1 l2 Hinv1 Hs2) as (_ & Hinv2).
  exists l2, m. split_and!; try done.
  - eapply star_step, star_one; [exact Hs1|exact Hs2].
  - unfold idle, loop_io. simpl. by rewrite Hsch.
  - destruct Hi1 as [I1 I2 I3 I4 I5]. by constructor.
  - intros e y Hy Hes Hyi. pose proof (io_effects_keep b s true _ _ e y Hi Heff Hy) as Hy1. simpl in Hy1.
    assert (Hem : e ≠ m) by (intros ->; rewrite Hx in Hy1; injection Hy1 as ->; congruence).
    split; [done|]. unfold loop_io. simpl. by rewrite Hoth.
Qed.

Lemma loop_inv_run b s l k : loop_inv b s l → lp_pc l = Run k → inv b s (config_of l).
Proof using Type.
  intros ([(_ & bs & _ & [Hp|(n & Hp & _)])|Hi] & _) Hpc; [..|done]; simpl in Hp; congruence.
Qed.

(** The coroutine of a suspended call is a task. *)
Lemma calling_task b s l f fd flag timer e kk :
  calling b s l f fd flag timer e kk → valid b s (io_rt (loop_io l)) e.
Proof using Type.
  intros Hca. destruct (su_entry _ _ _ _ _ _ (ca_susp _ _ _ _ _ _ _ _ _ Hca)) as ([x Hx] & _ & He).
  unfold entry in He. rewrite Hx in He. pose proof Hx as (_ & Hl)%at_fd_Some.
  destruct (ca_inv _ _ _ _ _ _ _ _ _ Hca) as (_ & Ht & _).
  destruct (Forall_lookup_1 _ _ _ _ Ht Hl) as (_ & Hr & Hw). destruct (_ =? _); auto.
Qed.

(** A call of the task [e] is one step. *)
Lemma task_call_step e l op cb kk a w' fr' :
  lp_pc l = Run (CIo op cb kk) → t_cur_executor (io_rt (loop_io l)) = Some e →
  io_handle tod fuel e op (λ n, Body (cb e n)) (lp_w l) (lp_frames l) = Ok (a, w', fr') →
  lstep tod fuel l (mkLoop w' (Run (kk a)) (lp_trace l) fr').
Proof using Type.
  intros Hpc Hcur Hh. unfold lstep, loop_step, exec_code. cbn [config_of pc]. rewrite Hpc.
  cbn [run_coro mbind outcome_bind]. unfold getCurrent. fold (loop_io l). rewrite Hcur.
  replace (set_io (set_rt (io_rt (loop_io l)) (loop_io l)) (lp_w l)) with (lp_w l)
    by (by destruct l as [[[] ? ? ?] ? ? ?]). by rewrite Hh.
Qed.

(** Suspension does not depend on executors and scheduler. *)
Lemma suspended_store r sc w fd ev timer flag e :
  suspended w fd ev timer flag e → suspended (store r sc w) fd ev timer flag e.
Proof using Type. intros [[I1 I2 I3 I4 I5] S2 S3 S4 S5 S6]. by constructor. Qed.

(** A task that yields: the loop is reached again, with the task suspended. *)
Lemma yields_to_head b s l e kr :
  loop_inv b s l → lp_pc l = Run (CYield kr) → t_cur_executor (io_rt (loop_io l)) = Some e →
  ∃ r, let c' := mkConfig r (scheduler_ (loop_io l)) SchedHead (lp_trace l) in
    star (lstep tod fuel) l (with_config c' l) ∧ loop_inv b s (with_config c' l) ∧ e ≠ s ∧
    ∃ x, executors r !! e = Some x ∧ state_ x = HoldUp ∧ context_ x = Some (Swapped s (Run kr)).
Proof using Type.
  intros Hinv Hpc Hcur. pose proof (loop_inv_run b s l _ Hinv Hpc) as Hi.
  pose proof (i_pc b s _ Hi) as Hp. simpl in Hp. rewrite Hpc in Hp. destruct Hp as (_ & e' & He' & Hsw).
  pose proof Hsw as (_ & Hc1 & _). assert (e' = e) as -> by (simpl in Hc1; unfold loop_io in Hcur; congruence).
  destruct (yield_switched s e (SchedAfter e) (Run kr) (rt (config_of l)) Hsw) as (r2 & x & _ & Hy & _ & _ & _ & _ & Hex2);
    [apply not_eq_sym, He'|].
  set (c2 := mkConfig r2 (sch (config_of l)) (SchedAfter e) (lp_trace l)).
  assert (Hd1 : dstep (config_of l) c2).
  { unfold dstep, exec_code. change (pc (config_of l)) with (lp_pc l). rewrite Hpc. unfold run_coro, getCurrent.
    change (rt (config_of l)) with (io_rt (w_io (lp_w l))) in *. rewrite Hc1, Hy. done. }
  assert (Hi2 : inv b s c2) by (eapply ustep_inv; [exact Hi|by apply ustep_go]).
  destruct (after_ok b s c2 e Hi2 eq_refl) as (Hd2 & Hi3). set (c3 := mkConfig _ _ SchedHead _) in Hd2, Hi3.
  assert (Hs2 : star (lstep tod fuel) l (with_config c3 l)).
  { apply lift_dsteps. eapply star_step; [exact Hd1|by apply star_one]. }
  exists r2. split; [exact Hs2|]. split; [apply (loop_refines tod fuel b s l); [done|by apply star_lstep_trans]|].
  split; [apply He'|]. eexists. rewrite Hex2, lookup_insert_eq. by split_and!.
Qed.

(** A call that would block: the loop is reached again, with the coroutine
    suspended in the call and its timer armed. *)
Lemma call_suspends b s l f fd n k e ms m k' :
  loop_inv b s l → lp_pc l = Run (ioInner_code (S n) f fd k) →
  t_cur_executor (io_rt (loop_io l)) = Some e → idle (scheduler_ (loop_io l)) →
  io_inv (loop_io l) → stopped (loop_io l) = false → 2 <= fd < 2 ^ 31 →
  fd ≠ (wakeup_pipe_fd_ (loop_io l)).1 → pollable (w_kernel (lp_w l)) fd = true →
  (∀ k ep g, interest (sys_of f fd k).2 ep g = interest k ep g) →
  (∀ k g, pollable (sys_of f fd k).2 g = pollable k g) →
  ioInner_timeout fd (event_of f) (lp_w l) = Ok (Some ms) →
  interrupted errno m (sys_of f fd) (w_kernel (lp_w l)) = Some (Err EAGAIN, k') → (m < fuel)%nat →
  ∃ l' flag timer, star (lstep tod fuel) l l' ∧
    calling b s l' f fd flag timer e (ioInner_loop n f fd k) ∧
    Timer.callback timer = Some (Body (timeout_code f fd e flag)) ∧
    target_timestamp timer = Timer_target (clock tod (ticks (timer_manager_ (loop_io l)))) ms.
Proof.
  intros Hinv Hpc Hcur Hid Hio Hst Hfd Hw Hp Hfi Hfp Ht Hint Hm.
  destruct (ioInner_suspend_ok tod fuel m fd (event_of f) ms (sys_of f fd) e (λ n, Body (timeout_code f fd e n))
    (lp_w l) (Err EAGAIN) k') as (Hs & _); try done; [apply event_of_type|].
  destruct (Hs eq_refl) as (timer & flag & w1 & Htry & Hsu & Htt & Hcb).
  destruct (ioInner_try_quiet fuel tod e (timeout_code f fd e) (λ _, True) fd (event_of f) ms (sys_of f fd) (lp_w l) _ I
              (λ _, conj I (conj (λ _ _, I) (λ _, I))) Htry) as [Hrt Hsch _]. simpl in Hrt, Hsch.
  set (l1 := mkLoop w1 (Run (ioInner_loop (S n) f fd k (Waiting flag))) (lp_trace l) (<[flag := (timer, ms)]> (lp_frames l))).
  assert (Hs1 : lstep tod fuel l l1).
  { apply (task_call_step e l (IoInvoke f fd) (timeout_code f fd) (ioInner_loop (S n) f fd k) (Waiting flag));
      [exact Hpc|exact Hcur|].
    unfold io_handle, ioInner. rewrite Ht. cbn [mbind outcome_bind]. by rewrite Htry. }
  destruct (own_refines tod fuel b s l l1 Hinv Hs1) as (_ & Hinv1).
  destruct (yields_to_head b s l1 e (CIo (IoResume f fd flag) (timeout_code f fd) (ioInner_loop n f fd k)) Hinv1 eq_refl)
    as (r2 & Hs2 & Hinv2 & _ & x & Hx & Hxs & Hxc); [unfold loop_io; simpl; by rewrite Hrt|].
  exists (with_config (mkConfig r2 (scheduler_ (loop_io l1)) SchedHead (lp_trace l1)) l1), flag, timer.
  split; [by eapply star_step|]. split; [|by split]. constructor.
  - done.
  - done.
  - unfold idle, loop_io. simpl. rewrite Hsch. exact Hid.
  - by apply suspended_store.
  - by exists x, (timeout_code f fd).
  - exists ms. simpl. apply lookup_insert_eq.
Qed.

(** Being suspended depends on little of the state; the timer may have fired. *)
Record waiting_call (w : @world K) (fd ev : Z) (flag : nat) : Prop := {
  wc_inv : io_inv (w_io w);
  wc_fd : fd ≠ (wakeup_pipe_fd_ (w_io w)).1;
  wc_range : fd < 2 ^ 31;
  wc_flag : w_flags w !! flag = Some false;
  wc_entry : ∃ x, at_fd (fd_events_ (w_io w)) fd = Some x ∧ has (registered_events x) ev = true
}.

Lemma suspended_keep w w' fd ev timer flag e :
  suspended w fd ev timer flag e → io_inv (w_io w') →
  wakeup_pipe_fd_ (w_io w') = wakeup_pipe_fd_ (w_io w) →
  (∀ fd, at_fd (fd_events_ (w_io w')) fd = at_fd (fd_events_ (w_io w)) fd) → w_flags w' = w_flags w →
  waiting_call w' fd ev flag.
Proof using Type.
  intros [_ S2 S3 S4 _ ([x Hx] & Hreg & _)] Hio Hw Hat Hfl. unfold entry in Hreg. rewrite Hx in Hreg.
  constructor; [done|by rewrite Hw|lia|by rewrite Hfl|]. exists x. by rewrite Hat.
Qed.

(** What the callback of the timer does. *)
Lemma timeout_handle f fd flag e m cb l :
  waiting_call (lp_w l) fd (event_of f) flag → stopping_ (scheduler_ (loop_io l)) = false → (0 < fuel)%nat →
  ∃ w', io_handle tod fuel m (IoTimeout fd (event_of f) flag e) cb (lp_w l) (lp_frames l) =
      Ok (Answer 0 0, w', lp_frames l) ∧
    io_rt (w_io w') = io_rt (loop_io l) ∧
    scheduler_ (w_io w') = set_ready (ready_executors_ (scheduler_ (loop_io l)) ++ [Some e]) (scheduler_ (loop_io l)) ∧
    w_flags w' !! flag = Some true ∧
    read_executor (entry (w_io w') fd) = None ∧ write_executor (entry (w_io w') fd) = None.
Proof.
  intros [W1 W2 W3 W4 (x & Hx & Hreg)] Hst Hf.
  destruct (removeEvent_forgets_all fuel fd (event_of f) (loop_io l) x) as (io' & Hr & _ & Hent & _ & Hsch);
    try done; [apply event_of_type|].
  pose proof (q_rt _ _ _ (removeEvent_quiet (λ _, True) fuel _ _ _ _ Hr)) as Hrt.
  unfold io_handle, io_timeout. rewrite W4. fold (loop_io l). rewrite Hr. cbn [mbind outcome_bind].
  cbn [w_io set_io set_flags]. rewrite Hsch. unfold addExecutor. rewrite Hst. cbn [snd].
  eexists. split; [reflexivity|]. cbn [w_io set_io set_flags w_flags]. unfold entry in *. simpl.
  rewrite Hrt. split_and!; try done; [apply lookup_insert_eq|by rewrite Hent..].
Qed.

(** While no timer is due, all of them stay. *)
Lemma none_due_keeps (m : @TimerManager callback) t :
  timers_sorted m →
  let iv := getNextInterval tod m in
  filter (λ t, target_timestamp t <= clock tod (ticks iv.2)) (timers_ m) = [] →
  t ∈ timers_ m → t ∈ timers_ (takeExpiredTimers tod iv.2).2.
Proof using Type.
  intros Hs iv Hnone Ht. assert (Hm : timers_ iv.2 = timers_ m) by
    (unfold iv, getNextInterval, currentMs; destruct (timers_ m) eqn:E; [done|]; by destruct (_ <? _)).
  destruct (takeExpired_run tod iv.2) as (Hr & _ & _ & fresh & Hp & Hf); [unfold timers_sorted; by rewrite Hm|].
  rewrite Hm in Hr, Hp. rewrite Hnone in Hr. rewrite Hr in Hf. apply Forall2_nil_inv_l in Hf. subst fresh.
  rewrite Hp, app_nil_r. apply list_elem_of_filter. split; [|done].
  destruct (decide (target_timestamp t <= clock tod (ticks iv.2))) as [Hle|]; [|lia].
  assert (Hin : t ∈ filter (λ t, target_timestamp t <= clock tod (ticks iv.2)) (timers_ m)) by by apply list_elem_of_filter.
  rewrite Hnone in Hin. by apply elem_of_nil in Hin.
Qed.

(** The event comes and the repeated system call answers. *)
Lemma waited_call_returns b s l f fd flag timer e kk n k1 m r k' :
  calling b s l f fd flag timer e kk →
  let io := loop_io l in
  let iv := getNextInterval tod (timer_manager_ io) in
  let tm := (takeExpiredTimers tod iv.2).2 in
  interrupted wait_errno n (epoll_wait (epoll_fd_ io) epoll_wait_max_size (i32 iv.1)) (kernel_ io)
    = Some (inl [mkEvent fd (event_of f)], k1) → (n < fuel)%nat →
  filter (λ t, target_timestamp t <= clock tod (ticks iv.2)) (timers_ (timer_manager_ io)) = [] →
  (∀ io', blockPending tod fuel io = Ok io' →
     interrupted errno m (sys_of f fd) (kernel_ io') = Some (r, k')) →
  (m < fuel)%nat → r ≠ Err EAGAIN →
  ∃ l', star (lstep tod fuel) l l' ∧ lp_pc l' = Run (kk (of_sysres r)) ∧
    t_cur_executor (io_rt (loop_io l')) = Some e ∧ loop_inv b s l' ∧ w_kernel (lp_w l') = k' ∧
    w_fds (lp_w l') = w_fds (lp_w l) ∧ idle (scheduler_ (loop_io l')) ∧
    w_flags (lp_w l') !! flag = None ∧ lp_frames l' !! flag = None ∧
    (∃ t, head (same_deadline timer (timers_ tm)) = Some t ∧
       timers_ tm ≡ₚ t :: timers_ (timer_manager_ (loop_io l'))) ∧
    has (registered_events (entry (loop_io l') fd)) (event_of f) = false.
Proof.
  intros Hca io iv tm Hint Hn Hexp Hret Hm Hr.
  destruct (call_wakes b s l f fd flag timer e kk n k1 Hca Hint Hn Hexp)
    as (io1 & l2 & cb & Hs & Hb & Hinv2 & Hpc2 & Hcur & Hi2 & Hk2 & Htm2 & Hreg & Hfl2 & Hfr2 & Hfd2 & Hid2).
  destruct (ca_frame _ _ _ _ _ _ _ _ _ Hca) as (ms & Hfr).
  assert (Hin : timer ∈ timers_ tm).
  { apply none_due_keeps; [apply (su_inv _ _ _ _ _ _ (ca_susp _ _ _ _ _ _ _ _ _ Hca))|done|].
    apply (su_timer _ _ _ _ _ _ (ca_susp _ _ _ _ _ _ _ _ _ Hca)). }
  destruct (same_deadline_first _ _ Hin) as (t & Ht).
  destruct (resume_handle f fd flag timer t ms e (λ n, Body (cb e n)) (lp_w l2) (lp_frames l2) m r k')
    as (w3 & Hh & Hfl3 & Hk3 & Hrt3 & Hev3 & Hsch3 & Hfd3 & Hp3); try done.
  { rewrite Hfl2. apply Hca. }
  { by rewrite Hfr2. }
  { fold (loop_io l2). by rewrite Htm2. }
  { unfold w_kernel. fold (loop_io l2). rewrite Hk2. exact (Hret io1 Hb). }
  set (l3 := mkLoop w3 (Run (kk (of_sysres r))) (lp_trace l2) (delete flag (lp_frames l2))).
  assert (Hs3 : lstep tod fuel l2 l3) by exact (task_call_step e l2 _ cb kk _ _ _ Hpc2 Hcur Hh).
  destruct (own_refines tod fuel b s l2 l3 Hinv2 Hs3) as (_ & Hinv3).
  exists l3. split_and!; try done.
  - eapply star_trans; [exact Hs|by apply star_one].
  - unfold loop_io; simpl. by rewrite Hrt3.
  - simpl. by rewrite Hfd3.
  - unfold loop_io. simpl. by rewrite Hsch3.
  - simpl. apply lookup_delete_eq.
  - exists t. split; [done|]. fold (loop_io l2) in Hp3. by rewrite Htm2 in Hp3.
  - unfold entry, loop_io in *. simpl. by rewrite Hev3.
Qed.

(** [sleepInner] arms a timer and suspends its caller. *)
Lemma sleep_suspends b s l e ms k :
  loop_inv b s l → lp_pc l = Run (sleep_code ms k) → t_cur_executor (io_rt (loop_io l)) = Some e →
  idle (scheduler_ (loop_io l)) → io_inv (loop_io l) → stopped (loop_io l) = false →
  let tm := timer_manager_ (loop_io l) in
  let timer := mkTimer (next_addr tm) false (Timer_target (clock tod (ticks tm)) ms) ms (Some (Body (CAdd e (λ _, CRet)))) in
  ∃ l1 y, star (lstep tod fuel) l l1 ∧ loop_inv b s l1 ∧ lp_pc l1 = SchedHead ∧ idle (scheduler_ (loop_io l1)) ∧
    io_inv (loop_io l1) ∧ epoll_fd_ (loop_io l1) = epoll_fd_ (loop_io l) ∧ kernel_ (loop_io l1) = kernel_ (loop_io l) ∧
    timer_manager_ (loop_io l1) = mkManager (ms_insert timer (timers_ tm)) (S (ticks tm)) (S (next_addr tm)) ∧
    lp_trace l1 = lp_trace l ∧ e ≠ s ∧
    executors (io_rt (loop_io l1)) !! e = Some y ∧ state_ y = HoldUp ∧ context_ y = Some (Swapped s (Run k)).
Proof.
  intros Hinv Hpc Hcur Hid Hio Hst tm timer.
  set (io0 := set_timers (mkManager (timers_ tm) (S (ticks tm)) (S (next_addr tm))) (loop_io l)).
  assert (Hio0 : io_inv io0) by (destruct Hio as [I1 I2 I3 I4 I5]; by constructor).
  destruct (registerTimer_ok timer (Body (CAdd e (λ _, CRet))) io0 Hio0 Hst eq_refl) as (io1 & Hreg & Hio1 & _ & Heq).
  set (l1 := mkLoop (set_io io1 (lp_w l)) (Run (CYield k)) (lp_trace l) (lp_frames l)).
  assert (Hs1 : lstep tod fuel l l1).
  { apply (task_call_step e l (IoSleep ms) (λ current _, CAdd current (λ _, CRet)) (λ _, CYield k) (Waiting 0)); [done|done|].
    unfold io_handle, sleepInner, make_Timer, currentMs. fold (loop_io l) tm. cbn [mbind outcome_bind timers_ ticks next_addr].
    fold timer io0. rewrite Hreg. done. }
  destruct (own_refines tod fuel b s l l1 Hinv Hs1) as (_ & Hinv1).
  destruct (yields_to_head b s l1 e k Hinv1 eq_refl) as (r & Hs2 & Hinv2 & Hes & y & Hy & Hys & Hyc);
    [unfold loop_io; simpl; by rewrite Heq|].
  exists (with_config (mkConfig r (scheduler_ (loop_io l1)) SchedHead (lp_trace l1)) l1), y.
  unfold loop_io in *. simpl in *. rewrite Heq in *. split_and!; try done; [by eapply star_step|].
  destruct Hio1 as [I1 I2 I3 I4 I5]. by constructor.
Qed.

(** A sleeping coroutine whose timer is the only one due is resumed. *)
Lemma sleeper_wakes b s l e y k timer n k1 :
  loop_inv b s l → lp_pc l = SchedHead →
  let io := loop_io l in
  let iv := getNextInterval tod (timer_manager_ io) in
  idle (scheduler_ io) → io_inv io →
  executors (io_rt io) !! e = Some y → state_ y = HoldUp → context_ y = Some (Swapped s (Run k)) → e ≠ s →
  filter (λ t, target_timestamp t <= clock tod (ticks iv.2)) (timers_ (timer_manager_ io)) = [timer] →
  Timer.callback timer = Some (Body (CAdd e (λ _, CRet))) →
  interrupted wait_errno n (epoll_wait (epoll_fd_ io) epoll_wait_max_size (i32 iv.1)) (kernel_ io)
    = Some (inl [], k1) → (n < fuel)%nat →
  ∃ l' m, star (lstep tod fuel) l l' ∧ lp_pc l' = Run k ∧ t_cur_executor (io_rt (loop_io l')) = Some e ∧
    loop_inv b s l' ∧ ready_executors_ (scheduler_ (loop_io l')) = [] ∧
    lp_trace l' = lp_trace l ++ [EvExec m; EvExec e].
Proof.
  intros Hinv Hpc io iv Hid Hio Hy Hys Hyc Hes Hdue Hcb Hint Hn.
  destruct (timer_fires b s l timer _ n k1 Hinv Hpc Hid Hio Hdue Hcb Hint Hn)
    as (l1 & m & Hs1 & Hinv1 & Hi1 & Hpc1 & Hc1 & Htr1 & (Hq1 & Hr1 & Hst1 & Hp1) & _ & _ & _ & _ & _ & Hkeep).
  destruct (Hkeep e y Hy Hes) as (Hem & Hy1); [congruence|].
  set (c2 := mkConfig (rt (config_of l1)) (set_ready [Some e] (sch (config_of l1))) (Run CRet) (trace (config_of l1))).
  assert (Hd2 : dstep (config_of l1) c2).
  { unfold dstep, exec_code. cbn [config_of pc]. rewrite Hpc1. simpl. fold (loop_io l1). rewrite (get_Some e _ y Hy1).
    simpl. unfold addExecutor. by rewrite Hst1, Hq1. }
  assert (Hi2 : inv b s c2) by (eapply ustep_inv; [exact Hi1|by apply ustep_go]).
  destruct (finish_round b s c2 m e y k) as (r' & Hs2 & Hi3 & Hc3); try done.
  set (c3 := mkConfig r' _ _ _) in Hs2, Hi3.
  assert (Hs3 : star (lstep tod fuel) l1 (with_config c3 l1)) by (apply lift_dsteps; by eapply star_step).
  exists (with_config c3 l1), m. split_and!; try done.
  - by eapply star_trans.
  - apply (loop_refines tod fuel b s l1); [done|]. by apply star_lstep_trans.
  - simpl. by rewrite Htr1, <- app_assoc.
Qed.

(** ** Properties *)

(** C7: a call that had to wait gets its result: when nothing else is ready and
    epoll reports just the event the call waits for, while no timer is due, the
    loop goes through [blockPending], the queue and the switch back into the
    coroutine, which then holds the answer of the repeated system call (after any
    number of interruptions); the call's flag and frame are gone, its event is
    unregistered, and one timer has been cancelled: the first of those with the
    call's deadline, which is its own when it is the only one. *)
Theorem call_completes b s l f fd flag timer e kk n k1 m r k' :
  calling b s l f fd flag timer e kk →
  let io := loop_io l in
  let iv := getNextInterval tod (timer_manager_ io) in
  let tm := (takeExpiredTimers tod iv.2).2 in
  interrupted wait_errno n (epoll_wait (epoll_fd_ io) epoll_wait_max_size (i32 iv.1)) (kernel_ io)
    = Some (inl [mkEvent fd (event_of f)], k1) → (n < fuel)%nat →
  filter (λ t, target_timestamp t <= clock tod (ticks iv.2)) (timers_ (timer_manager_ io)) = [] →
  (∀ io', blockPending tod fuel io = Ok io' →
     interrupted errno m (sys_of f fd) (kernel_ io') = Some (r, k')) →
  (m < fuel)%nat → r ≠ Err EAGAIN →
  ∃ l', star (lstep tod fuel) l l' ∧ lp_pc l' = Run (kk (of_sysres r)) ∧
    t_cur_executor (io_rt (loop_io l')) = Some e ∧ loop_inv b s l' ∧ w_kernel (lp_w l') = k' ∧
    w_flags (lp_w l') !! flag = None ∧ lp_frames l' !! flag = None ∧
    (∃ t, head (same_deadline timer (timers_ tm)) = Some t ∧
       timers_ tm ≡ₚ t :: timers_ (timer_manager_ (loop_io l'))) ∧
    has (registered_events (entry (loop_io l') fd)) (event_of f) = false.
Proof.
  intros Hca io iv tm Hint Hn Hexp Hret Hm Hr.
  destruct (waited_call_returns b s l f fd flag timer e kk n k1 m r k' Hca Hint Hn Hexp Hret Hm Hr)
    as (l' & ? & ? & ? & ? & ? & _ & _ & ? & ? & ? & ?).
  by exists l'.
Qed.

(** C8: a call whose event does not come gets its timeout: when nothing else is
    ready, epoll reports nothing and the only timer that is due is the one of the
    call, the loop runs the timer's callback in a new executor, which gives the
    descriptor up, marks the call and queues the coroutine; the coroutine goes on
    with the result -1, and nobody waits for the descriptor any more. *)
Theorem call_times_out b s l f fd flag timer e kk n k1 :
  calling b s l f fd flag timer e kk →
  let io := loop_io l in
  let iv := getNextInterval tod (timer_manager_ io) in
  Timer.callback timer = Some (Body (timeout_code f fd e flag)) →
  filter (λ t, target_timestamp t <= clock tod (ticks iv.2)) (timers_ (timer_manager_ io)) = [timer] →
  interrupted wait_errno n (epoll_wait (epoll_fd_ io) epoll_wait_max_size (i32 iv.1)) (kernel_ io)
    = Some (inl [], k1) → (n < fuel)%nat →
  ∃ l' m, star (lstep tod fuel) l l' ∧ lp_pc l' = Run (kk (Answer (-1) 0)) ∧
    t_cur_executor (io_rt (loop_io l')) = Some e ∧ loop_inv b s l' ∧
    lp_trace l' = lp_trace l ++ [EvExec m; EvExec e] ∧
    w_flags (lp_w l') !! flag = None ∧ lp_frames l' !! flag = None ∧
    read_executor (entry (loop_io l') fd) = None ∧ write_executor (entry (loop_io l') fd) = None.
Proof.
  intros Hca io iv Hcb Hdue Hint Hn. pose proof Hca as [Hinv Hpc Hid Hsu (x & cb & Hx & Hst & Hctx) (ms & Hfr)].
  destruct (calling_task _ _ _ _ _ _ _ _ _ Hca) as (_ & _ & Hes).
  destruct (timer_fires b s l timer _ n k1 Hinv Hpc Hid (su_inv _ _ _ _ _ _ Hsu) Hdue Hcb Hint Hn)
    as (l1 & m & Hs1 & Hinv1 & Hi1 & Hpc1 & Hc1 & Htr1 & Hid1 & Hio1 & Hwk & Hat & Hfl1 & Hfr1 & Hkeep).
  destruct (Hkeep e x Hx Hes) as (Hem & Hx1); [congruence|].
  destruct (timeout_handle f fd flag e m (λ n, Body (no_callback m n)) l1) as (w2 & Hh & Hrt2 & Hsch2 & Hfl2 & He1 & He2).
  { by eapply (suspended_keep (lp_w l)). }
  { apply Hid1. }
  { lia. }
  set (l2 := mkLoop w2 (Run CRet) (lp_trace l1) (lp_frames l1)).
  assert (Hs2 : lstep tod fuel l1 l2) by exact (task_call_step m l1 _ _ (λ _, CRet) _ _ _ Hpc1 Hc1 Hh).
  destruct (own_refines tod fuel b s l1 l2 Hinv1 Hs2) as (_ & Hinv2).
  destruct Hid1 as (Hq1 & Hr1 & Hst1 & Hp1).
  destruct (finish_round b s (config_of l2) m e x (CIo (IoResume f fd flag) cb kk)) as (r3 & Hs3 & Hi3 & Hc3);
    try done; simpl; rewrite ?Hrt2, ?Hsch2; simpl; try done.
  { by eapply loop_inv_run. }
  { by rewrite Hq1. }
  set (c3 := mkConfig r3 _ _ _) in Hs3, Hi3. apply lift_dsteps in Hs3.
  set (l3 := with_config c3 l2) in Hs3.
  assert (Hinv3 : loop_inv b s l3) by (apply (loop_refines tod fuel b s l2); [done|]; by apply star_lstep_trans).
  set (w4 := set_flags (delete flag (w_flags w2)) (lp_w l3)).
  set (l4 := mkLoop w4 (Run (kk (Answer (-1) 0))) (lp_trace l3) (delete flag (lp_frames l3))).
  assert (Hs4 : lstep tod fuel l3 l4).
  { apply (task_call_step e l3 (IoResume f fd flag) cb kk (Answer (-1) 0)); [reflexivity|exact Hc3|]. unfold io_handle. simpl. rewrite Hfr1, Hfr. simpl.
    unfold ioInner_resume. simpl. by rewrite Hfl2. }
  destruct (own_refines tod fuel b s l3 l4 Hinv3 Hs4) as (_ & Hinv4).
  exists l4, m. split_and!; try done.
  - eapply star_trans; [exact Hs1|]. eapply star_step; [exact Hs2|]. eapply star_trans; [exact Hs3|by apply star_one].
  - simpl. by rewrite Htr1, <- app_assoc.
  - simpl. apply lookup_delete_eq.
  - simpl. apply lookup_delete_eq.
Qed.

(** C9: a coroutine that sleeps goes on after its sleep.  When the current
    coroutine [e] calls sleep while nothing else is ready and the manager is not
    stopped, a timer is armed [ms] from the time read now (a sum that saturates)
    and the coroutine suspended; when epoll then reports nothing (it may be
    interrupted any number of times), that deadline has passed and no other timer
    is due, the loop makes an executor for the timer, which puts the coroutine
    back into the queue, and the coroutine goes on after its sleep, in the next
    round. *)
Theorem sleep_completes b s l e ms k n k1 :
  loop_inv b s l → lp_pc l = Run (sleep_code ms k) → t_cur_executor (io_rt (loop_io l)) = Some e →
  let io := loop_io l in
  let tm := timer_manager_ io in
  idle (scheduler_ io) → io_inv io → stopped io = false →
  let deadline := Timer_target (clock tod (ticks tm)) ms in
  let timer := mkTimer (next_addr tm) false deadline ms (Some (Body (CAdd e (λ _, CRet)))) in
  let iv := getNextInterval tod (mkManager (ms_insert timer (timers_ tm)) (S (ticks tm)) (S (next_addr tm))) in
  interrupted wait_errno n (epoll_wait (epoll_fd_ io) epoll_wait_max_size (i32 iv.1)) (kernel_ io)
    = Some (inl [], k1) → (n < fuel)%nat →
  deadline <= clock tod (ticks iv.2) →
  filter (λ t, target_timestamp t <= clock tod (ticks iv.2)) (timers_ tm) = [] →
  ∃ l' m, star (lstep tod fuel) l l' ∧ lp_pc l' = Run k ∧ t_cur_executor (io_rt (loop_io l')) = Some e ∧
    loop_inv b s l' ∧ ready_executors_ (scheduler_ (loop_io l')) = [] ∧
    lp_trace l' = lp_trace l ++ [EvExec m; EvExec e].
Proof.
  intros Hinv Hpc Hcur io tm Hid Hio Hst deadline timer iv Hint Hn Hdl Hnone.
  destruct (sleep_suspends b s l e ms k Hinv Hpc Hcur Hid Hio Hst)
    as (l1 & y & Hs1 & Hinv1 & Hpc1 & Hid1 & Hio1 & Hep1 & Hk1 & Htm1 & Htr1 & Hes & Hy & Hys & Hyc).
  destruct (sleeper_wakes b s l1 e y k timer n k1) as (l' & m & Hs2 & Hpc2 & Hcur2 & Hinv2 & Hq2 & Htr2); try done.
  - rewrite Htm1. fold io tm deadline timer iv. cbn [timers_]. apply Permutation_singleton_r.
    rewrite ms_insert_perm, filter_cons_True by exact Hdl. by rewrite Hnone.
  - rewrite Htm1, Hep1, Hk1. exact Hint.
  - exists l', m. split_and!; try done; [by eapply star_trans|]. by rewrite Htr2, Htr1.
Qed.
End Thm.

(** The invariant does not depend on what happens in the kernel. *)
Lemma loop_inv_kernel {K} b s (l : @loop K) k :
  loop_inv b s l → loop_inv b s (mkLoop (set_k k (lp_w l)) (lp_pc l) (lp_trace l) (lp_frames l)).
Proof. done. Qed.

Lemma io_inv_kernel {K} `{EpollKernel K} (io : @IOManager K) k :
  (∀ ep fd, interest k ep fd = interest (kernel_ io) ep fd) → io_inv io → io_inv (set_kernel k io).
Proof. intros Hk [I1 I2 I3 I4 I5]. constructor; simpl; try done; intros; rewrite Hk; auto. Qed.

(** Only the table, the timers and what the kernel watches count. *)
Lemma io_inv_ext {K} `{EpollKernel K} (io io' : @IOManager K) :
  io_inv io → fd_events_ io' = fd_events_ io →
  (∀ fd, interest (kernel_ io') (epoll_fd_ io') fd = interest (kernel_ io) (epoll_fd_ io) fd) →
  wakeup_pipe_fd_ io' = wakeup_pipe_fd_ io → timers_sorted (timer_manager_ io') →
  Forall (λ t, is_Some (Timer.callback t)) (timers_ (timer_manager_ io')) → io_inv io'.
Proof.
  intros [I1 I2 I3 I4 I5] Hf Hk Hw Hs Hc. constructor; try done; rewrite ?Hf, ?Hw; auto; intros; rewrite Hk; auto.
Qed.

(** Nor do they depend on timers that are taken away. *)
Definition with_timers {K} (m : @TimerManager callback) (l : @loop K) : @loop K :=
  mkLoop (set_io (set_timers m (loop_io l)) (lp_w l)) (lp_pc l) (lp_trace l) (lp_frames l).

Lemma loop_inv_timers {K} b s (l : @loop K) m :
  (∀ t, t ∈ timers_ m → t ∈ timers_ (timer_manager_ (loop_io l))) → loop_inv b s l → loop_inv b s (with_timers m l).
Proof.
  intros Hm (Hi & Ht & Htm). split; [done|]. split; [done|]. apply Forall_forall. intros t Hin.
  rewrite Forall_forall in Htm. apply Htm. by apply Hm.
Qed.

Lemma io_inv_timers {K} `{EpollKernel K} (io : @IOManager K) m :
  timers_sorted m → Forall (λ t, is_Some (Timer.callback t)) (timers_ m) → io_inv io → io_inv (set_timers m io).
Proof. intros Hs Hc [I1 I2 I3 I4 I5]. by constructor. Qed.

(** ** Witnesses *)

Module CallEx.
Import SimpleKernel CoIOEx IOManagerEx IOThreadEx EventLoopEx.

(** Both tasks wait; then three bytes arrive at the socket 5. *)
Definition waiting : @loop kernel :=
  match run_loop tod 1 13 l0 with Ok l => l | _ => l0 end.
Definition arrived : kernel :=
  let k := w_kernel (lp_w waiting) in
  mkKernel (watch k) (openfds k) [mkEvent 5 1] (<[5 := 3%nat]> (bytes k)) (pipes k) (flags k).
Definition served : @loop kernel :=
  mkLoop (set_k arrived (lp_w waiting)) (lp_pc waiting) (lp_trace waiting) (lp_frames waiting).

Lemma waiting_inv : loop_inv 0 1 waiting.
Proof.
  destruct (io_thread_config 1 _ k0 fds5 l0 l0_thread) as (Hc & Ht & Htm).
  apply (loop_refines tod 1 0 1 l0).
  - split; [left; rewrite Hc; apply launch_starting, loop_bodies_managed|]. split; [by rewrite Ht|by rewrite Htm].
  - apply star_lstep_trans, (run_loop_star tod 1 13). vm_compute. reflexivity.
Qed.

Definition timer5 : @Timer callback :=
  mkTimer 0 false 1100 100 (Some (Body (timeout_code (FRead 0 8) 5 2 0))).
Definition timer_sleep : @Timer callback :=
  mkTimer 1 false 1030 30 (Some (Body (CAdd 3 (λ _, CRet)))).

Lemma waiting_timers : timers_ (timer_manager_ (loop_io waiting)) = [timer_sleep; timer5].
Proof. vm_compute. reflexivity. Qed.

Lemma waiting_io_inv : io_inv (loop_io waiting).
Proof.
  constructor.
  - vm_compute. discriminate.
  - intros fd x Hx Hw. apply at_fd_Some in Hx as (Hp & Hx).
    replace (fd_events_ (loop_io waiting)) with
      [FdEvents_init; FdEvents_init; FdEvents_init; FdEvents_init; FdEvents_init;
       mkFdEvents 1 true true (Some 2%nat) None; FdEvents_init] in Hx by (vm_compute; reflexivity).
    assert (Hfd : fd = 0 ∨ fd = 1 ∨ fd = 2 ∨ fd = 3 ∨ fd = 4 ∨ fd = 5 ∨ fd = 6).
    { apply lookup_lt_Some in Hx. simpl in Hx. lia. }
    destruct Hfd as [-> |[-> |[-> |[-> |[-> |[-> | ->]]]]]]; simpl in Hx; simplify_eq;
      vm_compute; auto.
  - intros fd Hx Hw. replace (kernel_ (loop_io waiting)) with
      (mkKernel (<[(11, 5) := Z.lor 1 EPOLLET]> {[(11, 12) := 5]}) (openfds arrived) []
        (delete 5 (bytes arrived)) (pipes arrived) (flags arrived)) by (vm_compute; reflexivity).
    replace (wakeup_pipe_fd_ (loop_io waiting)).1 with 12 in Hw by (vm_compute; reflexivity).
    replace (epoll_fd_ (loop_io waiting)) with 11 by (vm_compute; reflexivity). unfold interest; simpl.
    rewrite !lookup_insert_ne; [apply lookup_singleton_ne; congruence|].
    intros [= <-]. vm_compute in Hx. done.
  - unfold timers_sorted. rewrite waiting_timers. repeat constructor; unfold tle; simpl; lia.
  - rewrite waiting_timers. repeat constructor; by eexists.
Qed.

Lemma served_timers : timers_ (timer_manager_ (w_io (lp_w served))) = [timer_sleep; timer5].
Proof. vm_compute. reflexivity. Qed.

Lemma served_calling :
  calling 0 1 served (FRead 0 8) 5 0 timer5 2 (ioInner_loop 0 (FRead 0 8) 5 (λ r _, CDo (Z.to_nat r) CRet)).
Proof.
  constructor.
  - apply loop_inv_kernel, waiting_inv.
  - vm_compute. reflexivity.
  - repeat split; vm_compute; reflexivity.
  - constructor.
    + apply io_inv_kernel; [done|apply waiting_io_inv].
    + vm_compute. discriminate.
    + lia.
    + vm_compute. reflexivity.
    + rewrite served_timers. right; left.
    + split_and!; [eexists; vm_compute; reflexivity|vm_compute; reflexivity|vm_compute; reflexivity].
  - do 2 eexists. split_and!; [vm_compute; reflexivity|reflexivity|reflexivity].
  - eexists. vm_compute. reflexivity.
Qed.

Lemma call_completes_witness :
  ∃ l', star (lstep tod 1) served l' ∧ lp_pc l' = Run (CDo 3 CRet) ∧
    t_cur_executor (io_rt (loop_io l')) = Some 2%nat.
Proof.
  destruct (call_completes tod 1 0 1 served (FRead 0 8) 5 0 timer5 2
    (ioInner_loop 0 (FRead 0 8) 5 (λ r _, CDo (Z.to_nat r) CRet)) 0 arrived 0 (Ret 3)
    (read_bytes 5 8 (match blockPending tod 1 (loop_io served) with Ok io => kernel_ io | _ => arrived end)).2)
    as (l' & Hl & Hpc & Hc & _).
  - apply served_calling.
  - vm_compute. reflexivity.
  - lia.
  - vm_compute. reflexivity.
  - intros io' Hb. rewrite Hb. vm_compute in Hb. injection Hb as <-. vm_compute. reflexivity.
  - lia.
  - discriminate.
  - exists l'. split; [exact Hl|]. split; [exact Hpc|exact Hc].
Defined.

(** The clock has moved on by 50 ms when [blockPending] looks for expired timers:
    the sleep is over, the timeout of the read is not. *)
Definition later (n : nat) : Z * Z := (1, if (n <? 4)%nat then 0 else 50000).

(** The second task is about to sleep. *)
Definition sleepy : @loop kernel := match run_loop tod 1 10 l0 with Ok l => l | _ => l0 end.

Lemma sleepy_timers : timers_ (timer_manager_ (loop_io sleepy)) = [timer5].
Proof. vm_compute. reflexivity. Qed.

Lemma sleepy_inv : loop_inv 0 1 sleepy.
Proof.
  apply (thread_refines tod 1 bodies k0 fds5 l0); [apply loop_bodies_managed|apply l0_thread|].
  apply star_lstep_trans, (run_loop_star tod 1 10). vm_compute. reflexivity.
Qed.

Lemma sleepy_io_inv : io_inv (loop_io sleepy).
Proof.
  apply (io_inv_ext (loop_io waiting)); [apply waiting_io_inv|vm_compute; reflexivity| |vm_compute; reflexivity|..].
  - assert (Hw : watch (kernel_ (loop_io sleepy)) = watch (kernel_ (loop_io waiting))) by (vm_compute; reflexivity).
    assert (He : epoll_fd_ (loop_io sleepy) = epoll_fd_ (loop_io waiting)) by (vm_compute; reflexivity).
    intros fd. unfold interest, simple_kernel. by rewrite Hw, He.
  - unfold timers_sorted. rewrite sleepy_timers. repeat constructor.
  - rewrite sleepy_timers. repeat constructor; by eexists.
Qed.

Lemma sleep_completes_witness :
  ∃ l' m, star (lstep later 1) sleepy l' ∧ lp_pc l' = Run (plain_code IoStop (λ _ _, CRet)) ∧
    t_cur_executor (io_rt (loop_io l')) = Some 3%nat ∧
    lp_trace l' = [EvExec 2; EvExec 3; EvExec m; EvExec 3]%nat.
Proof.
  destruct (sleep_completes later 1 0 1 sleepy 3 30 (plain_code IoStop (λ _ _, CRet)) 0 (kernel_ (loop_io sleepy)))
    as (l' & m & Hs & Hpc & Hc & _ & _ & Ht).
  - apply sleepy_inv.
  - vm_compute. reflexivity.
  - vm_compute. reflexivity.
  - repeat split; vm_compute; reflexivity.
  - apply sleepy_io_inv.
  - vm_compute. reflexivity.
  - vm_compute. reflexivity.
  - lia.
  - vm_compute. discriminate.
  - vm_compute. reflexivity.
  - exists l', m. split; [exact Hs|]. split; [exact Hpc|]. split; [exact Hc|].
    assert (Htw : lp_trace sleepy = [EvExec 2; EvExec 3]%nat) by (vm_compute; reflexivity).
    rewrite Htw in Ht. exact Ht.
Defined.

(** Only the read waits, and its timeout is over. *)
Definition alone : @loop kernel := with_timers (mkManager [timer5] 2 2) waiting.
Definition much_later (n : nat) : Z * Z := (2, 0).

Lemma alone_calling :
  calling 0 1 alone (FRead 0 8) 5 0 timer5 2 (ioInner_loop 0 (FRead 0 8) 5 (λ r _, CDo (Z.to_nat r) CRet)).
Proof.
  constructor.
  - apply loop_inv_timers; [|apply waiting_inv]. rewrite waiting_timers. intros t ->%list_elem_of_singleton. right; left.
  - vm_compute. reflexivity.
  - repeat split; vm_compute; reflexivity.
  - constructor.
    + apply io_inv_timers; [repeat constructor|repeat constructor; by eexists|apply waiting_io_inv].
    + vm_compute. discriminate.
    + lia.
    + vm_compute. reflexivity.
    + left.
    + split_and!; [eexists; vm_compute; reflexivity|vm_compute; reflexivity|vm_compute; reflexivity].
  - do 2 eexists. split_and!; [vm_compute; reflexivity|reflexivity|reflexivity].
  - eexists. vm_compute. reflexivity.
Qed.

Lemma call_times_out_witness :
  ∃ l' m, star (lstep much_later 1) alone l' ∧ lp_pc l' = Run (CDo 0 CRet) ∧
    lp_trace l' = [EvExec 2; EvExec 3; EvExec m; EvExec 2]%nat.
Proof.
  destruct (call_times_out much_later 1 0 1 alone (FRead 0 8) 5 0 timer5 2
    (ioInner_loop 0 (FRead 0 8) 5 (λ r _, CDo (Z.to_nat r) CRet)) 0 (kernel_ (loop_io alone)))
    as (l' & m & Hs & Hpc & _ & _ & Ht & _).
  - apply alone_calling.
  - reflexivity.
  - vm_compute. reflexivity.
  - vm_compute. reflexivity.
  - lia.
  - exists l', m. split; [exact Hs|]. split; [exact Hpc|].
    assert (Htw : lp_trace alone = [EvExec 2; EvExec 3]%nat) by (vm_compute; reflexivity).
    rewrite Htw in Ht. exact Ht.
Defined.
End CallEx.

(** ** Calls that do not wait, and calls that wait in vain *)

Lemma ioInner_loop_answer n f fd k r e : ioInner_loop n f fd k (Answer r e) = k r e.
Proof. by destruct n. Qed.

Section Edges.
Context {K : Type} `{EpollKernel K} `{SocketCalls K} `{!IoCalls K}.
Variable tod : nat → Z * Z.
Variable fuel : nat.
Implicit Types w : @world K.

(** An answer other than EAGAIN is passed on, for any kind of descriptor. *)
Lemma invoke_immediate e f fd cb w fr t r k' :
  ioInner_timeout fd (event_of f) w = Ok t → sys_of f fd (w_kernel w) = (r, k') →
  errno r ≠ Some EINTR → errno r ≠ Some EAGAIN → (0 < fuel)%nat →
  io_handle tod fuel e (IoInvoke f fd) cb w fr = Ok (of_sysres r, set_k k' w, fr).
Proof using Type.
  intros Ht Hf Hi Ha Hfuel. unfold io_handle, ioInner. rewrite Ht. simpl. destruct t as [ms|].
  - unfold ioInner_try. rewrite (invokeNoIntr_interrupted errno _ 0 fuel _ (r, k')); [|simpl|lia].
    + simpl. destruct r as [v|er]; [done|]. simpl in Ha. rewrite decide_False by congruence. done.
    + rewrite Hf. simpl. by rewrite decide_False.
  - unfold sys_call. by rewrite Hf.
Qed.

(** A call that would block after the manager was stopped: neither timer nor event
    is registered, so nothing is left that would resume the coroutine; queue,
    timers and table are as before. *)
Lemma stopped_call_lost e f fd cb w fr ms k' :
  ioInner_timeout fd (event_of f) w = Ok (Some ms) → sys_of f fd (w_kernel w) = (Err EAGAIN, k') →
  stopped (w_io w) = true → (0 < fuel)%nat →
  ∃ w' fr', io_handle tod fuel e (IoInvoke f fd) cb w fr = Ok (Waiting (w_next_flag w), w', fr') ∧
    timers_ (timer_manager_ (w_io w')) = timers_ (timer_manager_ (w_io w)) ∧
    fd_events_ (w_io w') = fd_events_ (w_io w) ∧ scheduler_ (w_io w') = scheduler_ (w_io w) ∧
    io_rt (w_io w') = io_rt (w_io w) ∧ kernel_ (w_io w') = k'.
Proof using Type.
  intros Ht Hf Hst Hfuel. unfold io_handle, ioInner. rewrite Ht. simpl. unfold ioInner_try.
  rewrite (invokeNoIntr_interrupted errno _ 0 fuel _ (Err EAGAIN, k')); [|simpl|lia].
  - simpl. unfold registerTimer, registerEvent. simpl. rewrite Hst. simpl. rewrite Hst. simpl.
    do 2 eexists. split; [reflexivity|]. by split_and!.
  - by rewrite Hf.
Qed.

(** The same for sleeping. *)
Lemma stopped_sleep_lost e ms cb w fr :
  stopped (w_io w) = true →
  ∃ w', io_handle tod fuel e (IoSleep ms) cb w fr = Ok (Waiting 0, w', fr) ∧
    timers_ (timer_manager_ (w_io w')) = timers_ (timer_manager_ (w_io w)) ∧
    fd_events_ (w_io w') = fd_events_ (w_io w) ∧ scheduler_ (w_io w') = scheduler_ (w_io w).
Proof using Type.
  intros Hst. unfold io_handle, sleepInner, registerTimer. simpl. rewrite Hst. simpl.
  eexists. split; [reflexivity|]. by split_and!.
Qed.
End Edges.
