(* ===== verification/Pool.v ===== *)
(** * The threads of a process

    A program runs several threads, each with its own IO manager, scheduler and
    executors, as the balancers of src/balancer/io start them.  They share the
    kernel, the table of descriptors ([FdManager] is a singleton) and the counters
    behind executor ids (src/coroutine/executor.cpp).  Here the threads of
    EventLoop.v are interleaved step by step over this shared state; threads start
    at any time, and any of them may hand a new task over to another one
    ([addRemoteTask], an atomic step here, in its single accesses in Wakeup.v). *)

From S2P Require Import Prelude Timer FdManager Sys Executor Scheduler SchedulerInv SchedulerThm.
From S2P Require Import IOManager IOManagerThm IOThread CoIO CoIOThm EventLoop EventLoopInv.
From stdpp Require Import options.
Set Default Proof Using "Type*".

Section Pool.
Context {K : Type} `{EpollKernel K} `{SocketCalls K} `{!IoCalls K} `{!ThreadCalls K}.
(** The clock as each thread reads it. *)
Variable tod : nat → nat → Z * Z.
Variable fuel : nat.

(** ** What the threads share *)

Record process := mkProcess {
  pr_kernel : K;
  pr_fds : FdManager;
  pr_least_unallocated_id : Z;
  pr_executor_count : Z
}.

Definition set_counters (least count : Z) (r : runtime) : runtime :=
  mkRuntime (t_cur_executor r) (t_main_executor r) (t_base_executor r) (executors r) (next_eid r)
    least count (stacks r) (next_stack r).

(** A thread as it finds the shared state, and what it leaves. *)
Definition enter (p : process) (l : @loop K) : @loop K :=
  let io := w_io (lp_w l) in
  let io := set_rt (set_counters (pr_least_unallocated_id p) (pr_executor_count p) (io_rt io)) io in
  mkLoop (set_fds (pr_fds p) (set_io (set_kernel (pr_kernel p) io) (lp_w l))) (lp_pc l) (lp_trace l) (lp_frames l).

Definition leave (l : @loop K) : process :=
  mkProcess (w_kernel (lp_w l)) (w_fds (lp_w l))
    (least_unallocated_id (io_rt (w_io (lp_w l)))) (executor_count (io_rt (w_io (lp_w l)))).

(** ** The pool *)

Record pool := mkPool {
  shared : process;
  threads : list (@loop K)
}.

(** A thread function that makes its IO manager, adds tasks (the workers of a
    balancer start with none) and runs it. *)
Definition start_thread (bodies : list coro) (p : process) : outcome (@loop K) :=
  io ← IOManager_new fuel (set_counters (pr_least_unallocated_id p) (pr_executor_count p) runtime_init) (pr_kernel p);
  Ok (mkLoop (mkWorld io (pr_fds p) ∅ 0) (Base (launch bodies)) [] ∅).

(** [manager->addRemoteTask(std::make_shared<Executor>(body))] from another thread. *)
Definition give (body : coro) (l : @loop K) : outcome (@loop K) :=
  let io := w_io (lp_w l) in
  p ← Executor_callback (Some (Body body)) DefaultStackSize (io_rt io);
  remote p.1 (mkLoop (set_io (set_rt p.2 io) (lp_w l)) (lp_pc l) (lp_trace l) (lp_frames l)).

Inductive pool_step : pool → pool → Prop :=
| pool_spawn P bodies l :
    Forall (managed (λ _, False)) bodies → start_thread bodies (shared P) = Ok l →
    pool_step P (mkPool (leave l) (threads P ++ [l]))
| pool_run P i l l' :
    threads P !! i = Some l → lstep (tod i) fuel (enter (shared P) l) l' →
    pool_step P (mkPool (leave l') (<[i := l']> (threads P)))
| pool_give P i l l' body :
    threads P !! i = Some l → managed (λ _, False) body → give body (enter (shared P) l) = Ok l' →
    pool_step P (mkPool (leave l') (<[i := l']> (threads P))).

(** ** Every thread keeps its invariant *)

(** The invariants look at neither counter. *)
Lemma inv_counters b s c n m :
  inv b s c → inv b s (mkConfig (set_counters n m (rt c)) (sch c) (pc c) (trace c)).
Proof. intros [I1 I2 I3 I4 I5 I6 I7 I8 I9 I10]. by constructor. Qed.

Lemma starting_counters b s c n m :
  starting b s c → starting b s (mkConfig (set_counters n m (rt c)) (sch c) (pc c) (trace c)).
Proof.
  intros ([I1 I2 I3 I4 I5 I6 I7 I8 I9 I10] & l & Hl & Hpc). split; [by constructor|]. by exists l.
Qed.

Lemma enter_inv b s p l : loop_inv b s l → loop_inv b s (enter p l).
Proof.
  intros (Hi & Hr). split; [|exact Hr]. destruct Hi as [Hi|Hi]; [left|right].
  - exact (starting_counters b s _ _ _ Hi).
  - exact (inv_counters b s _ _ _ Hi).
Qed.

(** A thread that has just made its scheduler, whatever the counters are. *)
Lemma new_thread_pre n m k s r :
  Scheduler_new (set_counters n m runtime_init) = Ok (s, r) → pre 0 1 (mkConfig r s (Base k) []).
Proof.
  intros Hs. injection Hs as <- <-.
  constructor; simpl; try done.
  - intros o [x Hx]. rewrite !lookup_insert_Some, lookup_empty in Hx. destruct Hx as [(<- & _)|(_ & [(<- & _)|(_ & ?)])]; [lia..|done].
  - intros o Ho. by apply not_elem_of_nil in Ho.
  - intros o x Hx Ho0 Ho1. rewrite !lookup_insert_Some, lookup_empty in Hx.
    destruct Hx as [(<- & _)|(_ & [(<- & _)|(_ & ?)])]; done.
  - eexists. split; [rewrite lookup_insert_ne by done; apply lookup_insert_eq|done].
  - eexists. split; [apply lookup_insert_eq|done].
Qed.

Lemma start_thread_inv bodies p l :
  Forall (managed (λ _, False)) bodies → start_thread bodies p = Ok l → loop_inv 0 1 l.
Proof.
  intros Hb Hl. apply bind_Ok in Hl as (io & Hio & [= <-]). unfold IOManager_new in Hio.
  apply bind_Ok in Hio as ([s r] & Hs & Hio). apply bind_Ok in Hio as (io1 & H1 & H2).
  unfold initEpoll in H1. destruct (sys_epoll_create _ _) as [[ep|e] k1]; [|done]. injection H1 as <-.
  unfold initPipe in H2. destruct (sys_pipe _) as [[[v|e] pp] k2]; [|done].
  destruct (sys_set_nonblock pp.1 k2) as [[v2|e] k3]; [|done].
  apply bind_Ok in H2 as (k4 & _ & [= <-]). split; [left|done].
  split; [|by exists bodies; split; [|left]].
  pose proof (new_thread_pre _ _ (launch bodies) _ _ Hs) as [I1 I2 I3 I4 I5 I6 I7 I8 I9 I10]. by constructor.
Qed.

(** A task made by another thread. *)
Lemma starting_new b s c body :
  starting b s c → managed (λ _, False) body →
  let r' := (construct true Init DefaultStackSize (Some (Body body)) (rt c)).2 in
  starting b s (mkConfig r' (sch c) (pc c) (trace c)) ∧ valid b s r' (next_eid (rt c)).
Proof.
  intros (Hp & l & Hl & Hpc) Hb r'.
  assert (Hp' : pre b s (at_code (Base (launch (body :: l))) c)) by (destruct Hp; by constructor).
  destruct (pre_new b s _ body l Hp' eq_refl Hb) as (_ & Hpre & Hval). split; [|exact Hval].
  split; [destruct Hpre as [I1 I2 I3 I4 I5 I6 I7 I8 I9 I10]; by constructor|].
  exists l. split; [done|]. destruct Hpc as [Hpc|(n & Hpc & (x & Hx) & Hn)]; [by left|right].
  exists n. split; [done|]. split; [|done]. simpl.
  destruct (decide (next_eid (rt c) = n)) as [<-|Hne]; [rewrite lookup_insert_eq|rewrite lookup_insert_ne by done]; by eexists.
Qed.

Lemma give_inv b s body l l' :
  loop_inv b s l → managed (λ _, False) body → give body l = Ok l' → loop_inv b s l'.
Proof using All.
  intros (Hi & Hr) Hb Hg. unfold give in Hg. apply bind_Ok in Hg as ([e r'] & Hn & Hg).
  assert (Hnew : (starting b s (mkConfig r' (sch (config_of l)) (pc (config_of l)) (trace (config_of l))) ∨
                  inv b s (mkConfig r' (sch (config_of l)) (pc (config_of l)) (trace (config_of l)))) ∧
                 valid b s r' e).
  { injection Hn as <- <-. destruct Hi as [Hi|Hi].
    - destruct (starting_new b s _ body Hi Hb) as (? & ?). auto.
    - destruct (inv_new b s _ body Hi) as (? & ? & _); [by apply managed_closed|]. auto. }
  assert (Hgr : ∀ o, valid b s (io_rt (loop_io l)) o → valid b s r' o).
  { apply valid_grows. injection Hn as _ <-. apply construct_grows. }
  destruct Hnew as (Hi' & He).
  set (l1 := mkLoop (set_io (set_rt r' (w_io (lp_w l))) (lp_w l)) (lp_pc l) (lp_trace l) (lp_frames l)) in *.
  assert (Hl1 : loop_inv b s l1).
  { split; [exact Hi'|]. exact (refs_mono _ _ (set_rt r' (loop_io l)) Hgr Hr). }
  eapply (trans_refines (tod 0) fuel b s l1 l' Hl1), (trans_remote _ _ l1 l' e); [|exact Hg].
  destruct He as (? & Hb' & Hs'). split; [done|].
  destruct Hi' as [(Hp & _)|Hi'].
  - pose proof (p_base _ _ _ Hp) as Hb1. pose proof (p_sched _ _ _ Hp) as Hs1. simpl in Hb1, Hs1. split.
    + intros Heq. apply Hb'. change (t_base_executor r' = Some e) in Heq. congruence.
    + intros Heq. apply Hs'. simpl in Heq. congruence.
  - pose proof (i_base _ _ _ Hi') as Hb1. pose proof (i_sched _ _ _ Hi') as Hs1. simpl in Hb1, Hs1. split.
    + intros Heq. apply Hb'. change (t_base_executor r' = Some e) in Heq. congruence.
    + intros Heq. apply Hs'. simpl in Heq. congruence.
Qed.

Definition pool_inv (P : pool) : Prop := Forall (loop_inv 0 1) (threads P).

Lemma pool_step_inv P P' : pool_inv P → pool_step P P' → pool_inv P'.
Proof.
  unfold pool_inv. intros HP Hs.
  destruct Hs as [P bodies l Hb Hl|P i l l' Hi Hs|P i l l' body Hi Hb Hg]; simpl.
  - apply Forall_app. split; [done|]. constructor; [by eapply start_thread_inv|done].
  - apply Forall_insert; [done|]. eapply (own_refines (tod i) fuel 0 1); [|exact Hs].
    apply enter_inv. by eapply (Forall_lookup_1 _ _ _ _ HP).
  - apply Forall_insert; [done|]. eapply give_inv; [|done|exact Hg].
    apply enter_inv. by eapply (Forall_lookup_1 _ _ _ _ HP).
Qed.

(** ** Executor ids *)

(** The ids of a thread's executors, and of all threads'. *)
Definition ids_of (r : runtime) : list Z := (map_to_list (id_ <$> executors r)).*2.
Definition all_ids (ls : list (@loop K)) : list Z := concat ((λ l, ids_of (io_rt (loop_io l))) <$> ls).

(** [n] ids behind [least]. *)
Definition ids_from (least : Z) (n : nat) : list Z := (λ i, u64 (least + 1 + Z.of_nat i)) <$> seq 0 n.

Definition fresh (r : runtime) : Prop := ∀ e, is_Some (executors r !! e) → (e < next_eid r)%nat.

Lemma u64_add a b c : u64 a = u64 b → u64 (a + c) = u64 (b + c).
Proof. unfold u64. intros Hab. rewrite Zplus_mod, Hab, <- Zplus_mod. done. Qed.

Lemma ids_from_snoc least n : ids_from least (S n) = ids_from least n ++ [u64 (least + Z.of_nat n + 1)].
Proof. unfold ids_from. rewrite seq_S, fmap_app. simpl. do 3 f_equal. lia. Qed.

Lemma ids_from_app least least' n m :
  u64 least' = u64 (least + Z.of_nat n) → ids_from least n ++ ids_from least' m = ids_from least (n + m).
Proof.
  intros Hl. unfold ids_from. rewrite seq_app, fmap_app. f_equal. simpl.
  replace (seq n m) with (Nat.add n <$> seq 0 m) by (by rewrite fmap_add_seq, Nat.add_0_r).
  rewrite <- list_fmap_compose. apply list_fmap_ext. intros _ i _. simpl.
  replace (least + 1 + Z.of_nat (n + i)) with (least + Z.of_nat n + (1 + Z.of_nat i)) by lia.
  rewrite <- Z.add_assoc. by apply u64_add.
Qed.

Lemma ids_from_NoDup least n : Z.of_nat n <= 2 ^ 64 → NoDup (ids_from least n).
Proof.
  intros Hn. apply NoDup_fmap_2_strong; [|apply NoDup_seq]. intros i j Hi Hj Heq.
  apply elem_of_seq in Hi, Hj. unfold u64 in Heq.
  pose proof (Z.div_mod (least + 1 + Z.of_nat i) (2 ^ 64) ltac:(lia)).
  pose proof (Z.div_mod (least + 1 + Z.of_nat j) (2 ^ 64) ltac:(lia)). rewrite Heq in *. nia.
Qed.

(** What a thread makes is numbered from the counter on. *)
Lemma numbered_ids r r' :
  numbered r r' → fresh r →
  fresh r' ∧ ∃ n, ids_of r' ≡ₚ ids_of r ++ ids_from (least_unallocated_id r) n ∧
    u64 (least_unallocated_id r') = u64 (least_unallocated_id r + Z.of_nat n).
Proof.
  intros Hs. induction Hs as [r|r r1 r2 Hs _ IH]; intros Hf.
  { split; [done|]. exists 0%nat. simpl. rewrite app_nil_r, Z.add_0_r. done. }
  destruct Hs as [r1 Hs|cb st sz f].
  - destruct IH as (Hf2 & n & Hn & Hl).
    { intros e He. destruct (Hs) as (_ & -> & _). apply Hf. by apply (same_ids_dom _ _ _ Hs). }
    split; [done|]. exists n. destruct Hs as (Hi & _ & Hle & _). unfold ids_of in *. by rewrite Hi, Hle in Hn; rewrite Hle in Hl.
  - destruct IH as (Hf2 & n & Hn & Hl).
    { intros e. simpl. rewrite lookup_insert_is_Some'. intros [<-|He]; [lia|]. specialize (Hf e He). lia. }
    split; [done|]. exists (S n). simpl least_unallocated_id in *. unfold idGenerate in *.
    assert (Hids : ids_of (construct cb st sz f r).2 ≡ₚ ids_of r ++ ids_from (least_unallocated_id r) 1).
    { unfold ids_of. simpl executors. rewrite fmap_insert. rewrite map_to_list_insert.
      - simpl. rewrite Permutation_app_comm. simpl. unfold idGenerate. by rewrite Z.add_0_r.
      - rewrite lookup_fmap. destruct (executors r !! next_eid r) eqn:Hx; [|done].
        specialize (Hf (next_eid r) (mk_is_Some _ _ Hx)). lia. }
    assert (Hw : u64 (u64 (least_unallocated_id r + 1)) = u64 (least_unallocated_id r + Z.of_nat 1)).
    { unfold u64. by rewrite Z.mod_mod. }
    rewrite Hn, Hids, <- app_assoc, (ids_from_app _ _ 1 n Hw). split; [done|].
    rewrite Hl, (u64_add _ _ _ Hw). f_equal. lia.
Qed.

(** All executors of the process are numbered one after the other. *)
Record ids_inv (least : Z) (P : pool) : Prop := mkIdsInv {
  ids_perm : all_ids (threads P) ≡ₚ ids_from least (length (all_ids (threads P)));
  ids_least : u64 (pr_least_unallocated_id (shared P)) = u64 (least + Z.of_nat (length (all_ids (threads P))));
  ids_fresh : Forall (λ l, fresh (io_rt (loop_io l))) (threads P)
}.

(** A thread [l'] that has replaced [l], or was added, after taking ids. *)
Lemma ids_inv_grow least P ls ids' n sh :
  ids_inv least P → Forall (λ l, fresh (io_rt (loop_io l))) ls →
  all_ids ls ≡ₚ all_ids (threads P) ++ ids' → ids' ≡ₚ ids_from (pr_least_unallocated_id (shared P)) n →
  u64 (pr_least_unallocated_id sh) = u64 (pr_least_unallocated_id (shared P) + Z.of_nat n) →
  ids_inv least (mkPool sh ls).
Proof.
  intros [Hp Hl Hf] Hfr Hls Hids Hsh.
  assert (Hlen : length (all_ids ls) = (length (all_ids (threads P)) + n)%nat).
  { rewrite Hls, length_app, Hids. unfold ids_from at 1. by rewrite length_fmap, length_seq. }
  split; simpl; [| |done]; rewrite Hlen.
  - rewrite Hls, Hids. rewrite Hp at 1. by rewrite (ids_from_app _ _ _ _ Hl).
  - rewrite Hsh, (u64_add _ _ _ Hl). f_equal. lia.
Qed.

Lemma all_ids_insert i ls l l' ids' :
  ls !! i = Some l → ids_of (io_rt (loop_io l')) ≡ₚ ids_of (io_rt (loop_io l)) ++ ids' →
  all_ids (<[i := l']> ls) ≡ₚ all_ids ls ++ ids'.
Proof.
  intros Hi Hl. rewrite <- (take_drop_middle ls i l Hi) at 2. rewrite insert_take_drop by by eapply lookup_lt_Some.
  unfold all_ids. rewrite !fmap_app, !concat_app. simpl. rewrite Hl, <- !app_assoc. do 2 f_equiv.
  apply Permutation_app_comm.
Qed.

(** One thread has moved from the shared state on. *)
Lemma ids_inv_run least P i l l' :
  ids_inv least P → threads P !! i = Some l →
  numbered (io_rt (loop_io (enter (shared P) l))) (io_rt (loop_io l')) →
  ids_inv least (mkPool (leave l') (<[i := l']> (threads P))).
Proof.
  intros HP Hi Hn. pose proof (Forall_lookup_1 _ _ _ _ (ids_fresh _ _ HP) Hi) as Hf.
  destruct (numbered_ids _ _ Hn Hf) as (Hf' & n & Hids & Hl).
  eapply ids_inv_grow; [done|by apply Forall_insert; [apply HP|]|by eapply all_ids_insert|reflexivity|exact Hl].
Qed.

Lemma new_thread_numbered bodies p l :
  start_thread bodies p = Ok l →
  numbered (set_counters (pr_least_unallocated_id p) (pr_executor_count p) runtime_init) (io_rt (loop_io l)).
Proof.
  intros Hl. apply bind_Ok in Hl as (io & Hio & [= <-]). unfold IOManager_new in Hio.
  apply bind_Ok in Hio as ([s r] & Hs & Hio). apply bind_Ok in Hio as (io1 & H1 & H2).
  unfold initEpoll in H1. destruct (sys_epoll_create _ _) as [[ep|e] k1]; [|done]. injection H1 as <-.
  unfold initPipe in H2. destruct (sys_pipe _) as [[[v|e] pp] k2]; [|done].
  destruct (sys_set_nonblock pp.1 k2) as [[v2|e] k3]; [|done].
  apply bind_Ok in H2 as (k4 & _ & [= <-]). change (io_rt _) with r.
  injection Hs as _ <-. eapply numbered_trans; [apply (numbered_new false Ready 0 None)|].
  eapply numbered_trans; [apply (numbered_new true Init DefaultStackSize (Some ScheduleLoop))|]. by apply numbered_same.
Qed.

Lemma pool_step_ids least P P' : pool_inv P → ids_inv least P → pool_step P P' → ids_inv least P'.
Proof using All.
  intros Hinv HP Hs. destruct Hs as [P bodies l Hb Hl|P i l l' Hi Hs|P i l l' body Hi Hb Hg].
  - destruct (numbered_ids _ _ (new_thread_numbered _ _ _ Hl)) as (Hf & n & Hids & Hle).
    { intros e [x Hx]. simpl in Hx. by rewrite lookup_empty in Hx. }
    eapply ids_inv_grow; [done| | |exact Hids|exact Hle].
    + apply Forall_app. split; [apply HP|]. by constructor.
    + unfold all_ids. rewrite fmap_app, concat_app. simpl. by rewrite app_nil_r.
  - eapply ids_inv_run; [done|done|].
    destruct (own_refines (tod i) fuel 0 1 (enter (shared P) l) l') as (Hst & _); [|done|].
    { apply enter_inv. by eapply (Forall_lookup_1 _ _ _ _ Hinv). }
    exact (step_numbered _ _ Hst).
  - eapply ids_inv_run; [done|done|]. unfold give in Hg. apply bind_Ok in Hg as ([e r'] & Hn & Hg).
    injection Hn as <- <-. unfold remote in Hg. apply bind_Ok in Hg as (io & Ha & [= <-]).
    unfold addRemoteTask, wakeup in Ha. destruct (write_byte _ _) as [[v|er] k]; [|done]. injection Ha as <-.
    apply (numbered_new true Init DefaultStackSize (Some (Body body))).
Qed.

(** ** Properties *)

(** C6: A process of any number of threads is safe.  Whatever threads are started,
    however their steps are interleaved over one kernel, one table of descriptors
    and one pair of id counters, and whatever new tasks they hand over to each
    other: in every thread, also as it finds the shared state, the program's next
    step is defined (only operations of its IO manager can fail), and a task of it
    executes only as its current executor, in its own code.  A thread finds the
    kernel, the descriptors and the counters as the thread that moved last left
    them.  And the ids are unique in the process: as long as no more than 2^64
    executors have been made, no two executors of any of its threads have the
    same id. *)
Theorem pool_safe p P :
  star pool_step (mkPool p []) P →
  (∀ i l, threads P !! i = Some l →
     safe (config_of l) ∧ safe (config_of (enter (shared P) l)) ∧ leave (enter (shared P) l) = shared P) ∧
  (Z.of_nat (length (all_ids (threads P))) <= 2 ^ 64 → NoDup (all_ids (threads P))).
Proof.
  intros Hs. assert (HP : pool_inv P ∧ ids_inv (pr_least_unallocated_id p) P).
  { eapply (star_invariant _ (λ P, pool_inv P ∧ ids_inv (pr_least_unallocated_id p) P)); [| |exact Hs].
    - intros x y (H1 & H2) Hxy. split; [by eapply pool_step_inv|by eapply pool_step_ids].
    - split; [constructor|]. split; simpl; [done|by rewrite Z.add_0_r|constructor]. }
  destruct HP as (HP & Hids). split.
  - intros i l Hi. pose proof (Forall_lookup_1 _ _ _ _ HP Hi) as Hl.
    split; [apply starting_safe, Hl|]. split; [|by destruct (shared P)].
    apply starting_safe. by apply (enter_inv 0 1 (shared P)).
  - intros Hlen. rewrite (ids_perm _ _ Hids). by apply ids_from_NoDup.
Qed.
End Pool.

(** ** Witnesses *)

Module PoolEx.
Import SimpleKernel CoIOEx IOThreadEx EventLoopEx.

Definition thread_clock (_ : nat) (n : nat) : Z * Z := seconds n.
Definition p0 : @process kernel := mkProcess k0 fds5 0 0.

(** Two threads, started one after the other. *)
Definition first : @loop kernel := match start_thread 1 bodies p0 with Ok l => l | _ => l0 end.
Definition second : @loop kernel := match start_thread 1 [CDo 7 CRet] (leave first) with Ok l => l | _ => l0 end.

(** The second one takes a step, then a task is handed over to the first. *)
Definition second' : @loop kernel :=
  match run_loop seconds 1 1 (enter (leave second) second) with Ok l => l | _ => second end.
Definition first' : @loop kernel :=
  match give (CDo 9 CRet) (enter (leave second') first) with Ok l => l | _ => first end.
Definition two : pool := mkPool (leave first') [first'; second'].

Lemma two_reached : star (pool_step thread_clock 1) (mkPool p0 []) two.
Proof.
  eapply star_step; [apply (pool_spawn thread_clock 1 (mkPool p0 []) bodies first); [apply loop_bodies_managed|vm_compute; reflexivity]|].
  eapply star_step.
  { apply (pool_spawn thread_clock 1 _ [CDo 7 CRet] second); [repeat constructor|vm_compute; reflexivity]. }
  eapply star_step.
  { apply (pool_run thread_clock 1 _ 1 second second'); [reflexivity|vm_compute; reflexivity]. }
  eapply star_step; [|apply star_refl].
  assert (Hg : give (CDo 9 CRet) (enter (leave second') first) = Ok first') by (vm_compute; reflexivity).
  exact (pool_give thread_clock 1 (mkPool (leave second') [first; second']) 0 first first' (CDo 9 CRet) eq_refl I Hg).
Qed.

Lemma pool_safe_witness :
  remote_tasks_ (scheduler_ (w_io (lp_w first'))) = [Some 2%nat] ∧
  safe (config_of first') ∧ leave (enter (shared two) first') = shared two ∧
  length (all_ids (threads two)) = 6%nat ∧ NoDup (all_ids (threads two)).
Proof.
  destruct (pool_safe thread_clock 1 p0 two two_reached) as (Hsafe & Hids).
  destruct (Hsafe 0%nat first' eq_refl) as (H1 & _ & H2).
  split; [vm_compute; reflexivity|]. split; [exact H1|]. split; [exact H2|].
  assert (Hl : length (all_ids (threads two)) = 6%nat) by (vm_compute; reflexivity).
  split; [exact Hl|]. apply Hids. rewrite Hl. lia.
Defined.
End PoolEx.
