(* ===== verification/Hook.v ===== *)
(** * The hooked library calls (include/io/hook.h, src/io/hook.cpp)

    The library defines [sleep], [read], ... itself; each of them looks the
    original up once ([hook_init]) and then calls either the original or the
    coroutine version of CoIO.v.  [dlsym] is a parameter. *)

From S2P Require Import Prelude.
From stdpp Require Import options.

(** The functions of HOOK_FUN. *)
Inductive hooked :=
| h_sleep | h_usleep | h_nanosleep
| h_socket | h_connect | h_accept
| h_read | h_readv | h_recv | h_recvfrom | h_recvmsg
| h_write | h_writev | h_send | h_sendto | h_sendmsg
| h_close | h_fcntl | h_ioctl | h_getsockopt | h_setsockopt.
#[global] Instance hooked_eq_dec : EqDecision hooked.
Proof. solve_decision. Defined.

Definition HOOK_FUN : list hooked :=
  [h_sleep; h_usleep; h_nanosleep; h_socket; h_connect; h_accept; h_read; h_readv; h_recv;
   h_recvfrom; h_recvmsg; h_write; h_writev; h_send; h_sendto; h_sendmsg; h_close; h_fcntl;
   h_ioctl; h_getsockopt; h_setsockopt].

(** A library call with its arguments; pointers are addresses, and [args] is the
    [va_list] of a call with variable arguments. *)
Inductive call :=
| c_sleep (seconds : Z)
| c_usleep (usec : Z)
| c_nanosleep (req rem : Z)
| c_socket (domain type protocol : Z)
| c_connect (sockfd addr addrlen : Z)
| c_accept (s addr addrlen : Z)
| c_read (fd buf count : Z)
| c_readv (fd iov iovcnt : Z)
| c_recv (sockfd buf len flags : Z)
| c_recvfrom (sockfd buf len flags src_addr addrlen : Z)
| c_recvmsg (sockfd msg flags : Z)
| c_write (fd buf count : Z)
| c_writev (fd iov iovcnt : Z)
| c_send (s msg len flags : Z)
| c_sendto (s msg len flags to tolen : Z)
| c_sendmsg (s msg flags : Z)
| c_close (fd : Z)
| c_fcntl (fd cmd args : Z)
| c_ioctl (d request args : Z)
| c_getsockopt (sockfd level optname optval optlen : Z)
| c_setsockopt (sockfd level optname optval optlen : Z).

(** The function that is called. *)
Definition call_fun (c : call) : hooked :=
  match c with
  | c_sleep _ => h_sleep
  | c_usleep _ => h_usleep
  | c_nanosleep _ _ => h_nanosleep
  | c_socket _ _ _ => h_socket
  | c_connect _ _ _ => h_connect
  | c_accept _ _ _ => h_accept
  | c_read _ _ _ => h_read
  | c_readv _ _ _ => h_readv
  | c_recv _ _ _ _ => h_recv
  | c_recvfrom _ _ _ _ _ _ => h_recvfrom
  | c_recvmsg _ _ _ => h_recvmsg
  | c_write _ _ _ => h_write
  | c_writev _ _ _ => h_writev
  | c_send _ _ _ _ => h_send
  | c_sendto _ _ _ _ _ _ => h_sendto
  | c_sendmsg _ _ _ => h_sendmsg
  | c_close _ => h_close
  | c_fcntl _ _ _ => h_fcntl
  | c_ioctl _ _ _ => h_ioctl
  | c_getsockopt _ _ _ _ _ => h_getsockopt
  | c_setsockopt _ _ _ _ _ => h_setsockopt
  end.

Section Hook.
(** [dlsym(RTLD_NEXT, name)]: a code address or null. *)
Variable dlsym : hooked → option nat.

Record hooks := mkHooks {
  G_hookEnabled : bool;
  G_hookInited : bool;
  sys : hooked → option nat          (* the pointers name_sys *)
}.

Definition hooks_init : hooks := mkHooks true false (λ _, None).

Definition setHookEnabled (enable : bool) (h : hooks) : hooks :=
  mkHooks enable (G_hookInited h) (sys h).

Definition isHookEnabled (h : hooks) : bool := G_hookEnabled h.

Definition set_sys (f : hooked) (p : option nat) (t : hooked → option nat) : hooked → option nat :=
  λ g, if decide (g = f) then p else t g.

Definition hook_init (h : hooks) : hooks :=
  if G_hookInited h then h
  else mkHooks (G_hookEnabled h) true
         (foldl (λ t f, set_sys f (dlsym f) t) (sys h) HOOK_FUN).

(** Where a hooked call ends up. *)
Inductive target :=
| Original (p : nat) (c : call)  (* the function at this address, with these arguments *)
| Coroutine (c : call).          (* lon::io::co_..., with these arguments *)

(** [return name_sys(...)] *)
Definition call_sys (f : hooked) (c : call) (h : hooks) : outcome (target * hooks) :=
  p ← of_option NullDeref (sys h f); Ok (Original p c, h).

(** ** The wrappers *)

Definition hook_sleep (seconds : Z) (h : hooks) : outcome (target * hooks) :=
  let h := hook_init h in
  if negb (isHookEnabled h) then call_sys h_sleep (c_sleep seconds) h
  else Ok (Coroutine (c_sleep seconds), h).

Definition hook_usleep (usec : Z) (h : hooks) : outcome (target * hooks) :=
  let h := hook_init h in
  Ok (Coroutine (c_usleep usec), h).

Definition hook_nanosleep (req rem : Z) (h : hooks) : outcome (target * hooks) :=
  let h := hook_init h in
  if negb (isHookEnabled h) then call_sys h_nanosleep (c_nanosleep req rem) h
  else Ok (Coroutine (c_nanosleep req rem), h).

Definition hook_socket (domain type protocol : Z) (h : hooks) : outcome (target * hooks) :=
  let h := hook_init h in
  if negb (isHookEnabled h) then call_sys h_socket (c_socket domain type protocol) h
  else Ok (Coroutine (c_socket domain type protocol), h).

Definition hook_connect (sockfd addr addrlen : Z) (h : hooks) : outcome (target * hooks) :=
  let h := hook_init h in
  if negb (isHookEnabled h) then call_sys h_connect (c_connect sockfd addr addrlen) h
  else Ok (Coroutine (c_connect sockfd addr addrlen), h).

Definition hook_accept (s addr addrlen : Z) (h : hooks) : outcome (target * hooks) :=
  let h := hook_init h in
  if negb (isHookEnabled h) then call_sys h_accept (c_accept s addr addrlen) h
  else Ok (Coroutine (c_accept s addr addrlen), h).

Definition hook_read (fd buf count : Z) (h : hooks) : outcome (target * hooks) :=
  let h := hook_init h in
  if negb (isHookEnabled h) then call_sys h_read (c_read fd buf count) h
  else Ok (Coroutine (c_read fd buf count), h).

Definition hook_readv (fd iov iovcnt : Z) (h : hooks) : outcome (target * hooks) :=
  let h := hook_init h in
  if negb (isHookEnabled h) then call_sys h_readv (c_readv fd iov iovcnt) h
  else Ok (Coroutine (c_readv fd iov iovcnt), h).

Definition hook_recv (sockfd buf len flags : Z) (h : hooks) : outcome (target * hooks) :=
  let h := hook_init h in
  if negb (isHookEnabled h) then call_sys h_recv (c_recv sockfd buf len flags) h
  else Ok (Coroutine (c_recv sockfd buf len flags), h).

Definition hook_recvfrom (sockfd buf len flags src_addr addrlen : Z) (h : hooks) : outcome (target * hooks) :=
  let h := hook_init h in
  if negb (isHookEnabled h) then call_sys h_recvfrom (c_recvfrom sockfd buf len flags src_addr addrlen) h
  else Ok (Coroutine (c_recvfrom sockfd buf len flags src_addr addrlen), h).

Definition hook_recvmsg (sockfd msg flags : Z) (h : hooks) : outcome (target * hooks) :=
  let h := hook_init h in
  if negb (isHookEnabled h) then call_sys h_recvmsg (c_recvmsg sockfd msg flags) h
  else Ok (Coroutine (c_recvmsg sockfd msg flags), h).

Definition hook_write (fd buf count : Z) (h : hooks) : outcome (target * hooks) :=
  let h := hook_init h in
  if negb (isHookEnabled h) then call_sys h_write (c_write fd buf count) h
  else Ok (Coroutine (c_write fd buf count), h).

Definition hook_writev (fd iov iovcnt : Z) (h : hooks) : outcome (target * hooks) :=
  let h := hook_init h in
  if negb (isHookEnabled h) then call_sys h_writev (c_writev fd iov iovcnt) h
  else Ok (Coroutine (c_writev fd iov iovcnt), h).

Definition hook_send (s msg len flags : Z) (h : hooks) : outcome (target * hooks) :=
  let h := hook_init h in
  Ok (Coroutine (c_send s msg len flags), h).

Definition hook_sendto (s msg len flags to tolen : Z) (h : hooks) : outcome (target * hooks) :=
  let h := hook_init h in
  if negb (isHookEnabled h) then call_sys h_sendto (c_sendto s msg len flags to tolen) h
  else Ok (Coroutine (c_sendto s msg len flags to tolen), h).

Definition hook_sendmsg (s msg flags : Z) (h : hooks) : outcome (target * hooks) :=
  let h := hook_init h in
  if negb (isHookEnabled h) then call_sys h_sendmsg (c_sendmsg s msg flags) h
  else Ok (Coroutine (c_sendmsg s msg flags), h).

Definition hook_close (fd : Z) (h : hooks) : outcome (target * hooks) :=
  let h := hook_init h in
  if negb (isHookEnabled h) then call_sys h_close (c_close fd) h
  else Ok (Coroutine (c_close fd), h).

Definition hook_fcntl (fd cmd args : Z) (h : hooks) : outcome (target * hooks) :=
  let h := hook_init h in
  Ok (Coroutine (c_fcntl fd cmd args), h).

Definition hook_ioctl (d request args : Z) (h : hooks) : outcome (target * hooks) :=
  let h := hook_init h in
  Ok (Coroutine (c_ioctl d request args), h).

Definition hook_getsockopt (sockfd level optname optval optlen : Z) (h : hooks) : outcome (target * hooks) :=
  let h := hook_init h in
  if negb (isHookEnabled h) then call_sys h_getsockopt (c_getsockopt sockfd level optname optval optlen) h
  else Ok (Coroutine (c_getsockopt sockfd level optname optval optlen), h).

Definition hook_setsockopt (sockfd level optname optval optlen : Z) (h : hooks) : outcome (target * hooks) :=
  let h := hook_init h in
  if negb (isHookEnabled h) then call_sys h_setsockopt (c_setsockopt sockfd level optname optval optlen) h
  else Ok (Coroutine (c_setsockopt sockfd level optname optval optlen), h).

(** The wrapper that a call binds to, by its name. *)
Definition call_hooked (c : call) : hooks → outcome (target * hooks) :=
  match c with
  | c_sleep seconds => hook_sleep seconds
  | c_usleep usec => hook_usleep usec
  | c_nanosleep req rem => hook_nanosleep req rem
  | c_socket domain type protocol => hook_socket domain type protocol
  | c_connect sockfd addr addrlen => hook_connect sockfd addr addrlen
  | c_accept s addr addrlen => hook_accept s addr addrlen
  | c_read fd buf count => hook_read fd buf count
  | c_readv fd iov iovcnt => hook_readv fd iov iovcnt
  | c_recv sockfd buf len flags => hook_recv sockfd buf len flags
  | c_recvfrom sockfd buf len flags src_addr addrlen => hook_recvfrom sockfd buf len flags src_addr addrlen
  | c_recvmsg sockfd msg flags => hook_recvmsg sockfd msg flags
  | c_write fd buf count => hook_write fd buf count
  | c_writev fd iov iovcnt => hook_writev fd iov iovcnt
  | c_send s msg len flags => hook_send s msg len flags
  | c_sendto s msg len flags to tolen => hook_sendto s msg len flags to tolen
  | c_sendmsg s msg flags => hook_sendmsg s msg flags
  | c_close fd => hook_close fd
  | c_fcntl fd cmd args => hook_fcntl fd cmd args
  | c_ioctl d request args => hook_ioctl d request args
  | c_getsockopt sockfd level optname optval optlen => hook_getsockopt sockfd level optname optval optlen
  | c_setsockopt sockfd level optname optval optlen => hook_setsockopt sockfd level optname optval optlen
  end.

(** ** Properties *)

Lemma hook_init_table h f :
  G_hookInited h = false → sys (hook_init h) f = dlsym f.
Proof. intros Hi. unfold hook_init. rewrite Hi. by destruct f. Qed.

(** The pointers are those dlsym gives, once they have been looked up. *)
Definition hooks_ok (h : hooks) : Prop := G_hookInited h = true → ∀ f, sys h f = dlsym f.

Lemma hook_init_ok h : hooks_ok h → hooks_ok (hook_init h) ∧ G_hookInited (hook_init h) = true.
Proof.
  intros Hh. unfold hooks_ok. destruct (G_hookInited h) eqn:Hi.
  - unfold hook_init. rewrite Hi. auto.
  - split; [intros _ f; by apply hook_init_table|]. unfold hook_init. by rewrite Hi.
Qed.

(** The four calls that do not look at the switch. *)
Definition always_hooked (f : hooked) : bool :=
  match f with h_usleep | h_send | h_fcntl | h_ioctl => true | _ => false end.

(** What a wrapper that looks at the switch does. *)
Lemma guarded_spec h f c :
  (let h := hook_init h in
   if negb (isHookEnabled h) then call_sys f c h else Ok (Coroutine c, h)) =
  if G_hookEnabled (hook_init h) then Ok (Coroutine c, hook_init h)
  else p ← of_option NullDeref (sys (hook_init h) f); Ok (Original p c, hook_init h).
Proof. cbn zeta. unfold isHookEnabled, call_sys. by destruct (G_hookEnabled (hook_init h)). Qed.

End Hook.

Module HookEx.
Definition dlsym5 : hooked → option nat := λ f, if decide (f = h_read) then Some 5%nat else None.

End HookEx.
