(* ===== verification/Libc.v ===== *)
(** * The hooked calls in user code (src/io/hook.cpp)

    A library call as a coroutine of the event loop sees it: depending on the
    switch of Hook.v it runs the coroutine version of co_io_function.cpp or the
    original.  [hooked_call_target] ties this to the dispatch of Hook.v; the
    other lemmas say that the calls keep to the interface of the scheduler. *)

From S2P Require Import Prelude Timer FdManager Sys Executor Scheduler SchedulerInv SchedulerThm.
From S2P Require Import IOManager IOManagerThm IOThread CoIO CoIOThm EventLoop EventLoopInv EventLoopThm Hook.
From stdpp Require Import options.
Set Default Proof Using "Type*".

(** ** The hooked calls *)

(** A call of [f] runs the coroutine version or the original. *)
Definition hooked_call (enabled : bool) (f : hooked) (co original : coro) : coro :=
  if always_hooked f || enabled then co else original.

Lemma hooked_call_target dlsym h c t h' co original :
  call_hooked dlsym c h = Ok (t, h') →
  hooked_call (G_hookEnabled h) (call_fun c) co original =
    match t with Coroutine _ => co | Original _ _ => original end.
Proof.
  assert (He : G_hookEnabled (hook_init dlsym h) = G_hookEnabled h).
  { unfold hook_init. by destruct (G_hookInited h). }
  unfold hooked_call. rewrite <- He. intros Hc.
  destruct c; try (by injection Hc as <- _);
    pose proof (eq_trans (eq_sym (guarded_spec dlsym h _ _)) Hc) as Hd; clear Hc; simpl call_fun;
    destruct (G_hookEnabled (hook_init dlsym h)); try (by injection Hd as <- _);
    by apply bind_Ok in Hd as (p & _ & [= <- _]).
Qed.

Section Libc.
(** The switch, the number of suspensions of a call, and the numbers of the
    effects of the originals of [sleep] and [nanosleep], which block the thread. *)
Variable enabled : bool.
Variable n : nat.
Definition blocked : nat := 100.

Definition libc_sleep (seconds : Z) (k : coro) : coro :=
  hooked_call enabled h_sleep (sleep_code (co_sleep_ms seconds) k) (CDo blocked k).
Definition libc_usleep (usec : Z) (k : coro) : coro :=
  hooked_call enabled h_usleep (sleep_code (co_usleep_ms usec) k) (CDo blocked k).
Definition libc_nanosleep (tv_sec tv_nsec : Z) (k : coro) : coro :=
  hooked_call enabled h_nanosleep (sleep_code (co_nanosleep_ms tv_sec tv_nsec) k) (CDo blocked k).
(** [std::this_thread::sleep_for] calls nanosleep. *)
Definition sleep_for (ms : Z) : coro → coro := libc_nanosleep (ms `div` 1000) (ms `mod` 1000 * 1000000).

Definition libc_socket (domain type protocol : Z) (k : Z → Z → coro) : coro :=
  hooked_call enabled h_socket (plain_code (IoSocket domain type protocol) k)
    (plain_code (IoRawSocket domain type protocol) k).
Definition libc_connect (fd : Z) (k : Z → Z → coro) : coro :=
  hooked_call enabled h_connect (connect_code fd k) (plain_code (IoRawConnect fd) k).
Definition libc_accept (fd addr addrlen : Z) (k : Z → Z → coro) : coro :=
  hooked_call enabled h_accept (accept_code n fd addr addrlen k)
    (plain_code (IoRaw (FAccept addr addrlen) fd) k).
Definition libc_close (fd : Z) (k : Z → Z → coro) : coro :=
  hooked_call enabled h_close (plain_code (IoClose fd) k) (plain_code (IoRawClose fd) k).

(** [read], [write], ... *)
Definition libc_io (h : hooked) (f : io_fun) (fd : Z) (k : Z → Z → coro) : coro :=
  hooked_call enabled h (ioInner_code n f fd k) (plain_code (IoRaw f fd) k).
Definition libc_read (fd buf count : Z) : (Z → Z → coro) → coro := libc_io h_read (FRead buf count) fd.
Definition libc_readv (fd iov iovcnt : Z) : (Z → Z → coro) → coro := libc_io h_readv (FReadv iov iovcnt) fd.
Definition libc_recv (fd buf len flags : Z) : (Z → Z → coro) → coro := libc_io h_recv (FRecv buf len flags) fd.
Definition libc_recvfrom (fd buf len flags src addrlen : Z) : (Z → Z → coro) → coro :=
  libc_io h_recvfrom (FRecvfrom buf len flags src addrlen) fd.
Definition libc_recvmsg (fd msg flags : Z) : (Z → Z → coro) → coro := libc_io h_recvmsg (FRecvmsg msg flags) fd.
Definition libc_write (fd buf count : Z) : (Z → Z → coro) → coro := libc_io h_write (FWrite buf count) fd.
Definition libc_writev (fd iov iovcnt : Z) : (Z → Z → coro) → coro := libc_io h_writev (FWritev iov iovcnt) fd.
Definition libc_send (fd msg len flags : Z) : (Z → Z → coro) → coro := libc_io h_send (FSend msg len flags) fd.
Definition libc_sendto (fd msg len flags to_ tolen : Z) : (Z → Z → coro) → coro :=
  libc_io h_sendto (FSendto msg len flags to_ tolen) fd.
Definition libc_sendmsg (fd msg flags : Z) : (Z → Z → coro) → coro := libc_io h_sendmsg (FSendmsg msg flags) fd.

(** [fcntl] and [ioctl] hand [co_fcntl] and [co_ioctl] a va_list where these
    expect the argument: [va] is the word found there. *)
Definition libc_fcntl (va : Z) (fd : Z) (cmd : fcntl_cmd) (k : Z → Z → coro) : coro :=
  plain_code (IoFcntl fd cmd va) k.
Definition libc_ioctl (va : Z) (d request : Z) (k : Z → Z → coro) : coro :=
  plain_code (IoIoctl d request va) k.
Definition libc_setsockopt (fd level optname : Z) (optval : Z * Z) (k : Z → Z → coro) : coro :=
  hooked_call enabled h_setsockopt (plain_code (IoSetsockopt fd level optname optval) k)
    (plain_code (IoRawSetsockopt fd level optname optval) k).
End Libc.

Lemma managed_hooked V enabled f co original :
  managed V co → managed V original → managed V (hooked_call enabled f co original).
Proof. unfold hooked_call. by destruct (_ || _). Qed.

Lemma managed_do V n k : managed V k → managed V (CDo n k).
Proof. done. Qed.

Lemma managed_libc_io V enabled n h f fd k :
  (∀ r e, managed V (k r e)) → managed V (libc_io enabled n h f fd k).
Proof. intros Hk. apply managed_hooked; [by apply managed_ioInner|by apply managed_plain]. Qed.

Lemma managed_sleep_for V enabled ms k : managed V k → managed V (sleep_for enabled ms k).
Proof. intros Hk. apply managed_hooked; [by apply managed_sleep|done]. Qed.

Lemma managed_libc_accept V enabled n fd addr len k :
  (∀ r e, managed V (k r e)) → managed V (libc_accept enabled n fd addr len k).
Proof. intros Hk. apply managed_hooked; [by apply managed_accept|by apply managed_plain]. Qed.

Lemma managed_libc_socket V enabled d t p k :
  (∀ r e, managed V (k r e)) → managed V (libc_socket enabled d t p k).
Proof. intros Hk. apply managed_hooked; by apply managed_plain. Qed.

Lemma managed_libc_connect V enabled fd k :
  (∀ r e, managed V (k r e)) → managed V (libc_connect enabled fd k).
Proof. intros Hk. apply managed_hooked; [by apply managed_connect|by apply managed_plain]. Qed.

Lemma managed_libc_close V enabled fd k :
  (∀ r e, managed V (k r e)) → managed V (libc_close enabled fd k).
Proof. intros Hk. apply managed_hooked; by apply managed_plain. Qed.

#[export] Hint Resolve managed_hooked managed_libc_io managed_sleep_for managed_libc_accept
  managed_libc_socket managed_libc_connect managed_libc_close : managed_db.
