(* ===== verification/ServerLoop.v ===== *)
(** * The TCP server on the event loop (src/net/tcp/tcp_server.cpp)

    TcpServer.v describes the server turn by turn; here its accepting coroutine is
    code of the event loop, whose accept suspends until epoll reports a
    connection.  The balancer is the default one, which gives connections to the
    manager of the thread. *)

From S2P Require Import Prelude Timer FdManager Sys Executor Scheduler SchedulerInv SchedulerThm.
From S2P Require Import IOManager IOManagerThm IOThread CoIO CoIOThm EventLoop EventLoopInv EventLoopThm Hook Libc.
From stdpp Require Import options.
Set Default Proof Using "Type*".

Section Server.
Variable enabled : bool.
Variable n : nat.                     (* suspensions of a call *)
Variable addr addrlen : Z.            (* where accept puts the peer's address *)
Variable on_connection : Z → coro.    (* the task for a connection *)

(** What follows the accept of a turn: [sockopt::accept] asserts that there is a
    connection, [TcpServer::onAccept] makes its task. *)
Definition on_accept (k : coro) (fd _ : Z) : coro :=
  if fd =? -1 then abort_code
  else CNew (on_connection fd) (λ c, CAdd c (λ _, k)).

(** The accepting coroutine, which finds [serving_] true [i] times. *)
Fixpoint serve_code (i : nat) (socket : Z) : coro :=
  match i with
  | O => CRet
  | S i => libc_accept enabled n socket addr addrlen (on_accept (serve_code i socket))
  end.

(** [TcpServer::startServe]: one coroutine per socket. *)
Fixpoint start_code (i : nat) (sockets : list Z) (k : coro) : coro :=
  match sockets with
  | [] => k
  | socket :: sockets => CNew (serve_code i socket) (λ e, CAdd e (λ _, start_code i sockets k))
  end.

Lemma managed_serve V i socket :
  (∀ W fd, managed W (on_connection fd)) → managed V (serve_code i socket).
Proof.
  intros Hc. revert V. induction i as [|i IH]; intros V; [done|]. apply managed_libc_accept. intros r e.
  unfold on_accept. destruct (r =? -1); [done|]. split; [apply Hc|]. intros x. split; [by right|]. intros _. apply IH.
Qed.

Lemma managed_start V i sockets k :
  (∀ W fd, managed W (on_connection fd)) → (∀ W, managed W k) → managed V (start_code i sockets k).
Proof.
  intros Hc Hk. revert V. induction sockets as [|socket sockets IH]; intros V; [done|].
  split; [by apply managed_serve|]. intros x. split; [by right|]. intros _. apply IH.
Qed.
End Server.

Section Accept.
Context {K : Type} `{EpollLaws K} `{SocketLaws K} `{!IoCalls K}.
Variable tod : nat → Z * Z.
Variable fuel : nat.
Variable addr addrlen : Z.
Variable on_connection : Z → coro.
Implicit Types l : @loop K.

(** What a suspended accept goes on with. *)
Definition after_accept (j : nat) (socket : Z) (k : coro) : answer → coro :=
  ioInner_loop j (FAccept addr addrlen) socket (λ fd errno,
    CIo (IoAdopt fd) no_callback (λ _, on_accept on_connection k fd errno)).

(** The coroutine makes and queues the task of a connection. *)
Lemma task_queued b s l e fd k :
  loop_inv b s l → lp_pc l = Run (on_accept on_connection k fd 0) → fd ≠ -1 →
  t_cur_executor (io_rt (loop_io l)) = Some e → idle (scheduler_ (loop_io l)) →
  ∃ l' c y, star (lstep tod fuel) l l' ∧ loop_inv b s l' ∧ lp_pc l' = Run k ∧
    t_cur_executor (io_rt (loop_io l')) = Some e ∧
    ready_executors_ (scheduler_ (loop_io l')) = [Some c] ∧
    executors (io_rt (loop_io l')) !! c = Some y ∧ state_ y = Init ∧ callback_ y = Some (Body (on_connection fd)) ∧
    w_fds (lp_w l') = w_fds (lp_w l) ∧ w_kernel (lp_w l') = w_kernel (lp_w l).
Proof using Type.
  intros Hinv Hpc Hfd Hcur (Hq & Hr & Hst & Hp). unfold on_accept in Hpc.
  rewrite (proj2 (Z.eqb_neq _ _) Hfd) in Hpc.
  set (r := io_rt (loop_io l)) in *. set (c := next_eid r).
  set (r' := (construct true Init DefaultStackSize (Some (Body (on_connection fd))) r).2).
  set (c1 := mkConfig r' (scheduler_ (loop_io l)) (Run (CAdd c (λ _, k))) (lp_trace l)).
  set (c2 := mkConfig r' (set_ready [Some c] (scheduler_ (loop_io l))) (Run k) (lp_trace l)).
  assert (Hc : executors r' !! c = Some (mkExecutor true Init (idGenerate r) DefaultStackSize None (Some (Body (on_connection fd))) None))
    by apply lookup_insert_eq.
  assert (Hs : star dstep (config_of l) c2).
  { eapply (star_step _ _ c1); [|apply star_one].
    - unfold dstep, exec_code. cbn [config_of pc]. by rewrite Hpc.
    - unfold dstep, exec_code, c1. cbn [pc run_coro rt sch trace]. rewrite (get_Some c _ _ Hc). simpl.
      unfold addExecutor. by rewrite Hst, Hq. }
  apply (lift_dsteps tod fuel) in Hs. exists (with_config c2 l), c. eexists.
  split_and!; try done. apply (loop_refines tod fuel b s l); [done|]. by apply star_lstep_trans.
Qed.

(** A turn of the accepting coroutine without a connection: it waits in accept. *)
Lemma serve_waits b s l n i socket e ms m k' :
  loop_inv b s l → lp_pc l = Run (serve_code true (S n) addr addrlen on_connection (S i) socket) →
  t_cur_executor (io_rt (loop_io l)) = Some e → idle (scheduler_ (loop_io l)) →
  io_inv (loop_io l) → stopped (loop_io l) = false → 2 <= socket < 2 ^ 31 →
  socket ≠ (wakeup_pipe_fd_ (loop_io l)).1 → pollable (w_kernel (lp_w l)) socket = true →
  (∀ k ep g, interest (accept_sys socket addr addrlen k).2 ep g = interest k ep g) →
  (∀ k g, pollable (accept_sys socket addr addrlen k).2 g = pollable k g) →
  ioInner_timeout socket Read (lp_w l) = Ok (Some ms) →
  interrupted errno m (accept_sys socket addr addrlen) (w_kernel (lp_w l)) = Some (Err EAGAIN, k') → (m < fuel)%nat →
  ∃ l' flag timer, star (lstep tod fuel) l l' ∧
    calling b s l' (FAccept addr addrlen) socket flag timer e
      (after_accept n socket (serve_code true (S n) addr addrlen on_connection i socket)).
Proof.
  intros Hinv Hpc Hcur Hid Hio Hst Hfd Hw Hp Hfi Hfp Ht Hint Hm.
  destruct (call_suspends tod fuel b s l (FAccept addr addrlen) socket n
    (λ fd errno, CIo (IoAdopt fd) no_callback (λ _, on_accept on_connection
       (serve_code true (S n) addr addrlen on_connection i socket) fd errno)) e ms m k')
    as (l' & flag & timer & Hs & Hc & _); try done.
  by exists l', flag, timer.
Qed.

(** C18: a connection is taken over: when the coroutine of a listening socket waits
    in accept, nothing else is ready, epoll reports just the socket, no timer is
    due and the repeated accept (after any number of interruptions) gives a
    connection, the loop goes through [blockPending] and back into the coroutine, which takes the
    connection (non-blocking in the kernel, a blocking socket for the user), makes
    a task for it, puts it into the queue as the only ready one, and is about to
    accept the next connection. *)
Theorem connection_accepted b s l socket flag timer e j i n k1 m fd v k' :
  let f := FAccept addr addrlen in
  let k := serve_code true (S j) addr addrlen on_connection i socket in
  calling b s l f socket flag timer e (after_accept j socket k) → fd_inv (w_fds (lp_w l)) →
  let io := loop_io l in
  let iv := getNextInterval tod (timer_manager_ io) in
  interrupted wait_errno n (epoll_wait (epoll_fd_ io) epoll_wait_max_size (i32 iv.1)) (kernel_ io)
    = Some (inl [mkEvent socket Read], k1) → (n < fuel)%nat →
  filter (λ t, target_timestamp t <= clock tod (ticks iv.2)) (timers_ (timer_manager_ io)) = [] →
  (∀ io', blockPending tod fuel io = Ok io' →
     interrupted errno m (accept_sys socket addr addrlen) (kernel_ io') = Some (Ret fd, k')) →
  (m < fuel)%nat → 2 <= fd < 2 ^ 30 → status_flags k' fd = Some v →
  ∃ l' c y v', star (lstep tod fuel) l l' ∧ loop_inv b s l' ∧ lp_pc l' = Run k ∧
    t_cur_executor (io_rt (loop_io l')) = Some e ∧
    ready_executors_ (scheduler_ (loop_io l')) = [Some c] ∧
    executors (io_rt (loop_io l')) !! c = Some y ∧ state_ y = Init ∧ callback_ y = Some (Body (on_connection fd)) ∧
    fd_inv (w_fds (lp_w l')) ∧
    ctx_of (w_fds (lp_w l')) fd = Some (mkFdContext true true false true size_max size_max) ∧
    status_flags (w_kernel (lp_w l')) fd = Some v' ∧ has v' O_NONBLOCK = true.
Proof.
  intros f k Hca Hfds io iv Hint Hn Hexp Hret Hm Hfd Hv.
  destruct (waited_call_returns tod fuel b s l f socket flag timer e _ n k1 m (Ret fd) k' Hca Hint Hn Hexp Hret Hm)
    as (l1 & Hs1 & Hpc1 & Hcur1 & Hinv1 & Hk1 & Hfds1 & Hid1 & _); [done|].
  unfold after_accept in Hpc1. cbn [of_sysres] in Hpc1. rewrite ioInner_loop_answer in Hpc1.
  destruct (adopt_ok fd v (lp_w l1)) as (w2 & v' & Ha & Hi2 & Hv' & Hnb & Hio2 & _ & Hctx).
  { by rewrite Hfds1. }
  { done. }
  { by rewrite Hk1. }
  set (l2 := mkLoop w2 (Run (on_accept on_connection k fd 0)) (lp_trace l1) (lp_frames l1)).
  assert (Hs2 : lstep tod fuel l1 l2).
  { apply (task_call_step tod fuel e l1 (IoAdopt fd) no_callback (λ _, on_accept on_connection k fd 0) (Answer fd 0));
      [exact Hpc1|exact Hcur1|].
    unfold io_handle, co_accept_done. simpl. rewrite (proj2 (Z.leb_le 0 fd)) by lia. by rewrite Ha. }
  destruct (own_refines tod fuel b s l1 l2 Hinv1 Hs2) as (_ & Hinv2).
  destruct (task_queued b s l2 e fd k Hinv2) as (l3 & c & y & Hs3 & ? & ? & ? & ? & ? & ? & ? & Hf3 & Hk3);
    [done|lia|unfold loop_io; simpl; by rewrite Hio2|unfold loop_io; simpl; by rewrite Hio2|].
  exists l3, c, y, v'. split_and!; try done.
  - eapply star_trans; [exact Hs1|]. by eapply star_step.
  - by rewrite Hf3.
  - rewrite Hf3. simpl. rewrite Hctx. by rewrite decide_True.
  - by rewrite Hk3.
Qed.
End Accept.

(** ** Witnesses *)

Module ServerLoopEx.
Import SimpleKernel CoIOEx IOManagerEx IOThreadEx.

(** A connection for every byte at the listening socket; it gets descriptor 6. *)
#[export] Instance queue_io : IoCalls kernel := {
  accept_sys fd _ _ k :=
    if decide (count fd k = 0%nat) then (Err EAGAIN, k)
    else (Ret 6, set_bytes (<[fd := (count fd k - 1)%nat]> (bytes k)) k);
  read_sys fd _ n k := read_bytes fd (Z.to_nat n) k;
  readv_sys _ _ _ k := (Err EAGAIN, k);
  recv_sys _ _ _ _ k := (Err EAGAIN, k);
  recvfrom_sys _ _ _ _ _ _ k := (Err EAGAIN, k);
  recvmsg_sys _ _ _ k := (Err EAGAIN, k);
  write_sys _ _ n k := (Ret n, k);
  writev_sys _ _ _ k := (Err EAGAIN, k);
  send_sys _ _ n _ k := (Ret n, k);
  sendto_sys _ _ _ _ _ _ k := (Err EAGAIN, k);
  sendmsg_sys _ _ _ k := (Err EAGAIN, k)
}.

Definition handler (fd : Z) : coro := CDo (Z.to_nat fd) CRet.
Definition kf : kernel := mkKernel ∅ [5; 6] [] ∅ [] {[6 := 2]}.
Definition server : list coro := [serve_code true 2 0 0 handler 3 5].
Definition s0 : @loop kernel :=
  match io_thread 1 (launch server) kf fds5 with Ok l => l | _ => mkLoop w0 (Base CRet) [] ∅ end.

Lemma s0_thread : io_thread 1 (launch server) kf fds5 = Ok s0.
Proof. vm_compute. reflexivity. Qed.

(** The server waits; then a client connects. *)
Definition waits : @loop kernel := match run_loop tod 1 8 s0 with Ok l => l | _ => s0 end.
Definition called : kernel :=
  let k := w_kernel (lp_w waits) in
  mkKernel (watch k) (openfds k) [mkEvent 5 1] (<[5 := 1%nat]> (bytes k)) (pipes k) (flags k).
Definition connected : @loop kernel :=
  mkLoop (set_k called (lp_w waits)) (lp_pc waits) (lp_trace waits) (lp_frames waits).

Lemma waits_inv : loop_inv 0 1 waits.
Proof.
  apply (thread_refines tod 1 server kf fds5 s0).
  - constructor; [|constructor]. by apply managed_serve.
  - apply s0_thread.
  - apply star_lstep_trans, (run_loop_star tod 1 8). vm_compute. reflexivity.
Qed.

Definition timer5 : @Timer callback :=
  mkTimer 0 false 1100 100 (Some (Body (timeout_code (FAccept 0 0) 5 2 0))).

Lemma waits_timers : timers_ (timer_manager_ (loop_io waits)) = [timer5].
Proof. vm_compute. reflexivity. Qed.

Lemma connected_timers : timers_ (timer_manager_ (w_io (lp_w connected))) = [timer5].
Proof. vm_compute. reflexivity. Qed.

Lemma waits_io_inv : io_inv (loop_io waits).
Proof.
  apply (io_inv_ext (loop_io CallEx.waiting)); [apply CallEx.waiting_io_inv|vm_compute; reflexivity| |vm_compute; reflexivity|..].
  - assert (Hw : watch (kernel_ (loop_io waits)) = watch (kernel_ (loop_io CallEx.waiting))) by (vm_compute; reflexivity).
    assert (He : epoll_fd_ (loop_io waits) = epoll_fd_ (loop_io CallEx.waiting)) by (vm_compute; reflexivity).
    intros fd. unfold interest, simple_kernel. by rewrite Hw, He.
  - unfold timers_sorted. rewrite waits_timers. repeat constructor.
  - rewrite waits_timers. repeat constructor; by eexists.
Qed.

Lemma connected_calling :
  calling 0 1 connected (FAccept 0 0) 5 0 timer5 2
    (after_accept 0 0 handler 1 5 (serve_code true 2 0 0 handler 2 5)).
Proof.
  constructor.
  - apply loop_inv_kernel, waits_inv.
  - vm_compute. reflexivity.
  - repeat split; vm_compute; reflexivity.
  - constructor.
    + apply io_inv_kernel; [done|apply waits_io_inv].
    + vm_compute. discriminate.
    + lia.
    + vm_compute. reflexivity.
    + rewrite connected_timers. left.
    + split_and!; [eexists; vm_compute; reflexivity|vm_compute; reflexivity|vm_compute; reflexivity].
  - do 2 eexists. split_and!; [vm_compute; reflexivity|reflexivity|reflexivity].
  - eexists. vm_compute. reflexivity.
Qed.

Lemma connected_fds : fd_inv (w_fds (lp_w connected)).
Proof.
  assert (Hf : w_fds (lp_w connected) = fds5) by (vm_compute; reflexivity). rewrite Hf. apply fds5_inv.
Qed.

Lemma connection_accepted_witness :
  ∃ l' c y, star (lstep tod 1) connected l' ∧ ready_executors_ (scheduler_ (loop_io l')) = [Some c] ∧
    executors (io_rt (loop_io l')) !! c = Some y ∧ callback_ y = Some (Body (handler 6)).
Proof.
  destruct (connection_accepted tod 1 0 0 handler 0 1 connected 5 0 timer5 2 1 2 0 called 0 6 2
    (accept_sys 5 0 0 (match blockPending tod 1 (loop_io connected) with Ok io => kernel_ io | _ => called end)).2)
    as (l' & c & y & v' & Hs & _ & _ & _ & Hq & Hy & _ & Hc & _).
  - apply connected_calling.
  - apply connected_fds.
  - vm_compute. reflexivity.
  - lia.
  - vm_compute. reflexivity.
  - intros io' Hb. rewrite Hb. vm_compute in Hb. injection Hb as <-. vm_compute. reflexivity.
  - lia.
  - lia.
  - vm_compute. reflexivity.
  - exists l', c, y. auto.
Defined.
End ServerLoopEx.
