(* ===== verification/Runner.v ===== *)
(** * The example programs (src/runner)

    What programs of the library look like on the machines of Scheduler.v and
    EventLoop.v: runner_executor.cpp, runner_hook.cpp, runner_iomanager.cpp,
    runner_tcp.cpp, runner_socket.cpp and runner_balancer.cpp.  Output and calls
    that are not hooked ([bind], [listen]) are effects [CDo] with a number;
    [while (true)] loops are unrolled a given number of times, for which the
    theorems hold in general. *)

From S2P Require Import Prelude Timer FdManager Sys Executor Scheduler SchedulerInv SchedulerThm.
From S2P Require Import IOManager IOManagerThm IOThread CoIO CoIOThm EventLoop EventLoopInv EventLoopThm Hook Libc ServerLoop.
From stdpp Require Import options.
Set Default Proof Using "Type*".

(** ** runner_executor.cpp *)

Module RunnerExecutor.
(** Numbers of the effects: output lines and pauses. *)
Definition in_executor : nat := 1.
Definition after_yield : nat := 2.
Definition simplePrint : nat := 3.
Definition task_line : nat := 4.
Definition pause : nat := 5.
Definition counter_line : nat := 6.

(** The callback captures the variable [executor], which is the executor it runs
    in. *)
Definition runExecutor : coro :=
  CNew (CDo in_executor (CYield (CDo after_yield CRet))) (λ executor,
    CExec executor (CDo simplePrint (CExec executor CRet))).

(** The loop that adds [j] more tasks. *)
Fixpoint add_tasks (j : nat) (k : coro) : coro :=
  match j with
  | O => k
  | S j => CNew (CDo task_line (CDo pause CRet)) (λ e, CAdd e (λ _, CDo counter_line (add_tasks j k)))
  end.

Definition runScheduler (tasks : nat) : coro :=
  add_tasks tasks (CNew (CStop CRet) (λ e, CAdd e (λ _, CRun (CDo pause (CStop CRet))))).

(** [main]: [runExecutor] on a thread without a scheduler, whose executor is
    destroyed when it returns; then a new scheduler. *)
Definition without_scheduler : Scheduler := mkScheduler false false true false [] 0 [].

Fixpoint run_base (fuel : nat) (c : config) : outcome config :=
  match fuel with
  | O => Fault Hang
  | S fuel =>
      m ← exec_code c;
      match m with
      | Go c => run_base fuel c
      | Done => Ok c
      | Block _ | Call _ _ _ => Fault Hang
      end
  end.

Definition executor_main (fuel : nat) : outcome (list event * runtime) :=
  let '(current, r) := getCurrent runtime_init in
  c ← run_base fuel (mkConfig r without_scheduler (Base runExecutor) []);
  r ← Executor_destroy (S current) (rt c);
  p ← Scheduler_new r;
  c ← run_base fuel (mkConfig p.2 p.1 (Base (runScheduler 10)) (trace c));
  Ok (trace c, rt c).

(** The program ends: the executor runs up to its yield and again to its end;
    then the tasks run after all of them were added, in order and each to its
    end, and [run] returns to the thread's own executor. *)
Lemma main_runs :
  ∃ r, executor_main 100 = Ok
    ([EvDo (Some 1) in_executor; EvDo (Some 0) simplePrint; EvDo (Some 1) after_yield] ++
     replicate 10 (EvDo (Some 0) counter_line) ++
     (seq 3 10 ≫= λ e, [EvExec e; EvDo (Some e) task_line; EvDo (Some e) pause]) ++
     [EvExec 13; EvDo (Some 0) pause], r)%nat ∧ t_cur_executor r = Some 0%nat.
Proof. eexists. split; [vm_compute; reflexivity|reflexivity]. Qed.
End RunnerExecutor.

(** ** runner_hook.cpp *)

Module RunnerHook.
Definition AF_INET : Z := 2.
Definition SOCK_STREAM : Z := 1.
Definition SOCK_NONBLOCK : Z := 2048.

Definition sleep_line : nat := 1.
Definition bind_listen : nat := 2.
Definition connect_coming : nat := 3.
Definition message_coming : nat := 4.
Definition remote_closed : nat := 5.
Definition error_line : nat := 6.
Definition read_line : nat := 7.
Definition connect_error : nat := 8.

Section Hook.
Variable n : nat.                 (* suspensions of a call *)
Variable buf : Z.                 (* the address of a buffer *)
Definition enabled : bool := true.

Definition run_sleep : coro :=
  CDo sleep_line (libc_sleep enabled 1 (CDo sleep_line
    (libc_nanosleep enabled 0 (1000 * 1000 * 30) (CDo sleep_line CRet)))).

(** The task of a connection: [i] turns of its loop. *)
Fixpoint serve_connection (i : nat) (accept_fd : Z) : coro :=
  match i with
  | O => CThrow
  | S i =>
      CDo message_coming (libc_read enabled n accept_fd buf 1024 (λ nread errno,
        if nread =? 0 then CDo remote_closed CRet
        else if (nread =? -1) && negb (errno =? EAGAIN) then CDo error_line (serve_connection i accept_fd)
        else CDo read_line (serve_connection i accept_fd)))
  end.

(** The loop that accepts, [i] turns. *)
Fixpoint accept_loop (turns i : nat) (socket : Z) : coro :=
  match i with
  | O => CThrow
  | S i =>
      libc_accept enabled n socket 0 0 (λ accept_fd _,
        CDo connect_coming (CNew (serve_connection turns accept_fd) (λ e, CAdd e (λ _,
          accept_loop turns i socket))))
  end.

Definition run_server (turns i : nat) : coro :=
  libc_socket enabled AF_INET (Z.lor SOCK_STREAM SOCK_NONBLOCK) 0 (λ socket _,
    CDo bind_listen (accept_loop turns i socket)).

(** "test message in ", the index (0, 1 or 2) and a newline. *)
Definition message_length (index : nat) : Z := 18.

Fixpoint write_loop (i : nat) (socket len : Z) (k : coro) : coro :=
  match i with
  | O => k
  | S i => sleep_for enabled 100 (libc_write enabled n socket buf len (λ _ _, write_loop i socket len k))
  end.

Definition run_client (index : nat) : coro :=
  sleep_for enabled 5000 (libc_socket enabled AF_INET SOCK_STREAM 0 (λ socket _,
    libc_connect enabled socket (λ r _,
      let rest := write_loop 10 socket (message_length index)
                    (sleep_for enabled 10000 (libc_close enabled socket (λ _ _, CRet))) in
      if r <? 0 then CDo connect_error rest else rest))).

(** The tasks of the two threads of [main]. *)
Definition server_tasks (turns i : nat) : list coro := [run_sleep; run_server turns i].
Definition client_tasks : list coro := run_client <$> seq 0 3.

(** *** Properties *)

Lemma managed_serve_connection V i fd : managed V (serve_connection i fd).
Proof.
  induction i as [|i IH]; [done|]. apply managed_do, managed_libc_io. intros r e.
  destruct (r =? 0); [done|]. destruct (_ && _); exact IH.
Qed.

Lemma managed_accept_loop turns i fd : ∀ V, managed V (accept_loop turns i fd).
Proof.
  induction i as [|i IH]; intros V; [done|]. apply managed_libc_accept. intros r e.
  split; [apply managed_serve_connection|]. intros x. split; [by right|]. intros _. apply IH.
Qed.

Lemma managed_write_loop V i fd len k : managed V k → managed V (write_loop i fd len k).
Proof.
  intros Hk. induction i as [|i IH]; [done|]. apply managed_sleep_for, managed_libc_io. by intros _ _.
Qed.

Lemma managed_client V index : managed V (run_client index).
Proof.
  apply managed_sleep_for, managed_libc_socket. intros fd _. apply managed_libc_connect. intros r _.
  assert (Hr : managed V (write_loop 10 fd (message_length index)
    (sleep_for enabled 10000 (libc_close enabled fd (λ _ _, CRet))))).
  { by apply managed_write_loop, managed_sleep_for, managed_libc_close. }
  cbv zeta. by destruct (r <? 0).
Qed.

(** The tasks of both threads keep to the interface of the scheduler. *)
Lemma hook_tasks_managed turns i :
  Forall (managed (λ _, False)) (server_tasks turns i) ∧ Forall (managed (λ _, False)) client_tasks.
Proof.
  split.
  - constructor; [|constructor; [|constructor]].
    + apply managed_do, managed_hooked; [apply managed_sleep|]; apply managed_do, managed_hooked; try done;
        by apply managed_sleep.
    + apply managed_libc_socket. intros fd _. apply managed_accept_loop.
  - apply Forall_fmap, Forall_true. intros x. apply managed_client.
Qed.

Section Threads.
Context {K : Type} `{EpollKernel K} `{SocketCalls K} `{!IoCalls K} `{!ThreadCalls K}.
Variable tod : nat → Z * Z.
Variable fuel : nat.

(** A connection that fails for good occupies the thread: every turn of the loop
    reports the error and reads again, without a yield. *)
Lemma serve_spins i fd e t er l :
  lp_pc l = Run (serve_connection i fd) → t_cur_executor (io_rt (w_io (lp_w l))) = Some e →
  ioInner_timeout fd Read (lp_w l) = Ok t →
  read_sys fd buf 1024 (w_kernel (lp_w l)) = (Err er, w_kernel (lp_w l)) →
  er ≠ EINTR → er ≠ EAGAIN → (0 < fuel)%nat →
  star (lstep tod fuel) l
    (mkLoop (lp_w l) (Run CThrow)
       (lp_trace l ++ concat (replicate i [EvDo (Some e) message_coming; EvDo (Some e) error_line]))
       (lp_frames l)).
Proof using Type.
  intros Hpc Hcur Ht Hr Hi Ha Hf. revert l Hpc Hcur Ht Hr.
  induction i as [|i IH]; intros [w pc tr fr] Hpc Hcur Ht Hr; simpl in *; subst pc.
  { rewrite app_nil_r. apply star_refl. }
  assert (Hw : store (io_rt (w_io w)) (scheduler_ (w_io w)) w = w) by by destruct w as [[] ? ? ?].
  eapply star_step.
  { unfold lstep, loop_step. simpl. unfold with_config, config_of. simpl. rewrite Hw. reflexivity. }
  eapply star_step.
  { unfold lstep, loop_step. cbn [exec_code pc config_of lp_pc]. cbn [run_coro]. cbn -[io_handle serve_connection].
    unfold getCurrent. rewrite Hcur. cbn -[io_handle serve_connection].
    replace (set_io (set_rt (io_rt (w_io w)) (w_io w)) w) with w by by destruct w as [[] ? ? ?].
    rewrite (invoke_immediate tod fuel e (FRead buf 1024) fd _ w fr t (Err er) (w_kernel w));
      [reflexivity|done|done|simpl; congruence|simpl; congruence|done]. }
  replace (set_k (w_kernel w) w) with w by by destruct w as [[] ? ? ?].
  assert (He : (er =? EAGAIN) = false) by by apply Z.eqb_neq. 
  cbn -[serve_connection ioInner_loop]. rewrite ioInner_loop_answer. simpl. rewrite He. cbn -[serve_connection].
  eapply star_step.
  { unfold lstep, loop_step. simpl. unfold with_config, config_of. simpl. rewrite Hw. reflexivity. }
  rewrite Hcur. specialize (IH (mkLoop w (Run (serve_connection i fd)) ((tr ++ [EvDo (Some e) message_coming]) ++
    [EvDo (Some e) error_line]) fr)). simpl in IH. rewrite <-!app_assoc in *. simpl in *. by apply IH.
Qed.
End Threads.
End Hook.

Module RunnerHookEx.
Import SimpleKernel CoIOEx IOThreadEx EventLoopEx.

(** The sleeper prints, sleeps, prints, sleeps and prints; executors 3 and 4 run
    the callbacks of its timers. *)
Lemma sleep_runs :
  (l ← io_thread 1 (launch [run_sleep]) k0 FdManager_init; l ← run_loop seconds 1 100 l; Ok (lp_trace l)) =
  Ok [EvExec 2; EvDo (Some 2) sleep_line; EvExec 3; EvExec 2; EvDo (Some 2) sleep_line;
      EvExec 4; EvExec 2; EvDo (Some 2) sleep_line]%nat.
Proof. vm_compute. reflexivity. Qed.

(** A client whose connection is established runs to its end, through the wait for
    the connection, ten writes and twelve sleeps, and its descriptor is closed. *)
Lemma client_runs :
  (l ← io_thread 1 (launch [run_client 1 0 0]) (mkKernel ∅ [5; 6] [mkEvent 7 EPOLLOUT] ∅ [] ∅) FdManager_init;
   l ← run_loop seconds 1 300 l;
   c ← getContext 7 (w_fds (lp_w l));
   Ok (lp_trace l, state_ <$> executors (io_rt (w_io (lp_w l))) !! 2%nat, c)) =
  Ok ([EvExec 2; EvExec 3; EvExec 2; EvExec 2] ++ (seq 4 11 ≫= λ e, [EvExec e; EvExec 2]), Some Terminal, None)%nat.
Proof. vm_compute. reflexivity. Qed.

Definition resetting_io : IoCalls kernel :=
  {| accept_sys _ _ _ k := (Err EAGAIN, k); read_sys _ _ _ k := (Err EINVAL, k); readv_sys _ _ _ k := (Err EAGAIN, k);
     recv_sys _ _ _ _ k := (Err EAGAIN, k); recvfrom_sys _ _ _ _ _ _ k := (Err EAGAIN, k);
     recvmsg_sys _ _ _ k := (Err EAGAIN, k); write_sys _ _ n k := (Ret n, k); writev_sys _ _ _ k := (Err EAGAIN, k);
     send_sys _ _ n _ k := (Ret n, k); sendto_sys _ _ _ _ _ _ k := (Err EAGAIN, k);
     sendmsg_sys _ _ _ k := (Err EAGAIN, k) |}.

Lemma serve_spins_witness :
  let r := set_cur (Some 2%nat) runtime_init in
  let l := mkLoop (mkWorld (set_rt r IOThreadEx.io0) fds5 ∅ 0) (Run (serve_connection 1 0 3 5)) [] ∅ in
  ∃ l', star (@lstep _ _ _ resetting_io seconds 1) l l' ∧
    lp_trace l' = concat (replicate 3 [EvDo (Some 2) message_coming; EvDo (Some 2) error_line])%nat.
Proof.
  eexists. split.
  - eapply (@serve_spins 1 0 _ _ _ resetting_io seconds 1 3 5 2 (Some 100) EINVAL); try done; lia.
  - done.
Defined.
End RunnerHookEx.
End RunnerHook.

(** ** runner_iomanager.cpp *)

Module RunnerIOManager.
Definition bind_listen : nat := 1.
Definition connect_coming : nat := 2.
Definition message_coming : nat := 3.
Definition remote_closed : nat := 4.
Definition error_line : nat := 5.
Definition read_line : nat := 6.
Definition count_line : nat := 7.

Section IOManager.
Variable buf va : Z.
Definition enabled : bool := false.

(** [while ((nread = read(accept_fd, buf + _len, 1024)) > 0) _len += nread;] *)
Fixpoint read_message (i : nat) (accept_fd len : Z) (k : Z → Z → coro) : coro :=
  match i with
  | O => CThrow
  | S i =>
      libc_read enabled 0 accept_fd (buf + len) 1024 (λ nread errno,
        if 0 <? nread then read_message i accept_fd (len + nread) k else k nread errno)
  end.

Definition on_message (i : nat) (accept_fd : Z) : coro :=
  CDo message_coming (read_message i accept_fd 0 (λ nread errno,
    if nread =? 0 then CDo remote_closed CRet
    else if (nread =? -1) && negb (errno =? EAGAIN) then CDo error_line CRet
    else CDo read_line CRet)).

Definition on_connect (i : nat) (socket : Z) : coro :=
  CDo connect_coming (libc_accept enabled 0 socket 0 0 (λ accept_fd _,
    libc_fcntl va accept_fd F_SETFL (λ _ _,
      CNew (on_message i accept_fd) (λ e,
        plain_code (IoRegister accept_fd Read e false) (λ _ _, CRet))))).

Definition runEventServer (i : nat) (k : coro) : coro :=
  libc_socket enabled RunnerHook.AF_INET (Z.lor RunnerHook.SOCK_STREAM RunnerHook.SOCK_NONBLOCK) 0 (λ socket _,
    CDo bind_listen (CNew (on_connect i socket) (λ e,
      plain_code (IoRegister socket Read e false) (λ _ _, k)))).

(** The client, on a thread of its own: no hooked call waits in a coroutine. *)
Fixpoint write_messages (i : nat) (socket : Z) (k : coro) : coro :=
  match i with
  | O => k
  | S i => sleep_for enabled 100 (libc_write enabled 0 socket buf 13 (λ _ _, write_messages i socket k))
  end.

Definition runEventClient : coro :=
  libc_socket enabled RunnerHook.AF_INET RunnerHook.SOCK_STREAM 0 (λ socket _,
    libc_connect enabled socket (λ _ _, write_messages 10 socket
      (sleep_for enabled 100 (libc_close enabled socket (λ _ _, CRet))))).

Definition runTimer (interval : Z) (k : coro) : coro :=
  CIo (IoTimer interval true) (λ _ _, CDo count_line CRet) (λ _, k).

Definition iomanager_main (i : nat) : coro :=
  runEventServer i (runTimer 1000 (CRun (plain_code IoStop (λ _ _, CRet)))).
End IOManager.

Module RunnerIOManagerEx.
Import SimpleKernel CoIOEx IOThreadEx.

(** Connections are accepted as descriptor 6, on which nothing has arrived. *)
#[export] Instance accepting_io : IoCalls kernel := {
  accept_sys _ _ _ k := (Ret 6, k);
  read_sys fd _ n k := read_bytes fd (Z.to_nat n) k;
  readv_sys _ _ _ k := (Err EAGAIN, k);
  recv_sys _ _ _ _ k := (Err EAGAIN, k);
  recvfrom_sys _ _ _ _ _ _ k := (Err EAGAIN, k);
  recvmsg_sys _ _ _ k := (Err EAGAIN, k);
  write_sys _ _ n k := (Ret n, k);
  writev_sys _ _ _ k := (Err EAGAIN, k);
  send_sys _ _ n _ k := (Ret n, k);
  sendto_sys _ _ _ _ _ _ k := (Err EAGAIN, k);
  sendmsg_sys _ _ _ k := (Err EAGAIN, k)
}.

Definition start (pending : list epoll_event) : outcome (@loop kernel) :=
  io_thread 1 (iomanager_main 0 0 3) (mkKernel ∅ [5; 6] pending ∅ [] ∅) FdManager_init.

Definition seconds (n : nat) : Z * Z := (Z.of_nat n, 0).
Definition traced (steps : nat) (pending : list epoll_event) : outcome (list event) :=
  l ← start pending; l ← run_loop seconds 1 steps l; Ok (lp_trace l).

(** The client goes straight through, blocking the thread eleven times. *)
Lemma event_client_runs :
  (l ← io_thread 1 (runEventClient 0) (mkKernel ∅ [] [] ∅ [] ∅) FdManager_init;
   l ← run_loop seconds 1 50 l; m ← loop_step seconds 1 l; Ok (m, lp_trace l)) =
  Ok (None, replicate 11 (EvDo (Some 0%nat) blocked)).
Proof. vm_compute. reflexivity. Qed.

(** The repeated timer runs a new executor each time. *)
Lemma timer_repeats :
  traced 40 [] = Ok (EvDo (Some 0) bind_listen ::
    (seq 3 7 ≫= λ e, [EvExec e; EvDo (Some e) count_line]))%nat.
Proof. vm_compute. reflexivity. Qed.

(** The first connection is handled; when the listening socket is reported again
    the executor registered for it is reused, and switching to it goes through the
    context that [bzero] has overwritten. *)
Lemma second_connection_faults :
  traced 22 [mkEvent 7 EPOLLIN] = Ok ([EvDo (Some 0) bind_listen; EvExec 3; EvDo (Some 3) count_line;
    EvExec 2; EvDo (Some 2) connect_coming; EvExec 5; EvDo (Some 5) count_line])%nat ∧
  traced 30 [mkEvent 7 EPOLLIN] = Fault UseAfterFree.
Proof. split; vm_compute; reflexivity. Qed.
End RunnerIOManagerEx.
End RunnerIOManager.

(** ** runner_tcp.cpp

    The server on the event loop (ServerLoop.v), its sockets already set up. *)

Module RunnerTcp.
Definition bound : nat := 1.            (* initialised, bound and listening *)
Definition got_connection : nat := 3.
Definition closing : nat := 4.

Section Tcp.
Variable n : nat.
Variable buf bye : Z.
Definition enabled : bool := true.

(** [TcpServer::bind_server] *)
Definition bind_server (k : Z → coro) : coro :=
  libc_socket enabled RunnerHook.AF_INET RunnerHook.SOCK_STREAM 0 (λ fd _, CDo bound (k fd)).

(** What is done with a connection: greet, receive, say good-bye, close; the
    lengths of the two messages are given. *)
Definition converse (hello bye fd : Z) (k : coro) : coro :=
  CDo got_connection (libc_send enabled n fd buf hello 0 (λ _ _,
    libc_recv enabled n fd buf 1024 0 (λ _ _, CDo closing (libc_send enabled n fd buf bye 0 (λ _ _,
      libc_close enabled fd (λ _ _, k)))))).

Definition on_connection (fd : Z) : coro := converse 19 bye fd CRet.

Definition runServer (i : nat) : coro :=
  bind_server (λ socket, start_code enabled n 0 0 on_connection i [socket] (plain_code IoStop (λ _ _, CRet))).

Definition runServerBinds : coro :=
  bind_server (λ _, bind_server (λ _, bind_server (λ _, bind_server (λ _, libc_sleep enabled 10 CRet)))).

Definition tasks (i : nat) : list coro := [runServerBinds; runServer i].

Lemma managed_converse V hello b fd k : managed V k → managed V (converse hello b fd k).
Proof.
  intros Hk. apply managed_do, managed_libc_io. intros _ _. apply managed_libc_io. intros _ _.
  apply managed_do, managed_libc_io. intros _ _. by apply managed_libc_close.
Qed.

Lemma tcp_tasks_managed i : Forall (managed (λ _, False)) (tasks i).
Proof.
  constructor; [|constructor; [|constructor]].
  - do 4 (apply managed_libc_socket; intros _ _; apply managed_do). by apply managed_hooked; [apply managed_sleep|].
  - apply managed_libc_socket. intros fd _. apply managed_do, managed_start.
    + intros W c. by apply managed_converse.
    + intros W. by apply managed_plain.
Qed.
End Tcp.

Module RunnerTcpEx.
Import SimpleKernel CoIOEx IOThreadEx EventLoopEx.

(** The manager is stopped before the accepting task runs: its accept waits in
    vain, the loop ends, and the program with it.  The accepting task (4) and the
    sleeping one (2) are never resumed. *)
Lemma nothing_accepted :
  (l ← io_thread 1 (launch (tasks 1 0 0 5)) k0 FdManager_init;
   l ← run_loop seconds 1 100 l;
   m ← loop_step seconds 1 l;
   Ok (m, lp_trace l, (λ e, state_ <$> executors (io_rt (w_io (lp_w l))) !! e) <$> [2; 3; 4]%nat)) =
  Ok (None, EvExec 2 :: replicate 4 (EvDo (Some 2) bound) ++ [EvExec 3; EvDo (Some 3) bound; EvExec 4],
      [Some HoldUp; Some Terminal; Some HoldUp])%nat.
Proof. vm_compute. reflexivity. Qed.
End RunnerTcpEx.
End RunnerTcp.

(** ** runner_socket.cpp *)

Module RunnerSocket.
Definition SOCK_DGRAM : Z := 2.
Definition bound : nat := 1.
Definition received : nat := 5.

Section Socket.
Variable n : nat.
Variable buf bye : Z.
Definition enabled : bool := true.

(** The loop of [tcp], [i] turns: one connection after the other. *)
Fixpoint tcp_loop (i : nat) (socket : Z) : coro :=
  match i with
  | O => CThrow
  | S i =>
      libc_accept enabled n socket 0 0 (λ fd _,
        if fd =? -1 then abort_code
        else RunnerTcp.converse n buf 9 bye fd (tcp_loop i socket))
  end.

Definition tcp (i : nat) : coro :=
  sleep_for enabled 20 (libc_socket enabled RunnerHook.AF_INET RunnerHook.SOCK_STREAM 0 (λ fd _,
    CDo bound (tcp_loop i fd))).

Definition udp_recv : coro :=
  libc_socket enabled RunnerHook.AF_INET SOCK_DGRAM 0 (λ fd _, CDo bound
    (libc_recvfrom enabled n fd buf 1024 0 0 0 (λ _ _, CDo received CRet))).

Definition udp_send (len : Z) : coro :=
  sleep_for enabled 10 (libc_socket enabled RunnerHook.AF_INET SOCK_DGRAM 0 (λ fd _, CDo bound
    (libc_sendto enabled n fd buf len 0 0 0 (λ _ _, CRet)))).

Definition udp (len : Z) : coro :=
  CNew udp_recv (λ r, CAdd r (λ _, CNew (udp_send len) (λ s, CAdd s (λ _, CRet)))).

Definition tasks (len : Z) (i : nat) : list coro := [udp len; tcp i].

Lemma socket_tasks_managed len i : Forall (managed (λ _, False)) (tasks len i).
Proof.
  assert (Hserve : ∀ V fd, managed V (tcp_loop i fd)).
  { intros V fd. induction i as [|j IH]; [done|]. apply managed_libc_accept. intros r e.
    destruct (r =? -1); [done|]. by apply RunnerTcp.managed_converse. }
  constructor; [|constructor; [|constructor]].
  - split; [apply managed_libc_socket; intros fd _; by apply managed_do, managed_libc_io|].
    intros r. split; [by right|]. intros _.
    split; [apply managed_sleep_for, managed_libc_socket; intros fd _; by apply managed_do, managed_libc_io|].
    intros s. split; [by right|done].
  - apply managed_sleep_for, managed_libc_socket. intros fd _. apply managed_do, Hserve.
Qed.
End Socket.
End RunnerSocket.

(** ** runner_balancer.cpp

    Two servers that hand their connections to the threads of a balancer, a loop
    that distributes connections by priority, and the client.  The hand-over to
    another thread ([addRemoteTask], Balancer.v) is the effect [handed]. *)

Module RunnerBalancer.
Definition bound : nat := 1.
Definition handed : nat := 6.
Definition loop_time : nat := 8.
Definition server_count : nat := 3.

Section Balancer.
Variable n : nat.
Variable buf bye : Z.
Definition enabled : bool := true.

(** The accepting task of a server. *)
Fixpoint balanced_accept (i : nat) (socket : Z) : coro :=
  match i with
  | O => CRet
  | S i =>
      libc_accept enabled n socket 0 0 (λ fd _,
        if fd =? -1 then abort_code
        else CNew (RunnerTcp.on_connection n buf bye fd) (λ _, CDo handed (balanced_accept i socket)))
  end.

Definition start_server (i : nat) (k : coro) : coro :=
  libc_socket enabled RunnerHook.AF_INET RunnerHook.SOCK_STREAM 0 (λ fd _,
    CDo bound (CNew (balanced_accept i fd) (λ e, CAdd e (λ _, k)))).

Definition runAvg (i : nat) : coro := start_server i (start_server i CRet).

(** One connection per entry of [task_prio]. *)
Fixpoint prio_loop (task_prio : list Z) (socket : Z) (k : coro) : coro :=
  match task_prio with
  | [] => k
  | _ :: l =>
      libc_accept enabled n socket 0 0 (λ fd _,
        if fd =? -1 then abort_code
        else CNew (RunnerTcp.converse n buf 9 bye fd CRet) (λ _, CDo handed (prio_loop l socket k)))
  end.

Definition runPrio : coro :=
  libc_socket enabled RunnerHook.AF_INET RunnerHook.SOCK_STREAM 0 (λ fd _,
    CDo bound (prio_loop [1; 0; 0; 0; 0; 3; 2; 2] fd (plain_code IoStop (λ _ _, CRet)))).

(** One conversation of the client; [Socket::connect] asserts that it is
    connected.  The message is "hi, ", the name of the server and a newline. *)
Definition client_turn (k : coro) : coro :=
  libc_socket enabled RunnerHook.AF_INET RunnerHook.SOCK_STREAM 0 (λ fd _,
    libc_connect enabled fd (λ r _,
      if r =? -1 then abort_code
      else libc_recv enabled n fd buf 1024 0 (λ _ _, libc_send enabled n fd buf 6 0 (λ _ _,
             libc_recv enabled n fd buf 1024 0 (λ _ _, k))))).

Definition multiClient : coro :=
  libc_sleep enabled 3
    (Nat.iter (server_count * loop_time) client_turn (plain_code IoStop (λ _ _, CRet))).

Definition server_tasks (i : nat) : list coro := [runAvg i; runPrio].

Lemma managed_balanced_accept V i socket : managed V (balanced_accept i socket).
Proof.
  revert V. induction i as [|i IH]; intros V; [done|]. apply managed_libc_accept. intros r e.
  destruct (r =? -1); [done|]. split; [by apply RunnerTcp.managed_converse|]. intros x. apply managed_do, IH.
Qed.

Lemma managed_start_server V i k : (∀ W, managed W k) → managed V (start_server i k).
Proof.
  intros Hk. apply managed_libc_socket. intros fd _. apply managed_do. split; [apply managed_balanced_accept|].
  intros e. split; [by right|]. by intros _.
Qed.

Lemma managed_prio_loop l socket k V : (∀ W, managed W k) → managed V (prio_loop l socket k).
Proof.
  intros Hk. revert V. induction l as [|p l IH]; intros V; [done|]. apply managed_libc_accept. intros r e.
  destruct (r =? -1); [done|]. split; [by apply RunnerTcp.managed_converse|]. intros x. apply managed_do, IH.
Qed.

Lemma managed_turns V i k : managed V k → managed V (Nat.iter i client_turn k).
Proof.
  intros Hk. induction i as [|i IH]; [done|]. apply managed_libc_socket. intros fd _.
  apply managed_libc_connect. intros r _. destruct (r =? -1); [done|].
  apply managed_libc_io. intros _ _. apply managed_libc_io. intros _ _. by apply managed_libc_io.
Qed.

Lemma balancer_tasks_managed i :
  Forall (managed (λ _, False)) (server_tasks i) ∧ Forall (managed (λ _, False)) [multiClient].
Proof.
  split; constructor; [|constructor; [|constructor]| |constructor].
  - apply managed_start_server. intros W. by apply managed_start_server.
  - apply managed_libc_socket. intros fd _. apply managed_do, managed_prio_loop. intros W. by apply managed_plain.
  - apply managed_hooked; [apply managed_sleep|apply managed_do]; by apply managed_turns, managed_plain.
Qed.
End Balancer.
End RunnerBalancer.

(** ** All of them *)

Section Programs.
Context {K : Type} `{EpollKernel K} `{SocketCalls K} `{!IoCalls K} `{!ThreadCalls K}.
Variable tod : nat → Z * Z.
Variable fuel : nat.

(** The tasks of the programs that run on an IO manager with hooks enabled, for any
    number of suspensions per call and of turns per loop. *)
Inductive runner_tasks : list coro → Prop :=
| hook_server n buf turns i : runner_tasks (RunnerHook.server_tasks n buf turns i)
| hook_client n buf : runner_tasks (RunnerHook.client_tasks n buf)
| tcp_server n buf bye i : runner_tasks (RunnerTcp.tasks n buf bye i)
| socket_tasks n buf bye len i : runner_tasks (RunnerSocket.tasks n buf bye len i)
| balancer_server n buf bye i : runner_tasks (RunnerBalancer.server_tasks n buf bye i)
| balancer_client n buf : runner_tasks [RunnerBalancer.multiClient n buf].

(** The programs never break the runtime: at every moment of every run, whatever
    the kernel, the clock and the other threads do, the loop is in a configuration
    the scheduler can reach, and it is safe. *)
Lemma programs_safe tasks (k0 : K) m l0 l :
  runner_tasks tasks → io_thread fuel (launch tasks) k0 m = Ok l0 → star (loop_trans tod fuel) l0 l →
  star step (thread_config (launch tasks)) (config_of l) ∧ safe (config_of l).
Proof.
  intros Ht Hl Hs.
  assert (Hm : Forall (managed (λ _, False)) tasks).
  { destruct Ht; [apply RunnerHook.hook_tasks_managed|apply RunnerHook.hook_tasks_managed; exact 0%nat|
      apply RunnerTcp.tcp_tasks_managed|apply RunnerSocket.socket_tasks_managed|apply RunnerBalancer.balancer_tasks_managed|
      apply (RunnerBalancer.balancer_tasks_managed n buf 0 0)]. }
  split; [by eapply thread_refines|by eapply thread_safe].
Qed.
End Programs.
