(* ===== verification/Text.v ===== *)
(** * Text: decimal and hexadecimal numbers, splitting and joining

    The reference notion of a decimal numeral ([dec], [dec_value]) and the
    library's string helpers: [splitStringPiece] (src/base/string_piece.cpp),
    [join] (include/base/lstring.h), [toHex] (include/base/bytes.h). *)

From S2P Require Import Prelude.
From stdpp Require Import options.
Ltac Zify.zify_post_hook ::= Z.to_euclidean_division_equations.

(** ** Decimal numerals *)

Definition is_digit (c : ascii) : bool := (48 <=? chr c) && (chr c <=? 57).

Fixpoint dec_fuel (fuel : nat) (n : Z) : cstr :=
  match fuel with
  | O => []
  | S fuel => (if n <? 10 then [] else dec_fuel fuel (n / 10)) ++ [ch (48 + n mod 10)]
  end.

(** Decimal digits of a number below 10^20. *)
Definition dec (n : Z) : cstr := dec_fuel 20 n.

Definition dec_step (n : Z) (c : ascii) : Z := n * 10 + (chr c - 48).
Definition dec_value (s : cstr) : Z := foldl dec_step 0 s.

Lemma dec_value_snoc s c : dec_value (s ++ [c]) = dec_value s * 10 + (chr c - 48).
Proof. unfold dec_value. by rewrite foldl_app. Qed.

Lemma chr_digit d : 0 <= d < 10 → chr (ch (48 + d)) = 48 + d.
Proof. intros. apply chr_ch. lia. Qed.

Lemma digit_is_digit d : 0 <= d < 10 → is_digit (ch (48 + d)) = true.
Proof. intros. unfold is_digit. rewrite chr_digit by done. apply andb_true_iff. split; apply Z.leb_le; lia. Qed.

Lemma dec_fuel_value fuel : ∀ n, 0 <= n < 10 ^ Z.of_nat fuel → (0 < fuel)%nat →
  dec_value (dec_fuel fuel n) = n.
Proof.
  induction fuel as [|fuel IH]; intros n Hn Hf; [lia|]. simpl. rewrite dec_value_snoc.
  rewrite chr_digit by lia. rewrite Nat2Z.inj_succ, Z.pow_succ_r in Hn by lia.
  destruct (Z.ltb_spec n 10).
  - unfold dec_value; simpl. lia.
  - destruct fuel as [|fuel]; [simpl in Hn; lia|]. rewrite IH by lia. lia.
Qed.

Lemma dec_fuel_digits fuel : ∀ n, 0 <= n → Forall (λ c, is_digit c = true) (dec_fuel fuel n).
Proof.
  induction fuel as [|fuel IH]; intros n Hn; simpl; [constructor|]. apply Forall_app_1.
  - destruct (n <? 10); [constructor|]. apply IH. lia.
  - constructor; [apply digit_is_digit; lia|constructor].
Qed.

Lemma dec_fuel_length fuel : ∀ n k, 0 <= n < 10 ^ Z.of_nat k → (0 < k)%nat →
  (length (dec_fuel fuel n) <= k)%nat.
Proof.
  induction fuel as [|fuel IH]; intros n k Hn Hk; simpl; [lia|]. rewrite length_app. simpl.
  destruct (Z.ltb_spec n 10); simpl; [lia|].
  destruct k as [|[|k]]; [lia|simpl in Hn; lia|].
  rewrite Nat2Z.inj_succ, Z.pow_succ_r in Hn by lia.
  specialize (IH (n / 10) (S k)). lia.
Qed.

Lemma dec_value_dec n : 0 <= n < 10 ^ 20 → dec_value (dec n) = n.
Proof. intros. apply dec_fuel_value; simpl; lia. Qed.

Lemma dec_digits n : 0 <= n → Forall (λ c, is_digit c = true) (dec n).
Proof. apply dec_fuel_digits. Qed.

Lemma dec_fuel_nonempty fuel n : (1 <= length (dec_fuel (S fuel) n))%nat.
Proof. simpl. rewrite length_app. simpl. lia. Qed.

Lemma dec_length n k : 0 <= n < 10 ^ Z.of_nat k → (0 < k)%nat → (length (dec n) <= k)%nat.
Proof. apply dec_fuel_length. Qed.

Lemma dec_value_bound s : Forall (λ c, is_digit c = true) s → 0 <= dec_value s < 10 ^ Z.of_nat (length s).
Proof.
  induction s as [|c s IH] using rev_ind; intros Hs; [done|].
  apply Forall_app in Hs as (Hs & Hc). inversion Hc as [|? ? Hd _]; subst.
  unfold is_digit in Hd. apply andb_true_iff in Hd as (H1%Z.leb_le & H2%Z.leb_le).
  rewrite dec_value_snoc, length_app. simpl. rewrite Nat.add_1_r, Nat2Z.inj_succ, Z.pow_succ_r by lia.
  specialize (IH Hs). lia.
Qed.

(** ** Splitting and joining *)

(** [str_v.find(split_world, index)] *)
Fixpoint is_prefix (p s : cstr) : bool :=
  match p, s with
  | [], _ => true
  | x :: p, y :: s => if decide (x = y) then is_prefix p s else false
  | _, [] => false
  end.

Fixpoint find_in (w s : cstr) : option nat :=
  if is_prefix w s then Some 0%nat
  else match s with
       | [] => None
       | _ :: s => S <$> find_in w s
       end.

Definition find_from (w s : cstr) (index : nat) : option nat :=
  (λ k, index + k)%nat <$> find_in w (drop index s).

(** A piece is a pointer and a length that wraps at 2^64; a piece that leaves the
    string has no meaning. *)
Definition piece (s : cstr) (index len : Z) : outcome cstr :=
  if (0 <=? len) && (index + len <=? Z.of_nat (length s))
  then Ok (take (Z.to_nat len) (drop (Z.to_nat index) s))
  else Fault OutOfBounds.

Fixpoint split_loop (fuel : nat) (index : nat) (s w : cstr) (result : list cstr)
    : outcome (list cstr) :=
  match fuel with
  | O => Fault Hang
  | S fuel =>
      if decide (index < length s)%nat then
        match find_from w s index with
        | Some current =>
            p ← piece s (Z.of_nat index) (Z.of_nat current - Z.of_nat index - Z.of_nat (length w) + 1);
            split_loop fuel (current + 1) s w (result ++ [p])
        | None =>
            p ← piece s (Z.of_nat index) (Z.of_nat (length s) - Z.of_nat index); Ok (result ++ [p])
        end
      else Ok result
  end.

Definition splitStringPiece (str_v split_world : cstr) : outcome (list cstr) :=
  match split_world with
  | [] => Ok []
  | _ => split_loop (S (length str_v)) 0 str_v split_world []
  end.

(** [join] on strings. *)
Definition join (_break : cstr) (container : list cstr) : cstr :=
  match container with
  | [] => []
  | _ => concat (map (λ x, x ++ _break) (removelast container)) ++ List.last container []
  end.

(** [toHex] *)
Definition lut : cstr := str "0123456789abcdef".
Definition hex_digit (c : Z) : outcome ascii := of_option OutOfBounds (lut !! Z.to_nat c).

Fixpoint toHex (src : list Z) : outcome cstr :=
  match src with
  | [] => Ok []
  | c :: src =>
      a ← hex_digit (Z.shiftr c 4);
      b ← hex_digit (Z.land c 15);
      r ← toHex src; Ok (a :: b :: r)
  end.

(** ** Splitting at one character *)

(** Reference: the pieces between the separators; a separator at the end does
    not start a piece. *)
Fixpoint split_ref (c : ascii) (s : cstr) : list cstr :=
  match s with
  | [] => []
  | x :: s =>
      if decide (x = c) then [] :: split_ref c s
      else match split_ref c s with
           | [] => [[x]]
           | p :: ps => (x :: p) :: ps
           end
  end.

Lemma split_ref_find c l :
  match find_in [c] l with
  | Some k => (k < length l)%nat ∧ split_ref c l = take k l :: split_ref c (drop (S k) l)
  | None => l ≠ [] → split_ref c l = [l]
  end.
Proof.
  induction l as [|x l IH]; [by intros []|]. simpl. destruct (decide (c = x)) as [<-|Hne].
  - rewrite decide_True by done. split; [lia|]. by rewrite drop_0.
  - rewrite decide_False by congruence. destruct (find_in [c] l) as [k|]; simpl.
    + destruct IH as (Hk & IH). rewrite IH. split; [lia|done].
    + intros _. destruct l as [|y l]; [done|]. by rewrite IH.
Qed.

Lemma split_loop_ref c s fuel : ∀ index result,
  (index <= length s < index + fuel)%nat →
  split_loop fuel index s [c] result = Ok (result ++ split_ref c (drop index s)).
Proof.
  induction fuel as [|fuel IH]; intros index result Hf.
  - lia.
  - simpl. case_decide as Hi; [|rewrite drop_ge by lia; by rewrite app_nil_r].
    unfold find_from. pose proof (split_ref_find c (drop index s)) as Hr.
    assert (Hl : length (drop index s) = (length s - index)%nat) by apply length_drop.
    destruct (find_in [c] (drop index s)) as [k|]; simpl.
    + destruct Hr as (Hk & Hr). rewrite Hl in Hk. unfold piece.
      replace (Z.of_nat (index + k) - Z.of_nat index - Z.of_nat 1 + 1) with (Z.of_nat k) by lia.
      rewrite (proj2 (Z.leb_le 0 _)), (proj2 (Z.leb_le _ (Z.of_nat (length s)))) by lia. simpl.
      rewrite IH by lia. rewrite !Nat2Z.id, Hr, drop_drop.
      replace (index + S k)%nat with (index + k + 1)%nat by lia. by rewrite <- app_assoc.
    + unfold piece. rewrite (proj2 (Z.leb_le 0 _)), (proj2 (Z.leb_le _ (Z.of_nat (length s)))) by lia.
      simpl. rewrite Nat2Z.id, take_ge by (rewrite Hl; lia). rewrite Hr; [done|].
      intros Hn. rewrite Hn in Hl. simpl in Hl. lia.
Qed.

Lemma split_ref_nonempty c x s : split_ref c (x :: s) ≠ [].
Proof. simpl. case_decide; [discriminate|]. by destruct (split_ref c s). Qed.

Lemma join_cons b p q ps : join b (p :: q :: ps) = p ++ b ++ join b (q :: ps).
Proof. unfold join. simpl. destruct ps; simpl; by rewrite <- !app_assoc. Qed.

Lemma split_ref_join c s :
  Forall (λ p, c ∉ p) (split_ref c s) ∧
  (if decide (last s = Some c) then join [c] (split_ref c s) ++ [c] = s
   else join [c] (split_ref c s) = s).
Proof.
  induction s as [|x s (IHf & IH)]; [split; [constructor|done]|].
  assert (Hl : s ≠ [] → last (x :: s) = last s) by (by destruct s).
  simpl split_ref. destruct (decide (x = c)) as [->|Hne].
  - split; [constructor; [set_solver|done]|]. destruct s as [|y s]; [by rewrite decide_True|]. rewrite Hl by done.
    destruct (split_ref c (y :: s)) as [|q ps] eqn:Hr.
    { by apply split_ref_nonempty in Hr. }
    rewrite join_cons. destruct (decide (last (y :: s) = Some c)); cbn [app]; by rewrite IH.
  - destruct s as [|y s].
    { split; [repeat constructor; set_solver|]. rewrite decide_False; [done|]. simpl. congruence. }
    rewrite Hl by done. destruct (split_ref c (y :: s)) as [|q ps] eqn:Hr.
    { by apply split_ref_nonempty in Hr. }
    inversion IHf as [|? ? Hq Hps]; subst. split; [constructor; [set_solver|done]|].
    assert (Hj : join [c] ((x :: q) :: ps) = x :: join [c] (q :: ps)) by (by destruct ps).
    rewrite Hj. destruct (decide (last (y :: s) = Some c)); cbn [app]; by rewrite IH.
Qed.

Lemma split_ref_app c p s : c ∉ p → split_ref c (p ++ c :: s) = p :: split_ref c s.
Proof.
  induction p as [|x p IH]; intros Hp; simpl; [by rewrite decide_True|].
  rewrite decide_False by set_solver. by rewrite IH by set_solver.
Qed.

Lemma split_ref_one c p : c ∉ p → p ≠ [] → split_ref c p = [p].
Proof.
  intros Hp Hn. pose proof (split_ref_find c p) as Hf.
  destruct (find_in [c] p) as [k|] eqn:Hk; [|auto]. exfalso. clear Hn Hf. revert k Hk.
  induction p as [|x p IH]; intros k; [done|]. simpl. rewrite decide_False by set_solver.
  destruct (find_in [c] p) as [j|]; [|done]. intros _. apply (IH ltac:(set_solver) j). done.
Qed.

Lemma join_split c ps :
  Forall (λ p, c ∉ p) ps → last ps ≠ Some [] → split_ref c (join [c] ps) = ps.
Proof.
  induction ps as [|p ps IH]; intros Hf Hl; [done|]. apply Forall_cons in Hf as [Hp Hf].
  destruct ps as [|q ps].
  - apply split_ref_one; [done|]. intros ->. done.
  - rewrite join_cons. cbn [app]. rewrite split_ref_app by done. by rewrite IH.
Qed.

(** Splitting what was joined gives the pieces back. *)
Lemma splitStringPiece_join c ps :
  Forall (λ p, c ∉ p) ps → last ps ≠ Some [] → splitStringPiece (join [c] ps) [c] = Ok ps.
Proof.
  intros Hf Hl. unfold splitStringPiece. rewrite split_loop_ref by lia. rewrite drop_0.
  by rewrite join_split.
Qed.

(** Splitting at a separator character loses nothing: the pieces contain no
    separator and joining them gives the string back, up to one separator at
    its very end; the loop always ends and never leaves the string. *)
Lemma split_join_roundtrip c s :
  ∃ ps, splitStringPiece s [c] = Ok ps ∧ Forall (λ p, c ∉ p) ps ∧
    (if decide (last s = Some c) then join [c] ps ++ [c] = s else join [c] ps = s).
Proof.
  exists (split_ref c s). unfold splitStringPiece. rewrite split_loop_ref by lia. rewrite drop_0.
  split; [done|apply split_ref_join].
Qed.

(** With a separator of several characters the length of a piece is wrong: it
    falls short by the rest of the separator, or wraps around. *)
Lemma split_long_separator :
  splitStringPiece (str "a::b") (str "::") = Ok [str ""; str ":b"] ∧
  splitStringPiece (str "::b") (str "::") = Fault OutOfBounds.
Proof. split; vm_compute; reflexivity. Qed.

(** ** Hexadecimal *)

Definition hex_value (c : ascii) : Z :=
  if chr c <=? 57 then chr c - 48 else chr c - 87.

Fixpoint fromHex (s : cstr) : list Z :=
  match s with
  | a :: b :: s => hex_value a * 16 + hex_value b :: fromHex s
  | _ => []
  end.

Lemma hex_digit_ok d : 0 <= d < 16 → ∃ a, hex_digit d = Ok a ∧ hex_value a = d.
Proof.
  intros Hd. unfold hex_digit.
  assert (Hc : d = 0 ∨ d = 1 ∨ d = 2 ∨ d = 3 ∨ d = 4 ∨ d = 5 ∨ d = 6 ∨ d = 7 ∨ d = 8 ∨ d = 9 ∨
               d = 10 ∨ d = 11 ∨ d = 12 ∨ d = 13 ∨ d = 14 ∨ d = 15) by lia.
  repeat destruct Hc as [-> |Hc]; try (by eexists); subst d; by eexists.
Qed.

(** [toHex] writes two digits per byte and the bytes can be read back. *)
Lemma toHex_roundtrip l :
  Forall (λ b, 0 <= b < 256) l →
  ∃ s, toHex l = Ok s ∧ length s = (2 * length l)%nat ∧ fromHex s = l.
Proof.
  induction 1 as [|b l Hb Hl (s & IH & IHl & IHv)]; [by exists []|]. simpl.
  assert (H15 : Z.land b 15 = b mod 16) by (apply (Z.land_ones b 4); lia).
  assert (H4 : Z.shiftr b 4 = b / 16) by (apply Z.shiftr_div_pow2; lia).
  destruct (hex_digit_ok (b / 16)) as (x & Hx & Hxv); [lia|].
  destruct (hex_digit_ok (b mod 16)) as (y & Hy & Hyv); [lia|].
  rewrite H4, Hx, H15, Hy, IH. simpl. eexists. split; [reflexivity|]. simpl.
  split; [lia|]. rewrite IHv, Hxv, Hyv. f_equal. lia.
Qed.
