(* ===== verification/Print.v ===== *)
(** * Printing and timing helpers (include/base/print_helper.h, include/base/chrono_helper.h)

    What the overloads print is selected by the type of the value: [ty] are the
    types, [value] the values, and a function answers the text it streams to
    standard output.  [to_text] is the standard library's output of a scalar. *)

From S2P Require Import Prelude Text.
From stdpp Require Import options.
Set Default Proof Using "Type*".

Definition newline_char : ascii := ch 10.

(** [printDividing] *)
Definition printDividing_plain : cstr := str "=======================================" ++ [newline_char].
Definition printDividing (s : cstr) : cstr := replicate 10 "="%char ++ s ++ replicate 10 "="%char ++ [newline_char].

(** ** Values *)

Inductive ty := TScalar | TString | TPair (a b : ty) | TContainer (t : ty).

Fixpoint IsCoutable (t : ty) : bool :=
  match t with
  | TScalar | TString => true
  | TPair a b => IsCoutable a && IsCoutable b
  | TContainer _ => false
  end.

Inductive value :=
| VScalar (z : Z)
| VString (s : cstr)
| VPair (a b : value)
| VContainer (l : list value).

(** [v] is a value of the type. *)
Fixpoint has_type (v : value) (t : ty) {struct v} : bool :=
  match v, t with
  | VScalar _, TScalar | VString _, TString => true
  | VPair a b, TPair s u => has_type a s && has_type b u
  | VContainer l, TContainer u => forallb (λ v, has_type v u) l
  | _, _ => false
  end.

Section Print.
Variable to_text : Z → cstr.

(** [operator<<] of the standard library and of [print_container]; containers
    have none. *)
Fixpoint cout (v : value) : option cstr :=
  match v with
  | VScalar z => Some (to_text z)
  | VString s => Some s
  | VPair a b => x ← cout a; y ← cout b; Some (["["%char] ++ x ++ [","%char] ++ y ++ ["]"%char; " "%char])
  | VContainer _ => None
  end.

(** [operator<<] of a vector of printable values. *)
Definition cout_vector (l : list value) : option cstr :=
  (λ l, concat l) <$> mapM (λ i, s ← cout i; Some (s ++ [newline_char])) l.

(** [printContainer] of printable values, and of a vector of containers. *)
Definition printContainer (l : list value) (divider : ascii) : option cstr :=
  (λ l, concat l) <$> mapM (λ i, s ← cout i; Some (s ++ [divider])) l.

Definition printContainer_nested (l : list (list value)) (divider : ascii) : option cstr :=
  (λ l, concat l) <$> mapM (λ i, s ← printContainer i " "%char; Some (s ++ [divider])) l.

(** [doPrint]: the loop prints a comma behind every element but the last. *)
Fixpoint doPrint (v : value) : option cstr :=
  match v with
  | VContainer l =>
      s ← (fix elements (l : list value) : option cstr :=
             match l with
             | [] => Some []
             | x :: l' =>
                 match l' with
                 | [] => doPrint x
                 | _ => s ← doPrint x; r ← elements l'; Some (s ++ [","%char] ++ r)
                 end
             end) l;
      Some (["{"%char] ++ s ++ ["}"%char])
  | _ => cout v
  end.

Definition doPrintContainer (v : value) : option cstr := s ← doPrint v; Some (s ++ [newline_char]).

(** ** What is printed *)

Lemma cout_coutable v : ∀ t, has_type v t = true → IsCoutable t = true → is_Some (cout v).
Proof.
  induction v as [z|s|a IHa b IHb|l]; intros [| |s1 s2|u] Ht Hc; simpl in *; try done; try by eexists.
  apply andb_true_iff in Ht as [Ha Hb]. apply andb_true_iff in Hc as [Ca Cb].
  destruct (IHa s1 Ha Ca) as [x ->]. destruct (IHb s2 Hb Cb) as [y ->]. by eexists.
Qed.

(** The elements between braces, separated by commas. *)
Lemma doPrint_container l ps :
  mapM doPrint l = Some ps → doPrint (VContainer l) = Some (["{"%char] ++ join [","%char] ps ++ ["}"%char]).
Proof.
  intros Hl. cbn [doPrint].
  set (f := fix elements (l : list value) : option cstr := _). assert (Hf : f l = Some (join [","%char] ps)); [|by rewrite Hf].
  revert ps Hl. induction l as [|x l IH]; intros ps Hl; simpl in Hl; [by injection Hl as <-|].
  destruct (doPrint x) as [s|] eqn:Hx; [|done]. simpl in Hl. destruct (mapM doPrint l) as [qs|] eqn:Hq; [|done].
  simpl in Hl. injection Hl as <-. specialize (IH qs eq_refl). destruct l as [|y l].
  - simpl in Hq. injection Hq as <-. simpl. rewrite Hx. by rewrite ?app_nil_r.
  - change (f (x :: y :: l)) with (s ← doPrint x; r ← f (y :: l); Some (s ++ [","%char] ++ r)).
    rewrite Hx, IH. destruct qs as [|q qs]; [|cbn [mbind option_bind]; by rewrite join_cons]. simpl in Hq. destruct (doPrint y); [|done]. simpl in Hq.
    by destruct (mapM doPrint l).
Qed.
End Print.

(** ** Markers of test cases *)

(** [time] is the static counter; a marker is named or numbered. *)
Record CaseMarker := mkMarker { time_ : Z; sub_counter_ : Z; marker_ : cstr }.

Section Marker.
Variable to_string : Z → cstr.

Definition CaseMarker_numbered (time : Z) : CaseMarker * Z * cstr :=
  let time := time + 1 in
  (mkMarker time 0 [], time, printDividing (str "run case" ++ to_string time)).

Definition CaseMarker_named (marker : cstr) : outcome (CaseMarker * cstr) :=
  match marker with
  | [] => Throw InvalidArgument
  | _ => Ok (mkMarker 0 0 marker, printDividing (str "run case " ++ marker))
  end.

Definition printSub_named (sub_marker : cstr) (m : CaseMarker) : outcome (CaseMarker * cstr) :=
  match sub_marker with
  | [] => Throw InvalidArgument
  | _ =>
      let n := sub_counter_ m + 1 in
      Ok (mkMarker (time_ m) n (marker_ m),
          str "--- " ++ to_string n ++ str ":" ++ sub_marker ++ str " ---" ++ [newline_char])
  end.

Definition printSub (m : CaseMarker) : CaseMarker * cstr :=
  let n := sub_counter_ m + 1 in
  (mkMarker (time_ m) n (marker_ m), str "--- " ++ to_string n ++ str " ---" ++ [newline_char]).

Definition CaseMarker_destroy (m : CaseMarker) : cstr :=
  match marker_ m with
  | [] => printDividing (str "end case" ++ to_string (time_ m)) ++ [newline_char]
  | s => printDividing (str "end case " ++ s) ++ [newline_char]
  end.

(** The parts of a case are numbered from 1. *)
Fixpoint sub_cases (n : nat) (m : CaseMarker) : CaseMarker * list cstr :=
  match n with
  | O => (m, [])
  | S n => let '(m, s) := printSub m in let '(m, l) := sub_cases n m in (m, s :: l)
  end.

Lemma sub_cases_numbered n : ∀ m i,
  (i < n)%nat → (sub_cases n m).2 !! i = Some (str "--- " ++ to_string (sub_counter_ m + 1 + Z.of_nat i) ++ str " ---" ++ [newline_char]).
Proof.
  induction n as [|n IH]; intros m i Hi; [lia|]. cbn [sub_cases printSub]. cbv zeta.
  set (m1 := mkMarker _ _ _). pose proof (IH m1) as IH1. destruct (sub_cases n m1) as [m2 l]. simpl in IH1 |- *.
  destruct i as [|i]; simpl; [by rewrite Z.add_0_r|]. rewrite IH1 by lia.
  by replace (sub_counter_ m + 1 + 1 + Z.of_nat i) with (sub_counter_ m + 1 + Z.of_nat (S i)) by lia.
Qed.
End Marker.

(** ** Demonstration fields *)

(** [construct_time] is the static counter; what is printed follows. *)
Section Field.
Variable to_string : Z → cstr.

Record BaseField := mkField { construct_time_ : Z }.
Record IntField := mkIntField { base_ : BaseField; var_ : Z }.

Definition BaseField_new (construct_time : Z) : BaseField * Z * cstr :=
  let construct_time := construct_time + 1 in
  (mkField construct_time, construct_time,
   str "BaseField Ctor" ++ str "--" ++ to_string construct_time ++ [newline_char]).

Definition BaseField_destroy (f : BaseField) : cstr :=
  str "BaseField Dtor" ++ str "--" ++ to_string (construct_time_ f) ++ [newline_char].

Definition IntField_new (var construct_time : Z) : IntField * Z * cstr :=
  let '(b, construct_time, out) := BaseField_new construct_time in (mkIntField b var, construct_time, out).

Definition IntField_print (f : IntField) : cstr := str "Int Field:" ++ to_string (var_ f) ++ [newline_char].

(** Objects of one scope: made in order, destroyed in the opposite order. *)
Fixpoint scope (vars : list Z) (construct_time : Z) : list cstr * Z :=
  match vars with
  | [] => ([], construct_time)
  | v :: vars =>
      let '(f, construct_time, out) := IntField_new v construct_time in
      let '(l, construct_time) := scope vars construct_time in
      (out :: l ++ [BaseField_destroy (base_ f)], construct_time)
  end.

(** Every object reports a number of its own when it is made and when it is
    destroyed, in nested order. *)
Lemma scope_nested vars : ∀ t,
  let ids := seqZ (t + 1) (Z.of_nat (length vars)) in
  scope vars t = (((λ n, (BaseField_new (n - 1)).2) <$> ids) ++ reverse ((λ n, BaseField_destroy (mkField n)) <$> ids),
                  t + Z.of_nat (length vars)).
Proof.
  induction vars as [|v vars IH]; intros t ids; [by rewrite Z.add_0_r|].
  unfold ids. replace (Z.of_nat (length (v :: vars))) with (Z.succ (Z.of_nat (length vars))) by (simpl; lia).
  rewrite seqZ_cons by lia. replace (Z.pred (Z.succ (Z.of_nat (length vars)))) with (Z.of_nat (length vars)) by lia.
  cbn [scope IntField_new BaseField_new base_]. specialize (IH (t + 1)). cbv zeta in IH. rewrite IH.
  replace (Z.succ (t + 1)) with (t + 1 + 1) by lia. rewrite !fmap_cons, reverse_cons. f_equal; [|lia].
  simpl. replace (t + 1 - 1) with t by lia. by rewrite app_assoc.
Qed.
End Field.

(** ** Time spans *)

(** [duration_cast<milliseconds>] of a difference of nanoseconds. *)
Definition getTimeSpanMs (time_point_begin time_point_end : Z) : Z := (time_point_end - time_point_begin) ÷ 1000000.

Definition TimeSpan_destroy (to_string : Z → cstr) (case_name : cstr) (begin now : Z) : cstr :=
  case_name ++ str " cost: " ++ to_string (getTimeSpanMs begin now) ++ [newline_char].

(** [*total], a size_t. *)
Definition GetTimeSpan_destroy (begin now : Z) : Z := u64 (getTimeSpanMs begin now).

(** [now] is the clock; [func] runs between its readings. *)
Definition invokeAndMeasure {W} (now : W → Z) (func : W → W) (w : W) : Z * W :=
  let begin := now w in
  let w := func w in
  (GetTimeSpan_destroy begin (now w), w).

(** The whole milliseconds the call took. *)
Lemma invokeAndMeasure_spec {W} (now : W → Z) (func : W → W) w :
  0 <= now (func w) - now w < 2 ^ 63 →
  let ms := (invokeAndMeasure now func w).1 in ms * 1000000 <= now (func w) - now w < (ms + 1) * 1000000.
Proof.
  intros Hn. cbn [invokeAndMeasure fst]. unfold GetTimeSpan_destroy, getTimeSpanMs.
  rewrite Z.quot_div_nonneg by lia. set (d := now (func w) - now w) in *.
  assert (0 <= d / 1000000 < 2 ^ 63) by (split; [apply Z.div_pos; lia|apply Z.div_lt_upper_bound; lia]).
  rewrite u64_small by lia. pose proof (Z.div_mod d 1000000). pose proof (Z.mod_pos_bound d 1000000). lia.
Qed.
