(* ===== verification/LogStream.v ===== *)
(** * The log stream (include/logging/LogSStream.h, src/logging/LogSStream.cpp)

    A thread-local buffer of fixed size that log records are written into, and
    the integer conversions.  The operator for doubles is not modelled. *)

From S2P Require Import Prelude Text.
From stdpp Require Import options.
Ltac Zify.zify_post_hook ::= Z.to_euclidean_division_equations.

(** ** Integer conversion *)

Definition digits : cstr := str "9876543210123456789".
(** [zero[lsd]], [zero] pointing into the middle of [digits] *)
Definition zero_at (lsd : Z) : ascii := default "000"%char (digits !! Z.to_nat (9 + lsd)).
Definition digitsHex : cstr := str "0123456789ABCDEF".

(** The do-while loop; the characters in the order written. *)
Fixpoint convert_loop (fuel : nat) (i : Z) : cstr :=
  match fuel with
  | O => []
  | S fuel =>
      zero_at (Z.rem i 10) ::
      (if Z.quot i 10 =? 0 then [] else convert_loop fuel (Z.quot i 10))
  end.

(** [convert<T>] for a T of at most 64 bits: at most 20 digits. *)
Definition convert (value : Z) : cstr :=
  rev (convert_loop 20 value ++ if value <? 0 then ["-"%char] else []).

Fixpoint convertHex_loop (fuel : nat) (i : Z) : cstr :=
  match fuel with
  | O => []
  | S fuel =>
      default "000"%char (digitsHex !! Z.to_nat (i mod 16)) ::
      (if i / 16 =? 0 then [] else convertHex_loop fuel (i / 16))
  end.

Definition convertHex (value : Z) : cstr := rev (convertHex_loop 16 value).

(** ** The buffer *)

Definition LogBufferMaxLen : Z := 1024 * 5.

Record LogSStreamBuf := mkBuf { buf_ : cstr; pos_ : Z }.

Definition buf_new : LogSStreamBuf := mkBuf (replicate (Z.to_nat LogBufferMaxLen) "000"%char) 0.

(** A write of [s] at [pos_]. *)
Definition put_at (s : cstr) (b : LogSStreamBuf) : outcome cstr :=
  if pos_ b + Z.of_nat (length s) <=? Z.of_nat (length (buf_ b))
  then Ok (take (Z.to_nat (pos_ b)) (buf_ b) ++ s ++
           drop (Z.to_nat (pos_ b) + length s) (buf_ b))
  else Fault OutOfBounds.

Definition buf_free (b : LogSStreamBuf) : LogSStreamBuf := mkBuf (buf_ b) 0.

(** [append(char)], with its assertion *)
Definition append_char (c : ascii) (b : LogSStreamBuf) : outcome LogSStreamBuf :=
  _ ← assert_ (pos_ b <? LogBufferMaxLen);
  l ← put_at [c] b; Ok (mkBuf l (pos_ b + 1)).

(** [append(const char*, size_t)] *)
Definition append_mem (s : cstr) (b : LogSStreamBuf) : outcome LogSStreamBuf :=
  l ← put_at s b; Ok (mkBuf l (pos_ b + Z.of_nat (length s))).

(** [operator<<(const T&)]: [convert] also writes a NUL behind the digits. *)
Definition append_int (n : Z) (b : LogSStreamBuf) : outcome LogSStreamBuf :=
  l ← put_at (convert n ++ ["000"%char]) b;
  Ok (mkBuf l (pos_ b + Z.of_nat (length (convert n)))).

(** [operator<<(double)]: [text] is what sprintf writes for "%f", a NUL follows. *)
Definition append_double (text : cstr) (b : LogSStreamBuf) : outcome LogSStreamBuf :=
  l ← put_at (text ++ ["000"%char]) b;
  Ok (mkBuf l (pos_ b + Z.of_nat (length text))).

Inductive item :=
| PutChar (c : ascii)
| PutStr (s : cstr)        (* String, StringPiece, const char* *)
| PutInt (n : Z)
| PutDouble (text : cstr).

Definition put (i : item) (b : LogSStreamBuf) : outcome LogSStreamBuf :=
  match i with
  | PutChar c => append_char c b
  | PutStr s => append_mem s b
  | PutInt n => append_int n b
  | PutDouble text => append_double text b
  end.

(** [str()] and [getSlice()] *)
Definition stream_str (b : LogSStreamBuf) : cstr := take (Z.to_nat (pos_ b)) (buf_ b).

(** A stream in use: writes to the thread's buffer, destroyed at the end. *)
Definition log_stream (items : list item) (b : LogSStreamBuf) : outcome (cstr * LogSStreamBuf) :=
  b ← ofold put items b; Ok (stream_str b, buf_free b).

(** ** Lemmas *)

Lemma zero_at_digit i : zero_at (Z.rem i 10) = ch (48 + Z.abs i mod 10).
Proof.
  assert (Hr : Z.abs i mod 10 = Z.abs (Z.rem i 10)) by lia. rewrite Hr.
  assert (Hb : -10 < Z.rem i 10 < 10) by lia. revert Hb. generalize (Z.rem i 10). clear. intros z Hz.
  assert (Hc : z = -9 ∨ z = -8 ∨ z = -7 ∨ z = -6 ∨ z = -5 ∨ z = -4 ∨ z = -3 ∨ z = -2 ∨ z = -1 ∨ z = 0 ∨
     z = 1 ∨ z = 2 ∨ z = 3 ∨ z = 4 ∨ z = 5 ∨ z = 6 ∨ z = 7 ∨ z = 8 ∨ z = 9) by lia.
  repeat destruct Hc as [-> |Hc]; try reflexivity. subst z. reflexivity.
Qed.

Lemma convert_loop_dec fuel : ∀ i, rev (convert_loop fuel i) = dec_fuel fuel (Z.abs i).
Proof.
  induction fuel as [|fuel IH]; intros i; [done|]. simpl.
  rewrite zero_at_digit. f_equal.
  destruct (Z.eqb_spec (Z.quot i 10) 0), (Z.ltb_spec (Z.abs i) 10); try lia; [done|].
  rewrite IH. f_equal. lia.
Qed.

(** The reference: a sign and the decimal digits of the absolute value. *)
Definition decimal (n : Z) : cstr := (if n <? 0 then ["-"%char] else []) ++ dec (Z.abs n).

Lemma convert_eq n : convert n = decimal n.
Proof.
  unfold convert, decimal, dec. rewrite rev_app_distr, convert_loop_dec. f_equal.
  by destruct (n <? 0).
Qed.

Lemma decimal_length n : - 2 ^ 63 <= n < 2 ^ 64 → (1 <= length (decimal n) <= 20)%nat.
Proof.
  intros Hn. unfold decimal. rewrite length_app.
  assert (Hd : (1 <= length (dec (Z.abs n)))%nat) by apply dec_fuel_nonempty.
  destruct (Z.ltb_spec n 0); simpl.
  - pose proof (dec_length (Z.abs n) 19). lia.
  - pose proof (dec_length (Z.abs n) 20). lia.
Qed.

Definition render (i : item) : cstr :=
  match i with PutChar c => [c] | PutStr s => s | PutInt n => decimal n | PutDouble s => s end.

(** Room an item needs behind its text. *)
Definition slack (i : item) : Z := match i with PutInt _ | PutDouble _ => 1 | _ => 0 end.

Definition buf_ok (b : LogSStreamBuf) : Prop :=
  Z.of_nat (length (buf_ b)) = LogBufferMaxLen ∧ 0 <= pos_ b <= LogBufferMaxLen.

Lemma put_at_ok s t b :
  buf_ok b → pos_ b + Z.of_nat (length (s ++ t)) <= LogBufferMaxLen →
  ∃ l, put_at (s ++ t) b = Ok l ∧ buf_ok (mkBuf l (pos_ b + Z.of_nat (length s))) ∧
    stream_str (mkBuf l (pos_ b + Z.of_nat (length s))) = stream_str b ++ s.
Proof.
  intros (Hl & Hp) Hb. unfold put_at. rewrite Hl.
  rewrite (proj2 (Z.leb_le _ _)) by lia. eexists. split; [reflexivity|].
  rewrite length_app in Hb. unfold buf_ok, stream_str; cbn [buf_ pos_].
  rewrite !length_app, length_take, length_drop. split; [lia|].
  rewrite <- app_assoc, app_assoc. apply take_app_length'. rewrite length_app, length_take. lia.
Qed.

Lemma put_ok i b :
  buf_ok b → pos_ b + Z.of_nat (length (render i)) + slack i <= LogBufferMaxLen →
  ∃ b', put i b = Ok b' ∧ buf_ok b' ∧ stream_str b' = stream_str b ++ render i ∧
    pos_ b' = pos_ b + Z.of_nat (length (render i)).
Proof.
  intros Hb Hr. destruct i as [c|s|n|s]; simpl in *.
  - unfold append_char. rewrite (proj2 (Z.ltb_lt _ _)) by lia. simpl.
    destruct (put_at_ok [c] [] b Hb) as (l & Hl & Hok & Hs); [simpl; lia|]. simpl in Hl.
    rewrite Hl. simpl. eexists. split; [reflexivity|]. done.
  - unfold append_mem. destruct (put_at_ok s [] b Hb) as (l & Hl & Hok & Hs).
    { rewrite app_nil_r. lia. }
    rewrite app_nil_r in Hl. rewrite Hl. simpl. eexists. split; [reflexivity|]. done.
  - unfold append_int. rewrite convert_eq.
    destruct (put_at_ok (decimal n) ["000"%char] b Hb) as (l & Hl & Hok & Hs).
    { rewrite length_app. simpl. lia. }
    rewrite Hl. simpl. eexists. split; [reflexivity|]. done.
  - unfold append_double. destruct (put_at_ok s ["000"%char] b Hb) as (l & Hl & Hok & Hs).
    { rewrite length_app. simpl. lia. }
    rewrite Hl. simpl. eexists. split; [reflexivity|]. done.
Qed.

Lemma puts_ok items : ∀ b,
  buf_ok b → pos_ b + Z.of_nat (length (concat (render <$> items))) + 1 <= LogBufferMaxLen →
  ∃ b', ofold put items b = Ok b' ∧ buf_ok b' ∧
    stream_str b' = stream_str b ++ concat (render <$> items).
Proof.
  induction items as [|i items IH]; intros b Hb Hr; cbn [fmap list_fmap concat ofold] in *.
  { exists b. by rewrite app_nil_r. }
  rewrite length_app in Hr. assert (Hsl : slack i <= 1) by (by destruct i).
  destruct (put_ok i b Hb) as (b1 & H1 & H2 & H3 & H4); [lia|]. rewrite H1.
  destruct (IH b1 H2) as (b2 & H5 & H6 & H7); [lia|]. exists b2. split; [exact H5|].
  split; [done|]. by rewrite H7, H3, <- app_assoc.
Qed.

(** ** Properties *)

(** C38: [convert] is decimal conversion for every integer type up to 64 bits,
    the smallest negative numbers included: its text is the sign and the
    digits without leading zeros, it takes between 1 and 20 characters, and
    reading the digits back gives the absolute value. *)
Theorem convert_decimal n :
  - 2 ^ 63 <= n < 2 ^ 64 →
  convert n = decimal n ∧ (1 <= length (convert n) <= 20)%nat ∧
  dec_value (drop (if n <? 0 then 1 else 0) (convert n)) = Z.abs n.
Proof.
  intros Hn. rewrite convert_eq. split; [done|]. split; [by apply decimal_length|].
  unfold decimal. destruct (n <? 0); simpl; rewrite ?drop_0; apply dec_value_dec; lia.
Qed.

(** A log record is the concatenation of what was streamed into it, whatever
    the thread logged before, as long as it fits into the buffer with one
    character to spare; the buffer is empty for the next record. *)
Lemma log_stream_concat items b :
  buf_ok b → pos_ b = 0 →
  Z.of_nat (length (concat (render <$> items))) + 1 <= LogBufferMaxLen →
  ∃ b', log_stream items b = Ok (concat (render <$> items), b') ∧ buf_ok b' ∧ pos_ b' = 0.
Proof.
  intros Hb Hp Hr. unfold log_stream.
  destruct (puts_ok items b Hb) as (b1 & H1 & H2 & H3); [lia|]. rewrite H1. simpl.
  assert (H0 : stream_str b = []) by (unfold stream_str; by rewrite Hp).
  rewrite H3, H0. eexists. split; [reflexivity|]. split; [|done].
  destruct H2. split; simpl; [done|lia].
Qed.

(** Strings are copied without any check of the room that is left. *)
Lemma append_overflows b s :
  buf_ok b → LogBufferMaxLen < pos_ b + Z.of_nat (length s) → append_mem s b = Fault OutOfBounds.
Proof.
  intros (Hl & _) Hs. unfold append_mem, put_at. rewrite Hl.
  by rewrite (proj2 (Z.leb_gt _ _)) by lia.
Qed.

Module LogStreamEx.
Lemma convert_decimal_witness : convert (- 2 ^ 63) = decimal (- 2 ^ 63).
Proof. apply (convert_decimal (- 2 ^ 63)). lia. Defined.

Lemma buf_new_ok : buf_ok buf_new.
Proof. split; [vm_compute; reflexivity|]. vm_compute. split; discriminate. Qed.

Lemma log_stream_concat_witness :
  ∃ b', log_stream [PutStr (str "n="); PutInt (-42); PutChar "."%char] buf_new =
          Ok (str "n=-42.", b') ∧ pos_ b' = 0.
Proof.
  destruct (log_stream_concat [PutStr (str "n="); PutInt (-42); PutChar "."%char] buf_new)
    as (b' & H1 & _ & H2).
  - apply buf_new_ok.
  - reflexivity.
  - vm_compute. discriminate.
  - exists b'. split; [|exact H2]. eapply eq_trans; [exact H1|]. vm_compute. reflexivity.
Defined.

(** [testLogSStream] of runner/runner_log.cpp; sprintf prints 7.8 as 7.800000. *)
Definition testLogSStream : list item :=
  [PutInt 1; PutInt 2; PutChar "3"%char; PutStr (str "456"); PutDouble (str "7.800000")].

Lemma testLogSStream_prints : ∃ b', log_stream testLogSStream buf_new = Ok (str "1234567.800000", b').
Proof.
  destruct (log_stream_concat testLogSStream buf_new buf_new_ok) as (b' & H1 & _);
    [reflexivity|vm_compute; discriminate|].
  exists b'. eapply eq_trans; [exact H1|]. vm_compute. reflexivity.
Qed.
End LogStreamEx.
