(* ===== verification/WritableFile.v ===== *)
(** * Buffered files (include/base/file.h)

    [WritableFile] collects what is appended in a buffer and writes it with
    ::write, which may write less than asked, be interrupted or fail.  The
    kernel side (the file's contents) is a parameter with the documented
    behaviour of write(2) as hypotheses. *)

From S2P Require Import Prelude Sys.
From stdpp Require Import options.
Set Default Proof Using "Type*".

Definition G_FileBufferSize : Z := 65535.

Section WritableFile.
Context {W : Type}.
Variable write_sys : cstr → W → sysres * W.
Variable close_sys : W → sysres * W.

Record WritableFile := mkFile {
  buf_ : cstr;           (* the whole buffer *)
  pos_ : Z;
  fd_open : bool;        (* fd_ >= 0 *)
  sys : W
}.

Definition set_pos (p : Z) (f : WritableFile) : WritableFile :=
  mkFile (buf_ f) p (fd_open f) (sys f).
Definition set_sys (w : W) (f : WritableFile) : WritableFile :=
  mkFile (buf_ f) (pos_ f) (fd_open f) w.

(** [std::memcpy(buf_ + at, s, s.size())] *)
Definition memcpy_at (at_ : Z) (s : cstr) (f : WritableFile) : outcome WritableFile :=
  if at_ + Z.of_nat (length s) <=? Z.of_nat (length (buf_ f))
  then Ok (mkFile (take (Z.to_nat at_) (buf_ f) ++ s ++ drop (Z.to_nat at_ + length s) (buf_ f))
             (pos_ f) (fd_open f) (sys f))
  else Fault OutOfBounds.

(** [write]: the loop over ::write. *)
Fixpoint write (fuel : nat) (s : cstr) (w : W) : outcome (bool * W) :=
  match s with
  | [] => Ok (true, w)
  | _ =>
      match fuel with
      | O => Fault Hang
      | S fuel =>
          let '(r, w) := write_sys s w in
          match r with
          | Err e => if decide (e = EINTR) then write fuel s w else Ok (false, w)
          | Ret n => write fuel (drop (Z.to_nat n) s) w
          end
      end
  end.

Variable fuel : nat.

Definition flushBuffer (f : WritableFile) : outcome (bool * WritableFile) :=
  p ← write fuel (take (Z.to_nat (pos_ f)) (buf_ f)) (sys f);
  Ok (p.1, set_pos 0 (set_sys p.2 f)).

Definition append (s : cstr) (f : WritableFile) : outcome (bool * WritableFile) :=
  let copy_size := Z.min (Z.of_nat (length s)) (G_FileBufferSize - pos_ f) in
  f ← memcpy_at (pos_ f) (take (Z.to_nat copy_size) s) f;
  let rest := drop (Z.to_nat copy_size) s in
  let f := set_pos (pos_ f + copy_size) f in
  match rest with
  | [] => Ok (true, f)
  | _ =>
      p ← flushBuffer f;
      if p.1 : bool then
        if Z.of_nat (length rest) <? G_FileBufferSize then
          f ← memcpy_at 0 rest p.2; Ok (true, set_pos (Z.of_nat (length rest)) f)
        else
          q ← write fuel rest (sys p.2); Ok (q.1, set_sys q.2 p.2)
      else Ok (false, p.2)
  end.

Definition closeFile (f : WritableFile) : outcome (bool * WritableFile) :=
  p ← flushBuffer f;
  let '(r, w) := close_sys (sys p.2) in
  let f := set_sys w p.2 in
  match r with
  | Err _ => Ok (false, f)
  | Ret _ => Ok (p.1, f)
  end.

(** Move construction: the source gives its descriptor up. *)
Definition move_construct (other : WritableFile) : WritableFile * WritableFile :=
  (mkFile (buf_ other) (pos_ other) (fd_open other) (sys other),
   mkFile (buf_ other) (pos_ other) false (sys other)).

(** Move assignment: the target's descriptor and pending bytes are overwritten. *)
Definition move_assign (this other : WritableFile) : WritableFile * WritableFile :=
  (mkFile (buf_ other) (pos_ other) (fd_open other) (sys other),
   mkFile (buf_ other) (pos_ other) false (sys other)).

(** The destructor closes the file if it is open. *)
Definition destroy_file (f : WritableFile) : outcome WritableFile :=
  if fd_open f then p ← closeFile f; Ok p.2 else Ok f.

(** ** Frames *)

Lemma memcpy_frame p s f f' : memcpy_at p s f = Ok f' → sys f' = sys f.
Proof. unfold memcpy_at. case_match; intros [= <-]; done. Qed.

(** Whatever every ::write preserves, the operations preserve. *)
Section Frame.
Variable R : W → W → Prop.
Context `{!PreOrder R}.
Hypothesis write_step : ∀ s w r w', write_sys s w = (r, w') → R w w'.

Lemma write_frame n : ∀ s w b w', write n s w = Ok (b, w') → R w w'.
Proof.
  induction n as [|n IH]; intros [|c s] w b w' Hw; simpl in Hw; try discriminate Hw;
    try (injection Hw as _ <-; reflexivity).
  destruct (write_sys (c :: s) w) as [[k|e] w1] eqn:Hs.
  - transitivity w1; [by eapply write_step|by eapply IH].
  - case_decide; [transitivity w1; [by eapply write_step|by eapply IH]|].
    injection Hw as _ <-. by eapply write_step.
Qed.

Lemma flush_frame f b f' : flushBuffer f = Ok (b, f') → R (sys f) (sys f').
Proof.
  unfold flushBuffer. intros Hf. apply bind_Ok in Hf as ([c w] & Hw & [= _ <-]). by eapply write_frame.
Qed.

Lemma append_frame s f b f' : append s f = Ok (b, f') → R (sys f) (sys f').
Proof.
  unfold append. intros Ha. apply bind_Ok in Ha as (f1 & Hm & Ha). apply memcpy_frame in Hm. rewrite <- Hm.
  destruct (drop _ s) as [|c r]; [injection Ha as _ <-; reflexivity|].
  apply bind_Ok in Ha as ([b2 f2] & Hf & Ha). apply flush_frame in Hf. simpl in Ha, Hf.
  transitivity (sys f2); [exact Hf|]. destruct b2; [|injection Ha as _ <-; reflexivity]. case_match.
  - apply bind_Ok in Ha as (f3 & H3 & [= _ <-]). apply memcpy_frame in H3. simpl. by rewrite H3.
  - apply bind_Ok in Ha as ([b4 w4] & Hw & [= _ <-]). by eapply write_frame.
Qed.
End Frame.

(** A file whose writes are interrupted but never fail reports success. *)
Section Reliable.
Variable I : W → Prop.
Hypothesis write_keeps : ∀ s w r w', I w → write_sys s w = (r, w') → I w'.
Hypothesis only_eintr : ∀ s w e w', I w → write_sys s w = (Err e, w') → e = EINTR.

Lemma write_true n : ∀ s w b w', I w → write n s w = Ok (b, w') → b = true ∧ I w'.
Proof.
  induction n as [|n IH]; intros [|c s] w b w' Hi Hw; simpl in Hw; try discriminate Hw;
    try (injection Hw as <- <-; done).
  destruct (write_sys (c :: s) w) as [[k|e] w1] eqn:Hs; [by eapply IH, Hw; eapply write_keeps|].
  pose proof (only_eintr _ _ _ _ Hi Hs) as ->. rewrite decide_True in Hw by done.
  eapply IH, Hw. by eapply write_keeps.
Qed.

Lemma flush_true f b f' : I (sys f) → flushBuffer f = Ok (b, f') → b = true ∧ I (sys f').
Proof. intros Hi Hf. apply bind_Ok in Hf as ([c w] & Hw & [= <- <-]). by eapply write_true. Qed.

Lemma append_true s f b f' : I (sys f) → append s f = Ok (b, f') → b = true.
Proof.
  unfold append. intros Hi Ha. apply bind_Ok in Ha as (f1 & Hm & Ha). apply memcpy_frame in Hm. rewrite <- Hm in Hi.
  destruct (drop _ s) as [|c r]; [by injection Ha as <- _|].
  apply bind_Ok in Ha as ([b2 f2] & Hf & Ha). apply flush_true in Hf as [-> Hi2]; [|exact Hi]. simpl in Ha. case_match.
  - by apply bind_Ok in Ha as (f3 & H3 & [= <- _]).
  - apply bind_Ok in Ha as ([b4 w4] & Hw & [= <- _]). by eapply write_true in Hw as [-> _].
Qed.
End Reliable.

(** ** Specification *)

Variable content : W → cstr.
(** Interruptions still to come. *)
Variable stall : W → nat.

(** write(2), close(2): a prefix of the data is written, at least one character
    unless the call fails; a failed call writes nothing; interruptions come to
    an end. *)
Hypothesis write_ret : ∀ s w n w', s ≠ [] → write_sys s w = (Ret n, w') →
  0 < n <= Z.of_nat (length s) ∧ content w' = content w ++ take (Z.to_nat n) s ∧ (stall w' <= stall w)%nat.
Hypothesis write_err : ∀ s w e w', write_sys s w = (Err e, w') →
  content w' = content w ∧ (stall w' <= stall w)%nat ∧ (e = EINTR → (stall w' < stall w)%nat).
Hypothesis close_content : ∀ w r w', close_sys w = (r, w') → content w' = content w.

Definition file_ok (f : WritableFile) : Prop :=
  Z.of_nat (length (buf_ f)) = G_FileBufferSize ∧ 0 <= pos_ f <= G_FileBufferSize.

(** Bytes that are appended but not yet written. *)
Definition pending (f : WritableFile) : cstr := take (Z.to_nat (pos_ f)) (buf_ f).

Lemma write_ok n : ∀ s w, (length s + stall w <= n)%nat →
  ∃ b w', write n s w = Ok (b, w') ∧ (stall w' <= stall w)%nat ∧
    (b = true → content w' = content w ++ s) ∧
    (b = false → ∃ t, t `prefix_of` s ∧ content w' = content w ++ t).
Proof.
  induction n as [|n IH]; intros s w Hn.
  { destruct s; simpl in Hn; [|lia]. exists true, w. by rewrite app_nil_r. }
  destruct s as [|c s]; [exists true, w; by rewrite app_nil_r|]. simpl.
  destruct (write_sys (c :: s) w) as [[k|e] w1] eqn:Hw.
  - destruct (write_ret (c :: s) w k w1 (ltac:(done)) Hw) as (Hk & Hc & Hst).
    destruct (IH (drop (Z.to_nat k) (c :: s)) w1) as (b & w' & H1 & H2 & H3 & H4).
    { rewrite length_drop. lia. }
    exists b, w'. split; [exact H1|]. split; [lia|]. rewrite Hc in H3, H4. split.
    + intros Hb. by rewrite (H3 Hb), <- app_assoc, take_drop.
    + intros Hb. destruct (H4 Hb) as (t & (u & Hu) & Ht). exists (take (Z.to_nat k) (c :: s) ++ t).
      split; [|by rewrite Ht, <- app_assoc]. exists u. by rewrite <- app_assoc, <- Hu, take_drop.
  - destruct (write_err (c :: s) w e w1 Hw) as (Hc & Hle & Hi). case_decide as He.
    + destruct (IH (c :: s) w1) as (b & w' & H1 & H2 & H3 & H4); [specialize (Hi He); lia|].
      exists b, w'. rewrite Hc in H3, H4. split_and!; try done. lia.
    + exists false, w1. split_and!; try done. intros _. exists []. split; [apply prefix_nil|].
      by rewrite Hc, app_nil_r.
Qed.

Lemma flush_ok f :
  file_ok f → (Z.to_nat G_FileBufferSize + stall (sys f) <= fuel)%nat →
  ∃ b f', flushBuffer f = Ok (b, f') ∧ file_ok f' ∧ pending f' = [] ∧ fd_open f' = fd_open f ∧
    (stall (sys f') <= stall (sys f))%nat ∧
    (b = true → content (sys f') = content (sys f) ++ pending f).
Proof.
  intros (Hl & Hp) Hf. unfold flushBuffer. fold (pending f).
  destruct (write_ok fuel (pending f) (sys f)) as (b & w' & H1 & H2 & H3 & _).
  { unfold pending. rewrite length_take. lia. }
  rewrite H1. simpl. do 2 eexists. split; [reflexivity|]. split_and!; try done.
Qed.

Lemma memcpy_ok p s f :
  Z.of_nat (length (buf_ f)) = G_FileBufferSize → 0 <= p → p + Z.of_nat (length s) <= G_FileBufferSize →
  ∃ f', memcpy_at p s f = Ok f' ∧ file_ok (set_pos (p + Z.of_nat (length s)) f') ∧ sys f' = sys f ∧
    fd_open f' = fd_open f ∧ pos_ f' = pos_ f ∧
    pending (set_pos (p + Z.of_nat (length s)) f') = take (Z.to_nat p) (buf_ f) ++ s.
Proof.
  intros Hl Hp Hs. unfold memcpy_at. rewrite Hl. rewrite (proj2 (Z.leb_le _ _)) by done.
  eexists. split; [reflexivity|]. unfold file_ok, pending; simpl.
  rewrite !length_app, length_take, length_drop. split_and!; try done; try lia.
  rewrite app_assoc. apply take_app_length'. rewrite length_app, length_take. lia.
Qed.

(** One append: it returns, keeps the invariant, and on success nothing is lost. *)
Lemma append_ok s f :
  file_ok f → (Z.to_nat G_FileBufferSize + length s + stall (sys f) <= fuel)%nat →
  ∃ b f', append s f = Ok (b, f') ∧ file_ok f' ∧ fd_open f' = fd_open f ∧
    (stall (sys f') <= stall (sys f))%nat ∧
    (b = true → content (sys f') ++ pending f' = content (sys f) ++ pending f ++ s).
Proof.
  intros (Hl & Hp) Hf. unfold append.
  set (n := Z.min (Z.of_nat (length s)) (G_FileBufferSize - pos_ f)).
  assert (Hn : 0 <= n <= Z.of_nat (length s)) by lia.
  assert (Htl : Z.of_nat (length (take (Z.to_nat n) s)) = n) by (rewrite length_take; lia).
  destruct (memcpy_ok (pos_ f) (take (Z.to_nat n) s) f) as (f1 & H1 & Hok & Hsy & Hop & Hpo & Hpe);
    [done|lia|lia|]. rewrite H1. cbn [mbind outcome_bind]. rewrite Htl in Hok, Hpe. rewrite Hpo.
  set (f2 := set_pos (pos_ f + n) f1) in *. fold (pending f) in Hpe.
  destruct (drop (Z.to_nat n) s) as [|c r] eqn:Hr.
  { exists true, f2. split_and!; try done; [by rewrite <- Hsy|]. intros _.
    rewrite Hpe. simpl. rewrite Hsy. rewrite <- (take_drop (Z.to_nat n) s) at 2. rewrite Hr.
    by rewrite app_nil_r. }
  assert (Hlr : (length (c :: r) <= length s)%nat) by (rewrite <- Hr, length_drop; lia).
  destruct (flush_ok f2 Hok) as (b & f3 & H3 & Hok3 & Hpe3 & Hop3 & Hst3 & Hc3).
  { cbn [sys set_pos f2]. rewrite Hsy. lia. }
  rewrite H3. cbn [mbind outcome_bind fst snd]. simpl in Hst3, Hop3. rewrite Hsy in Hst3. rewrite Hop in Hop3.
  assert (Hall : b = true → content (sys f3) ++ c :: r = content (sys f) ++ pending f ++ s).
  { intros Hb. rewrite (Hc3 Hb), Hpe. simpl. rewrite Hsy.
    rewrite <- !app_assoc, <- Hr, take_drop. done. }
  destruct b; [|exists false, f3; split_and!; done].
  destruct (Z.ltb_spec (Z.of_nat (length (c :: r))) G_FileBufferSize) as [Hlt|Hge].
  - destruct (memcpy_ok 0 (c :: r) f3) as (f4 & H4 & Hok4 & Hsy4 & Hop4 & _ & Hpe4); [apply Hok3|lia|lia|].
    rewrite Z.add_0_l in Hok4, Hpe4. rewrite H4. cbn [mbind outcome_bind]. do 2 eexists. split; [reflexivity|].
    split_and!; try done; [by simpl; rewrite Hop4|simpl; by rewrite Hsy4|].
    intros _. rewrite Hpe4. simpl. rewrite Hsy4. by apply Hall.
  - destruct (write_ok fuel (c :: r) (sys f3)) as (b & w' & H4 & Hst4 & Hc4 & _); [lia|].
    rewrite H4. cbn [mbind outcome_bind fst snd]. do 2 eexists. split; [reflexivity|].
    split_and!; try done; [simpl; lia|]. intros Hb. change (pending (set_sys w' f3)) with (pending f3).
    rewrite Hpe3, app_nil_r. simpl. rewrite (Hc4 Hb). by apply Hall.
Qed.

(** Appending several strings; stops at the first failure. *)
Fixpoint appends (l : list cstr) (f : WritableFile) : outcome (bool * WritableFile) :=
  match l with
  | [] => Ok (true, f)
  | s :: l => p ← append s f; if p.1 : bool then appends l p.2 else Ok (false, p.2)
  end.

Lemma appends_ok l : ∀ f,
  file_ok f → (Z.to_nat G_FileBufferSize + length (concat l) + stall (sys f) <= fuel)%nat →
  ∃ b f', appends l f = Ok (b, f') ∧ file_ok f' ∧ (stall (sys f') <= stall (sys f))%nat ∧
    (b = true → content (sys f') ++ pending f' = content (sys f) ++ pending f ++ concat l).
Proof.
  induction l as [|s l IH]; intros f Hok Hf; cbn [appends concat] in *.
  { exists true, f. split_and!; try done. intros _. by rewrite app_nil_r. }
  rewrite length_app in Hf.
  destruct (append_ok s f Hok) as (b & f1 & H1 & H2 & _ & H3 & H4); [lia|]. rewrite H1. cbn [mbind outcome_bind fst snd].
  destruct b; [|exists false, f1; split_and!; done].
  destruct (IH f1 H2) as (b & f2 & H5 & H6 & H7 & H8); [lia|]. exists b, f2.
  split_and!; try done; [lia|]. intros Hb. rewrite (H8 Hb), app_assoc, (H4 eq_refl), <- !app_assoc. done.
Qed.

(** C39: appending to a file and closing it always returns, for every pattern of
    short and interrupted writes; if all calls report success, the file holds
    its old contents followed by exactly the appended strings in order, and
    nothing is left in the buffer. *)
Theorem file_append_close l f :
  file_ok f → (Z.to_nat G_FileBufferSize + length (concat l) + stall (sys f) <= fuel)%nat →
  pending f = [] →
  ∃ b f1 b' f2, appends l f = Ok (b, f1) ∧ closeFile f1 = Ok (b', f2) ∧ pending f2 = [] ∧
    (b = true → b' = true → content (sys f2) = content (sys f) ++ concat l).
Proof.
  intros Hok Hf Hp. destruct (appends_ok l f Hok Hf) as (b & f1 & H1 & H2 & H3 & H4).
  destruct (flush_ok f1 H2) as (c & f2 & H5 & H6 & H7 & _ & H8 & H9); [lia|].
  unfold closeFile. destruct (close_sys (sys f2)) as [r w] eqn:Hc. pose proof (close_content _ _ _ Hc) as Hcc.
  exists b, f1, (match r with Ret _ => c | Err _ => false end), (set_sys w f2).
  split; [done|]. rewrite H5. simpl. rewrite Hc. split; [by destruct r|]. split; [exact H7|].
  intros Hb Hb'. destruct r; [|done]. simpl. rewrite Hcc, (H9 Hb'), (H4 Hb), Hp. done.
Qed.

End WritableFile.

Module WritableFileEx.
(** A file whose writes are interrupted now and then and write at most three
    characters. *)
Record disk := mkDisk { data : cstr; intr : nat }.
Definition write3 (s : cstr) (w : disk) : sysres * disk :=
  match intr w with
  | S n => if decide (s = []) then (Ret 0, w) else (Err EINTR, mkDisk (data w) n)
  | O => (Ret (Z.of_nat (3 `min` length s)), mkDisk (data w ++ take 3 s) 0)
  end.
Definition f0 : @WritableFile disk :=
  mkFile (replicate (Z.to_nat G_FileBufferSize) "000"%char) 0 true (mkDisk (str "old ") 2).

Lemma file_append_close_witness :
  ∃ b f1 b' f2, appends write3 (Z.to_nat 100000) [str "hello "; str "world"] f0 = Ok (b, f1) ∧
    closeFile write3 (λ w, (Ret 0, w)) (Z.to_nat 100000) f1 = Ok (b', f2) ∧
    (b = true → b' = true → data (sys f2) = str "old hello world").
Proof.
  destruct (file_append_close write3 (λ w, (Ret 0, w)) (Z.to_nat 100000) data intr) with
    (l := [str "hello "; str "world"]) (f := f0) as (b & f1 & b' & f2 & H1 & H2 & _ & H3).
  - intros s w n w' Hs. unfold write3. destruct (intr w) eqn:Hi; [|by case_decide].
    intros Heq. assert (n = Z.of_nat (3 `min` length s)) as -> by congruence.
    assert (w' = mkDisk (data w ++ take 3 s) 0) as -> by congruence. cbn [data intr].
    assert (0 < length s)%nat by (destruct s; simpl; [done|lia]).
    split; [lia|]. split; [|lia]. f_equal.
    rewrite Nat2Z.id. set (l := s). destruct (le_lt_dec (length l) 3) as [Hle|Hgt].
    + rewrite Nat.min_r by lia. by rewrite !take_ge by lia.
    + by rewrite Nat.min_l by lia.
  - intros s w e w'. unfold write3. destruct (intr w) eqn:Hi; [done|]. case_decide; [done|].
    intros [= <- <-]. simpl. split_and!; [done|lia|lia].
  - by intros w r w' [= _ <-].
  - split; [vm_compute; reflexivity|]. cbn [pos_ f0]. unfold G_FileBufferSize. lia.
  - change (length (concat [str "hello "; str "world"])) with 11%nat.
    change (intr (sys f0)) with 2%nat. unfold G_FileBufferSize. lia.
  - reflexivity.
  - exists b, f1, b', f2. auto.
Defined.
End WritableFileEx.
