(* ===== verification/Address.v ===== *)
(** * Socket addresses (include/net/address.h, src/net/address.cpp)

    Parsing of "host:port", ports, IPv4 and IPv6 addresses and their text, and
    the order on addresses.  [inet_pton], [inet_ntop], [getaddrinfo],
    [if_indextoname] and the formatting library are parameters.  The machine is
    little-endian, so [htons] swaps bytes. *)

From S2P Require Import Prelude Text.
From stdpp Require Import options.
Set Default Proof Using "Type*".
Ltac Zify.zify_post_hook ::= Z.to_euclidean_division_equations.

Definition AF_UNSPEC := 0.
Definition AF_INET := 2.
Definition AF_INET6 := 10.

Definition htons (x : Z) : Z := (x mod 256) * 256 + x / 256 mod 256.
Definition ntohs := htons.
Definition ntohl (x : Z) : Z :=
  (x mod 256) * 2 ^ 24 + (x / 2 ^ 8 mod 256) * 2 ^ 16 + (x / 2 ^ 16 mod 256) * 2 ^ 8 + x / 2 ^ 24 mod 256.

(** ** HostAndPortParser *)

(** [strrchr]: what is before and behind the last occurrence. *)
Fixpoint split_last (c : ascii) (s : cstr) : option (cstr * cstr) :=
  match s with
  | [] => None
  | x :: s =>
      match split_last c s with
      | Some (a, b) => Some (x :: a, b)
      | None => if decide (x = c) then Some ([], s) else None
      end
  end.

(** A bracketed host loses its brackets. *)
Definition unbracket (host : cstr) : cstr :=
  match host with
  | c :: r =>
      if decide (c = "["%char ∧ last host = Some "]"%char) then removelast r else host
  | [] => []
  end.

Definition HostAndPortParser (host_and_port : cstr) : outcome (cstr * cstr) :=
  match split_last ":"%char host_and_port with
  | None => Throw InvalidArgument
  | Some (host, port) => Ok (unbracket host, port)
  end.

(** ** getPortFromString *)

Fixpoint port_loop (s : cstr) (port_num : Z) : outcome Z :=
  match s with
  | [] => Ok (u16 port_num)
  | c :: s =>
      if negb (is_digit c) then Throw InvalidArgument
      else
        let port_num := port_num * 10 + (chr c - 48) in
        if 65536 <=? port_num then Throw InvalidArgument else port_loop s port_num
  end.

Definition getPortFromString (port : cstr) : outcome Z :=
  if (5 <? length port)%nat then Throw InvalidArgument else port_loop port 0.

(** ** Addresses *)

Record sockaddr_in := mkIn { sin_family : Z; sin_port : Z; s_addr : Z; sin_zero : list Z }.
Record sockaddr_in6 := mkIn6 {
  sin6_family : Z; sin6_port : Z; sin6_flowinfo : Z; sin6_addr : list Z; sin6_scope_id : Z
}.

(** The classes derived from SockAddress. *)
Inductive SockAddress :=
| IPV4Address (addr_ : sockaddr_in)
| IPV6Address (addr_ : sockaddr_in6)
| UnixAddress (sun_family : Z) (sun_path : list Z).

(** Little-endian bytes. *)
Definition bytes2 (x : Z) : list Z := [x mod 256; x / 256 mod 256].
Definition bytes4 (x : Z) : list Z := bytes2 (x mod 65536) ++ bytes2 (x / 65536).

(** [getAddr()]: the bytes of the raw address. *)
Definition getAddr (a : SockAddress) : list Z :=
  match a with
  | IPV4Address x => bytes2 (sin_family x) ++ bytes2 (sin_port x) ++ bytes4 (s_addr x) ++ sin_zero x
  | IPV6Address x => bytes2 (sin6_family x) ++ bytes2 (sin6_port x) ++ bytes4 (sin6_flowinfo x) ++
                     sin6_addr x ++ bytes4 (sin6_scope_id x)
  | UnixAddress f p => bytes2 f ++ p
  end.

Definition getAddrLen (a : SockAddress) : nat := length (getAddr a).

Definition getFamily (a : SockAddress) : Z :=
  match a with
  | IPV4Address x => sin_family x
  | IPV6Address x => sin6_family x
  | UnixAddress f _ => f
  end.

Definition isInetFamily (a : SockAddress) : bool :=
  if getFamily a =? AF_INET then true else if getFamily a =? AF_INET6 then true else false.

(** [memcmp] of the first n bytes: the sign of the first difference. *)
Fixpoint memcmp (n : nat) (a b : list Z) : Z :=
  match n, a, b with
  | S n, x :: a, y :: b => if x <? y then -1 else if y <? x then 1 else memcmp n a b
  | _, _, _ => 0
  end.

(** [operator<] *)
Definition addr_lt (a b : SockAddress) : bool :=
  let minlen := (getAddrLen a `min` getAddrLen b)%nat in
  let result := memcmp minlen (getAddr a) (getAddr b) in
  if result <? 0 then true
  else if result >? 0 then false
  else (getAddrLen a <? getAddrLen b)%nat.

(** [operator==] *)
Definition addr_eq (a b : SockAddress) : bool :=
  (getAddrLen a =? getAddrLen b)%nat && (memcmp (getAddrLen a) (getAddr a) (getAddr b) =? 0).

Definition addr_ne (a b : SockAddress) : bool := negb (addr_eq a b).

Definition in_init : sockaddr_in := mkIn AF_UNSPEC 0 0 (replicate 8 0).
Definition in6_init : sockaddr_in6 := mkIn6 AF_UNSPEC 0 0 (replicate 16 0) 0.

Definition AI_PASSIVE := 1.
Definition AI_NUMERICSERV := 1024.

(** The hints [getaddrinfo] is called with. *)
Record addr_hints := mkHints { ai_family : Z; ai_socktype : Z; ai_flags : Z }.

(** A zeroed [sockaddr_un]. *)
Definition un_init : SockAddress := UnixAddress AF_UNSPEC (replicate 108 0).

Section Text.
(** [fmt::format("{}", n)] of an unsigned number. *)
Variable fmt_u : Z → cstr.
(** [inet_pton]: the address in network order, or not an address. *)
Variable inet_pton : cstr → option Z.
Variable inet_pton6 : cstr → option (list Z).
(** [inet_ntop(AF_INET6)], null on failure, and [if_indextoname] *)
Variable inet_ntop6 : list Z → option cstr.
Variable if_indextoname : Z → option cstr.
(** [getaddrinfo]: the first result (family, length, address). *)
Variable getaddrinfo : addr_hints → cstr → cstr → option (Z * Z * SockAddress).

Definition set4 (host : cstr) (port : Z) (a : sockaddr_in) : outcome sockaddr_in :=
  match inet_pton host with
  | None => Throw InvalidArgument
  | Some ip => Ok (mkIn AF_INET (htons port) ip (sin_zero a))
  end.

(** The overloads of [IPV4Address::setByHostAndPort] *)
Definition set4_str (host port : cstr) (a : sockaddr_in) : outcome sockaddr_in :=
  p ← getPortFromString port; set4 host p a.
Definition set4_both (host_and_port : cstr) (a : sockaddr_in) : outcome sockaddr_in :=
  hp ← HostAndPortParser host_and_port; set4_str hp.1 hp.2 a.

Definition getAddressStr4 (a : sockaddr_in) : cstr :=
  let addr_num := ntohl (s_addr a) in
  fmt_u (Z.land (Z.shiftr addr_num 24) 255) ++ str "." ++
  fmt_u (Z.land (Z.shiftr addr_num 16) 255) ++ str "." ++
  fmt_u (Z.land (Z.shiftr addr_num 8) 255) ++ str "." ++
  fmt_u (Z.land addr_num 255).

Definition toString4 (a : sockaddr_in) : cstr :=
  getAddressStr4 a ++ str ":" ++ fmt_u (ntohs (sin_port a)).

Definition setPort4 (port : Z) (a : sockaddr_in) : sockaddr_in :=
  mkIn (sin_family a) (htons port) (s_addr a) (sin_zero a).
Definition getPort4 (a : sockaddr_in) : Z := ntohs (sin_port a).

Definition set6 (host : cstr) (port : Z) (a : sockaddr_in6) : outcome sockaddr_in6 :=
  match inet_pton6 host with
  | None => Throw InvalidArgument
  | Some ip => Ok (mkIn6 AF_INET6 (htons port) (sin6_flowinfo a) ip (sin6_scope_id a))
  end.
Definition set6_str (host port : cstr) (a : sockaddr_in6) : outcome sockaddr_in6 :=
  p ← getPortFromString port; set6 host p a.
Definition set6_both (host_and_port : cstr) (a : sockaddr_in6) : outcome sockaddr_in6 :=
  hp ← HostAndPortParser host_and_port; set6_str hp.1 hp.2 a.

Definition getAddressStr6 (a : sockaddr_in6) : outcome cstr :=
  match inet_ntop6 (sin6_addr a) with
  | None => h ← toHex (sin6_addr a); Ok (str "invalid ipv6 address with hex:" ++ h)
  | Some buffer =>
      Ok (if sin6_scope_id a =? 0 then buffer
          else buffer ++ str "%" ++
               match if_indextoname (sin6_scope_id a) with
               | Some n => n
               | None => take 15 (dec (sin6_scope_id a))
               end)
  end.

Definition toString6 (a : sockaddr_in6) : outcome cstr :=
  s ← getAddressStr6 a; Ok (s ++ str ":" ++ fmt_u (ntohs (sin6_port a))).

Definition setPort6 (port : Z) (a : sockaddr_in6) : sockaddr_in6 :=
  mkIn6 (sin6_family a) (htons port) (sin6_flowinfo a) (sin6_addr a) (sin6_scope_id a).
Definition getPort6 (a : sockaddr_in6) : Z := ntohs (sin6_port a).

Definition getAddrInfo (host port : cstr) (flags : Z) : outcome (Z * Z * SockAddress) :=
  match getaddrinfo (mkHints AF_UNSPEC 1 (Z.lor (Z.lor AI_PASSIVE AI_NUMERICSERV) flags)) host port with
  | None => Throw InvalidArgument
  | Some r => Ok r
  end.

(** [IPAddress::create]; [None] is a null pointer. *)
Definition create (host port : cstr) : outcome (option SockAddress) :=
  info ← getAddrInfo host port 0;
  let '(family, addrlen, addr) := info in
  if family =? AF_INET then
    if addrlen <? 16 then Throw InvalidArgument else Ok (Some addr)
  else if family =? AF_INET6 then
    if addrlen <? 28 then Throw InvalidArgument else Ok (Some addr)
  else Ok None.
Definition create_port (host : cstr) (port : Z) : outcome (option SockAddress) := create host (dec port).
Definition create_both (host_and_port : cstr) : outcome (option SockAddress) :=
  hp ← HostAndPortParser host_and_port; create hp.1 hp.2.

(** The constructors. *)
Definition IPV4Address_both (host_and_port : cstr) : outcome SockAddress :=
  a ← set4_both host_and_port in_init; Ok (IPV4Address a).
Definition IPV4Address_str (host port : cstr) : outcome SockAddress :=
  a ← set4_str host port in_init; Ok (IPV4Address a).
Definition IPV4Address_port (host : cstr) (port : Z) : outcome SockAddress :=
  a ← set4 host port in_init; Ok (IPV4Address a).
Definition IPV6Address_both (host_and_port : cstr) : outcome SockAddress :=
  a ← set6_both host_and_port in6_init; Ok (IPV6Address a).
Definition IPV6Address_str (host port : cstr) : outcome SockAddress :=
  a ← set6_str host port in6_init; Ok (IPV6Address a).
Definition IPV6Address_port (host : cstr) (port : Z) : outcome SockAddress :=
  a ← set6 host port in6_init; Ok (IPV6Address a).

(** The path up to its NUL. *)
Fixpoint path_text (p : list Z) : cstr :=
  match p with
  | [] => []
  | b :: p => if b =? 0 then [] else ch b :: path_text p
  end.

Definition toStringUn (sun_path : list Z) : cstr := [ch 92; "0"%char] ++ path_text sun_path.

(** The virtual [toString], and [operator<<]. *)
Definition toString (a : SockAddress) : outcome cstr :=
  match a with
  | IPV4Address a => Ok (toString4 a)
  | IPV6Address a => toString6 a
  | UnixAddress _ p => Ok (toStringUn p)
  end.

Definition print_address (os : cstr) (a : SockAddress) : outcome cstr := s ← toString a; Ok (os ++ s).

(** ** Specification of the parameters *)

(** fmt's documented default format of an unsigned number. *)
Hypothesis fmt_decimal : ∀ n, 0 <= n < 2 ^ 32 → fmt_u n = dec n.

(** inet(3): a dotted quad of decimal numbers. *)
Definition dotted (a b c d : Z) : cstr :=
  dec a ++ str "." ++ dec b ++ str "." ++ dec c ++ str "." ++ dec d.
Definition is_byte (b : Z) : Prop := 0 <= b < 256.
Hypothesis inet_pton_dotted : ∀ a b c d,
  is_byte a → is_byte b → is_byte c → is_byte d →
  inet_pton (dotted a b c d) = Some (a + b * 2 ^ 8 + c * 2 ^ 16 + d * 2 ^ 24).
(** inet_ntop(3): the text is read back by inet_pton, and needs no brackets. *)
Hypothesis inet_ntop6_pton : ∀ a s, inet_ntop6 a = Some s → inet_pton6 s = Some a ∧ head s ≠ Some "["%char.

(** ** Lemmas *)

Lemma port_loop_spec s : ∀ n, 0 <= n < 65536 →
  (Forall (λ c, is_digit c = true) s ∧ foldl dec_step n s < 65536 ∧
     port_loop s n = Ok (foldl dec_step n s)) ∨
  ((¬ Forall (λ c, is_digit c = true) s ∨ 65536 <= foldl dec_step n s) ∧ port_loop s n = Throw InvalidArgument).
Proof.
  clear. induction s as [|c s IH]; intros n Hn; simpl.
  { left. split; [constructor|]. split; [lia|]. f_equal. unfold u16. apply Z.mod_small. lia. }
  destruct (is_digit c) eqn:Hc; simpl.
  - assert (Hd : 0 <= chr c - 48 <= 9).
    { unfold is_digit in Hc. apply andb_true_iff in Hc as (H1%Z.leb_le & H2%Z.leb_le). lia. }
    fold (dec_step n c). destruct (Z.leb_spec 65536 (dec_step n c)) as [Hl|Hl].
    + right. split; [|done]. destruct (decide (Forall (λ c, is_digit c = true) s)) as [Hs|Hs].
      * right. assert (Hm : ∀ s m, Forall (λ c, is_digit c = true) s → 0 <= m → m <= foldl dec_step m s).
        { clear. induction s as [|x s IH]; intros m Hs Hm; simpl; [lia|].
          inversion Hs as [|? ? Hx Hs']; subst. unfold is_digit in Hx.
          apply andb_true_iff in Hx as (H1%Z.leb_le & _).
          specialize (IH (dec_step m x) Hs'). unfold dec_step in *. lia. }
        specialize (Hm s (dec_step n c) Hs). lia.
      * left. intros Hf. by inversion Hf.
    + destruct (IH (dec_step n c)) as [(H1 & H2 & H3)|(H1 & H2)]; [unfold dec_step in *; lia| |].
      * left. split_and!; [by constructor|done|done].
      * right. split; [|done]. destruct H1 as [H1|H1]; [left|by right]. intros Hf. by inversion Hf.
  - right. split; [|done]. left. intros Hf. inversion Hf. congruence.
Qed.

Lemma split_last_app c a b : c ∉ b → split_last c (a ++ c :: b) = Some (a, b).
Proof.
  clear. intros Hb. assert (Hn : split_last c b = None).
  { induction b as [|x b IH]; [done|]. simpl. rewrite IH by set_solver.
    rewrite decide_False; [done|]. set_solver. }
  induction a as [|x a IH]; simpl; [rewrite Hn; by rewrite decide_True|]. by rewrite IH.
Qed.

Lemma split_last_None c s : c ∉ s → split_last c s = None.
Proof.
  clear. induction s as [|x s IH]; intros Hs; [done|]. simpl. rewrite IH by set_solver.
  rewrite decide_False; [done|]. set_solver.
Qed.

Lemma htons_htons p : 0 <= p < 65536 → htons (htons p) = p.
Proof. clear. unfold htons. lia. Qed.

Lemma htons_range p : 0 <= htons p < 65536.
Proof. clear. unfold htons. lia. Qed.

Lemma byte_at x k : 0 <= k → Z.land (Z.shiftr x k) 255 = x / 2 ^ k mod 256.
Proof. clear. intros Hk. rewrite Z.shiftr_div_pow2 by done. apply (Z.land_ones _ 8). lia. Qed.

Lemma addr_bytes x :
  0 <= x < 2 ^ 32 → ∃ a b c d, is_byte a ∧ is_byte b ∧ is_byte c ∧ is_byte d ∧
    x = a + b * 2 ^ 8 + c * 2 ^ 16 + d * 2 ^ 24 ∧
    ntohl x = a * 2 ^ 24 + b * 2 ^ 16 + c * 2 ^ 8 + d.
Proof.
  clear. intros Hx. exists (x mod 256), (x / 2 ^ 8 mod 256), (x / 2 ^ 16 mod 256), (x / 2 ^ 24 mod 256).
  unfold is_byte, ntohl. lia.
Qed.

Lemma quad_bytes a b c d :
  is_byte a → is_byte b → is_byte c → is_byte d →
  let n := a * 2 ^ 24 + b * 2 ^ 16 + c * 2 ^ 8 + d in
  n / 2 ^ 24 mod 256 = a ∧ n / 2 ^ 16 mod 256 = b ∧ n / 2 ^ 8 mod 256 = c ∧ n mod 256 = d.
Proof. clear. unfold is_byte. intros. lia. Qed.

Lemma getAddressStr4_dotted x a b c d :
  is_byte a → is_byte b → is_byte c → is_byte d →
  ntohl (s_addr x) = a * 2 ^ 24 + b * 2 ^ 16 + c * 2 ^ 8 + d →
  getAddressStr4 x = dotted a b c d.
Proof.
  clear if_indextoname getaddrinfo.
  intros Ha Hb Hc Hd Hn. destruct (quad_bytes a b c d Ha Hb Hc Hd) as (E1 & E2 & E3 & E4).
  unfold getAddressStr4. rewrite Hn, !byte_at by lia.
  change 255 with (Z.ones 8). rewrite Z.land_ones by lia. change (2 ^ 8) with 256 in E4 |- *.
  change (2 ^ 8) with 256 in E1, E2, E3. rewrite E1, E2, E3, E4.
  unfold is_byte in *. rewrite !fmt_decimal by lia. done.
Qed.

Lemma not_colon_digits s : Forall (λ c, is_digit c = true) s → ":"%char ∉ s.
Proof.
  clear. intros Hs Hin. rewrite Forall_forall in Hs. specialize (Hs _ Hin). done.
Qed.

Lemma unbracket_other s : head s ≠ Some "["%char → unbracket s = s.
Proof.
  clear. destruct s as [|c s]; [done|]. simpl. intros Hc. rewrite decide_False; [done|].
  intros (-> & _). done.
Qed.

Lemma unbracket_brackets s : unbracket ("["%char :: s ++ ["]"%char]) = s.
Proof.
  clear. unfold unbracket. rewrite decide_True.
  - rewrite removelast_app by done. simpl. apply app_nil_r.
  - split; [done|]. change ("["%char :: s ++ ["]"%char]) with (("["%char :: s) ++ ["]"%char]).
    apply last_snoc.
Qed.

Lemma dec_head n : 0 <= n → head (dec n) ≠ Some "["%char.
Proof.
  clear. intros Hn Hh. pose proof (dec_digits n Hn) as Hd. rewrite Forall_forall in Hd.
  destruct (dec n) as [|c l]; [done|]. simpl in Hh. injection Hh as ->.
  specialize (Hd "["%char). discriminate Hd. left.
Qed.

Lemma port_dec p : 0 <= p < 65536 → getPortFromString (dec p) = Ok p.
Proof.
  clear. intros Hp. unfold getPortFromString.
  assert (Hl : (length (dec p) <= 5)%nat) by (apply dec_length; lia).
  destruct (Nat.ltb_spec 5 (length (dec p))); [lia|].
  assert (Hv : foldl dec_step 0 (dec p) = p) by (apply dec_value_dec; lia).
  destruct (port_loop_spec (dec p) 0) as [(_ & _ & H1)|([H1|H1] & _)]; [lia| | |].
  - by rewrite H1, Hv.
  - exfalso. apply H1, dec_digits. lia.
  - lia.
Qed.

Lemma parse_with_port host p :
  0 <= p < 65536 → HostAndPortParser (host ++ str ":" ++ dec p) = Ok (unbracket host, dec p).
Proof.
  clear. intros Hp. unfold HostAndPortParser. change (str ":" ++ dec p) with (":"%char :: dec p).
  rewrite split_last_app; [done|]. apply not_colon_digits, dec_digits. lia.
Qed.

(** ** Properties *)

(** Ports: exactly the strings of at most five digits with a value below
    65536 are accepted, with that value; everything else is rejected as an
    invalid argument; and the decimal text of every port is accepted. *)
Lemma getPortFromString_spec s :
  (∀ p, getPortFromString s = Ok p ↔
     (length s <= 5)%nat ∧ Forall (λ c, is_digit c = true) s ∧ dec_value s = p ∧ p < 65536) ∧
  ((∃ p, getPortFromString s = Ok p) ∨ getPortFromString s = Throw InvalidArgument) ∧
  (∀ p, 0 <= p < 65536 → getPortFromString (dec p) = Ok p).
Proof.
  clear. unfold getPortFromString at 1 2 3. destruct (Nat.ltb_spec 5 (length s)) as [Hl|Hl].
  { split_and!; [|by right|apply port_dec]. intros p. split; [done|]. intros (? & _). lia. }
  destruct (port_loop_spec s 0) as [(H1 & H2 & H3)|(H1 & H2)]; [lia| |].
  - rewrite H3. split_and!; [|by left; eexists|apply port_dec]. intros p. unfold dec_value. split.
    + intros [= <-]. auto.
    + by intros (_ & _ & -> & _).
  - rewrite H2. split_and!; [|by right|apply port_dec]. intros p. split; [done|].
    unfold dec_value. intros (_ & Hd & Hv & Hp). destruct H1 as [H1|H1]; [done|lia].
Qed.

(** "host:port" is cut at its last colon, with the brackets of an IPv6 host
    removed; a string without a colon is an invalid argument. *)
Lemma HostAndPortParser_spec host port :
  ":"%char ∉ port →
  HostAndPortParser (host ++ str ":" ++ port) = Ok (unbracket host, port) ∧
  HostAndPortParser (str "[" ++ host ++ str "]:" ++ port) = Ok (host, port) ∧
  HostAndPortParser port = Throw InvalidArgument.
Proof.
  clear. intros Hp. unfold HostAndPortParser.
  change (str ":" ++ port) with (":"%char :: port). rewrite split_last_app by done.
  split; [done|]. split.
  - replace (str "[" ++ host ++ str "]:" ++ port)
      with (("["%char :: host ++ ["]"%char]) ++ ":"%char :: port)
      by (simpl; by rewrite <- app_assoc).
    rewrite split_last_app by done. by rewrite unbracket_brackets.
  - by rewrite split_last_None.
Qed.

(** C36: the text of an IPv4 address is read back as the same address and port. *)
Theorem ipv4_text_roundtrip x y :
  0 <= s_addr x < 2 ^ 32 → 0 <= sin_port x < 65536 →
  set4_both (toString4 x) y = Ok (mkIn AF_INET (sin_port x) (s_addr x) (sin_zero y)).
Proof.
  clear if_indextoname getaddrinfo.
  intros Ha Hp. destruct (addr_bytes (s_addr x) Ha) as (a & b & c & d & Ba & Bb & Bc & Bd & Hx & Hn).
  unfold toString4. rewrite (getAddressStr4_dotted x a b c d) by done.
  pose proof (htons_range (sin_port x)) as Hr. unfold ntohs. rewrite fmt_decimal by lia.
  unfold set4_both. rewrite parse_with_port by done. cbn [mbind outcome_bind fst snd].
  rewrite unbracket_other.
  2: { unfold dotted. pose proof (dec_head a) as Hh. unfold is_byte in *.
       assert (Hne : dec a ≠ []) by (intros He; pose proof (dec_fuel_nonempty 19 a) as Hl;
         fold (dec a) in Hl; rewrite He in Hl; simpl in Hl; lia).
       destruct (dec a) as [|z l]; [done|]. simpl in *. apply Hh. lia. }
  unfold set4_str. rewrite port_dec by done. cbn [mbind outcome_bind].
  unfold set4. rewrite inet_pton_dotted by done. rewrite htons_htons by done. by rewrite <- Hx.
Qed.

(** C37: the text of an IPv6 address without scope is read back as the same
    address and port, although it is written without brackets. *)
Theorem ipv6_text_roundtrip x y s :
  inet_ntop6 (sin6_addr x) = Some s → sin6_scope_id x = 0 → 0 <= sin6_port x < 65536 →
  (t ← toString6 x; set6_both t y) =
    Ok (mkIn6 AF_INET6 (sin6_port x) (sin6_flowinfo y) (sin6_addr x) (sin6_scope_id y)).
Proof.
  clear getaddrinfo.
  intros Hs Hsc Hp. destruct (inet_ntop6_pton _ _ Hs) as (H1 & H2).
  unfold toString6, getAddressStr6. rewrite Hs, Hsc. cbn [mbind outcome_bind Z.eqb].
  pose proof (htons_range (sin6_port x)) as Hr. unfold ntohs. rewrite fmt_decimal by lia.
  unfold set6_both. rewrite parse_with_port by done. cbn [mbind outcome_bind fst snd].
  rewrite unbracket_other by done. unfold set6_str. rewrite port_dec by done. cbn [mbind outcome_bind].
  unfold set6. rewrite H1, htons_htons by done. done.
Qed.
End Text.

(** ** The order on addresses *)

(** The lexicographic order on byte strings. *)
Inductive lex : list Z → list Z → Prop :=
| lex_nil y b : lex [] (y :: b)
| lex_lt x y a b : x < y → lex (x :: a) (y :: b)
| lex_eq x a b : lex a b → lex (x :: a) (x :: b).

Lemma memcmp_spec a : ∀ b,
  let r := memcmp (length a `min` length b) a b in
  (if r <? 0 then true else if r >? 0 then false else (length a <? length b)%nat) = true ↔ lex a b.
Proof.
  induction a as [|x a IH]; intros [|y b]; cbn [length Nat.min memcmp].
  - split; [done|inversion 1].
  - split; [intros _; constructor|done].
  - split; [done|inversion 1].
  - destruct (Z.ltb_spec x y) as [Hl|Hl]; [split; [intros _; by constructor|done]|].
    destruct (Z.ltb_spec y x) as [Hg|Hg].
    + split; [done|]. inversion 1; subst; lia.
    + assert (x = y) as -> by lia. change (S (length a) <? S (length b))%nat with (length a <? length b)%nat.
      rewrite (IH b). split; [by apply lex_eq|]. inversion 1; subst; [lia|done].
Qed.

Lemma memcmp_eq a : ∀ b, length a = length b → memcmp (length a) a b = 0 ↔ a = b.
Proof.
  induction a as [|x a IH]; intros [|y b] Hl; simpl in *; try done.
  destruct (Z.ltb_spec x y); [split; [done|]; intros [= -> _]; lia|].
  destruct (Z.ltb_spec y x); [split; [done|]; intros [= -> _]; lia|].
  assert (x = y) as -> by lia. rewrite IH by lia. split; [by intros ->|by intros [= ->]].
Qed.

Lemma lex_irrefl a : ¬ lex a a.
Proof. induction a as [|x a IH]; inversion 1; subst; [lia|auto]. Qed.

Lemma lex_trans a b c : lex a b → lex b c → lex a c.
Proof.
  intros H. revert c. induction H as [y b|x y a b Hxy|x a b H IH]; intros c Hc;
    inversion Hc; subst; try (by constructor); try (constructor; lia). apply lex_eq. by apply IH.
Qed.

Lemma lex_total a : ∀ b, lex a b ∨ a = b ∨ lex b a.
Proof.
  induction a as [|x a IH]; intros [|y b].
  - auto.
  - left. constructor.
  - right. right. constructor.
  - destruct (Z.lt_trichotomy x y) as [H|[H|H]].
    + left. by constructor.
    + subst y. destruct (IH b) as [?|[->|?]]; [left; by apply lex_eq|by right; left|right; right; by apply lex_eq].
    + right. right. by constructor.
Qed.

Lemma addr_lt_lex a b : addr_lt a b = true ↔ lex (getAddr a) (getAddr b).
Proof. apply memcmp_spec. Qed.

Lemma addr_eq_raw a b : addr_eq a b = true ↔ getAddr a = getAddr b.
Proof.
  unfold addr_eq, getAddrLen. rewrite andb_true_iff, Nat.eqb_eq, Z.eqb_eq. split.
  - intros (Hl & Hm). by apply memcmp_eq.
  - intros He. rewrite He. split; [done|]. by apply memcmp_eq.
Qed.

(** Operator< is a strict total order of the raw addresses consistent with
    operator==: irreflexive, transitive, and of any two addresses exactly one of
    less, equal, greater holds. *)
Lemma address_order a b c :
  addr_lt a a = false ∧
  (addr_lt a b = true → addr_lt b c = true → addr_lt a c = true) ∧
  (addr_eq a b = true ↔ addr_lt a b = false ∧ addr_lt b a = false) ∧
  (addr_lt a b = true → addr_lt b a = false) ∧
  addr_ne a b = negb (addr_eq a b).
Proof.
  assert (Hf : ∀ x y, addr_lt x y = false ↔ ¬ lex (getAddr x) (getAddr y)).
  { intros x y. rewrite <- addr_lt_lex. by destruct (addr_lt x y). }
  rewrite !Hf, !addr_lt_lex, addr_eq_raw. split_and!; try done.
  - apply lex_irrefl.
  - apply lex_trans.
  - split.
    + intros He. rewrite He. split; apply lex_irrefl.
    + intros (H1 & H2). by destruct (lex_total (getAddr a) (getAddr b)) as [?|[?|?]].
  - intros H1 H2. by apply (lex_irrefl (getAddr a)), (lex_trans _ (getAddr b)).
Qed.

Module AddressEx.
Definition ip : sockaddr_in := mkIn AF_INET (htons 8080) (127 + 1 * 2 ^ 24) (replicate 8 0).

(** A reader of dotted quads, by search over the pieces between dots. *)
Definition pton (s : cstr) : option Z :=
  match splitStringPiece s (str ".") with
  | Ok [a; b; c; d] => Some (dec_value a + dec_value b * 2 ^ 8 + dec_value c * 2 ^ 16 + dec_value d * 2 ^ 24)
  | _ => None
  end.

Lemma HostAndPortParser_spec_witness :
  HostAndPortParser (str "[::1]:80") = Ok (str "::1", str "80").
Proof.
  apply (HostAndPortParser_spec (str "::1") (str "80")). apply not_colon_digits.
  repeat constructor.
Defined.

Lemma pton_dotted a b c d :
  is_byte a → is_byte b → is_byte c → is_byte d →
  pton (dotted a b c d) = Some (a + b * 2 ^ 8 + c * 2 ^ 16 + d * 2 ^ 24).
Proof.
  intros Ha Hb Hc Hd. unfold is_byte in *.
  assert (Hnd : ∀ n, 0 <= n → "."%char ∉ dec n).
  { intros n Hn Hin. pose proof (dec_digits n Hn) as Hf. rewrite Forall_forall in Hf.
    specialize (Hf _ Hin). done. }
  assert (Hne : dec d ≠ []).
  { intros He. pose proof (dec_fuel_nonempty 19 d) as Hl. fold (dec d) in Hl.
    rewrite He in Hl. simpl in Hl. lia. }
  unfold pton, splitStringPiece. change (str ".") with ["."%char]. cbv iota.
  rewrite split_loop_ref by lia. rewrite drop_0. unfold dotted. change (str ".") with ["."%char].
  cbn [app]. rewrite !split_ref_app by (apply Hnd; lia). rewrite split_ref_one by (done || apply Hnd; lia).
  cbn [app]. rewrite !dec_value_dec by lia. done.
Qed.

Lemma ipv4_text_roundtrip_witness :
  set4_both pton (toString4 dec ip) in_init = Ok ip.
Proof.
  apply (ipv4_text_roundtrip dec pton).
  - reflexivity.
  - apply pton_dotted.
  - simpl. lia.
  - simpl. unfold htons. lia.
Defined.

Definition loopback : list Z := replicate 15 0 ++ [1].
Definition ntop6 (a : list Z) : option cstr :=
  if decide (a = loopback) then Some (str "::1") else None.
Definition pton6 (s : cstr) : option (list Z) :=
  if decide (s = str "::1") then Some loopback else None.

Lemma ipv6_text_roundtrip_witness :
  (t ← toString6 dec ntop6 (λ _, None) (mkIn6 AF_INET6 (htons 80) 0 loopback 0); set6_both pton6 t in6_init)
  = Ok (mkIn6 AF_INET6 (htons 80) 0 loopback 0).
Proof.
  apply (ipv6_text_roundtrip dec pton6 ntop6) with (s := str "::1").
  - reflexivity.
  - intros a s. unfold ntop6, pton6. case_decide as Ha; [|done]. intros [= <-].
    rewrite decide_True by done. by rewrite Ha.
  - reflexivity.
  - reflexivity.
  - simpl. unfold htons. lia.
Defined.
End AddressEx.
