(* ===== verification/Pattern.v ===== *)
(** * Log patterns (src/base/string_parsers.h)

    [logPatternParse] cuts a pattern such as "%d{%H:%M}%T[%p] %m%n" into literal
    text and keys with an optional argument.  The index loops of the code are
    written over the part of the string that is still to be read. *)

From S2P Require Import Prelude.
From stdpp Require Import options.

Definition isalpha (c : ascii) : bool :=
  ((65 <=? chr c) && (chr c <=? 90)) || ((97 <=? chr c) && (chr c <=? 122)).

(** One entry of the result: (text or key, argument, has a key). *)
Definition entry : Type := cstr * cstr * bool.

Inductive scanned :=
| Key (str fmt : cstr) (rest : cstr)   (* fmt_status == 0 at the end *)
| Unclosed.                            (* fmt_status == 1: no closing brace *)

(** The inner loop inside braces. *)
Fixpoint scan_fmt (str fmt r : cstr) : scanned :=
  match r with
  | [] => Unclosed
  | c :: r => if decide (c = "}"%char) then Key str fmt r else scan_fmt str (fmt ++ [c]) r
  end.

(** The inner loop over the key; [str] is what has been read since the percent. *)
Fixpoint scan_key (str r : cstr) : scanned :=
  match r with
  | [] => Key str [] []
  | c :: r' =>
      if negb (isalpha c) && bool_decide (c ≠ "{"%char) && bool_decide (c ≠ "}"%char)
      then Key str [] r
      else if decide (c = "{"%char) then scan_fmt str [] r'
      else scan_key (str ++ [c]) r'
  end.

Definition flush_text (nstr : cstr) : list entry :=
  match nstr with [] => [] | _ => [(nstr, [], false)] end.

Definition pattern_error : cstr := str "<<pattern_error>>".

(** The outer loop; [nstr] is the literal text collected so far. *)
Fixpoint parse (fuel : nat) (r nstr : cstr) : outcome (list entry) :=
  match fuel with
  | O => Fault Hang
  | S fuel =>
      match r with
      | [] => Ok (flush_text nstr)
      | c :: r' =>
          if decide (c ≠ "%"%char) then parse fuel r' (nstr ++ [c])
          else if decide (head r' = Some "%"%char) then parse fuel r' (nstr ++ ["%"%char])
          else
            match scan_key [] r' with
            | Key str fmt rest =>
                v ← parse fuel rest []; Ok (flush_text nstr ++ (str, fmt, true) :: v)
            | Unclosed =>
                v ← parse fuel r' nstr; Ok ((pattern_error, [], false) :: v)
            end
      end
  end.

Definition logPatternParse (formatter_pattern : cstr) : outcome (list entry) :=
  parse (S (length formatter_pattern)) formatter_pattern [].

(** ** Termination *)

Lemma scan_fmt_rest str fmt r :
  match scan_fmt str fmt r with Key _ _ rest => (length rest < length r)%nat | Unclosed => True end.
Proof.
  revert fmt. induction r as [|c r IH]; intros fmt; simpl; [done|]. case_decide; [lia|].
  specialize (IH (fmt ++ [c])). destruct (scan_fmt _ _ _); [lia|done].
Qed.

Lemma scan_key_rest r : ∀ str,
  match scan_key str r with Key _ _ rest => (length rest <= length r)%nat | Unclosed => True end.
Proof.
  induction r as [|c r IH]; intros str; simpl; [lia|].
  destruct (negb (isalpha c) && _ && _); [simpl; lia|]. case_decide.
  - pose proof (scan_fmt_rest str [] r) as Hf. destruct (scan_fmt _ _ _); [lia|done].
  - specialize (IH (str ++ [c])). destruct (scan_key _ _); [lia|done].
Qed.

Lemma parse_total fuel : ∀ r nstr, (length r < fuel)%nat → ∃ v, parse fuel r nstr = Ok v.
Proof.
  induction fuel as [|fuel IH]; intros r nstr Hf; [lia|]. destruct r as [|c r]; simpl; [by eexists|].
  simpl in Hf. case_decide; [apply IH; lia|]. case_decide; [apply IH; lia|].
  pose proof (scan_key_rest r []) as Hr. destruct (scan_key [] r) as [str fmt rest|].
  - destruct (IH rest []) as (v & ->); [lia|]. simpl. by eexists.
  - destruct (IH r nstr) as (v & ->); [lia|]. simpl. by eexists.
Qed.

(** ** Well-formed patterns *)

Inductive token :=
| TText (s : cstr)
| TKey (k : cstr) (arg : option cstr).

Definition print_token (t : token) : cstr :=
  match t with
  | TText s => s
  | TKey k None => str "%" ++ k
  | TKey k (Some f) => str "%" ++ k ++ str "{" ++ f ++ str "}"
  end.

Definition print (ts : list token) : cstr := concat (map print_token ts).

Definition token_entry (t : token) : entry :=
  match t with
  | TText s => (s, [], false)
  | TKey k arg => (k, default [] arg, true)
  end.

(** May follow a key without argument. *)
Definition ends_key (r : cstr) : Prop :=
  match r with
  | [] => True
  | c :: _ => isalpha c = false ∧ c ≠ "{"%char ∧ c ≠ "}"%char
  end.

Definition is_text (t : token) : bool := match t with TText _ => true | _ => false end.

(** Text is not empty, contains no percent and is not split; keys are letters;
    arguments contain no closing brace; a key without argument is followed by
    something that ends it. *)
Fixpoint wf_pattern (ts : list token) : Prop :=
  match ts with
  | [] => True
  | t :: ts =>
      wf_pattern ts ∧
      match t with
      | TText s => s ≠ [] ∧ "%"%char ∉ s ∧ match ts with t' :: _ => is_text t' = false | [] => True end
      | TKey k None => k ≠ [] ∧ Forall (λ c, isalpha c = true) k ∧ ends_key (print ts)
      | TKey k (Some f) => k ≠ [] ∧ Forall (λ c, isalpha c = true) k ∧ "}"%char ∉ f
      end
  end.

Lemma scan_fmt_ok f r : ∀ s fmt, "}"%char ∉ f →
  scan_fmt s fmt (f ++ str "}" ++ r) = Key s (fmt ++ f) r.
Proof.
  induction f as [|c f IH]; intros s fmt Hf; simpl; [by rewrite app_nil_r|].
  rewrite decide_False by set_solver. rewrite IH by set_solver. by rewrite <- app_assoc.
Qed.

Lemma alpha_not_brace c : isalpha c = true → c ≠ "{"%char.
Proof. intros H ->. done. Qed.

Lemma scan_key_step c k str r :
  isalpha c = true → scan_key str (c :: k ++ r) = scan_key (str ++ [c]) (k ++ r).
Proof. intros Hc. simpl. rewrite Hc. simpl. by rewrite decide_False by by apply alpha_not_brace. Qed.

Lemma scan_key_ok k r : ∀ str, Forall (λ c, isalpha c = true) k → ends_key r →
  scan_key str (k ++ r) = Key (str ++ k) [] r.
Proof.
  induction k as [|c k IH]; intros str Hk Hr.
  - rewrite app_nil_r. simpl. destruct r as [|c r]; [done|]. destruct Hr as (H1 & H2 & H3). simpl.
    by rewrite H1, !bool_decide_eq_true_2.
  - inversion Hk; subst. rewrite <- app_comm_cons, scan_key_step by done. rewrite IH by done.
    by rewrite <- app_assoc.
Qed.

Lemma scan_key_arg k f r : ∀ s, Forall (λ c, isalpha c = true) k → "}"%char ∉ f →
  scan_key s (k ++ str "{" ++ f ++ str "}" ++ r) = Key (s ++ k) f r.
Proof.
  induction k as [|c k IH]; intros s Hk Hf.
  - rewrite app_nil_r. simpl. by apply scan_fmt_ok.
  - inversion Hk; subst. rewrite <- app_comm_cons, scan_key_step by done. rewrite IH by done.
    by rewrite <- app_assoc.
Qed.

Lemma parse_text s : ∀ fuel r nstr v, "%"%char ∉ s →
  parse fuel r (nstr ++ s) = Ok v → parse (length s + fuel) (s ++ r) nstr = Ok v.
Proof.
  induction s as [|c s IH]; intros fuel r nstr v Hs Hp; [by rewrite app_nil_r in Hp|].
  simpl. rewrite decide_True by set_solver. apply IH; [set_solver|]. by rewrite <- app_assoc.
Qed.

Lemma parse_mono fuel : ∀ fuel' r nstr v, (fuel <= fuel')%nat →
  parse fuel r nstr = Ok v → parse fuel' r nstr = Ok v.
Proof.
  induction fuel as [|fuel IH]; intros [|fuel'] r nstr v Hle; simpl; try done; [lia|].
  destruct r as [|c r]; [done|]. repeat case_decide; try (apply IH; lia).
  destruct (scan_key [] r); intros (v' & Hv & Hr)%bind_Ok; apply (IH fuel') in Hv; try lia;
    by rewrite Hv.
Qed.

Lemma parse_percent fuel r nstr s fmt rest v :
  head r ≠ Some "%"%char → scan_key [] r = Key s fmt rest → parse fuel rest [] = Ok v →
  parse (S fuel) ("%"%char :: r) nstr = Ok (flush_text nstr ++ (s, fmt, true) :: v).
Proof. intros Hh Hs Hv. simpl. rewrite decide_False by done. by rewrite Hs, Hv. Qed.

Lemma parse_key k arg ts fuel nstr v :
  wf_pattern (TKey k arg :: ts) → parse fuel (print ts) [] = Ok v →
  parse (S fuel) (print_token (TKey k arg) ++ print ts) nstr =
    Ok (flush_text nstr ++ token_entry (TKey k arg) :: v).
Proof.
  intros (_ & Hk) Hv.
  assert (Hh : k ≠ [] ∧ Forall (λ c, isalpha c = true) k) by (destruct arg; naive_solver).
  destruct Hh as (Hne & Ha). destruct k as [|c k]; [done|].
  assert (Hc : c ≠ "%"%char) by (inversion Ha; subst; intros ->; done).
  destruct arg as [f|].
  - destruct Hk as (_ & _ & Hf).
    replace (print_token (TKey (c :: k) (Some f)) ++ print ts)
      with ("%"%char :: (c :: k) ++ str "{" ++ f ++ str "}" ++ print ts)
      by (simpl; by rewrite <- !app_assoc, <- app_comm_cons, <- app_assoc).
    apply parse_percent with (rest := print ts); [simpl; congruence| |done].
    by apply (scan_key_arg (c :: k) f (print ts) []).
  - destruct Hk as (_ & _ & He).
    change (print_token (TKey (c :: k) None) ++ print ts) with ("%"%char :: (c :: k) ++ print ts).
    apply parse_percent with (rest := print ts); [simpl; congruence| |done].
    by apply (scan_key_ok (c :: k) (print ts) []).
Qed.

Lemma parse_print ts : ∀ nstr,
  wf_pattern ts → (nstr ≠ [] → match ts with t :: _ => is_text t = false | [] => True end) →
  ∃ fuel, parse fuel (print ts) nstr = Ok (flush_text nstr ++ (token_entry <$> ts)).
Proof.
  induction ts as [|t ts IH]; intros nstr Hw Hn.
  { exists 1%nat. simpl. by rewrite app_nil_r. }
  destruct t as [s|k arg].
  - assert (nstr = []) as -> by (destruct nstr; [done|]; by specialize (Hn ltac:(done))).
    destruct Hw as (Hw & Hs & Hp & Hadj). destruct (IH s Hw) as (fuel & Hf); [done|].
    exists (length s + fuel)%nat. change (print (TText s :: ts)) with (s ++ print ts).
    apply parse_text; [done|]. cbn [app]. rewrite Hf.
    destruct s; [done|]. done.
  - pose proof Hw as (Hw' & _). destruct (IH [] Hw') as (fuel & Hf); [done|].
    exists (S fuel). change (print (TKey k arg :: ts)) with (print_token (TKey k arg) ++ print ts).
    by rewrite (parse_key k arg ts fuel nstr _ Hw Hf).
Qed.

Lemma parse_wf ts : wf_pattern ts → logPatternParse (print ts) = Ok (token_entry <$> ts).
Proof.
  intros Hw. destruct (parse_print ts [] Hw) as (fuel & Hf); [done|]. unfold logPatternParse.
  cbn [flush_text app] in Hf.
  destruct (parse_total (S (length (print ts))) (print ts) []) as (v & Hv); [lia|]. rewrite Hv.
  pose proof (parse_mono fuel (fuel `max` S (length (print ts))) _ _ _ ltac:(lia) Hf) as H1.
  pose proof (parse_mono (S (length (print ts))) (fuel `max` S (length (print ts))) _ _ _ ltac:(lia) Hv) as H2. congruence.
Qed.

(** ** Properties *)

(** C30: parsing a log pattern always ends, and a well-formed pattern is cut into
    exactly the texts and keys with arguments it was put together from. *)
Theorem pattern_roundtrip ts s :
  wf_pattern ts →
  logPatternParse (print ts) = Ok (token_entry <$> ts) ∧ (∃ v, logPatternParse s = Ok v).
Proof. intros Hw. split; [by apply parse_wf|]. apply parse_total. lia. Qed.

(** The second percent of an escaped one is read again: "%%m" is a percent and a
    message, "100%%" a percent and a key without name. *)
Lemma escaped_percent :
  logPatternParse (str "%%m") = Ok [(str "%", [], false); (str "m", [], true)] ∧
  logPatternParse (str "100%%") = Ok [(str "100%", [], false); ([], [], true)].
Proof. split; vm_compute; reflexivity. Qed.

(** The marker of an unclosed brace is put before the text that precedes it. *)
Lemma error_before_text :
  logPatternParse (str "ab%d{x") = Ok [(str "<<pattern_error>>", [], false); (str "abd{x", [], false)].
Proof. vm_compute. reflexivity. Qed.

Module PatternEx.
Definition ts : list token :=
  [TKey (str "d") (Some (str "%Y-%m-%d %H:%M:%S")); TKey (str "T") None; TText (str "["); TKey (str "p") None;
   TText (str "]"); TKey (str "m") None; TKey (str "n") None].

Lemma ts_wf : wf_pattern ts.
Proof.
  simpl. repeat split; try discriminate; try done; try (by repeat constructor);
    try (apply (bool_decide_unpack _); vm_compute; exact I).
Qed.

Lemma pattern_roundtrip_witness :
  logPatternParse (str "%d{%Y-%m-%d %H:%M:%S}%T[%p]%m%n") = Ok (token_entry <$> ts).
Proof. apply (pattern_roundtrip ts []). apply ts_wf. Defined.
End PatternEx.
