(* ===== verification/Logger.v ===== *)
(** * Loggers (include/logger.h, src/logger.cpp, src/logging/logger_formatters.cpp,
      src/logging/logger_filename.cpp, the flusher registry of
      include/logging/logger_flusher.h)

    A logger formats an event by its formatters into the thread's log stream and
    hands the text to its flushers.  A flusher is represented by the text it
    has received.  [strftime], the host name and the process id are parameters. *)

From S2P Require Import Prelude Text LogStream Pattern.
From stdpp Require Import options.
Set Default Proof Using "Type*".

(** ** Levels *)

Inductive Level := DEBUG | INFO | WARN | ERROR | FATAL | SIZE.
#[global] Instance Level_eq_dec : EqDecision Level.
Proof. solve_decision. Defined.

Definition level_num (l : Level) : Z :=
  match l with DEBUG => 0 | INFO => 1 | WARN => 2 | ERROR => 3 | FATAL => 4 | SIZE => 5 end.

Definition levelToString (l : Level) : outcome cstr :=
  match l with
  | DEBUG => Ok (str "DEBUG") | INFO => Ok (str "INFO") | WARN => Ok (str "WARN")
  | ERROR => Ok (str "ERROR") | FATAL => Ok (str "FATAL") | SIZE => Fault AssertFailed
  end.

Definition toupper (c : ascii) : ascii :=
  if (97 <=? chr c) && (chr c <=? 122) then ch (chr c - 32) else c.

Definition levelFromString (s : cstr) : Level :=
  let str_upper := map toupper s in
  if decide (str_upper = str "DEBUG") then DEBUG
  else if decide (str_upper = str "INFO") then INFO
  else if decide (str_upper = str "WARN") then WARN
  else if decide (str_upper = str "ERROR") then ERROR
  else if decide (str_upper = str "FATAL") then FATAL
  else SIZE.

(** ** Events and formatters *)

Record LogEvent := mkLogEvent {
  file_name : cstr;
  line : Z;
  level : Level;
  thread_id : Z;
  elapsed_ms : Z;
  executor_id : Z;
  logger_name : cstr;
  datetime_pattern : cstr;
  content : cstr;
  time : Z
}.

Inductive formatter :=
| messageFormatter | levelFormatter | elapsedFormatter | nameFormatter | threadIdFormatter
| newlineFormatter | dateTimeFormatter | filenameFormatter | lineNumberFormatter
| executorIdFormatter | tabFormatter
| StringLogFormatter (s : cstr).

(** [LogFormatterFactory::getFormatter]; [None] is nullptr. *)
Definition getFormatter (keyword : ascii) : option formatter :=
  match keyword with
  | "m"%char => Some messageFormatter
  | "p"%char => Some levelFormatter
  | "r"%char => Some elapsedFormatter
  | "c"%char => Some nameFormatter
  | "t"%char => Some threadIdFormatter
  | "n"%char => Some newlineFormatter
  | "d"%char => Some dateTimeFormatter
  | "f"%char => Some filenameFormatter
  | "l"%char => Some lineNumberFormatter
  | "E"%char => Some executorIdFormatter
  | "T"%char => Some tabFormatter
  | _ => None
  end.

Definition newline : cstr := [ch 13; ch 10].

(** [strftime(buf, size, ...)] and then the use of [buf], an array without initial
    value: when the text and its terminator do not fit, the content of the array
    is undefined. *)
Definition strftime_into (size : nat) (text : cstr) : outcome cstr :=
  if (length text <? size)%nat then Ok text else Fault IndeterminateValue.

Lemma strftime_fits size text : (length text < size)%nat → strftime_into size text = Ok text.
Proof. intros Hl. unfold strftime_into. by rewrite (proj2 (Nat.ltb_lt _ _) Hl). Qed.

Section Logger.
(** [localtime_r] and [strftime]: the text of a time in a format, in full. *)
Variable strftime : cstr → Z → cstr.

(** What a formatter streams. *)
Definition run_formatter (f : formatter) (e : LogEvent) : outcome item :=
  match f with
  | messageFormatter => Ok (PutStr (content e))
  | levelFormatter => s ← levelToString (level e); Ok (PutStr s)
  | elapsedFormatter => Ok (PutInt (elapsed_ms e))
  | nameFormatter => Ok (PutStr (logger_name e))
  | threadIdFormatter => Ok (PutInt (thread_id e))
  | newlineFormatter => Ok (PutStr newline)
  | dateTimeFormatter => buf ← strftime_into 64 (strftime (datetime_pattern e) (time e)); Ok (PutStr buf)
  | filenameFormatter => Ok (PutStr (file_name e))
  | lineNumberFormatter => Ok (PutInt (line e))
  | executorIdFormatter => Ok (PutInt (executor_id e))
  | tabFormatter => Ok (PutChar (ch 9))
  | StringLogFormatter s => Ok (PutStr s)
  end.

(** ** Logger *)

Definition flusher_max : nat := 10.

Record Logger := mkLogger {
  level_ : Level;
  flusher_count_ : nat;
  name_ : cstr;
  datetime_pattern_ : cstr;
  flushers_ : list (option cstr);     (* the array; what each flusher has received *)
  formatters_ : list formatter
}.

Definition Logger_new (name : cstr) : Logger :=
  mkLogger DEBUG 0 name [] (replicate flusher_max None) [].

Definition setLevel (l : Level) (lg : Logger) : Logger :=
  mkLogger l (flusher_count_ lg) (name_ lg) (datetime_pattern_ lg) (flushers_ lg) (formatters_ lg).

Definition addOneFlusher (flusher : option cstr) (lg : Logger) : outcome Logger :=
  match flusher with
  | None => Ok lg
  | Some _ =>
      _ ← of_option OutOfBounds (flushers_ lg !! flusher_count_ lg);
      Ok (mkLogger (level_ lg) (S (flusher_count_ lg)) (name_ lg) (datetime_pattern_ lg)
            (<[flusher_count_ lg := flusher]> (flushers_ lg)) (formatters_ lg))
  end.

Definition addOneFormatter (f : formatter) (lg : Logger) : Logger :=
  mkLogger (level_ lg) (flusher_count_ lg) (name_ lg) (datetime_pattern_ lg) (flushers_ lg)
    (formatters_ lg ++ [f]).

Definition set_datetime (p : cstr) (lg : Logger) : Logger :=
  mkLogger (level_ lg) (flusher_count_ lg) (name_ lg) p (flushers_ lg) (formatters_ lg).

Definition default_datetime : cstr := str "%Y-%m-%d %H:%M:%S".

(** One entry of the parsed pattern. *)
Definition add_entry (i : entry) (lg : Logger) : outcome Logger :=
  let '(s, fmt, has_key) := i in
  if has_key : bool then
    match s with
    | [] => Fault AssertFailed
    | key :: _ =>
        let lg := if decide (key = "d"%char)
                  then set_datetime (match fmt with [] => default_datetime | _ => fmt end) lg else lg in
        Ok (addOneFormatter
              (match getFormatter key with
               | Some f => f
               | None => StringLogFormatter (str "<<error_format%" ++ s ++ str ">>")
               end) lg)
    end
  else Ok (addOneFormatter (StringLogFormatter s) lg).

Definition setFormatters (formatter_pattern : cstr) (lg : Logger) : outcome Logger :=
  let lg := mkLogger (level_ lg) (flusher_count_ lg) (name_ lg) (datetime_pattern_ lg)
              (flushers_ lg) [] in
  vec ← logPatternParse formatter_pattern;
  ofold add_entry vec lg.

Fixpoint run_formatters (fs : list formatter) (e : LogEvent) : outcome (list item) :=
  match fs with
  | [] => Ok []
  | f :: fs => i ← run_formatter f e; is_ ← run_formatters fs e; Ok (i :: is_)
  end.

(** [flushers_[i]->flush(slice)] *)
Definition flush_one (slice : cstr) (i : nat) (l : list (option cstr)) : outcome (list (option cstr)) :=
  x ← of_option OutOfBounds (l !! i);
  s ← of_option NullDeref x;
  Ok (<[i := Some (s ++ slice)]> l).

(** The record of an event: the logger fills in its name and date pattern, the
    formatters stream into the thread's buffer. *)
Definition format_record (event : LogEvent) (lg : Logger) (b : LogSStreamBuf)
    : outcome (cstr * LogSStreamBuf) :=
  let event := mkLogEvent (file_name event) (line event) (level event) (thread_id event)
                 (elapsed_ms event) (executor_id event) (name_ lg) (datetime_pattern_ lg)
                 (content event) (time event) in
  items ← run_formatters (formatters_ lg) event;
  log_stream items b.

Definition log (event : LogEvent) (lg : Logger) (b : LogSStreamBuf)
    : outcome (Logger * LogSStreamBuf) :=
  p ← format_record event lg b;
  l ← ofold (flush_one p.1) (seq 0 (flusher_count_ lg)) (flushers_ lg);
  Ok (mkLogger (level_ lg) (flusher_count_ lg) (name_ lg) (datetime_pattern_ lg) l (formatters_ lg),
      p.2).

(** [LON_LOG] with the destructor of its [LogWrapper]: the state after the
    statement, and whether the process is aborted after it. *)
Definition LON_LOG (event : LogEvent) (lg : Logger) (b : LogSStreamBuf)
    : outcome (Logger * LogSStreamBuf * bool) :=
  if level_num (level_ lg) <=? level_num (level event) then
    p ← log event lg b;
    Ok (p, bool_decide (level event = FATAL))
  else Ok (lg, b, false).

(** ** File names *)

Record LogFilenameData := mkFilename { prefix_ : cstr; postfix : cstr; dateTime : cstr }.

Definition add_name (in_pre : bool) (s : cstr) (d : LogFilenameData) : LogFilenameData :=
  if in_pre then mkFilename (prefix_ d ++ s) (postfix d) (dateTime d)
  else mkFilename (prefix_ d) (postfix d ++ s) (dateTime d).

Definition name_entry (host pid : cstr) (i : entry) (p : bool * LogFilenameData)
    : outcome (bool * LogFilenameData) :=
  let '(in_pre, d) := p in
  let '(s, fmt, has_key) := i in
  if has_key : bool then
    match s with
    | [] => Fault AssertFailed
    | key :: _ =>
        if decide (key = "d"%char) then
          Ok (false, mkFilename (prefix_ d) (postfix d) (dateTime d ++ fmt))
        else if decide (key = "H"%char) then Ok (in_pre, add_name in_pre host d)
        else if decide (key = "P"%char) then Ok (in_pre, add_name in_pre pid d)
        else Ok (in_pre, add_name in_pre (str "_error_pattern_") d)
    end
  else Ok (in_pre, add_name in_pre s d).

Definition logFileNameParse (host pid pattern : cstr) : outcome LogFilenameData :=
  vec ← logPatternParse pattern;
  p ← ofold (name_entry host pid) vec (true, mkFilename [] [] []);
  Ok p.2.

Definition logFileNameGenerate (d : LogFilenameData) (now : Z) : outcome cstr :=
  timebuf ← strftime_into 32 (strftime (dateTime d) now);
  Ok (prefix_ d ++ timebuf ++ postfix d).

(** ** The flusher registry *)

(** [flushers_maker_]; makers are represented by their names. *)
Definition rigisterFlushMaker (key : cstr) (func : nat) (m : gmap cstr nat) : bool * gmap cstr nat :=
  match m !! key with
  | Some _ => (false, m)
  | None =>
      let convert := map toupper key in
      (true, match m !! convert with Some _ => m | None => <[convert := func]> m end)
  end.

Definition getLogFlusher (key : cstr) (m : gmap cstr nat) : option nat := m !! map toupper key.

(** ** Specification of a record *)

(** The text a token of the pattern stands for. *)
Definition key_text (k : cstr) (dt name : cstr) (e : LogEvent) : cstr :=
  match head k with
  | Some "m"%char => content e
  | Some "p"%char => match level e with
                     | DEBUG => str "DEBUG" | INFO => str "INFO" | WARN => str "WARN"
                     | ERROR => str "ERROR" | FATAL => str "FATAL" | SIZE => []
                     end
  | Some "r"%char => decimal (elapsed_ms e)
  | Some "c"%char => name
  | Some "t"%char => decimal (thread_id e)
  | Some "n"%char => newline
  | Some "d"%char => strftime dt (time e)
  | Some "f"%char => file_name e
  | Some "l"%char => decimal (line e)
  | Some "E"%char => decimal (executor_id e)
  | Some "T"%char => [ch 9]
  | _ => str "<<error_format%" ++ k ++ str ">>"
  end.

Definition token_text (dt name : cstr) (e : LogEvent) (t : token) : cstr :=
  match t with
  | TText s => s
  | TKey k _ => key_text k dt name e
  end.

(** A date fits the array it is formatted into. *)
Definition date_fits (dt : cstr) (e : LogEvent) (t : token) : Prop :=
  match t with
  | TKey ("d"%char :: _) _ => (length (strftime dt (time e)) < 64)%nat
  | _ => True
  end.

(** The last date pattern of the tokens applies to all dates. *)
Fixpoint datetime_of (ts : list token) (dt : cstr) : cstr :=
  match ts with
  | [] => dt
  | TKey ("d"%char :: _) arg :: ts =>
      datetime_of ts (match default [] arg with [] => default_datetime | f => f end)
  | _ :: ts => datetime_of ts dt
  end.

Definition token_formatter (t : token) : formatter :=
  match t with
  | TText s => StringLogFormatter s
  | TKey k _ =>
      match head k with
      | Some c => default (StringLogFormatter (str "<<error_format%" ++ k ++ str ">>")) (getFormatter c)
      | None => StringLogFormatter []
      end
  end.

Lemma datetime_of_other c k arg ts dt :
  c ≠ "d"%char → datetime_of (TKey (c :: k) arg :: ts) dt = datetime_of ts dt.
Proof.
  clear. destruct c as [[] [] [] [] [] [] [] []]; intros Hc; try reflexivity. by destruct Hc.
Qed.

Lemma add_tokens ts : ∀ lg, wf_pattern ts →
  ofold add_entry (token_entry <$> ts) lg =
    Ok (mkLogger (level_ lg) (flusher_count_ lg) (name_ lg) (datetime_of ts (datetime_pattern_ lg))
          (flushers_ lg) (formatters_ lg ++ map token_formatter ts)).
Proof.
  clear. induction ts as [|t ts IH]; intros lg Hw.
  { simpl. rewrite app_nil_r. by destruct lg. }
  destruct Hw as (Hw & Ht). cbn [fmap list_fmap ofold]. destruct t as [s|k arg].
  - simpl. rewrite IH by done. simpl. by rewrite <- app_assoc.
  - assert (Hk : k ≠ []) by (destruct arg; apply Ht). destruct k as [|c k]; [done|].
    simpl add_entry. cbn [mbind outcome_bind]. rewrite IH by done. f_equal.
    destruct (decide (c = "d"%char)) as [->|Hc].
    + simpl. rewrite <- app_assoc. by destruct (default [] arg).
    + rewrite datetime_of_other by done. simpl. by rewrite <- app_assoc.
Qed.

Lemma setFormatters_tokens ts lg :
  wf_pattern ts →
  setFormatters (print ts) lg =
    Ok (mkLogger (level_ lg) (flusher_count_ lg) (name_ lg) (datetime_of ts (datetime_pattern_ lg))
          (flushers_ lg) (map token_formatter ts)).
Proof.
  clear. intros Hw. unfold setFormatters. rewrite parse_wf by done. cbn [mbind outcome_bind].
  by rewrite add_tokens.
Qed.

Lemma key_item c k arg dt name e :
  level e ≠ SIZE → logger_name e = name → datetime_pattern e = dt → date_fits dt e (TKey (c :: k) arg) →
  ∃ i, run_formatter (token_formatter (TKey (c :: k) arg)) e = Ok i ∧ render i = key_text (c :: k) dt name e.
Proof.
  intros Hl <- <- Hd. unfold token_formatter, key_text. cbn [head].
  destruct (getFormatter c) as [f|] eqn:Hf; cbn [default].
  - destruct c as [[] [] [] [] [] [] [] []]; simpl in Hf; simplify_eq; simpl; try by eexists.
    + rewrite strftime_fits by exact Hd. by eexists.
    + destruct (level e); try (by destruct Hl); by eexists.
  - exists (PutStr (str "<<error_format%" ++ (c :: k) ++ str ">>")). split; [done|].
    destruct c as [[] [] [] [] [] [] [] []]; simpl in Hf; simplify_eq; done.
Qed.

Lemma run_tokens ts dt name e :
  wf_pattern ts → level e ≠ SIZE → logger_name e = name → datetime_pattern e = dt → Forall (date_fits dt e) ts →
  ∃ items, run_formatters (map token_formatter ts) e = Ok items ∧
    render <$> items = token_text dt name e <$> ts.
Proof.
  intros Hw Hl Hn Hd Hf. induction ts as [|t ts IH]; [by exists []|].
  destruct Hw as (Hw & Ht). apply Forall_cons in Hf as [Hft Hf]. destruct (IH Hw Hf) as (items & Hi & Hr).
  assert (Hitem : ∃ i, run_formatter (token_formatter t) e = Ok i ∧ render i = token_text dt name e t).
  { destruct t as [s|k arg]; [by exists (PutStr s)|].
    assert (Hk : k ≠ []) by (destruct arg; apply Ht). destruct k as [|c k]; [done|]. by apply key_item. }
  destruct Hitem as (i & H1 & H2). exists (i :: items). cbn [map run_formatters]. rewrite H1.
  cbn [mbind outcome_bind]. rewrite Hi. split; [done|]. cbn [fmap list_fmap]. by rewrite H2, <- Hr.
Qed.

Lemma flush_all slice n : ∀ k l,
  (∀ i, (k <= i < k + n)%nat → ∃ s, l !! i = Some (Some s)) →
  ∃ l', ofold (flush_one slice) (seq k n) l = Ok l' ∧
    (∀ i, (k <= i < k + n)%nat → ∃ s, l !! i = Some (Some s) ∧ l' !! i = Some (Some (s ++ slice))) ∧
    (∀ i, ¬ (k <= i < k + n)%nat → l' !! i = l !! i).
Proof.
  clear. induction n as [|n IH]; intros k l Hl.
  { exists l. split; [done|]. split; [lia|done]. }
  destruct (Hl k) as (s & Hs); [lia|]. cbn [seq ofold].
  assert (H0 : flush_one slice k l = Ok (<[k := Some (s ++ slice)]> l)) by (unfold flush_one; by rewrite Hs).
  rewrite H0. cbn [mbind outcome_bind].
  assert (Hk : (k < length l)%nat) by (eapply lookup_lt_Some; eauto).
  destruct (IH (S k) (<[k := Some (s ++ slice)]> l)) as (l' & H1 & H2 & H3).
  { intros i Hi. rewrite list_lookup_insert_ne by lia. apply Hl. lia. }
  exists l'. split; [exact H1|]. split.
  - intros i Hi. destruct (decide (i = k)) as [->|Hne].
    + exists s. split; [done|]. rewrite H3 by lia. by apply list_lookup_insert_eq.
    + destruct (H2 i) as (t & Ht & Ht'); [lia|]. rewrite list_lookup_insert_ne in Ht by lia. eauto.
  - intros i Hi. rewrite H3 by lia. apply list_lookup_insert_ne. lia.
Qed.

(** The record of a well-formed pattern. *)
Lemma format_record_ok ts lg e b :
  wf_pattern ts → level e ≠ SIZE → buf_ok b → pos_ b = 0 →
  formatters_ lg = map token_formatter ts → Forall (date_fits (datetime_pattern_ lg) e) ts →
  let record := concat (token_text (datetime_pattern_ lg) (name_ lg) e <$> ts) in
  Z.of_nat (length record) + 1 <= LogBufferMaxLen →
  ∃ b', format_record e lg b = Ok (record, b') ∧ buf_ok b' ∧ pos_ b' = 0.
Proof.
  intros Hw Hl Hb Hp Hfm Hdt record Hlen. unfold format_record. rewrite Hfm.
  match goal with |- context [run_formatters _ ?e0] => set (e' := e0) end.
  destruct (run_tokens ts (datetime_pattern_ lg) (name_ lg) e' Hw) as (items & Hi & Hr); [done|done|done|exact Hdt|].
  assert (Htxt : token_text (datetime_pattern_ lg) (name_ lg) e' <$> ts =
    token_text (datetime_pattern_ lg) (name_ lg) e <$> ts).
  { apply list_fmap_ext. intros _ [s|k arg] _; done. }
  rewrite Hi. cbn [mbind outcome_bind].
  destruct (puts_ok items b Hb) as (b1 & H1 & H2 & H3).
  { rewrite Hr, Htxt. fold record. lia. }
  unfold log_stream. rewrite H1. cbn [mbind outcome_bind].
  assert (Hs0 : stream_str b = []) by (unfold stream_str; by rewrite Hp).
  rewrite H3, Hs0, Hr, Htxt. cbn [app]. fold record. eexists. split; [reflexivity|].
  split; [|done]. destruct H2. split; simpl; [done|lia].
Qed.

(** ** Properties *)

(** C31: a log statement writes its record exactly when its level reaches the
    logger's: with a well-formed pattern, every flusher of the logger receives
    the concatenation of the pattern's texts and of what its keys stand for,
    whatever was logged before on the thread, as long as the record fits the
    stream's 5 KB and a date the 64 bytes it is formatted into; below the level
    nothing happens; a FATAL record aborts the process after it has been handed
    to the flushers. *)
Theorem log_record ts lg e b :
  wf_pattern ts → level e ≠ SIZE → buf_ok b → pos_ b = 0 →
  (∀ i, (i < flusher_count_ lg)%nat → ∃ s, flushers_ lg !! i = Some (Some s)) →
  let dt := datetime_of ts (datetime_pattern_ lg) in
  let record := concat (token_text dt (name_ lg) e <$> ts) in
  Forall (date_fits dt e) ts → Z.of_nat (length record) + 1 <= LogBufferMaxLen →
  ∃ lg1, setFormatters (print ts) lg = Ok lg1 ∧
    (level_num (level e) < level_num (level_ lg) → LON_LOG e lg1 b = Ok (lg1, b, false)) ∧
    (level_num (level_ lg) <= level_num (level e) →
     ∃ lg2 b', LON_LOG e lg1 b = Ok (lg2, b', bool_decide (level e = FATAL)) ∧
       buf_ok b' ∧ pos_ b' = 0 ∧ formatters_ lg2 = formatters_ lg1 ∧
       (∀ i, (i < flusher_count_ lg)%nat → ∃ s, flushers_ lg !! i = Some (Some s) ∧
          flushers_ lg2 !! i = Some (Some (s ++ record)))).
Proof.
  intros Hw Hl Hb Hp Hfl dt record Hdt Hlen. eexists. split; [by apply setFormatters_tokens|].
  unfold LON_LOG. cbn [level_]. split.
  { intros Hlt. by rewrite (proj2 (Z.leb_gt _ _)) by done. }
  intros Hge. rewrite (proj2 (Z.leb_le _ _)) by done. unfold log.
  set (lg1 := mkLogger _ _ _ _ _ _).
  destruct (format_record_ok ts lg1 e b) as (b' & Hr & Hb' & Hp'); [done..|].
  rewrite Hr. cbn [mbind outcome_bind fst snd flusher_count_ flushers_ lg1].
  destruct (flush_all record (flusher_count_ lg) 0 (flushers_ lg)) as (l' & Hf & Hin & _).
  { intros i Hi'. apply Hfl. lia. }
  change (concat _) with record. rewrite Hf. cbn [mbind outcome_bind]. do 2 eexists. split; [reflexivity|].
  split_and!; try done. intros i Hi'. apply Hin. lia.
Qed.

(** A longer date: what is streamed is undefined. *)
Lemma long_date_undefined e :
  (64 <= length (strftime (datetime_pattern e) (time e)))%nat →
  run_formatter dateTimeFormatter e = Fault IndeterminateValue.
Proof. intros Hl. simpl. unfold strftime_into. by rewrite (proj2 (Nat.ltb_ge _ _) Hl). Qed.

(** The same for the date in a file's name, which may have 31 characters. *)
Lemma long_file_date_undefined d now :
  (32 <= length (strftime (dateTime d) now))%nat → logFileNameGenerate d now = Fault IndeterminateValue.
Proof. intros Hl. unfold logFileNameGenerate, strftime_into. by rewrite (proj2 (Nat.ltb_ge _ _) Hl). Qed.
End Logger.

(** Reading a level's name, in any case, gives the level. *)
Lemma level_roundtrip l s : levelToString l = Ok s → levelFromString s = l.
Proof. destruct l; intros [= <-]; reflexivity. Qed.

(** The eleventh flusher is written behind the array. *)
Lemma eleventh_flusher lg f :
  flusher_count_ lg = flusher_max → length (flushers_ lg) = flusher_max →
  addOneFlusher (Some f) lg = Fault OutOfBounds.
Proof. intros Hc Hl. unfold addOneFlusher. rewrite Hc, lookup_ge_None_2 by lia. done. Qed.

(** Registering a maker under a key that differs in case only from a known one
    reports success and does nothing. *)
Lemma register_same_name m a b k k' :
  map toupper k = map toupper k' → m !! k = None → m !! k' = None → m !! map toupper k = None →
  k' ≠ map toupper k →
  let m1 := (rigisterFlushMaker k a m).2 in
  (rigisterFlushMaker k' b m1).1 = true ∧ getLogFlusher k' (rigisterFlushMaker k' b m1).2 = Some a.
Proof.
  intros Hu Hk Hk' Hm Hne. unfold rigisterFlushMaker, getLogFlusher. rewrite Hk. simpl. rewrite Hm.
  rewrite lookup_insert_ne by done. rewrite Hk'. simpl. rewrite <- Hu, lookup_insert_eq.
  by rewrite lookup_insert_eq.
Qed.

Module LoggerEx.
Definition lg0 : Logger :=
  mkLogger INFO 2 (str "root") [] [Some []; Some (str "old;")] [].
Definition ev : LogEvent := mkLogEvent (str "a.cpp") 7 ERROR 3 0 5 [] [] (str "hello") 0.
Definition tz (p : cstr) (t : Z) : cstr := str "noon".

Lemma log_record_witness :
  ∃ lg1 lg2 b', setFormatters (str "%d{%Y-%m-%d %H:%M:%S}%T[%p]%m%n") lg0 = Ok lg1 ∧
    LON_LOG tz ev lg1 buf_new = Ok (lg2, b', false) ∧
    flushers_ lg2 !! 1%nat = Some (Some (str "old;" ++ str "noon" ++ [ch 9] ++ str "[ERROR]hello" ++ newline)).
Proof.
  destruct (log_record tz PatternEx.ts lg0 ev buf_new) as (lg1 & H1 & _ & H2).
  - apply PatternEx.ts_wf.
  - discriminate.
  - apply LogStreamEx.buf_new_ok.
  - reflexivity.
  - intros i Hi. simpl in Hi. destruct i as [|[|i]]; [by eexists|by eexists|lia].
  - apply Forall_forall. intros t _. unfold date_fits, tz. destruct t as [|[|[[] [] [] [] [] [] [] []]] ?]; simpl; done || lia.
  - vm_compute. discriminate.
  - destruct H2 as (lg2 & b' & H3 & _ & _ & _ & H4); [vm_compute; discriminate|].
    exists lg1, lg2, b'. split; [exact H1|]. split; [exact H3|].
    destruct (H4 1%nat) as (s & Hs & Hs'); [simpl; lia|]. rewrite Hs'. injection Hs as <-. reflexivity.
Defined.
End LoggerEx.
