(* ===== verification/FileFlusher.v ===== *)
(** * Direct flushers (include/logging/logger_flusher.h, include/base/file.h)

    The flushers that write in the calling thread: [SimpleStdoutFlusher],
    [ProtectedStdoutFlusher], [SimpleFileFlusher], [ProtectedFileFlusher] and
    [StringFlusher], with the files they open and their destructors, and the
    path of a log record from the statement to the file.  The calls on files are
    the class [FileCalls] over a type of file systems; [FileLaws] are their
    documented effects.  The mutex of a protected flusher serialises the calls of
    [flush]: what several threads do is a sequence of them. *)

From S2P Require Import Prelude Sys Text LogStream Address Pattern Logger WritableFile.
From stdpp Require Import options.
Set Default Proof Using "Type*".

(** ** The file system *)

Class FileCalls (D : Type) := {
  fs_stat : cstr → D → sysres;
  fs_mkdir : cstr → D → sysres * D;
  (* O_APPEND | O_WRONLY | O_CREAT *)
  fs_open : cstr → D → sysres * D;
  fs_write : Z → cstr → D → sysres * D;
  fs_close : Z → D → sysres * D;
  (* regular files with their contents, directories, open descriptors *)
  fs_data : D → gmap cstr cstr;
  fs_dirs : D → gset cstr;
  fs_fds : D → gmap Z cstr;
  (* interruptions still to come *)
  fs_stall : D → nat
}.

(** stat(2), mkdir(2), open(2), write(2), close(2). *)
Class FileLaws (D : Type) `{FileCalls D} := {
  stat_known name d : name ∈ fs_dirs d ∨ is_Some (fs_data d !! name) → ∃ r, fs_stat name d = Ret r;
  mkdir_keeps name d r d' : fs_mkdir name d = (r, d') →
    fs_data d' = fs_data d ∧ fs_fds d' = fs_fds d ∧ (fs_stall d' <= fs_stall d)%nat;
  mkdir_ok name d r d' : fs_mkdir name d = (Ret r, d') → fs_dirs d' = {[name]} ∪ fs_dirs d;
  open_ok name d fd d' : fs_open name d = (Ret fd, d') →
    0 <= fd ∧ fs_fds d !! fd = None ∧ fs_fds d' = <[fd := name]> (fs_fds d) ∧
    fs_data d' = <[name := default [] (fs_data d !! name)]> (fs_data d) ∧ (fs_stall d' <= fs_stall d)%nat;
  open_dir name d : name ∈ fs_dirs d → ∃ e d', fs_open name d = (Err e, d');
  write_ok fd s d n d' : s ≠ [] → fs_write fd s d = (Ret n, d') →
    0 < n <= Z.of_nat (length s) ∧
    ∃ name t, fs_fds d !! fd = Some name ∧ fs_data d !! name = Some t ∧
      fs_data d' = <[name := t ++ take (Z.to_nat n) s]> (fs_data d) ∧ fs_fds d' = fs_fds d ∧
      (fs_stall d' <= fs_stall d)%nat;
  write_nothing fd d n d' : fs_write fd [] d = (Ret n, d') → fs_data d' = fs_data d ∧ fs_fds d' = fs_fds d;
  write_fails fd s d e d' : fs_write fd s d = (Err e, d') →
    fs_data d' = fs_data d ∧ fs_fds d' = fs_fds d ∧ (fs_stall d' <= fs_stall d)%nat ∧
    (e = EINTR → (fs_stall d' < fs_stall d)%nat);
  close_frees fd d r d' : fs_close fd d = (r, d') →
    fs_data d' = fs_data d ∧ fs_fds d' = delete fd (fs_fds d) ∧ (fs_stall d' <= fs_stall d)%nat
}.

(** ** Files and flushers *)

(** [WritableFile] without the state of the system. *)
Record file := mkOpen { f_buf : cstr; f_pos : Z; f_fd : Z; f_name : cstr }.

Record FileFlusher := mkFileFlusher { file_ : file; filename_ : LogFilenameData }.

Inductive direct :=
| SimpleStdoutFlusher
| ProtectedStdoutFlusher
| SimpleFileFlusher (f : FileFlusher)
| ProtectedFileFlusher (f : FileFlusher)
| StringFlusher (log : cstr).

(** [char buf_[G_FileBufferSize]{}] *)
Definition zero_buffer : cstr := replicate (Z.to_nat G_FileBufferSize) "000"%char.

Lemma zero_buffer_length : Z.of_nat (length zero_buffer) = G_FileBufferSize.
Proof. unfold zero_buffer. rewrite length_replicate. apply Z2Nat.id. unfold G_FileBufferSize. lia. Qed.

#[local] Opaque zero_buffer G_FileBufferSize.

Definition no_filename : LogFilenameData := mkFilename [] [] [].

Section Flushers.
Context {D : Type} `{FileCalls D}.

(** Standard output and the files. *)
Record system := mkSystem { out : cstr; disk : D }.

Variable fuel : nat.

Definition to_file (f : file) (d : D) : @WritableFile D := mkFile (f_buf f) (f_pos f) (0 <=? f_fd f) d.
Definition of_file (f : file) (w : @WritableFile D) : file :=
  mkOpen (WritableFile.buf_ w) (WritableFile.pos_ w) (f_fd f) (f_name f).

Definition WritableFile_default : file := mkOpen zero_buffer 0 (-1) [].

Definition WritableFile_open (name : cstr) (d : D) : outcome (file * D) :=
  let '(r, d) := fs_open name d in
  match r with
  | Ret fd => Ok (mkOpen zero_buffer 0 fd name, d)
  | Err _ => Throw ExecFailed
  end.

(** [lon::createDir] *)
Definition createDir (dirname : cstr) (d : D) : sysres * D :=
  match fs_stat dirname d with
  | Err _ => fs_mkdir dirname d
  | Ret _ => (Ret 0, d)
  end.

(** [fullfilename.substr(0, fullfilename.find_last_of('/'))] *)
Definition dirname_of (fullfilename : cstr) : cstr :=
  match split_last "/"%char fullfilename with
  | Some (dir, _) => dir
  | None => fullfilename
  end.

(** [FileFlusher::createDir]; a failure is only printed. *)
Definition FileFlusher_createDir (fullfilename : cstr) (d : D) : D := (createDir (dirname_of fullfilename) d).2.

(** The file that was there is overwritten without being closed. *)
Definition setFileName (filename : cstr) (f : FileFlusher) (d : D) : outcome (FileFlusher * D) :=
  p ← WritableFile_open filename d; Ok (mkFileFlusher p.1 (filename_ f), p.2).

Definition FileFlusher_named (filename : cstr) (d : D) : outcome (FileFlusher * D) :=
  setFileName filename (mkFileFlusher WritableFile_default no_filename) (FileFlusher_createDir filename d).

Definition FileFlusher_pattern (strftime : cstr → Z → cstr) (host pid : cstr) (now : Z) (pattern : cstr) (d : D)
    : outcome (FileFlusher * D) :=
  data ← logFileNameParse host pid pattern;
  filename ← logFileNameGenerate strftime data now;
  setFileName filename (mkFileFlusher WritableFile_default data) (FileFlusher_createDir filename d).

(** [file_.append(str)], its result ignored. *)
Definition SimpleFileFlusher_flush (s : cstr) (f : FileFlusher) (d : D) : outcome (FileFlusher * D) :=
  p ← WritableFile.append (fs_write (f_fd (file_ f))) fuel s (to_file (file_ f) d);
  Ok (mkFileFlusher (of_file (file_ f) p.2) (filename_ f), sys p.2).

(** The same, while [mutex_] is held. *)
Definition ProtectedFileFlusher_flush (s : cstr) (f : FileFlusher) (d : D) : outcome (FileFlusher * D) :=
  p ← WritableFile.append (fs_write (f_fd (file_ f))) fuel s (to_file (file_ f) d);
  Ok (mkFileFlusher (of_file (file_ f) p.2) (filename_ f), sys p.2).

Definition file_destroy (f : FileFlusher) (d : D) : outcome D :=
  w ← destroy_file (fs_write (f_fd (file_ f))) (fs_close (f_fd (file_ f))) fuel (to_file (file_ f) d);
  Ok (sys w).

(** [std::cout << str] *)
Definition SimpleStdoutFlusher_flush (s : cstr) (sy : system) : system := mkSystem (out sy ++ s) (disk sy).
Definition ProtectedStdoutFlusher_flush (s : cstr) (sy : system) : system := mkSystem (out sy ++ s) (disk sy).

Definition StringFlusher_flush (s log : cstr) : cstr := log ++ s.

(** The virtual [flush]. *)
Definition flush (s : cstr) (fl : direct) (sy : system) : outcome (direct * system) :=
  match fl with
  | SimpleStdoutFlusher => Ok (fl, SimpleStdoutFlusher_flush s sy)
  | ProtectedStdoutFlusher => Ok (fl, ProtectedStdoutFlusher_flush s sy)
  | SimpleFileFlusher f =>
      p ← SimpleFileFlusher_flush s f (disk sy); Ok (SimpleFileFlusher p.1, mkSystem (out sy) p.2)
  | ProtectedFileFlusher f =>
      p ← ProtectedFileFlusher_flush s f (disk sy); Ok (ProtectedFileFlusher p.1, mkSystem (out sy) p.2)
  | StringFlusher l => Ok (StringFlusher (StringFlusher_flush s l), sy)
  end.

Definition destroy_flusher (fl : direct) (sy : system) : outcome system :=
  match fl with
  | SimpleFileFlusher f | ProtectedFileFlusher f => d ← file_destroy f (disk sy); Ok (mkSystem (out sy) d)
  | _ => Ok sy
  end.

(** ** Logging to them *)

(** [flushers_[i]->flush(slice)] *)
Definition flush_at (slice : cstr) (i : nat) (p : list (option direct) * system)
    : outcome (list (option direct) * system) :=
  x ← of_option OutOfBounds (p.1 !! i);
  fl ← of_option NullDeref x;
  q ← flush slice fl p.2;
  Ok (<[i := Some q.1]> p.1, q.2).

Variable strftime : cstr → Z → cstr.

(** The statement [LON_LOG(logger, level) << content] on a logger whose array of
    flushers is [l]; true when the process is aborted after it. *)
Definition log_to (lg : Logger) (event : LogEvent) (l : list (option direct)) (b : LogSStreamBuf) (sy : system)
    : outcome (list (option direct) * LogSStreamBuf * system * bool) :=
  if level_num (level_ lg) <=? level_num (level event) then
    p ← format_record strftime event lg b;
    q ← ofold (flush_at p.1) (seq 0 (flusher_count_ lg)) (l, sy);
    Ok (q.1, p.2, q.2, bool_decide (level event = FATAL))
  else Ok (l, b, sy, false).

(** Statements in turn, up to one that aborts. *)
Fixpoint logs_to (lg : Logger) (es : list LogEvent) (l : list (option direct)) (b : LogSStreamBuf) (sy : system)
    : outcome (list (option direct) * LogSStreamBuf * system * bool) :=
  match es with
  | [] => Ok (l, b, sy, false)
  | e :: es =>
      p ← log_to lg e l b sy;
      let '(l, b, sy, aborted) := p in
      if aborted : bool then Ok (l, b, sy, true) else logs_to lg es l b sy
  end.

(** The logger's destructor destroys the array of [unique_ptr]s from its end. *)
Definition destroy_flushers (l : list (option direct)) (sy : system) : outcome system :=
  ofold (λ o sy, match o with Some fl => destroy_flusher fl sy | None => Ok sy end) (reverse l) sy.
End Flushers.

(** ** One file *)

Section FileThm.
Context {D : Type} `{FileLaws D}.
Variable fuel : nat.

(** What the file behind a descriptor holds. *)
Definition text_of (fd : Z) (d : D) : cstr := default [] (fs_fds d !! fd ≫= λ name, fs_data d !! name).

(** [d'] differs from [d] at most in the contents of the file behind [fd]. *)
Definition only_at (fd : Z) (d d' : D) : Prop :=
  fs_fds d' = fs_fds d ∧
  (∀ name, fs_fds d !! fd ≠ Some name → fs_data d' !! name = fs_data d !! name) ∧
  (∀ name, is_Some (fs_data d !! name) → is_Some (fs_data d' !! name)).

#[global] Instance only_at_preorder fd : PreOrder (only_at fd).
Proof.
  split; [intros d; split_and!; auto|]. intros d1 d2 d3 (A1 & A2 & A3) (B1 & B2 & B3).
  split; [congruence|]. split; [|auto]. intros name Hn. rewrite B2, A2; [done|done|]. by rewrite A1.
Qed.

Lemma write_only_at fd s d r d' : fs_write fd s d = (r, d') → only_at fd d d'.
Proof.
  intros Hw. destruct r as [n|e].
  - destruct s as [|c s].
    + apply write_nothing in Hw as (Hd & Hf). unfold only_at. rewrite Hd, Hf. auto.
    + apply write_ok in Hw as (_ & name & t & Hfd & Ht & Hd & Hf & _); [|done].
      split; [done|]. rewrite Hd. split.
      * intros name' Hn. apply lookup_insert_ne. congruence.
      * intros name' Hs. rewrite lookup_insert_is_Some. destruct (decide (name = name')); auto.
  - apply write_fails in Hw as (Hd & Hf & _). unfold only_at. rewrite Hd, Hf. auto.
Qed.

(** The descriptor is open on the file. *)
Definition open_at (fd : Z) (name : cstr) (d : D) : Prop := fs_fds d !! fd = Some name ∧ is_Some (fs_data d !! name).

Lemma open_at_keeps fd name s d r d' : open_at fd name d → fs_write fd s d = (r, d') → open_at fd name d'.
Proof.
  intros [Hf Hs] Hw. apply write_only_at in Hw as (Hfd & _ & Hd). split; [by rewrite Hfd|by apply Hd].
Qed.

Lemma write_text fd s d n d' : s ≠ [] → fs_write fd s d = (Ret n, d') →
  0 < n <= Z.of_nat (length s) ∧ text_of fd d' = text_of fd d ++ take (Z.to_nat n) s ∧
  (fs_stall d' <= fs_stall d)%nat.
Proof.
  intros Hs Hw. apply write_ok in Hw as (Hn & name & t & Hfd & Ht & Hd & Hf & Hst); [|done].
  split; [done|]. split; [|done]. unfold text_of. rewrite Hf, Hfd. simpl. by rewrite Hd, lookup_insert_eq, Ht.
Qed.

Lemma write_err_text fd s d e d' : fs_write fd s d = (Err e, d') →
  text_of fd d' = text_of fd d ∧ (fs_stall d' <= fs_stall d)%nat ∧ (e = EINTR → (fs_stall d' < fs_stall d)%nat).
Proof. intros Hw. apply write_fails in Hw as (Hd & Hf & Hst & Hi). unfold text_of. by rewrite Hd, Hf. Qed.

Definition file_inv (f : FileFlusher) (d : D) : Prop :=
  file_ok (to_file (file_ f) d) ∧ 0 <= f_fd (file_ f) ∧ fs_fds d !! f_fd (file_ f) = Some (f_name (file_ f)) ∧
  is_Some (fs_data d !! f_name (file_ f)).

(** What has been written and what is still in the buffer. *)
Definition file_text (f : FileFlusher) (d : D) : cstr :=
  default [] (fs_data d !! f_name (file_ f)) ++ pending (to_file (file_ f) d).

Definition same_file (f f' : FileFlusher) : Prop :=
  f_fd (file_ f') = f_fd (file_ f) ∧ f_name (file_ f') = f_name (file_ f).

(** Another file is not touched. *)
Lemma file_frame f fd name d d' :
  only_at fd d d' → fs_fds d !! fd = Some name → name ≠ f_name (file_ f) → file_inv f d →
  file_inv f d' ∧ file_text f d' = file_text f d.
Proof.
  intros (Hf & Hd & _) Hn Hne (H1 & H2 & H3 & H4). unfold file_inv, file_text.
  rewrite Hf, Hd by congruence. split; [|done]. auto.
Qed.

(** Opening. *)
Lemma open_inv name f d f' d' :
  setFileName name f d = Ok (f', d') →
  file_inv f' d' ∧ file_text f' d' = default [] (fs_data d !! name) ∧ f_name (file_ f') = name ∧
  fs_fds d !! f_fd (file_ f') = None ∧ fs_fds d' = <[f_fd (file_ f') := name]> (fs_fds d) ∧
  (∀ name', name' ≠ name → fs_data d' !! name' = fs_data d !! name') ∧ (fs_stall d' <= fs_stall d)%nat.
Proof.
  unfold setFileName, WritableFile_open. intros Ho. apply bind_Ok in Ho as ([x d1] & Ho & [= <- <-]).
  destruct (fs_open name d) as [[fd|e] d2] eqn:Hop; [|discriminate Ho]. injection Ho as <- <-.
  apply open_ok in Hop as (Hp & Hfr & Hfds & Hdt & Hst).
  assert (HG : 0 <= G_FileBufferSize) by (vm_compute; discriminate).
  unfold file_inv, file_text, to_file, pending, file_ok.
  cbn [file_ f_fd f_name f_buf f_pos fst snd WritableFile.buf_ WritableFile.pos_].
  rewrite Hfds, Hdt, !lookup_insert_eq, zero_buffer_length. cbn [Z.to_nat take default from_option].
  rewrite app_nil_r. split; [split; [split; [reflexivity|lia]|split; [exact Hp|split; [reflexivity|by eexists]]]|].
  split; [reflexivity|]. split; [reflexivity|]. split; [exact Hfr|]. split; [reflexivity|].
  split; [|exact Hst]. intros name' Hn. by apply lookup_insert_ne.
Qed.

(** Writing to an open file never fails for good. *)
Hypothesis only_eintr : ∀ fd name s d e d',
  fs_fds d !! fd = Some name → is_Some (fs_data d !! name) → fs_write fd s d = (Err e, d') → e = EINTR.

Lemma file_flush_ok s f d :
  file_inv f d → (Z.to_nat G_FileBufferSize + length s + fs_stall d <= fuel)%nat →
  ∃ f' d', SimpleFileFlusher_flush fuel s f d = Ok (f', d') ∧ file_inv f' d' ∧ same_file f f' ∧
    only_at (f_fd (file_ f)) d d' ∧ (fs_stall d' <= fs_stall d)%nat ∧ file_text f' d' = file_text f d ++ s.
Proof.
  intros (Hok & Hp & Hfd & Hs) Hfu. set (fd := f_fd (file_ f)) in *.
  destruct (append_ok (fs_write fd) (λ w, (Ret 0, w)) fuel (text_of fd) fs_stall (write_text fd)
    (write_err_text fd)) with (s := s) (f := to_file (file_ f) d) as (b & w & Ha & Hok' & Hop & Hst & Ht);
    [by intros w r w' [= _ <-]|exact Hok|exact Hfu|].
  apply (append_true (fs_write fd) (λ w, (Ret 0, w)) fuel (open_at fd (f_name (file_ f))) (open_at_keeps fd _)
    (λ s d e d' Hi, only_eintr fd _ s d e d' (proj1 Hi) (proj2 Hi))) in Ha as Hb; [|by split].
  subst b.
  pose proof (append_frame (fs_write fd) (λ w, (Ret 0, w)) fuel (only_at fd) (write_only_at fd) _ _ _ _ Ha) as Hfr.
  specialize (Ht eq_refl). simpl in Hfr, Hst. unfold SimpleFileFlusher_flush. fold fd. rewrite Ha. cbn [mbind outcome_bind snd].
  pose proof Hfr as (Hfds & _ & Hsome). do 2 eexists. split; [reflexivity|].
  assert (Htext : ∀ d1, fs_fds d1 = fs_fds d → text_of fd d1 = default [] (fs_data d1 !! f_name (file_ f))).
  { intros d1 H1. unfold text_of. by rewrite H1, Hfd. }
  rewrite !Htext in Ht by done. unfold file_inv, same_file, file_text.
  cbn [file_ f_fd f_name of_file]. rewrite Hfds. split_and!; try done; [by apply Hsome|].
  rewrite <- app_assoc. exact Ht.
Qed.

Lemma file_destroy_ok f d :
  file_inv f d → (Z.to_nat G_FileBufferSize + fs_stall d <= fuel)%nat →
  ∃ d', file_destroy fuel f d = Ok d' ∧ fs_data d' !! f_name (file_ f) = Some (file_text f d) ∧
    (∀ name, name ≠ f_name (file_ f) → fs_data d' !! name = fs_data d !! name) ∧
    fs_fds d' = delete (f_fd (file_ f)) (fs_fds d) ∧ (fs_stall d' <= fs_stall d)%nat.
Proof.
  intros (Hok & Hp & Hfd & Hs) Hfu. set (fd := f_fd (file_ f)) in *.
  destruct (flush_ok (fs_write fd) (λ w, (Ret 0, w)) fuel (text_of fd) fs_stall (write_text fd)
    (write_err_text fd)) with (f := to_file (file_ f) d) as (b & w & Ha & _ & _ & _ & Hst & Ht);
    [by intros w r w' [= _ <-]|exact Hok|exact Hfu|].
  apply (flush_true (fs_write fd) (λ w, (Ret 0, w)) fuel (open_at fd (f_name (file_ f))) (open_at_keeps fd _)
    (λ s d e d' Hi, only_eintr fd _ s d e d' (proj1 Hi) (proj2 Hi))) in Ha as Hb; [|by split].
  destruct Hb as [-> _].
  pose proof (flush_frame (fs_write fd) (λ w, (Ret 0, w)) fuel (only_at fd) (write_only_at fd) _ _ _ Ha) as Hfr.
  specialize (Ht eq_refl). simpl in Hfr, Hst, Ht. destruct Hfr as (Hfds & Hoth & Hsome).
  unfold file_destroy, destroy_file, closeFile. fold fd. cbn [to_file fd_open]. fold fd.
  rewrite (proj2 (Z.leb_le 0 fd)) by done. rewrite Ha. cbn [mbind outcome_bind snd fst].
  destruct (fs_close fd (sys w)) as [r d'] eqn:Hc. exists d'.
  split; [by destruct r|]. apply close_frees in Hc as (Hd & Hf & Hst').
  unfold text_of in Ht. rewrite Hfds, Hfd in Ht. simpl in Ht. rewrite Hd, Hf, Hfds. split; [|split; [|split; [done|lia]]].
  - destruct (Hsome _ Hs) as [t Hte]. rewrite Hte in Ht |- *. simpl in Ht. by rewrite Ht.
  - intros name Hn. apply Hoth. congruence.
Qed.
End FileThm.

(** ** The array of flushers *)

Definition flusher_file (fl : direct) : option FileFlusher :=
  match fl with
  | SimpleFileFlusher f | ProtectedFileFlusher f => Some f
  | _ => None
  end.

Definition prints (fl : direct) : bool :=
  match fl with
  | SimpleStdoutFlusher | ProtectedStdoutFlusher => true
  | _ => false
  end.

(** Same class, same file. *)
Definition same_flusher (fl fl' : direct) : Prop :=
  match fl, fl' with
  | SimpleStdoutFlusher, SimpleStdoutFlusher | ProtectedStdoutFlusher, ProtectedStdoutFlusher
  | StringFlusher _, StringFlusher _ => True
  | SimpleFileFlusher f, SimpleFileFlusher f' | ProtectedFileFlusher f, ProtectedFileFlusher f' => same_file f f'
  | _, _ => False
  end.

#[global] Instance same_flusher_preorder : PreOrder same_flusher.
Proof.
  split; [by intros []|]. intros [] [] [] A B; try done; simpl in *; unfold same_file in *; intuition congruence.
Qed.

Definition file_name_of (o : option direct) : option cstr := o ≫= λ fl, f_name ∘ file_ <$> flusher_file fl.

(** The files of an array. *)
Definition names (l : list (option direct)) : list cstr := omap file_name_of l.

Lemma file_name_same fl fl' : same_flusher fl fl' → file_name_of (Some fl') = file_name_of (Some fl).
Proof. destruct fl, fl'; try done; intros [_ Hn]; unfold file_name_of; simpl; by rewrite Hn. Qed.

Lemma names_insert l i fl fl' :
  l !! i = Some (Some fl) → same_flusher fl fl' → names (<[i := Some fl']> l) = names l.
Proof.
  intros Hl Hs. apply file_name_same in Hs. revert i Hl. unfold names.
  induction l as [|o l IH]; intros [|i] Hl; simplify_eq/=; [by rewrite Hs|by rewrite (IH i Hl)].
Qed.

Lemma names_distinct l i j o o' name :
  NoDup (names l) → l !! i = Some o → l !! j = Some o' → file_name_of o = Some name → file_name_of o' = Some name →
  i = j.
Proof.
  revert i j. unfold names. induction l as [|x l IH]; intros [|i] [|j] Hnd Hi Hj Ho Ho'; simplify_eq/=; try done.
  - rewrite Ho in Hnd. apply NoDup_cons in Hnd as [[] _]. apply list_elem_of_omap. exists o'. split; [|done].
    by eapply list_elem_of_lookup_2.
  - rewrite Ho' in Hnd. apply NoDup_cons in Hnd as [[] _]. apply list_elem_of_omap. exists o. split; [|done].
    by eapply list_elem_of_lookup_2.
  - f_equal. eapply IH; try done. destruct (file_name_of x); [by apply NoDup_cons in Hnd as [_ ?]|done].
Qed.

Section Array.
Context {D : Type} `{FileLaws D}.
Variable fuel : nat.
Hypothesis only_eintr : ∀ fd name s d e d',
  fs_fds d !! fd = Some name → is_Some (fs_data d !! name) → fs_write fd s d = (Err e, d') → e = EINTR.

Notation system := (@system D).

Definition direct_inv (fl : direct) (sy : system) : Prop :=
  match flusher_file fl with Some f => file_inv f (disk sy) | None => True end.

(** What a flusher has received: the text of its file or string. *)
Definition direct_text (fl : direct) (sy : system) : cstr :=
  match fl with
  | SimpleFileFlusher f | ProtectedFileFlusher f => file_text f (disk sy)
  | StringFlusher s => s
  | _ => []
  end.

(** Open, distinct files. *)
Record array_ok (l : list (option direct)) (sy : system) : Prop := mkArrayOk {
  names_nodup : NoDup (names l);
  all_inv : ∀ i fl, l !! i = Some (Some fl) → direct_inv fl sy
}.

Definition added (fl : direct) (s : cstr) : cstr := if prints fl then [] else s.

Lemma flush_direct_ok s fl (sy : system) :
  direct_inv fl sy → (Z.to_nat G_FileBufferSize + length s + fs_stall (disk sy) <= fuel)%nat →
  ∃ fl' sy', flush fuel s fl sy = Ok (fl', sy') ∧ same_flusher fl fl' ∧ direct_inv fl' sy' ∧
    direct_text fl' sy' = direct_text fl sy ++ added fl s ∧
    out sy' = out sy ++ (if prints fl then s else []) ∧ (fs_stall (disk sy') <= fs_stall (disk sy))%nat ∧
    (∀ fl2, direct_inv fl2 sy → (∀ name, file_name_of (Some fl) = Some name → file_name_of (Some fl2) ≠ Some name) →
       direct_inv fl2 sy' ∧ direct_text fl2 sy' = direct_text fl2 sy).
Proof.
  intros Hi Hfu.
  assert (Hfile : ∀ f, flusher_file fl = Some f → ∃ f' d', SimpleFileFlusher_flush fuel s f (disk sy) = Ok (f', d') ∧
    file_inv f' d' ∧ same_file f f' ∧ (fs_stall d' <= fs_stall (disk sy))%nat ∧
    file_text f' d' = file_text f (disk sy) ++ s ∧
    ∀ fl2, direct_inv fl2 sy → file_name_of (Some fl2) ≠ Some (f_name (file_ f)) →
       direct_inv fl2 (mkSystem (out sy) d') ∧ direct_text fl2 (mkSystem (out sy) d') = direct_text fl2 sy).
  { intros f Hf. unfold direct_inv in Hi. rewrite Hf in Hi.
    destruct (file_flush_ok fuel only_eintr s f (disk sy) Hi Hfu) as (f' & d' & H1 & H2 & H3 & H4 & H5 & H6).
    exists f', d'. split_and!; try done; try apply H3. intros fl2 Hi2 Hn.
    assert (Hx : ∀ f2, flusher_file fl2 = Some f2 →
      file_inv f2 d' ∧ file_text f2 d' = file_text f2 (disk sy)).
    { intros f2 Hf2. unfold direct_inv in Hi2. rewrite Hf2 in Hi2. destruct Hi as (_ & _ & Hfd & _).
      eapply file_frame; [exact H4|exact Hfd| |exact Hi2]. intros Heq. apply Hn. unfold file_name_of. simpl.
      rewrite Hf2. simpl. by rewrite Heq. }
    unfold direct_inv. destruct fl2; simpl; try done; by apply Hx. }
  destruct fl as [| |f|f|l]; cbn [flush].
  all: try change (ProtectedFileFlusher_flush fuel s f) with (SimpleFileFlusher_flush fuel s f).
  1, 2: do 2 eexists; split; [reflexivity|]; split; [done|]; split; [done|]; split; [done|]; split; [done|];
    split; [simpl; lia|]; intros fl2 Hi2 _; split; [exact Hi2|by destruct fl2].
  1, 2: destruct (Hfile f eq_refl) as (f' & d' & H1 & H2 & H3 & H4 & H5 & H6); rewrite H1; cbn [mbind outcome_bind fst snd];
    do 2 eexists; split; [reflexivity|]; split; [exact H3|]; split; [exact H2|]; split; [exact H5|];
    split; [simpl; by rewrite app_nil_r|]; split; [exact H4|]; intros fl2 Hi2 Hn; apply H6; [exact Hi2|]; by apply Hn.
  do 2 eexists. split; [reflexivity|]. split; [done|]. split; [done|]. split; [done|].
  split; [simpl; by rewrite app_nil_r|]. split; [simpl; lia|]. intros fl2 Hi2 _. split; [exact Hi2|done].
Qed.
(** What the first [n] flushers print of a slice. *)
Definition echo (s : cstr) (l : list (option direct)) (k n : nat) : cstr :=
  concat ((λ i, match l !! i with Some (Some fl) => if prints fl then s else [] | _ => [] end) <$> seq k n).

(** [l'] holds the flushers of [l], the [i]-th with [f i] more text. *)
Definition grown (f : nat → direct → cstr) (l : list (option direct)) (sy : system)
    (l' : list (option direct)) (sy' : system) : Prop :=
  ∀ i fl, l !! i = Some (Some fl) → ∃ fl', l' !! i = Some (Some fl') ∧ same_flusher fl fl' ∧
    direct_text fl' sy' = direct_text fl sy ++ f i fl.

Lemma prints_same fl fl' : same_flusher fl fl' → prints fl' = prints fl.
Proof using Type. by destruct fl, fl'. Qed.

Lemma grown_trans f g h l sy l1 sy1 l2 sy2 :
  grown f l sy l1 sy1 → grown g l1 sy1 l2 sy2 →
  (∀ i fl fl', same_flusher fl fl' → h i fl = f i fl ++ g i fl') → grown h l sy l2 sy2.
Proof using Type.
  intros Hf Hg Hh i fl Hl. destruct (Hf i fl Hl) as (fl1 & Hl1 & Hs1 & Ht1).
  destruct (Hg i fl1 Hl1) as (fl2 & Hl2 & Hs2 & Ht2). exists fl2. split; [done|]. split; [by etrans|].
  by rewrite Ht2, Ht1, (Hh i fl fl1 Hs1), app_assoc.
Qed.

Lemma echo_grown f s l sy l' sy' k n :
  grown f l sy l' sy' → (∀ i, (k <= i < k + n)%nat → ∃ fl, l !! i = Some (Some fl)) → echo s l' k n = echo s l k n.
Proof using Type.
  intros Hg Hl. unfold echo. f_equal. apply list_fmap_ext. intros j i Hi. apply lookup_seq in Hi as [-> Hj].
  destruct (Hl (k + j)%nat) as (fl & Hfl); [lia|]. destruct (Hg _ _ Hfl) as (fl' & Hfl' & Hs & _).
  by rewrite Hfl, Hfl', (prints_same fl fl' Hs).
Qed.

(** One flusher. *)
Lemma flush_at_ok s i l (sy : system) fl :
  array_ok l sy → l !! i = Some (Some fl) → (Z.to_nat G_FileBufferSize + length s + fs_stall (disk sy) <= fuel)%nat →
  ∃ l' sy', flush_at fuel s i (l, sy) = Ok (l', sy') ∧ array_ok l' sy' ∧ length l' = length l ∧
    grown (λ j fl, if decide (j = i) then added fl s else []) l sy l' sy' ∧
    out sy' = out sy ++ (if prints fl then s else []) ∧ (fs_stall (disk sy') <= fs_stall (disk sy))%nat.
Proof.
  intros [Hnd Hinv] Hl Hfu.
  destruct (flush_direct_ok s fl sy (Hinv i fl Hl) Hfu) as (fl' & sy' & H1 & H2 & H3 & H4 & H5 & H6 & H7).
  exists (<[i := Some fl']> l), sy'. unfold flush_at. cbn [fst snd]. rewrite Hl. cbn [of_option mbind outcome_bind].
  rewrite H1. cbn [mbind outcome_bind fst snd]. split; [done|].
  assert (Hlt : (i < length l)%nat) by (eapply lookup_lt_Some; eauto).
  assert (Hoth : ∀ j fl2, j ≠ i → l !! j = Some (Some fl2) →
    direct_inv fl2 sy' ∧ direct_text fl2 sy' = direct_text fl2 sy).
  { intros j fl2 Hne Hj. apply H7; [by eapply Hinv|]. intros name Hn Hn2. apply Hne.
    by eapply names_distinct. }
  split; [split|split; [by rewrite length_insert|split; [|done]]].
  - by rewrite (names_insert l i fl fl' Hl H2).
  - intros j fl2 Hj. apply list_lookup_insert_Some in Hj as [(<- & Heq & _)|(Hne & Hj)]; [by injection Heq as <-|].
    by apply (Hoth j).
  - intros j fl2 Hj. destruct (decide (j = i)) as [->|Hne].
    + rewrite Hl in Hj. injection Hj as <-. exists fl'. rewrite list_lookup_insert_eq by done. auto.
    + exists fl2. rewrite list_lookup_insert_ne by done. rewrite app_nil_r. split; [done|]. split; [done|].
      by apply (Hoth j).
Qed.

Lemma flush_array s n : ∀ k l (sy : system),
  array_ok l sy → (∀ i, (k <= i < k + n)%nat → ∃ fl, l !! i = Some (Some fl)) →
  (Z.to_nat G_FileBufferSize + length s + fs_stall (disk sy) <= fuel)%nat →
  ∃ l' sy', ofold (flush_at fuel s) (seq k n) (l, sy) = Ok (l', sy') ∧ array_ok l' sy' ∧ length l' = length l ∧
    grown (λ i fl, if decide (k <= i < k + n)%nat then added fl s else []) l sy l' sy' ∧
    out sy' = out sy ++ echo s l k n ∧ (fs_stall (disk sy') <= fs_stall (disk sy))%nat.
Proof.
  induction n as [|n IH]; intros k l sy Hok Hl Hfu.
  { exists l, sy. split; [done|]. split; [done|]. split; [done|]. split; [|split; [by rewrite app_nil_r|done]].
    intros i fl Hi. exists fl. rewrite decide_False by lia. by rewrite app_nil_r. }
  destruct (Hl k) as (fl & Hk); [lia|].
  destruct (flush_at_ok s k l sy fl Hok Hk Hfu) as (l1 & sy1 & H1 & Hok1 & Hlen1 & Hg1 & Ho1 & Hst1).
  destruct (IH (S k) l1 sy1 Hok1) as (l2 & sy2 & H2 & Hok2 & Hlen2 & Hg2 & Ho2 & Hst2).
  { intros i Hi. destruct (Hl i) as (fli & Hi'); [lia|]. destruct (Hg1 i fli Hi') as (fl' & Hl' & _). by exists fl'. }
  { lia. }
  exists l2, sy2. cbn [seq ofold]. rewrite H1. cbn [mbind outcome_bind]. split; [exact H2|]. split; [done|].
  split; [congruence|]. split; [|split; [|lia]].
  - eapply grown_trans; [exact Hg1|exact Hg2|]. intros i fl1 fl2 Hs. unfold added. rewrite (prints_same fl1 fl2 Hs).
    repeat case_decide; try lia; try done. by rewrite app_nil_r.
  - rewrite Ho2, Ho1, <- app_assoc. f_equal. unfold echo at 2. cbn [seq fmap list_fmap concat]. rewrite Hk. f_equal.
    eapply echo_grown; [exact Hg1|]. intros i Hi. apply Hl. lia.
Qed.

(** Destruction writes out what is buffered. *)
Lemma destroy_list r : ∀ (sy : system),
  array_ok r sy → (Z.to_nat G_FileBufferSize + fs_stall (disk sy) <= fuel)%nat →
  ∃ sy', ofold (λ o sy, match o with Some fl => destroy_flusher fuel fl sy | None => Ok sy end) r sy = Ok sy' ∧
    out sy' = out sy ∧
    (∀ fl f, Some fl ∈ r → flusher_file fl = Some f →
       fs_data (disk sy') !! f_name (file_ f) = Some (file_text f (disk sy))) ∧
    (∀ name, name ∉ names r → fs_data (disk sy') !! name = fs_data (disk sy) !! name).
Proof.
  induction r as [|o r IH]; intros sy [Hnd Hinv] Hfu.
  { exists sy. split; [done|]. split; [done|]. split; [|done]. intros fl f Hin. by apply not_elem_of_nil in Hin. }
  assert (Hhead : ∃ sy1, (match o with Some fl => destroy_flusher fuel fl sy | None => Ok sy end) = Ok sy1 ∧
    out sy1 = out sy ∧ (fs_stall (disk sy1) <= fs_stall (disk sy))%nat ∧
    (∀ fl f, o = Some fl → flusher_file fl = Some f →
       fs_data (disk sy1) !! f_name (file_ f) = Some (file_text f (disk sy))) ∧
    (∀ name, file_name_of o ≠ Some name → fs_data (disk sy1) !! name = fs_data (disk sy) !! name) ∧
    (∀ f, file_inv f (disk sy) → file_name_of o ≠ Some (f_name (file_ f)) → file_inv f (disk sy1))).
  { destruct o as [fl|]; [|exists sy; by split_and!]. pose proof (Hinv 0%nat fl eq_refl) as Hi. unfold direct_inv in Hi.
    assert (Hd : ∀ f, flusher_file fl = Some f → destroy_flusher fuel fl sy =
      d ← file_destroy fuel f (disk sy); Ok (mkSystem (out sy) d)) by (destruct fl; intros g Hg; by simplify_eq/=).
    destruct (flusher_file fl) as [f|] eqn:Hf.
    - rewrite (Hd f eq_refl). destruct (file_destroy_ok fuel only_eintr f (disk sy) Hi Hfu) as (d & H1 & H2 & H3 & H4 & H5).
      rewrite H1. exists (mkSystem (out sy) d). split; [done|]. split; [done|]. split; [exact H5|].
      assert (Hname : file_name_of (Some fl) = Some (f_name (file_ f))) by (unfold file_name_of; simpl; by rewrite Hf).
      rewrite Hname. split; [intros fl' f' [= <-] Hf'; rewrite Hf in Hf'; by injection Hf' as <-|].
      split; [intros name Hn; apply H3; congruence|]. intros f2 (A1 & A2 & A3 & A4) Hn. unfold file_inv. cbn [disk].
      rewrite H3, H4 by congruence. split; [exact A1|]. split; [exact A2|]. split; [|exact A4].
      rewrite lookup_delete_ne; [done|]. destruct Hi as (_ & _ & B3 & _). congruence.
    - exists sy. split; [by destruct fl|]. split; [done|]. split; [done|]. split; [|done]. intros fl' f [= <-]. congruence. }
  destruct Hhead as (sy1 & H1 & H2 & H3 & H4 & H5 & H6). cbn [ofold]. rewrite H1. cbn [mbind outcome_bind].
  assert (Hnot : ∀ fl f, Some fl ∈ r → flusher_file fl = Some f → file_name_of o ≠ Some (f_name (file_ f))).
  { intros fl f Hin Hf Ho. unfold names in Hnd. simpl in Hnd. rewrite Ho in Hnd. apply NoDup_cons in Hnd as [[] _].
    apply list_elem_of_omap. exists (Some fl). split; [done|]. unfold file_name_of. simpl. by rewrite Hf. }
  destruct (IH sy1) as (sy2 & G1 & G2 & G3 & G4); [split|lia|].
  { unfold names in Hnd. simpl in Hnd. destruct (file_name_of o); [by apply NoDup_cons in Hnd as [_ ?]|done]. }
  { intros i fl Hi. pose proof (Hinv (S i) fl Hi) as Hx. unfold direct_inv in Hx |- *.
    destruct (flusher_file fl) as [f|] eqn:Hf; [|done]. apply H6; [done|]. eapply Hnot; [|exact Hf].
    by eapply list_elem_of_lookup_2. }
  exists sy2. split; [exact G1|]. split; [congruence|]. split.
  - intros fl f Hin Hf. apply elem_of_cons in Hin as [<-|Hin].
    + rewrite G4; [by apply (H4 fl)|]. unfold names in Hnd. simpl in Hnd. unfold file_name_of in Hnd at 1. simpl in Hnd.
      rewrite Hf in Hnd. by apply NoDup_cons in Hnd as [? _].
    + rewrite (G3 fl f Hin Hf). unfold file_text. rewrite H5 by by eapply Hnot. done.
  - intros name Hn. unfold names in Hn. simpl in Hn.
    rewrite G4, H5; [done| |]; destruct (file_name_of o) as [x|]; try done; apply not_elem_of_cons in Hn as [??];
      [congruence|done].
Qed.

Lemma array_ok_reverse l (sy : system) : array_ok l sy → array_ok (reverse l) sy.
Proof using Type.
  intros [Hnd Hinv]. split.
  - unfold names. by rewrite reverse_Permutation.
  - intros i fl Hi. apply list_elem_of_lookup_2 in Hi. rewrite elem_of_reverse in Hi.
    apply list_elem_of_lookup in Hi as [j Hj]. by eapply Hinv.
Qed.
End Array.

(** ** From the statement to the file *)

Section Logs.
Context {D : Type} `{FileLaws D}.
Variable fuel : nat.
Hypothesis only_eintr : ∀ fd name s d e d',
  fs_fds d !! fd = Some name → is_Some (fs_data d !! name) → fs_write fd s d = (Err e, d') → e = EINTR.
Variable strftime : cstr → Z → cstr.
Variable ts : list token.
Hypothesis ts_wf : wf_pattern ts.
Variable lg0 lg : Logger.
Hypothesis lg_pattern : setFormatters (print ts) lg0 = Ok lg.

Notation system := (@system D).

Definition record (e : LogEvent) : cstr := concat (token_text strftime (datetime_pattern_ lg) (name_ lg) e <$> ts).

Definition passes (e : LogEvent) : bool := level_num (level_ lg) <=? level_num (level e).

(** The records of the events that are logged. *)
Definition records (es : list LogEvent) : list cstr := record <$> filter (λ e, passes e = true) es.

Definition event_ok (e : LogEvent) : Prop :=
  level e ≠ SIZE ∧ level e ≠ FATAL ∧ Forall (date_fits strftime (datetime_pattern_ lg) e) ts ∧
  Z.of_nat (length (record e)) + 1 <= LogBufferMaxLen.

Definition printed (l : list (option direct)) (es : list LogEvent) : cstr :=
  concat ((λ s, echo s l 0 (flusher_count_ lg)) <$> records es).

Lemma lg_formatters : formatters_ lg = map token_formatter ts.
Proof. rewrite (setFormatters_tokens ts lg0 ts_wf) in lg_pattern. by injection lg_pattern as <-. Qed.

Lemma added_app fl s t : added fl (s ++ t) = added fl s ++ added fl t.
Proof. clear. unfold added. by destruct (prints fl). Qed.

Definition room (d : D) : Prop :=
  (Z.to_nat G_FileBufferSize + Z.to_nat LogBufferMaxLen + fs_stall d <= fuel)%nat.

Lemma logs_ok es : ∀ l b (sy : system),
  array_ok l sy → (∀ i, (i < flusher_count_ lg)%nat → ∃ fl, l !! i = Some (Some fl)) →
  buf_ok b → LogStream.pos_ b = 0 → Forall event_ok es → room (disk sy) →
  ∃ l' b' sy', logs_to fuel strftime lg es l b sy = Ok (l', b', sy', false) ∧ array_ok l' sy' ∧
    grown (λ i fl, if decide (i < flusher_count_ lg)%nat then added fl (concat (records es)) else []) l sy l' sy' ∧
    out sy' = out sy ++ printed l es ∧ room (disk sy').
Proof.
  unfold room. induction es as [|e es IH]; intros l b sy Hok Hl Hb Hp Hes Hfu.
  { exists l, b, sy. split; [done|]. split; [done|]. split; [|split; [by rewrite app_nil_r|done]].
    intros i fl Hi. exists fl. split; [done|]. split; [done|]. unfold added. case_decide; [|by rewrite app_nil_r].
    by destruct (prints fl); rewrite app_nil_r. }
  apply Forall_cons in Hes as [(He1 & He2 & Hed & He3) Hes].
  cbn [logs_to]. unfold log_to, printed, records. fold (passes e).
  rewrite filter_cons. destruct (passes e) eqn:Hpass.
  - rewrite decide_True by done.
    destruct (format_record_ok strftime ts lg e b ts_wf He1 Hb Hp lg_formatters Hed He3) as (b1 & Hr & Hb1 & Hp1).
    rewrite Hr. cbn [mbind outcome_bind fst snd]. fold (record e) in Hr |- *.
    destruct (flush_array fuel only_eintr (record e) (flusher_count_ lg) 0 l sy Hok)
      as (l1 & sy1 & H1 & Hok1 & Hlen1 & Hg1 & Ho1 & Hst1); [intros i Hi; apply Hl; lia|lia|].
    rewrite H1. cbn [mbind outcome_bind fst snd]. rewrite bool_decide_eq_false_2 by done.
    destruct (IH l1 b1 sy1 Hok1) as (l2 & b2 & sy2 & H2 & Hok2 & Hg2 & Ho2 & Hst2); [|done|done|done|lia|].
    { intros i Hi. destruct (Hl i Hi) as (fl & Hfl). destruct (Hg1 i fl Hfl) as (fl' & Hfl' & _). by exists fl'. }
    exists l2, b2, sy2. split; [exact H2|]. split; [done|]. split; [|split; [|exact Hst2]].
    + eapply grown_trans; [exact Hg1|exact Hg2|]. intros i fl fl' Hs. cbn [fmap list_fmap concat]. rewrite added_app.
      unfold added at 3 4. rewrite (prints_same fl fl' Hs). unfold records.
      repeat case_decide; try lia; done.
    + rewrite Ho2, Ho1, <- app_assoc. f_equal. unfold printed. cbn [fmap list_fmap concat]. f_equal. f_equal.
      apply list_fmap_ext. intros _ s _. eapply echo_grown; [exact Hg1|]. intros i Hi. apply Hl. lia.
  - rewrite decide_False by (by intros ?). cbn [mbind outcome_bind].
    destruct (IH l b sy Hok Hl Hb Hp Hes Hfu) as (l2 & b2 & sy2 & H2 & H3). exists l2, b2, sy2. split; [exact H2|exact H3].
Qed.

(** C22: from the log statement to the file: with flushers on distinct open files
    and a disk whose writes may be short or interrupted, and for records that
    are not FATAL, fit the stream's 5119 bytes and whose dates fit the 64 bytes
    they are formatted into, a sequence of log
    statements followed by the destruction of the logger always returns; every
    file then holds what it held before followed by exactly the records of the
    statements that reach the logger's level, in order; each flusher to standard
    output has printed them once; a string flusher has collected them. *)
Theorem logs_reach_files es l b (sy : system) :
  array_ok l sy → (∀ i, (i < flusher_count_ lg)%nat → ∃ fl, l !! i = Some (Some fl)) →
  buf_ok b → LogStream.pos_ b = 0 → Forall event_ok es → room (disk sy) →
  ∃ l' b' sy1 sy2, logs_to fuel strftime lg es l b sy = Ok (l', b', sy1, false) ∧
    destroy_flushers fuel l' sy1 = Ok sy2 ∧
    (∀ i fl f, (i < flusher_count_ lg)%nat → l !! i = Some (Some fl) → flusher_file fl = Some f →
       fs_data (disk sy2) !! f_name (file_ f) = Some (file_text f (disk sy) ++ concat (records es))) ∧
    out sy2 = out sy ++ printed l es ∧
    (∀ i s, (i < flusher_count_ lg)%nat → l !! i = Some (Some (StringFlusher s)) →
       l' !! i = Some (Some (StringFlusher (s ++ concat (records es))))).
Proof.
  intros Hok Hl Hb Hp Hes Hfu. destruct (logs_ok es l b sy Hok Hl Hb Hp Hes Hfu) as (l' & b' & sy1 & H1 & Hok1 & Hg & Ho & Hst).
  destruct (destroy_list fuel only_eintr (reverse l') sy1 (array_ok_reverse l' sy1 Hok1)) as (sy2 & H2 & Ho2 & Hf2 & _);
    [unfold room in Hst; lia|].
  exists l', b', sy1, sy2. split; [exact H1|]. split; [exact H2|]. split; [|split; [by rewrite Ho2|]].
  - intros i fl f Hi Hfl Hf. destruct (Hg i fl Hfl) as (fl' & Hl' & Hs & Ht). rewrite decide_True in Ht by done.
    assert (Hf' : ∃ f', flusher_file fl' = Some f' ∧ same_file f f' ∧
      file_text f' (disk sy1) = file_text f (disk sy) ++ concat (records es)).
    { unfold added in Ht. destruct fl, fl'; simpl in Hf, Hs, Ht; try done; injection Hf as <-; eexists; eauto. }
    destruct Hf' as (f' & Hff & [_ <-] & <-). eapply Hf2; [|exact Hff]. rewrite elem_of_reverse.
    by eapply list_elem_of_lookup_2.
  - intros i s Hi Hfl. destruct (Hg i _ Hfl) as (fl' & Hl' & Hs & Ht). rewrite decide_True in Ht by done.
    destruct fl'; simpl in Hs; try done. simpl in Ht. rewrite Hl', Ht. done.
Qed.
End Logs.

(** ** What goes wrong *)

Section Limits.
Context {D : Type} `{FileLaws D}.
Variable fuel : nat.

(** A record that fits the buffer is not written. *)
Lemma file_flush_buffered s f (d : D) :
  file_inv f d → f_pos (file_ f) + Z.of_nat (length s) <= G_FileBufferSize →
  ∃ f', SimpleFileFlusher_flush fuel s f d = Ok (f', d).
Proof.
  intros ((Hl & Hp) & _) Hs. cbn [to_file WritableFile.buf_ WritableFile.pos_] in Hl, Hp.
  unfold SimpleFileFlusher_flush, WritableFile.append. cbn [to_file WritableFile.buf_ WritableFile.pos_].
  rewrite Z.min_l by lia. rewrite Nat2Z.id, take_ge, drop_ge by lia.
  unfold memcpy_at. cbn [to_file WritableFile.buf_]. rewrite Hl, (proj2 (Z.leb_le _ _)) by lia.
  cbn [mbind outcome_bind]. eexists. reflexivity.
Qed.

(** The record of a fatal error stays in the buffer of a file flusher: the
    process is aborted and the file does not have it. *)
Lemma fatal_record_lost strftime lg e f b (sy : @system D) s b' :
  level e = FATAL → flusher_count_ lg = 1%nat → level_ lg ≠ SIZE → format_record strftime e lg b = Ok (s, b') →
  file_inv f (disk sy) → f_pos (file_ f) + Z.of_nat (length s) <= G_FileBufferSize →
  ∃ l', log_to fuel strftime lg e [Some (ProtectedFileFlusher f)] b sy = Ok (l', b', sy, true).
Proof.
  intros He Hc Hl Hr Hf Hs. destruct (file_flush_buffered s f (disk sy) Hf Hs) as (f' & Hfl).
  unfold log_to. rewrite He, (proj2 (Z.leb_le _ _)) by (destruct (level_ lg); simpl; (done || lia)).
  rewrite Hr, Hc. cbn [mbind outcome_bind fst snd seq ofold]. unfold flush_at. cbn [fst snd lookup list_lookup of_option mbind outcome_bind flush].
  change (ProtectedFileFlusher_flush fuel s f) with (SimpleFileFlusher_flush fuel s f). rewrite Hfl. simpl.
  destruct sy. eexists. reflexivity.
Qed.

(** Without a slash in the name, the directory that is created has the name of
    the file, which then cannot be opened. *)
Lemma file_without_directory name (d d' : D) e r :
  "/"%char ∉ name → fs_stat name d = Err e → fs_mkdir name d = (Ret r, d') →
  FileFlusher_named name d = Throw ExecFailed.
Proof.
  intros Hn Hs Hm. unfold FileFlusher_named, FileFlusher_createDir, dirname_of, createDir.
  rewrite split_last_None by done. rewrite Hs, Hm. cbn [snd]. unfold setFileName, WritableFile_open.
  apply mkdir_ok in Hm. destruct (open_dir name d') as (e' & d2 & Ho); [set_solver|]. by rewrite Ho.
Qed.
End Limits.

(** ** A disk *)

Module SimpleDisk.
(** Writes are interrupted now and then and write at most 100 characters. *)
Record fsys := mkFs { data : gmap cstr cstr; dirs : gset cstr; fds : gmap Z cstr; intr : nat }.

Definition chunk : nat := 100.
#[local] Opaque chunk.

#[export] Instance simple_disk : FileCalls fsys := {
  fs_stat name d := if decide (name ∈ dirs d ∨ is_Some (data d !! name)) then Ret 0 else Err ENOENT;
  fs_mkdir name d := (Ret 0, mkFs (data d) ({[name]} ∪ dirs d) (fds d) (intr d));
  fs_open name d :=
    if decide (name ∈ dirs d) then (Err EPERM, d)
    else (Ret (next_fd (fds d)),
          mkFs (<[name := default [] (data d !! name)]> (data d)) (dirs d) (<[next_fd (fds d) := name]> (fds d)) (intr d));
  fs_write fd s d :=
    match intr d, fds d !! fd ≫= λ name, data d !! name with
    | O, Some t => (Ret (Z.of_nat (chunk `min` length s)),
        mkFs (<[default [] (fds d !! fd) := t ++ take chunk s]> (data d)) (dirs d) (fds d) 0)
    | S n, Some _ => (Err EINTR, mkFs (data d) (dirs d) (fds d) n)
    | _, None => (Err EINVAL, d)
    end;
  fs_close fd d := (Ret 0, mkFs (data d) (dirs d) (delete fd (fds d)) (intr d));
  fs_data := data; fs_dirs := dirs; fs_fds := fds; fs_stall := intr
}.

#[export] Instance simple_disk_laws : FileLaws fsys.
Proof.
  split; simpl.
  - intros name d Hs. rewrite decide_True by done. by exists 0.
  - by intros name d r d' [= <- <-].
  - by intros name d r d' [= <- <-].
  - intros name d fd d'. case_decide; [done|]. intros [= <- <-]. simpl. split_and!; try done; [apply next_fd_pos|apply next_fd_fresh].
  - intros name d Hin. rewrite decide_True by done. by do 2 eexists.
  - intros fd s d n d' Hs. destruct (fds d !! fd) as [name|]; simpl; [|by destruct (intr d)].
    destruct (data d !! name) as [t|] eqn:Ht; destruct (intr d) eqn:Hi; try done. intros Heq.
    assert (n = Z.of_nat (chunk `min` length s)) as -> by congruence.
    apply (f_equal snd) in Heq. cbn [snd] in Heq. subst d'.
    assert (0 < length s)%nat by (destruct s; simpl; [done|lia]). assert (0 < chunk)%nat by (apply (bool_decide_unpack _); vm_compute; exact I).
    split; [lia|]. exists name, t. cbn [data fds].
    split; [done|]. split; [done|]. split; [|split; [done|simpl; lia]]. rewrite Nat2Z.id. do 2 f_equal.
    destruct (le_lt_dec (length s) chunk).
    + rewrite Nat.min_r by lia. by rewrite !take_ge by lia.
    + by rewrite Nat.min_l by lia.
  - intros fd d n d'. destruct (fds d !! fd) as [name|] eqn:Hf; simpl; [|by destruct (intr d)].
    destruct (data d !! name) as [t|] eqn:Ht; destruct (intr d) eqn:Hi; try done. intros [= <- <-]. simpl.
    split; [|done]. rewrite app_nil_r. by apply insert_id.
  - intros fd s d e d'. destruct (fds d !! fd ≫= _); destruct (intr d) eqn:Hi; try done; intros [= <- <-]; simpl;
      rewrite ?Hi; split_and!; try done; lia.
  - by intros fd d r d' [= <- <-].
Qed.

Lemma simple_only_eintr fd name s (d : fsys) e d' :
  fs_fds d !! fd = Some name → is_Some (fs_data d !! name) → fs_write fd s d = (Err e, d') → e = EINTR.
Proof. simpl. intros -> [t Ht]. simpl. rewrite Ht. by destruct (intr d); intros [= <- <-]. Qed.
End SimpleDisk.

Module FileFlusherEx.
Import SimpleDisk.

Definition d0 : fsys := mkFs {[str "logs/a" := str "old;"]} {[str "logs"]} ∅ 2.
Definition opened : FileFlusher * fsys :=
  match FileFlusher_named (str "logs/a") d0 with
  | Ok p => p
  | _ => (mkFileFlusher WritableFile_default no_filename, d0)
  end.
Definition sy0 : @system fsys := mkSystem [] opened.2.
Definition l0 : list (option direct) := [Some SimpleStdoutFlusher; Some (ProtectedFileFlusher opened.1)] ++ replicate 8 None.
Definition lg0 : Logger := mkLogger INFO 2 (str "root") [] (replicate 10 None) [].
Definition lg1 : Logger := match setFormatters (str "%d{%Y-%m-%d %H:%M:%S}%T[%p]%m%n") lg0 with Ok lg => lg | _ => lg0 end.
Definition ev (l : Level) (s : cstr) : LogEvent := mkLogEvent (str "a.cpp") 7 l 3 0 5 [] [] s 0.
Definition es : list LogEvent := [ev ERROR (str "one"); ev DEBUG (str "two"); ev INFO (str "three")].

Lemma opened_ok : FileFlusher_named (str "logs/a") d0 = Ok opened.
Proof.
  unfold opened, FileFlusher_named, setFileName, WritableFile_open.
  destruct (fs_open (str "logs/a") _) as [[fd|e] d] eqn:Ho; [reflexivity|]. vm_compute in Ho. discriminate Ho.
Qed.

Lemma logs_reach_files_witness :
  ∃ l' b' sy1 sy2, logs_to (Z.to_nat 100000) LoggerEx.tz lg1 es l0 buf_new sy0 = Ok (l', b', sy1, false) ∧
    destroy_flushers (Z.to_nat 100000) l' sy1 = Ok sy2 ∧
    fs_data (disk sy2) !! str "logs/a" =
      Some (str "old;noon" ++ [ch 9] ++ str "[ERROR]one" ++ newline ++ str "noon" ++ [ch 9] ++ str "[INFO]three" ++ newline).
Proof.
  pose proof opened_ok as Ho. unfold FileFlusher_named in Ho. destruct opened as [f d] eqn:Hop.
  apply open_inv in Ho as (Hinv & Htext & Hname & _ & _ & _ & Hst).
  destruct (logs_reach_files (Z.to_nat 100000) simple_only_eintr LoggerEx.tz PatternEx.ts PatternEx.ts_wf lg0 lg1)
    with (es := es) (l := l0) (b := buf_new) (sy := sy0) as (l' & b' & sy1 & sy2 & H1 & H2 & H3 & _).
  - reflexivity.
  - unfold l0, sy0. rewrite Hop. split.
    + unfold names. simpl. apply NoDup_singleton.
    + intros i fl Hi. destruct i as [|[|i]]; [by injection Hi as <-|injection Hi as <-; exact Hinv|].
      cbn [app lookup list_lookup] in Hi. apply lookup_replicate in Hi as [? _]. done.
  - intros [|[|i]] Hi; [by eexists|by eexists|simpl in Hi; lia].
  - apply LogStreamEx.buf_new_ok.
  - reflexivity.
  - assert (Hd : ∀ dt e, Forall (date_fits LoggerEx.tz dt e) PatternEx.ts).
    { intros dt e. apply Forall_forall. intros t _. unfold date_fits, LoggerEx.tz.
      destruct t as [|[|[[] [] [] [] [] [] [] []]] ?]; simpl; done || lia. }
    repeat constructor; try apply Hd; vm_compute; discriminate.
  - unfold room, sy0. rewrite Hop. cbn [snd disk]. change (fs_stall _) with 2%nat in Hst at 2.
    assert (G_FileBufferSize = 65535) as -> by (vm_compute; reflexivity). unfold LogBufferMaxLen. lia.
  - exists l', b', sy1, sy2. split; [exact H1|]. split; [exact H2|].
    specialize (H3 1%nat (ProtectedFileFlusher opened.1) opened.1 ltac:(simpl; lia) eq_refl eq_refl).
    rewrite Hop in H3. cbn [fst] in H3. rewrite Hname in H3. unfold sy0 in H3. rewrite Hop in H3. cbn [disk snd] in H3.
    rewrite Htext in H3. rewrite H3. vm_compute. reflexivity.
Defined.
End FileFlusherEx.
