(* ===== verification/LogManager.v ===== *)
(** * The log manager (src/logger.cpp, include/logger.h, include/logging/logger_flusher.h)

    [_LogManager] builds the default logger and the configured ones when it is
    constructed, and hands them out by name.  Loggers are shared objects: a
    pointer is an index into [heap].  The configuration's entries are given
    (include/logging/logger_data_convert.h reads them); [strftime], the host name,
    the process id, the time and which files can be opened are parameters. *)

From S2P Require Import Prelude Text LogStream Pattern Logger.
From stdpp Require Import options.
Set Default Proof Using "Type*".

Record LogFlusherConfigData := mkFlusherData { type : cstr; name_pattern : cstr }.

Record LogConfigData := mkLogData {
  cfg_name : cstr;
  cfg_level : Level;
  cfg_formatter : cstr;
  cfg_flushers : list LogFlusherConfigData
}.

(** ** The registered flushers *)

(** The makers of [_LogFlusherManager], and whether they open a file. *)
Definition makers : list (cstr * bool) :=
  [(str "SimpleFileFlusher", true); (str "ProtectedFileFlusher", true); (str "AsyncFileLogFlusher", true);
   (str "SimpleStdoutFlusher", false); (str "ProtectedStdoutFlusher", false);
   (str "AsyncStdoutLogFlusher", false)].

(** [_LogFlusherManager::_LogFlusherManager]; a maker is its index in [makers]. *)
Definition LogFlusherManager_new : gmap cstr nat :=
  foldl (λ m p, (rigisterFlushMaker p.2.1 p.1 m).2) ∅ (imap (λ i p, (i, p)) makers).

Section LogManager.
Variable strftime : cstr → Z → cstr.
Variable host pid : cstr.
Variable now : Z.
Variable file_opens : cstr → bool.

(** [FileFlusher(pattern)]: a new flusher has received nothing. *)
Definition FileFlusher_new (pattern : cstr) : outcome cstr :=
  d ← logFileNameParse host pid pattern;
  filename ← logFileNameGenerate strftime d now;
  if file_opens filename then Ok [] else Throw ExecFailed.

(** [getLogFlusher(key, pattern)] with the maker it finds. *)
Definition makeFlusher (key pattern : cstr) : outcome (option cstr) :=
  match getLogFlusher key LogFlusherManager_new ≫= (makers !!.) with
  | Some (_, true) => f ← FileFlusher_new pattern; Ok (Some f)
  | Some (_, false) => Ok (Some [])
  | None => Ok None
  end.

(** ** The manager *)

Record LogManager := mkManager {
  heap : list Logger;
  default_logger_ : option nat;
  loggers_ : gmap cstr nat
}.

Definition getLogger (key : cstr) (m : LogManager) : option nat := loggers_ m !! key.
Definition getDefault (m : LogManager) : option nat := default_logger_ m.

Definition default_pattern : cstr := str "%d{%Y-%m-%d %H:%M:%S}%T%t%T%E%T[%p]%T[%c]%T<%f:%l>%T%m%n".

Definition initDefaultLogger (m : LogManager) : outcome LogManager :=
  lg ← setFormatters default_pattern (Logger_new (str "root"));
  f ← makeFlusher (str "ProtectedStdoutFlusher") [];
  lg ← addOneFlusher f lg;
  f ← makeFlusher (str "ProtectedFileFlusher") (str "./logs/%H-root-%P.log");
  lg ← addOneFlusher f lg;
  let ptr := length (heap m) in
  Ok (mkManager (heap m ++ [setLevel DEBUG lg]) (Some ptr)
        (let l := match loggers_ m !! str "root" with Some _ => loggers_ m
                  | None => <[str "root" := ptr]> (loggers_ m) end in
         match l !! str "system" with Some _ => l | None => <[str "system" := ptr]> l end)).

(** [for (auto flusher : item.flushers)] *)
Definition add_flusher (flusher : LogFlusherConfigData) (lg : Logger) : outcome Logger :=
  f ← makeFlusher (type flusher) (name_pattern flusher);
  match f with
  | Some _ => addOneFlusher f lg
  | None => Ok lg                     (* an error is printed *)
  end.

Definition item_logger (item : LogConfigData) : outcome Logger :=
  lg ← setFormatters (cfg_formatter item) (Logger_new (cfg_name item));
  ofold add_flusher (cfg_flushers item) lg.

Definition init_item (item : LogConfigData) (m : LogManager) : outcome LogManager :=
  lg ← item_logger item;
  let ptr := length (heap m) in
  Ok (mkManager (heap m ++ [lg])
        (if decide (cfg_name item = str "root") then Some ptr else default_logger_ m)
        (<[cfg_name item := ptr]> (loggers_ m))).

Definition initLoggerFromConfig (log_data : list LogConfigData) (m : LogManager) : outcome LogManager :=
  ofold init_item log_data m.

Definition LogManager_new (log_data : list LogConfigData) : outcome LogManager :=
  m ← initDefaultLogger (mkManager [] None ∅);
  initLoggerFromConfig log_data m.

(** The logger behind a pointer. *)
Definition logger_at (p : option nat) (m : LogManager) : option Logger := p ≫= λ p, heap m !! p.

(** ** What the manager should hold *)

Definition known (f : LogFlusherConfigData) : bool :=
  match getLogFlusher (type f) LogFlusherManager_new with Some _ => true | None => false end.

Definition opens (f : LogFlusherConfigData) : Prop :=
  match makeFlusher (type f) (name_pattern f) with Ok _ => True | _ => False end.

(** The array of flushers after [n] have been added. *)
Definition flushers_after (n : nat) : list (option cstr) := replicate n (Some []) ++ replicate (flusher_max - n) None.

(** A new logger with [n] flushers and the formatters of the tokens [ts]. *)
Definition fresh_logger (name : cstr) (n : nat) (ts : list token) : Logger :=
  mkLogger DEBUG n name (datetime_of ts []) (flushers_after n) (map token_formatter ts).

Definition builtin_tokens : list token :=
  let T := TKey (str "T") None in
  [TKey (str "d") (Some (str "%Y-%m-%d %H:%M:%S")); T; TKey (str "t") None; T; TKey (str "E") None; T;
   TText (str "["); TKey (str "p") None; TText (str "]"); T; TText (str "["); TKey (str "c") None;
   TText (str "]"); T; TText (str "<"); TKey (str "f") None; TText (str ":"); TKey (str "l") None;
   TText (str ">"); T; TKey (str "m") None; TKey (str "n") None].

Definition builtin : Logger := fresh_logger (str "root") 2 builtin_tokens.

(** A configured logger: its level is not used. *)
Definition configured (item : LogConfigData) (ts : list token) : Logger :=
  fresh_logger (cfg_name item) (length (filter (λ f, known f = true) (cfg_flushers item))) ts.

Definition wf_item (item : LogConfigData) (ts : list token) : Prop :=
  cfg_formatter item = print ts ∧ wf_pattern ts ∧ Forall opens (cfg_flushers item) ∧
  (length (filter (λ f, known f = true) (cfg_flushers item)) <= flusher_max)%nat.

(** The last entry of a name. *)
Fixpoint last_item (name : cstr) (items : list (LogConfigData * list token)) (lg : option Logger) : option Logger :=
  match items with
  | [] => lg
  | (item, ts) :: items =>
      last_item name items (if decide (cfg_name item = name) then Some (configured item ts) else lg)
  end.

(** ** Lemmas *)

Lemma registered_maker k i : LogFlusherManager_new !! k = Some i → is_Some (makers !! i).
Proof.
  intros Hk. assert (Hi : (i < 6)%nat).
  { revert k i Hk. apply (map_Forall_lookup (λ _ i, (i < 6)%nat) LogFlusherManager_new).
    apply (bool_decide_unpack _). vm_compute. exact I. }
  by apply lookup_lt_is_Some_2.
Qed.

Lemma makeFlusher_known f :
  opens f → makeFlusher (type f) (name_pattern f) = Ok (if known f then Some [] else None).
Proof.
  unfold opens, known, makeFlusher, getLogFlusher.
  destruct (LogFlusherManager_new !! map toupper (type f)) as [i|] eqn:Hi; simpl; [|done].
  apply registered_maker in Hi as [[n []] Hm]; rewrite Hm; [|done]. unfold FileFlusher_new.
  destruct (logFileNameParse host pid (name_pattern f)) as [d| |]; cbn [mbind outcome_bind]; [|done|done].
  destruct (logFileNameGenerate strftime d now); cbn [mbind outcome_bind]; [|done|done]. by destruct (file_opens _).
Qed.

Lemma add_to_array name n dt fs :
  (n < flusher_max)%nat →
  addOneFlusher (Some []) (mkLogger DEBUG n name dt (flushers_after n) fs) =
    Ok (mkLogger DEBUG (S n) name dt (flushers_after (S n)) fs).
Proof.
  clear strftime host pid now file_opens. intros Hn. set (k := (flusher_max - S n)%nat).
  assert (Hk : (flusher_max - n)%nat = S k) by (unfold k; lia).
  assert (Hl : flushers_after n !! n = Some None).
  { unfold flushers_after. rewrite Hk, lookup_app_r, length_replicate, Nat.sub_diag by (rewrite length_replicate; lia).
    done. }
  assert (Hi : <[n := Some []]> (flushers_after n) = flushers_after (S n)).
  { unfold flushers_after. fold k. rewrite Hk, (replicate_S_end n), <- app_assoc.
    rewrite insert_app_r_alt, length_replicate, Nat.sub_diag by (rewrite length_replicate; lia). done. }
  unfold addOneFlusher. cbn [flushers_ flusher_count_ level_ name_ datetime_pattern_ formatters_].
  by rewrite Hl, Hi.
Qed.

Lemma add_flushers name dt fs l : ∀ n,
  Forall opens l → (n + length (filter (λ f, known f = true) l) <= flusher_max)%nat →
  ofold add_flusher l (mkLogger DEBUG n name dt (flushers_after n) fs) =
    Ok (let k := (n + length (filter (λ f, known f = true) l))%nat in
        mkLogger DEBUG k name dt (flushers_after k) fs).
Proof.
  induction l as [|f l IH]; intros n Ho Hn; [simpl; by rewrite Nat.add_0_r|].
  apply Forall_cons in Ho as [Hf Ho]. cbn [ofold].
  assert (Hadd : add_flusher f (mkLogger DEBUG n name dt (flushers_after n) fs) =
    Ok (let k := if known f then S n else n in mkLogger DEBUG k name dt (flushers_after k) fs)).
  { unfold add_flusher. rewrite makeFlusher_known by done. rewrite filter_cons in Hn.
    destruct (known f); simpl; [|done]. rewrite decide_True in Hn by done. simpl in Hn.
    apply add_to_array. lia. }
  rewrite Hadd. cbn [mbind outcome_bind]. rewrite filter_cons in Hn |- *.
  destruct (known f); [rewrite decide_True in Hn |- * by done|rewrite decide_False in Hn |- * by discriminate; exact (IH n Ho Hn)].
  cbn [length] in Hn |- *. cbv zeta. rewrite (IH (S n) Ho) by lia. by rewrite <- plus_n_Sm.
Qed.

Lemma item_logger_ok item ts : wf_item item ts → item_logger item = Ok (configured item ts).
Proof.
  intros (Hp & Hw & Ho & Hn). unfold item_logger. rewrite Hp, setFormatters_tokens by done.
  cbn [mbind outcome_bind]. unfold Logger_new. cbn [level_ flusher_count_ name_ datetime_pattern_ flushers_].
  exact (add_flushers (cfg_name item) (datetime_of ts []) (map token_formatter ts) _ 0 Ho Hn).
Qed.

(** ** The loggers by name *)

Lemma init_items items : ∀ m,
  Forall (λ p, wf_item p.1 p.2) items → (∀ k p, loggers_ m !! k = Some p → is_Some (heap m !! p)) →
  ∃ m', initLoggerFromConfig items.*1 m = Ok m' ∧
    (∀ name, logger_at (getLogger name m') m' = last_item name items (logger_at (getLogger name m) m)) ∧
    (logger_at (getDefault m) m = logger_at (getLogger (str "root") m) m → is_Some (logger_at (getDefault m) m) →
     logger_at (getDefault m') m' = logger_at (getLogger (str "root") m') m').
Proof.
  unfold initLoggerFromConfig.
  induction items as [|[item ts] items IH]; intros m Hw Hm; [by exists m|].
  apply Forall_cons in Hw as [Hi Hw]. simpl in Hi. cbn [fmap list_fmap ofold fst].
  set (m1 := mkManager (heap m ++ [configured item ts])
    (if decide (cfg_name item = str "root") then Some (length (heap m)) else default_logger_ m)
    (<[cfg_name item := length (heap m)]> (loggers_ m))).
  assert (H1 : init_item item m = Ok m1) by (unfold init_item; by rewrite (item_logger_ok item ts Hi)).
  rewrite H1. cbn [mbind outcome_bind].
  assert (Hold : ∀ p, is_Some (heap m !! p) → heap m1 !! p = heap m !! p).
  { intros p [x Hx]. simpl. apply lookup_app_l. by eapply lookup_lt_Some. }
  assert (Hnew : heap m1 !! length (heap m) = Some (configured item ts)).
  { simpl. rewrite lookup_app_r by lia. by rewrite Nat.sub_diag. }
  assert (Hat : ∀ name, logger_at (getLogger name m1) m1 =
    if decide (cfg_name item = name) then Some (configured item ts) else logger_at (getLogger name m) m).
  { intros name. unfold logger_at, getLogger.
    change (loggers_ m1) with (<[cfg_name item := length (heap m)]> (loggers_ m)).
    destruct (decide (cfg_name item = name)) as [<-|Hne]; [by rewrite lookup_insert_eq|].
    rewrite lookup_insert_ne by done. destruct (loggers_ m !! name) as [p|] eqn:Hp; [|done]. simpl option_bind.
    apply Hold. by eapply Hm. }
  destruct (IH m1 Hw) as (m' & Hr & Hg & Hd).
  { intros k p Hk. simpl in Hk. apply lookup_insert_Some in Hk as [(_ & <-)|(_ & Hk)]; [by eexists|].
    rewrite Hold by by eapply Hm. by eapply Hm. }
  exists m'. split; [exact Hr|]. split; [intros name; rewrite Hg, Hat; done|].
  intros Heq Hsome. assert (Hdef : logger_at (getDefault m1) m1 =
    if decide (cfg_name item = str "root") then Some (configured item ts) else logger_at (getDefault m) m).
  { unfold logger_at, getDefault. change (default_logger_ m1) with
      (if decide (cfg_name item = str "root") then Some (length (heap m)) else default_logger_ m).
    destruct (decide (cfg_name item = str "root")); [done|]. unfold logger_at, getDefault in Hsome.
    destruct (default_logger_ m) as [p|]; [|done]. by apply Hold. }
  apply Hd; rewrite Hdef; [rewrite Hat|]; destruct (decide (cfg_name item = str "root")); try done.
Qed.

(** The default logger's file. *)
Definition root_file : LogFlusherConfigData :=
  mkFlusherData (str "ProtectedFileFlusher") (str "./logs/%H-root-%P.log").

Lemma builtin_pattern : setFormatters default_pattern (Logger_new (str "root")) =
  Ok (fresh_logger (str "root") 0 builtin_tokens).
Proof. clear. vm_compute. reflexivity. Qed.

Lemma builtin_ok :
  opens root_file →
  initDefaultLogger (mkManager [] None ∅) =
    Ok (mkManager [builtin] (Some 0%nat) (<[str "system" := 0%nat]> {[str "root" := 0%nat]})).
Proof.
  intros Ho. unfold initDefaultLogger. rewrite builtin_pattern. cbn [mbind outcome_bind].
  assert (Hs : makeFlusher (str "ProtectedStdoutFlusher") [] = Ok (Some [])) by (vm_compute; reflexivity).
  rewrite Hs. cbn [mbind outcome_bind]. unfold fresh_logger. rewrite add_to_array by (unfold flusher_max; lia).
  cbn [mbind outcome_bind]. pose proof (makeFlusher_known root_file Ho) as Hf.
  assert (Hk : known root_file = true) by (vm_compute; reflexivity). rewrite Hk in Hf.
  cbn [type name_pattern root_file] in Hf. rewrite Hf. cbn [mbind outcome_bind].
  rewrite add_to_array by (unfold flusher_max; lia). cbn [mbind outcome_bind].
  do 2 f_equal.
Qed.

(** ** Properties *)

(** When the default log file can be opened and every configured logger is
    usable (a well-formed pattern, at most ten known flushers that open), the
    manager is built; a name then stands for the last logger configured under
    it, "root" and "system" otherwise for the built-in one, and other names for
    none; and the default logger is the one called "root".  A configured logger
    has exactly the known flushers of its entry, the formatters of its pattern
    and the level DEBUG. *)
Lemma log_manager_spec items :
  opens root_file → Forall (λ p, wf_item p.1 p.2) items →
  ∃ m, LogManager_new items.*1 = Ok m ∧
    (∀ name, logger_at (getLogger name m) m =
       last_item name items
         (if decide (name = str "root" ∨ name = str "system") then Some builtin else None)) ∧
    logger_at (getDefault m) m = logger_at (getLogger (str "root") m) m.
Proof.
  intros Ho Hw. unfold LogManager_new. rewrite builtin_ok by done. cbn [mbind outcome_bind].
  set (m0 := mkManager [builtin] (Some 0%nat) (<[str "system" := 0%nat]> {[str "root" := 0%nat]})).
  assert (Hat : ∀ name, logger_at (getLogger name m0) m0 =
    if decide (name = str "root" ∨ name = str "system") then Some builtin else None).
  { intros name. unfold logger_at, getLogger. cbn [loggers_ m0].
    destruct (decide _) as [[-> | ->]|Hn]; [reflexivity|reflexivity|].
    rewrite lookup_insert_ne, lookup_singleton_ne by (intros <-; tauto). done. }
  destruct (init_items items m0 Hw) as (m & Hr & Hg & Hd).
  { intros k p Hk. cbn [loggers_ m0] in Hk. apply lookup_insert_Some in Hk as [(_ & <-)|(_ & Hk)]; [by eexists|].
    apply lookup_singleton_Some in Hk as (_ & <-). by eexists. }
  exists m. split; [exact Hr|]. split; [intros name; by rewrite Hg, Hat|]. apply Hd; [reflexivity|by eexists].
Qed.
End LogManager.

(** The level of a configured logger is dropped. *)
Lemma level_not_applied item l ts :
  configured (mkLogData (cfg_name item) l (cfg_formatter item) (cfg_flushers item)) ts = configured item ts.
Proof. done. Qed.

Module LogManagerEx.
Definition item : LogConfigData :=
  mkLogData (str "app") ERROR (str "%d{%Y-%m-%d %H:%M:%S}%T[%p]%m%n")
    [mkFlusherData (str "simplestdoutflusher") []; mkFlusherData (str "nosuchflusher") []].
Definition tz (p : cstr) (t : Z) : cstr := [].

Lemma log_manager_spec_witness :
  ∃ m lg, LogManager_new tz (str "h") (str "1") 0 (λ _, true) [item] = Ok m ∧
    logger_at (getLogger (str "app") m) m = Some lg ∧ flusher_count_ lg = 1%nat ∧
    logger_at (getLogger (str "other") m) m = None.
Proof.
  destruct (log_manager_spec tz (str "h") (str "1") 0 (λ _, true) [(item, PatternEx.ts)]) as (m & H1 & H2 & _).
  - vm_compute. exact I.
  - constructor; [|constructor]. split; [reflexivity|]. split; [apply PatternEx.ts_wf|].
    split; [|apply (bool_decide_unpack _); vm_compute; exact I].
    constructor; [vm_compute; exact I|constructor; [vm_compute; exact I|constructor]].
  - exists m, (configured item PatternEx.ts). split; [exact H1|].
    split; [rewrite H2; reflexivity|]. split; [vm_compute; reflexivity|]. rewrite H2. reflexivity.
Defined.
End LogManagerEx.
