(* ===== verification/Flusher.v ===== *)
(** * Asynchronous flushers (include/logging/logger_flusher.h)

    [AsyncStdoutLogFlusher] and [AsyncFileLogFlusher]: logging threads push
    messages to [log_pool_] under [mutex_], one thread of the flusher writes them
    out.  The threads are interleaved at the granularity of the accesses to the
    shared state: a schedule is the list of the agents that move.  [sink] is what
    has been written to the stream or the file. *)

From S2P Require Import Prelude.
From stdpp Require Import options.

Inductive agent := Client (i : nat) | Worker | Destructor | Spurious.
#[global] Instance agent_eq_dec : EqDecision agent.
Proof. solve_decision. Defined.

(** The flusher's thread.  [condition_var_.wait] releases the mutex and blocks in
    one step ([Lock] to [Waiting]) and takes the mutex again before it returns
    ([Woken]). *)
Inductive worker :=
| NoThread      (* [thread_] holds no thread *)
| Check         (* while (!stop_) *)
| Lock          (* std::unique_lock locker{mutex_}; condition_var_.wait(locker) *)
| Waiting
| Woken
| FlushLock     (* doFlush: std::lock_guard locker{mutex_} *)
| Flushing      (* while (!log_pool_.empty()) *)
| Finished.
#[global] Instance worker_eq_dec : EqDecision worker.
Proof. solve_decision. Defined.

(** A thread that calls [flush] on its messages in turn. *)
Inductive client_pc := Idle | Pushing | Notifying.
#[global] Instance client_pc_eq_dec : EqDecision client_pc.
Proof. solve_decision. Defined.

Record client := mkClient { todo : list cstr; pc : client_pc }.

Inductive destructor := Alive | Stopping | StopNotify | Joining | Destroyed | Terminated.
#[global] Instance destructor_eq_dec : EqDecision destructor.
Proof. solve_decision. Defined.

Record flusher := mkFlusher {
  stop_ : bool;
  mutex_ : option agent;
  thread_ : worker;
  log_pool_ : list cstr;
  sink : list cstr;
  clients : list client;
  destr : destructor
}.

Definition set_mutex (o : option agent) (f : flusher) : flusher :=
  mkFlusher (stop_ f) o (thread_ f) (log_pool_ f) (sink f) (clients f) (destr f).
Definition set_thread (w : worker) (f : flusher) : flusher :=
  mkFlusher (stop_ f) (mutex_ f) w (log_pool_ f) (sink f) (clients f) (destr f).
Definition set_client (i : nat) (c : client) (f : flusher) : flusher :=
  mkFlusher (stop_ f) (mutex_ f) (thread_ f) (log_pool_ f) (sink f) (<[i := c]> (clients f)) (destr f).
Definition set_destr (d : destructor) (f : flusher) : flusher :=
  mkFlusher (stop_ f) (mutex_ f) (thread_ f) (log_pool_ f) (sink f) (clients f) d.
Definition push (m : cstr) (f : flusher) : flusher :=
  mkFlusher (stop_ f) (mutex_ f) (thread_ f) (log_pool_ f ++ [m]) (sink f) (clients f) (destr f).

(** [condition_var_.notify_one()]: the flusher's thread is the only one that
    waits. *)
Definition notify_one (f : flusher) : flusher :=
  match thread_ f with
  | Waiting => set_thread Woken f
  | _ => f
  end.

(** Takes the free mutex. *)
Definition lock (a : agent) (f : flusher) : option flusher :=
  match mutex_ f with
  | None => Some (set_mutex (Some a) f)
  | Some _ => None
  end.

(** [AsyncFlusher::flush] *)
Definition flush_step (i : nat) (f : flusher) : option flusher :=
  c ← clients f !! i;
  match pc c, todo c with
  | Idle, m :: ms => f ← lock (Client i) f; Some (set_client i (mkClient (m :: ms) Pushing) f)
  | Pushing, m :: ms => Some (set_client i (mkClient ms Notifying) (set_mutex None (push m f)))
  | Notifying, ms => Some (set_client i (mkClient ms Idle) (notify_one f))
  | _, [] => None
  end.

(** One round of the loop of [doFlush]. *)
Definition doFlush_step (f : flusher) : flusher :=
  match log_pool_ f with
  | [] => set_thread Check (set_mutex None f)
  | m :: ms => mkFlusher (stop_ f) (mutex_ f) (thread_ f) ms (sink f ++ [m]) (clients f) (destr f)
  end.

(** The body of the flusher's thread. *)
Definition thread_step (f : flusher) : option flusher :=
  match thread_ f with
  | NoThread | Waiting | Finished => None
  | Check => Some (set_thread (if stop_ f then Finished else Lock) f)
  | Lock => _ ← lock Worker f; Some (set_thread Waiting f)
  | Woken => _ ← lock Worker f; Some (set_thread FlushLock f)
  | FlushLock => f ← lock Worker f; Some (set_thread Flushing f)
  | Flushing => Some (doFlush_step f)
  end.

(** The destructor; joining a thread object without a thread throws out of it. *)
Definition destroy_step (f : flusher) : option flusher :=
  match destr f with
  | Alive => f ← lock Destructor f; Some (set_destr Stopping f)
  | Stopping =>
      Some (mkFlusher true None (thread_ f) (log_pool_ f) (sink f) (clients f) StopNotify)
  | StopNotify => Some (set_destr Joining (notify_one f))
  | Joining =>
      match thread_ f with
      | Finished => Some (set_destr Destroyed f)
      | NoThread => Some (set_destr Terminated f)
      | _ => None
      end
  | Destroyed | Terminated => None
  end.

Definition step (a : agent) (f : flusher) : option flusher :=
  match a with
  | Client i => flush_step i f
  | Worker => thread_step f
  | Destructor => destroy_step f
  | Spurious => if decide (thread_ f = Waiting) then Some (set_thread Woken f) else None
  end.

Fixpoint run (sched : list agent) (f : flusher) : option flusher :=
  match sched with
  | [] => Some f
  | a :: sched => f ← step a f; run sched f
  end.

(** The flusher after its constructor, with the programs of the threads that
    will use it.  [AsyncStdoutLogFlusher()] and [AsyncFileLogFlusher(filename)]
    start the thread, [AsyncFileLogFlusher(pattern)] does not. *)
Definition start (w : worker) (progs : list (list cstr)) : flusher :=
  mkFlusher false None w [] [] ((λ p, mkClient p Idle) <$> progs) Alive.

(** ** Specification *)

(** [merged ls l]: [l] is an interleaving of the lists [ls]. *)
Inductive merged : list (list cstr) → list cstr → Prop :=
| merged_nil n : merged (replicate n []) []
| merged_snoc ls l i xs m :
    merged ls l → ls !! i = Some xs → merged (<[i := xs ++ [m]]> ls) (l ++ [m]).

(** [done] holds what each client has pushed. *)
Record fifo (progs done : list (list cstr)) (f : flusher) : Prop := mkFifo {
  fifo_merged : merged done (sink f ++ log_pool_ f);
  fifo_clients : Forall3 (λ p d c, p = d ++ todo c) progs done (clients f)
}.

(** Inside a section protected by the mutex. *)
Definition critical (f : flusher) (a : agent) : bool :=
  match a with
  | Client i => bool_decide (pc <$> clients f !! i = Some Pushing)
  | Worker => bool_decide (thread_ f = Flushing)
  | Destructor => bool_decide (destr f = Stopping)
  | Spurious => false
  end.

(** The mutex is held by the agent inside a critical section. *)
Definition owner (f : flusher) : Prop := ∀ a, critical f a = true ↔ mutex_ f = Some a.

(** ** Order of the messages *)

Lemma Forall3_insert_23 {A B C} (P : A → B → C → Prop) la lb lc i a b c :
  Forall3 P la lb lc → la !! i = Some a → P a b c → Forall3 P la (<[i := b]> lb) (<[i := c]> lc).
Proof.
  intros Hf. revert i. induction Hf as [|x y z la lb lc Hp Hf IH]; intros i Hi Hn; [done|].
  destruct i as [|i]; simpl in *; simplify_eq; constructor; auto.
Qed.

Lemma Forall3_lookup_3 {A B C} (P : A → B → C → Prop) la lb lc i c :
  Forall3 P la lb lc → lc !! i = Some c → ∃ a b, la !! i = Some a ∧ lb !! i = Some b ∧ P a b c.
Proof.
  intros Hf. revert i. induction Hf as [|x y z la lb lc Hp Hf IH]; intros i Hi; [done|].
  destruct i as [|i]; simpl in *; simplify_eq; eauto.
Qed.

(** A move that leaves the queues and the clients' programs alone. *)
Lemma fifo_frame progs done f g :
  log_pool_ g = log_pool_ f → sink g = sink f → clients g = clients f → fifo progs done f → fifo progs done g.
Proof. intros H1 H2 H3 [Hm Hc]. split; by rewrite ?H1, ?H2, ?H3. Qed.

Lemma notify_frame f :
  log_pool_ (notify_one f) = log_pool_ f ∧ sink (notify_one f) = sink f ∧
  clients (notify_one f) = clients f ∧ mutex_ (notify_one f) = mutex_ f ∧
  destr (notify_one f) = destr f ∧ stop_ (notify_one f) = stop_ f.
Proof. unfold notify_one. by destruct (thread_ f). Qed.

Lemma lock_Some a f g : lock a f = Some g ↔ mutex_ f = None ∧ g = set_mutex (Some a) f.
Proof. unfold lock. destruct (mutex_ f); naive_solver. Qed.

(** What a client's move is. *)
Lemma flush_inv i f g :
  flush_step i f = Some g →
  ∃ c, clients f !! i = Some c ∧
    ((∃ m ms, pc c = Idle ∧ todo c = m :: ms ∧ mutex_ f = None ∧
        g = set_client i (mkClient (m :: ms) Pushing) (set_mutex (Some (Client i)) f)) ∨
     (∃ m ms, pc c = Pushing ∧ todo c = m :: ms ∧
        g = set_client i (mkClient ms Notifying) (set_mutex None (push m f))) ∨
     (pc c = Notifying ∧ g = set_client i (mkClient (todo c) Idle) (notify_one f))).
Proof.
  unfold flush_step. intros Hs. apply bind_Some in Hs as (c & Hc & Hs). exists c. split; [done|].
  destruct (pc c), (todo c) as [|m ms]; try done.
  - apply bind_Some in Hs as (h & (Hm & ->)%lock_Some & [= <-]). left. eauto 10.
  - right. left. injection Hs as <-. eauto 10.
  - right. right. injection Hs as <-. done.
  - right. right. injection Hs as <-. done.
Qed.

Lemma fifo_client progs done i f g :
  fifo progs done f → flush_step i f = Some g → ∃ done', fifo progs done' g.
Proof.
  intros [Hm Hc] (c & Hi & Hs)%flush_inv.
  destruct (Forall3_lookup_3 _ _ _ _ _ _ Hc Hi) as (p & d & Hp & Hd & Hpd).
  destruct Hs as [(m & ms & _ & Ht & _ & ->)|[(m & ms & _ & Ht & ->)|(_ & ->)]].
  - exists done. split; [done|]. simpl. rewrite <- (list_insert_id done i d) by done.
    eapply Forall3_insert_23; eauto. by rewrite Ht in Hpd.
  - exists (<[i := d ++ [m]]> done). split; simpl.
    + rewrite app_assoc. by constructor.
    + eapply Forall3_insert_23; eauto. rewrite Ht in Hpd. rewrite <- app_assoc. done.
  - exists done. destruct (notify_frame f) as (H1 & H2 & H3 & _).
    split; simpl; rewrite ?H1, ?H2, ?H3; [done|].
    rewrite <- (list_insert_id done i d) by done. eapply Forall3_insert_23; eauto.
Qed.

Lemma fifo_thread progs done f g :
  fifo progs done f → thread_step f = Some g → fifo progs done g.
Proof.
  intros Hf Hs. unfold thread_step in Hs.
  destruct (thread_ f); try done; try (apply bind_Some in Hs as (h & (_ & ->)%lock_Some & Hs));
    injection Hs as <-; try by eapply fifo_frame, Hf.
  unfold doFlush_step. destruct (log_pool_ f) as [|m ms] eqn:Hp; [by eapply fifo_frame, Hf|].
  destruct Hf as [Hm Hc]. split; [|done]. simpl. rewrite Hp in Hm. by rewrite <- app_assoc.
Qed.

Lemma fifo_destroy progs done f g :
  fifo progs done f → destroy_step f = Some g → fifo progs done g.
Proof.
  intros Hf Hs. unfold destroy_step in Hs. destruct (notify_frame f) as (H1 & H2 & H3 & _).
  destruct (destr f); try done.
  - apply bind_Some in Hs as (h & (_ & ->)%lock_Some & [= <-]). by eapply fifo_frame, Hf.
  - injection Hs as <-. by eapply fifo_frame, Hf.
  - injection Hs as <-. by eapply fifo_frame, Hf.
  - destruct (thread_ f); simplify_eq; by eapply fifo_frame, Hf.
Qed.

Lemma fifo_step progs done a f g :
  fifo progs done f → step a f = Some g → ∃ done', fifo progs done' g.
Proof.
  intros Hf Hs. destruct a; simpl in Hs.
  - eauto using fifo_client.
  - eauto using fifo_thread.
  - eauto using fifo_destroy.
  - destruct (decide _); simplify_eq. exists done. by eapply fifo_frame, Hf.
Qed.

Lemma fifo_start w progs : fifo progs (replicate (length progs) []) (start w progs).
Proof.
  split; [apply merged_nil|]. simpl. induction progs; constructor; done.
Qed.

(** ** Mutual exclusion *)

Lemma owner_frame f g : (∀ a, critical g a = critical f a) → mutex_ g = mutex_ f → owner f → owner g.
Proof. intros Hc Hm Ho a. by rewrite Hc, Hm. Qed.

Lemma owner_take f g a :
  mutex_ f = None → mutex_ g = Some a → critical g a = true →
  (∀ b, b ≠ a → critical g b = critical f b) → owner f → owner g.
Proof.
  intros Hf Hg Ha Hb Ho b. destruct (decide (b = a)) as [->|Hne]; [by rewrite Ha, Hg|].
  rewrite Hb, (Ho b), Hf, Hg by done. split; congruence.
Qed.

Lemma owner_release f g a :
  critical f a = true → mutex_ g = None → critical g a = false →
  (∀ b, b ≠ a → critical g b = critical f b) → owner f → owner g.
Proof.
  intros Hf Hg Ha Hb Ho b. destruct (decide (b = a)) as [->|Hne]; [by rewrite Ha, Hg|].
  rewrite Hb, (Ho b), Hg by done. apply (Ho a) in Hf. rewrite Hf. split; congruence.
Qed.

Lemma critical_notify f a : critical (notify_one f) a = critical f a.
Proof. unfold notify_one. destruct (thread_ f) eqn:Ht; try done. destruct a; simpl; try done. by rewrite Ht. Qed.

Lemma critical_set_client f i c b : b ≠ Client i → critical (set_client i c f) b = critical f b.
Proof.
  intros Hb. destruct b; try done. simpl. rewrite list_lookup_insert_ne; [done|congruence].
Qed.

Lemma critical_client f i c d :
  clients f !! i = Some d → critical (set_client i c f) (Client i) = bool_decide (pc c = Pushing).
Proof.
  intros Hi. simpl. rewrite list_lookup_insert_eq by (by eapply lookup_lt_Some). simpl.
  apply bool_decide_ext. split; congruence.
Qed.

Lemma owner_client i f g : owner f → flush_step i f = Some g → owner g.
Proof.
  intros Ho (c & Hi & Hs)%flush_inv.
  assert (Hci : critical f (Client i) = bool_decide (pc c = Pushing)).
  { simpl. rewrite Hi. apply bool_decide_ext. simpl. split; congruence. }
  destruct Hs as [(m & ms & Hp & _ & Hm & ->)|[(m & ms & Hp & _ & ->)|(Hp & ->)]].
  - apply (owner_take f _ (Client i)); try done; [by rewrite (critical_client _ _ _ c)|].
    intros b Hb. rewrite critical_set_client by done. by destruct b.
  - apply (owner_release f _ (Client i)); try done; [by rewrite Hci, Hp|by rewrite (critical_client _ _ _ c)|].
    intros b Hb. rewrite critical_set_client by done. by destruct b.
  - destruct (notify_frame f) as (_ & _ & H3 & H4 & _).
    apply (owner_frame f); [|done|done]. intros b. destruct (decide (b = Client i)) as [->|Hb].
    + rewrite (critical_client _ _ _ c) by by rewrite H3. by rewrite Hci, Hp.
    + rewrite critical_set_client by done. apply critical_notify.
Qed.

Lemma owner_thread f g : owner f → thread_step f = Some g → owner g.
Proof.
  intros Ho Hs. unfold thread_step in Hs.
  destruct (thread_ f) eqn:Ht; try done; try (apply bind_Some in Hs as (h & (Hm & ->)%lock_Some & Hs));
    injection Hs as <-.
  - apply (owner_frame f); try done. intros []; simpl; try done. rewrite Ht. by destruct (stop_ f).
  - apply (owner_frame f); try done. intros []; simpl; try done. by rewrite Ht.
  - apply (owner_frame f); try done. intros []; simpl; try done. by rewrite Ht.
  - apply (owner_take f _ Worker); try done. by intros [].
  - unfold doFlush_step. destruct (log_pool_ f).
    + apply (owner_release f _ Worker); try done; [simpl; by rewrite Ht|]. by intros [].
    + by apply (owner_frame f).
Qed.

Lemma owner_destroy f g : owner f → destroy_step f = Some g → owner g.
Proof.
  intros Ho Hs. unfold destroy_step in Hs. destruct (notify_frame f) as (_ & _ & H3 & H4 & H5 & _).
  destruct (destr f) eqn:Hd; try done.
  - apply bind_Some in Hs as (h & (Hm & ->)%lock_Some & [= <-]).
    apply (owner_take f _ Destructor); try done. by intros [].
  - injection Hs as <-. apply (owner_release f _ Destructor); try done; [simpl; by rewrite Hd|].
    by intros [].
  - injection Hs as <-. apply (owner_frame f); try done. intros b. rewrite <- (critical_notify f).
    destruct b; try done. simpl. by rewrite H5.
  - destruct (thread_ f) eqn:Ht; simplify_eq; apply (owner_frame f); try done;
      intros []; simpl; try done; by rewrite Hd.
Qed.

Lemma owner_step a f g : owner f → step a f = Some g → owner g.
Proof.
  intros Ho Hs. destruct a; simpl in Hs; eauto using owner_client, owner_thread, owner_destroy.
  destruct (decide _) as [Ht|]; simplify_eq. apply (owner_frame f); try done.
  intros []; simpl; try done. by rewrite Ht.
Qed.

Lemma owner_start w progs : w = NoThread ∨ w = Check → owner (start w progs).
Proof.
  intros Hw a. split; [|done]. destruct a as [i| | |]; simpl; try done; [|by destruct Hw as [-> | ->]].
  rewrite list_lookup_fmap. by destruct (progs !! i).
Qed.

(** ** Runs *)

Lemma run_app s1 s2 f : run (s1 ++ s2) f = g ← run s1 f; run s2 g.
Proof. revert f. induction s1 as [|a s1 IH]; intros f; [done|]. simpl. destruct (step a f); simpl; auto. Qed.

Lemma run_invariant progs sched : ∀ done f g,
  fifo progs done f → owner f → run sched f = Some g → owner g ∧ ∃ done', fifo progs done' g.
Proof.
  induction sched as [|a sched IH]; intros done f g Hf Ho Hr; simpl in Hr; [simplify_eq; eauto|].
  apply bind_Some in Hr as (h & Hs & Hr). destruct (fifo_step _ _ _ _ _ Hf Hs) as (done' & Hf').
  eauto using owner_step.
Qed.

(** ** Progress *)

Local Open Scope nat_scope.

(** [stop_] is set once the destructor has been through its critical section, and
    a client inside its critical section has a message to push. *)
Record armed (f : flusher) : Prop := mkArmed {
  armed_stop : destr f ∉ [Alive; Stopping] → stop_ f = true;
  armed_push : ∀ i c, clients f !! i = Some c → pc c = Pushing → todo c ≠ []
}.

Lemma armed_start w progs : armed (start w progs).
Proof.
  split; simpl; [intros H; destruct H; left|]. intros i c. rewrite list_lookup_fmap.
  destruct (progs !! i); naive_solver.
Qed.

Lemma armed_frame f g :
  destr g = destr f → stop_ g = stop_ f → clients g = clients f → armed f → armed g.
Proof. intros H1 H2 H3 [Hs Hp]. split; by rewrite ?H1, ?H2, ?H3. Qed.

Lemma armed_set_client i c f :
  (pc c = Pushing → todo c ≠ []) → armed f → armed (set_client i c f).
Proof.
  intros Hc [Hs Hp]. split; [done|]. intros j d Hj. simpl in Hj.
  destruct (decide (i = j)) as [->|Hne].
  - assert (j < length (clients f)) by (apply lookup_lt_Some in Hj; by rewrite length_insert in Hj).
    rewrite list_lookup_insert_eq in Hj by done. by simplify_eq.
  - rewrite list_lookup_insert_ne in Hj by done. eauto.
Qed.

Lemma armed_step a f g : armed f → step a f = Some g → armed g.
Proof.
  intros Ha Hs. destruct (notify_frame f) as (_ & _ & H3 & _ & H5 & H6).
  assert (Hn : armed (notify_one f)) by by eapply armed_frame, Ha.
  destruct a; simpl in Hs.
  - apply flush_inv in Hs as (c & _ & [(m & ms & _ & _ & _ & ->)|[(m & ms & _ & _ & ->)|(_ & ->)]]);
      apply armed_set_client; try done; by eapply armed_frame, Ha.
  - unfold thread_step in Hs. destruct (thread_ f); try done;
      try (apply bind_Some in Hs as (h & (_ & ->)%lock_Some & Hs)); injection Hs as <-;
      try by eapply armed_frame, Ha. unfold doFlush_step. destruct (log_pool_ f); by eapply armed_frame, Ha.
  - unfold destroy_step in Hs. destruct Ha as [Hst Hp]. destruct (destr f) eqn:Hd; try done.
    + apply bind_Some in Hs as (h & (_ & ->)%lock_Some & [= <-]). split; [|done]. simpl. intros H.
      destruct H. right. left.
    + injection Hs as <-. by split.
    + injection Hs as <-. split; simpl; [|rewrite H3; done]. intros _. rewrite H6. apply Hst. set_solver.
    + assert (stop_ f = true) by (apply Hst; set_solver). destruct (thread_ f); simplify_eq; by split.
  - destruct (decide _); simplify_eq. by eapply armed_frame, Ha.
Qed.

Lemma run_armed sched : ∀ f g, armed f → owner f → run sched f = Some g → armed g ∧ owner g.
Proof.
  induction sched as [|a sched IH]; intros f g Ha Ho Hr; simpl in Hr; [by simplify_eq|].
  apply bind_Some in Hr as (h & Hs & Hr). eauto using armed_step, owner_step.
Qed.

(** The holder of the mutex can always move. *)
Lemma holder_moves a f : armed f → owner f → mutex_ f = Some a → is_Some (step a f).
Proof.
  intros [_ Hp] Ho Hm. apply Ho in Hm. destruct a as [i| | |]; simpl in Hm |- *; try done;
    apply bool_decide_eq_true_1 in Hm.
  - apply fmap_Some in Hm as (c & Hi & Hc). unfold flush_step. rewrite Hi. simpl. rewrite <- Hc.
    specialize (Hp _ _ Hi (eq_sym Hc)). by destruct (todo c).
  - unfold thread_step. by rewrite Hm.
  - unfold destroy_step. by rewrite Hm.
Qed.

(** The thread is on its way from a notification to the end of [doFlush], or, when
    stopping, to its end: it moves unless another agent holds the mutex, and the
    moves it has left are counted by [left_moves]. *)
Definition left_moves (f : flusher) : nat :=
  match thread_ f with
  | Woken => 4 + length (log_pool_ f)
  | FlushLock => 3 + length (log_pool_ f)
  | Flushing => 2 + length (log_pool_ f)
  | Check => 1
  | _ => 0
  end.

Lemma awake_moves f :
  armed f → owner f → 0 < left_moves f → is_Some (step Worker f) ∨ ∃ a, mutex_ f = Some a ∧ is_Some (step a f).
Proof.
  intros Ha Ho Hl. destruct (mutex_ f) as [a|] eqn:Hm; [right; eauto using holder_moves|left].
  simpl. unfold thread_step, lock. unfold left_moves in Hl. rewrite Hm.
  destruct (thread_ f); simpl; try lia; done.
Qed.

Definition workers (sched : list agent) : nat := length (filter (λ a, a = Worker) sched).
Definition is_client (a : agent) : Prop := match a with Client _ => True | _ => False end.
#[global] Instance is_client_dec a : Decision (is_client a).
Proof. destruct a; simpl; apply _. Defined.
Definition flushes (sched : list agent) : nat := length (filter is_client sched).


Lemma workers_cons a s : workers (a :: s) = workers [a] + workers s.
Proof. unfold workers. rewrite !filter_cons, filter_nil. by destruct (decide _). Qed.
Lemma flushes_cons a s : flushes (a :: s) = flushes [a] + flushes s.
Proof. unfold flushes. rewrite !filter_cons, filter_nil. by destruct (decide _). Qed.

(** Nothing that has been flushed is taken back. *)
Lemma sink_grows a f g :
  step a f = Some g →
  sink f `prefix_of` sink g ∧ sink f ++ log_pool_ f `prefix_of` sink g ++ log_pool_ g.
Proof.
  intros Hs. destruct (notify_frame f) as (H1 & H2 & _). destruct a; simpl in Hs.
  - apply flush_inv in Hs as (c & _ & [(m & ms & _ & _ & _ & ->)|[(m & ms & _ & _ & ->)|(_ & ->)]]);
      simpl; rewrite ?H1, ?H2, ?app_assoc; auto using prefix_app_r.
  - unfold thread_step in Hs. destruct (thread_ f); try done;
      try (apply bind_Some in Hs as (h & (_ & ->)%lock_Some & Hs)); injection Hs as <-; try done.
    unfold doFlush_step. destruct (log_pool_ f) as [|m ms] eqn:Hp; simpl; rewrite ?Hp; [done|].
    rewrite <- app_assoc. auto using prefix_app_r.
  - unfold destroy_step in Hs. destruct (destr f), (thread_ f); try done;
      try (apply bind_Some in Hs as (h & (_ & ->)%lock_Some & Hs)); injection Hs as <-; simpl;
      rewrite ?H1, ?H2; done.
  - destruct (decide _); by simplify_eq.
Qed.

(** One move of any agent: before the end of [doFlush] the thread gets nearer to
    it or is held up by a flush, and it ends with nothing pooled. *)
Lemma left_step a f g :
  step a f = Some g → 1 < left_moves f →
  workers [a] + left_moves g ≤ flushes [a] + left_moves f ∧ (1 < left_moves g ∨ log_pool_ g = []).
Proof.
  intros Hs Hl. assert (Hn : notify_one f = f).
  { unfold notify_one, left_moves in *. destruct (thread_ f); done || lia. }
  destruct a; simpl in Hs.
  - apply flush_inv in Hs as (c & _ & [(m & ms & _ & _ & _ & ->)|[(m & ms & _ & _ & ->)|(_ & ->)]]);
      rewrite ?Hn; revert Hl; unfold left_moves; simpl; rewrite ?length_app; simpl;
      destruct (thread_ f); lia.
  - revert Hl. unfold thread_step in Hs. unfold left_moves.
    destruct (thread_ f) eqn:Ht; try done; try lia;
      try (apply bind_Some in Hs as (h & (_ & ->)%lock_Some & Hs)); injection Hs as <-; simpl; try lia.
    intros _. unfold doFlush_step. destruct (log_pool_ f) eqn:Hp; simpl; rewrite ?Ht; (split; [lia|]);
      [by right|left; lia].
  - unfold destroy_step in Hs. rewrite Hn in Hs. revert Hl. unfold left_moves.
    destruct (destr f), (thread_ f) eqn:Ht; try done;
      try (apply bind_Some in Hs as (h & (_ & ->)%lock_Some & Hs)); injection Hs as <-; simpl; rewrite ?Ht; lia.
  - destruct (decide _) as [Ht|]; [|done]. unfold left_moves in Hl. rewrite Ht in Hl. lia.
Qed.

(** What is due is written out, or the thread is on its way to write it: with [w]
    moves made, it needs at most [k] in all. *)
Definition due (base : list cstr) (w k : nat) (f : flusher) : Prop :=
  base `prefix_of` sink f ∨
  1 < left_moves f ∧ w + left_moves f ≤ k ∧ base `prefix_of` sink f ++ log_pool_ f.

Lemma due_run base sched : ∀ w k f g, due base w k f → run sched f = Some g →
  due base (w + workers sched) (k + flushes sched) g.
Proof.
  induction sched as [|a sched IH]; intros w k f g Hd Hr; simpl in Hr.
  { simplify_eq. by rewrite !Nat.add_0_r. }
  apply bind_Some in Hr as (h & Hs & Hr). rewrite workers_cons, flushes_cons, !Nat.add_assoc.
  apply (IH _ _ h); [|done]. destruct (sink_grows _ _ _ Hs) as (Hg1 & Hg2).
  destruct Hd as [Hb|(Hl & Hk & Hb)]; [left; by etrans|].
  destruct (left_step _ _ _ Hs Hl) as (Hle & [Hl'|Hp]).
  - right. split; [done|]. split; [lia|by etrans].
  - left. rewrite Hp, app_nil_r in Hg2. by etrans.
Qed.

(** The destructor has notified the waiting thread. *)
Record ending (w k : nat) (f : flusher) : Prop := mkEnding {
  ending_stop : stop_ f = true;
  ending_thread : thread_ f ∉ [NoThread; Lock; Waiting];
  ending_destr : destr f = Joining ∨ destr f = Destroyed ∧ thread_ f = Finished;
  ending_left : w + left_moves f ≤ k
}.

Lemma ending_step a w k f g :
  ending w k f → step a f = Some g → ending (w + workers [a]) (k + flushes [a]) g.
Proof.
  intros [He Ht Hd Hl] Hs.
  replace (workers [a]) with (match a with Worker => 1 | _ => 0 end) by (by destruct a).
  replace (flushes [a]) with (match a with Client _ => 1 | _ => 0 end) by (by destruct a).
  assert (Hn : notify_one f = f) by (unfold notify_one; destruct (thread_ f); set_solver).
  destruct a; simpl in Hs.
  - apply flush_inv in Hs as (c & _ & [(m & ms & _ & _ & _ & ->)|[(m & ms & _ & _ & ->)|(_ & ->)]]);
      rewrite ?Hn; split; try done; unfold left_moves in *; simpl; rewrite ?length_app; simpl;
      destruct (thread_ f); lia.
  - destruct Hd as [Hd|(_ & Hd)]; [|unfold thread_step in Hs; by rewrite Hd in Hs].
    unfold thread_step in Hs. unfold left_moves in Hl.
    destruct (thread_ f) eqn:Heq; try done; try (by set_solver);
      try (apply bind_Some in Hs as (h & (_ & ->)%lock_Some & Hs)); rewrite ?He in Hs; injection Hs as <-.
    1-3: split; simpl; [done|set_solver|by left|unfold left_moves; simpl; lia].
    unfold doFlush_step. destruct (log_pool_ f); simpl in *; split; simpl; rewrite ?Heq;
      try done; try set_solver; try (by left); unfold left_moves; simpl; rewrite ?Heq; lia.
  - unfold destroy_step in Hs. destruct Hd as [Hd|(Hd & _)]; rewrite Hd in Hs; [|done].
    destruct (thread_ f) eqn:Heq; try done; simplify_eq; [set_solver|]. split; simpl; rewrite ?Heq; auto.
    revert Hl. unfold left_moves. simpl. rewrite Heq. lia.
  - destruct (decide _) as [Heq|]; [|done]. rewrite Heq in Ht. set_solver.
Qed.

Lemma ending_run sched : ∀ w k f g, ending w k f → run sched f = Some g →
  ending (w + workers sched) (k + flushes sched) g.
Proof.
  induction sched as [|a sched IH]; intros w k f g Hd Hr; simpl in Hr.
  { simplify_eq. by rewrite !Nat.add_0_r. }
  apply bind_Some in Hr as (h & Hs & Hr). rewrite workers_cons, flushes_cons, !Nat.add_assoc.
  eauto using ending_step.
Qed.

(** Until the destructor has returned, somebody can move. *)
Lemma ending_moves w k f :
  armed f → owner f → ending w k f → destr f = Destroyed ∨
  is_Some (step Worker f) ∨ is_Some (step Destructor f) ∨ ∃ a, mutex_ f = Some a ∧ is_Some (step a f).
Proof.
  intros Ha Ho [_ Ht Hd _]. destruct Hd as [Hd|[Hd _]]; [right|by left].
  destruct (decide (thread_ f = Finished)) as [Hf|Hf].
  - right. left. simpl. unfold destroy_step. by rewrite Hd, Hf.
  - destruct (awake_moves f Ha Ho) as [?|?]; [|by left|by right; right].
    unfold left_moves. destruct (thread_ f); simpl; try lia; set_solver.
Qed.

(** ** Properties *)

(** C32: whatever the interleaving of the logging threads, the flusher's thread,
    its destructor and spurious wake-ups, the messages written out followed by
    those still pooled are an interleaving of what the threads have flushed so
    far, each thread's messages in its order: none is lost, duplicated or
    reordered; and the mutex is always held by the one agent that is inside a
    section it protects. *)
Theorem async_fifo w progs sched f :
  w = NoThread ∨ w = Check → run sched (start w progs) = Some f →
  (∀ a, critical f a = true ↔ mutex_ f = Some a) ∧
  ∃ done, merged done (sink f ++ log_pool_ f) ∧
    Forall3 (λ p d c, p = d ++ todo c) progs done (clients f).
Proof.
  intros Hw Hr. destruct (run_invariant progs sched _ _ _ (fifo_start w progs) (owner_start w progs Hw) Hr)
    as (Ho & done & [Hm Hc]). eauto.
Qed.

(** C33: a notification that finds the flusher's thread waiting delivers, whatever
    moves follow.  After a client's notification, what was pooled is written out
    once the thread has moved three times more than there are messages pooled and
    moves of clients, and until then the thread or the holder of the mutex can
    move.  After the destructor's notification, the thread moves at most that
    often and once more, until the destructor has returned the thread, the
    destructor or the holder of the mutex can move, and when it has returned
    everything that was pooled is written out. *)
Theorem async_delivers w progs sched f :
  w = NoThread ∨ w = Check → run sched (start w progs) = Some f → thread_ f = Waiting →
  (∀ i c, clients f !! i = Some c → pc c = Notifying →
     ∃ g, step (Client i) f = Some g ∧ ∀ sched' h, run sched' g = Some h →
       sink f ++ log_pool_ f `prefix_of` sink h ∨
       workers sched' < 3 + length (log_pool_ f) + flushes sched' ∧
       (is_Some (step Worker h) ∨ ∃ a, mutex_ h = Some a ∧ is_Some (step a h))) ∧
  (destr f = StopNotify →
     ∃ g, step Destructor f = Some g ∧ ∀ sched' h, run sched' g = Some h →
       workers sched' ≤ 4 + length (log_pool_ f) + flushes sched' ∧
       (destr h = Destroyed ∧ sink f ++ log_pool_ f `prefix_of` sink h ∨
        is_Some (step Worker h) ∨ is_Some (step Destructor h) ∨ ∃ a, mutex_ h = Some a ∧ is_Some (step a h))).
Proof.
  intros Hw Hr Ht.
  destruct (run_armed _ _ _ (armed_start w progs) (owner_start w progs Hw) Hr) as (Ha & Ho). split.
  - intros i c Hi Hpc.
    set (g := set_client i (mkClient (todo c) Idle) (set_thread Woken f)).
    assert (Hs : step (Client i) f = Some g).
    { simpl. unfold flush_step. rewrite Hi. simpl. rewrite Hpc. unfold notify_one. rewrite Ht. by destruct (todo c). }
    exists g. split; [done|]. intros sched' h Hh.
    destruct (due_run (sink f ++ log_pool_ f) sched' 0 (4 + length (log_pool_ f)) g h) as [?|(Hl & Hk & _)];
      [right; unfold left_moves; simpl; auto with lia|done|by left|].
    destruct (run_armed sched' g h) as (Ha' & Ho'); eauto using armed_step, owner_step.
    right. split; [lia|]. apply awake_moves; auto with lia.
  - intros Hd. set (g := set_destr Joining (set_thread Woken f)).
    assert (Hs : step Destructor f = Some g) by (simpl; unfold destroy_step, notify_one; by rewrite Hd, Ht).
    exists g. split; [done|]. intros sched' h Hh.
    destruct (run_armed sched' g h) as (Ha' & Ho'); eauto using armed_step, owner_step.
    assert (He : ending 0 (4 + length (log_pool_ f)) g).
    { split; simpl; [apply (armed_stop f Ha); rewrite Hd; set_solver|set_solver|by left|done]. }
    pose proof (ending_run sched' _ _ _ _ He Hh) as He'.
    destruct (ending_moves _ _ _ Ha' Ho' He') as [Hds|Hm]; [|split; [destruct He'; lia|by right]].
    split; [destruct He'; lia|]. left. split; [done|].
    destruct (due_run (sink f ++ log_pool_ f) sched' 0 (4 + length (log_pool_ f)) g h) as [?|(Hl & _)];
      [right; unfold left_moves; simpl; auto with lia|done|done|].
    destruct He' as [_ _ [Hj|[_ Hf]] _]; [congruence|]. unfold left_moves in Hl. rewrite Hf in Hl. lia.
Qed.

(** ** Notifications that find nobody waiting

    The condition variable is waited for without a predicate. *)

(** A message flushed before the thread waits stays in the pool, and a destructor
    that notifies before the thread waits blocks for ever in [join]. *)
Lemma lost_wakeup m :
  ∃ f, run [Worker; Client 0; Client 0; Client 0; Destructor; Destructor; Destructor; Worker] (start Check [[m]])
         = Some f ∧
    log_pool_ f = [m] ∧ sink f = [] ∧ (∀ a, a ≠ Spurious → step a f = None).
Proof.
  eexists. split; [reflexivity|]. split; [done|]. split; [done|].
  intros [[|i]| | |] Ha; try done.
Qed.

(** A message flushed while the thread is between [doFlush] and its test of
    [stop_] is never written: the destructor returns with the message pooled. *)
Lemma dropped_message m :
  ∃ f, run [Client 0; Client 0; Client 0; Destructor; Destructor; Destructor; Worker; Destructor] (start Check [[m]])
         = Some f ∧
    log_pool_ f = [m] ∧ sink f = [] ∧ destr f = Destroyed.
Proof. eexists. split; [reflexivity|]. done. Qed.

Definition silent (f : flusher) : Prop := thread_ f = NoThread ∧ sink f = [] ∧ destr f ≠ Destroyed.

Lemma silent_step a f g : silent f → step a f = Some g → silent g.
Proof.
  unfold silent. intros (Ht & Hs & Hd) Hst.
  assert (Hn : notify_one f = f) by (unfold notify_one; by rewrite Ht).
  destruct a; simpl in Hst.
  - apply flush_inv in Hst as (c & _ & [(? & ? & _ & _ & _ & ->)|[(? & ? & _ & _ & ->)|(_ & ->)]]);
      rewrite ?Hn; done.
  - unfold thread_step in Hst. by rewrite Ht in Hst.
  - unfold destroy_step in Hst. rewrite Hn, Ht in Hst. destruct (destr f); try done;
      try (apply bind_Some in Hst as (? & (_ & ->)%lock_Some & [= <-])); simplify_eq; done.
  - rewrite Ht in Hst. by destruct (decide (NoThread = Waiting)).
Qed.

(** [AsyncFileLogFlusher(pattern)] starts no thread: nothing is ever written, and
    its destructor's [join] throws out of the destructor. *)
Lemma pattern_flusher_silent progs sched f :
  run sched (start NoThread progs) = Some f → sink f = [] ∧ destr f ≠ Destroyed.
Proof.
  assert (Hi : silent (start NoThread progs)) by done. revert Hi. generalize (start NoThread progs).
  induction sched as [|a sched IH]; intros h Hi Hr; simpl in Hr; [simplify_eq; apply Hi|].
  apply bind_Some in Hr as (k & Hst & Hr). eauto using silent_step.
Qed.

Module FlusherEx.
Definition a := str "a".
Definition b := str "b".
Definition c := str "c".

Definition sched : list agent :=
  [Worker; Worker; Client 1; Client 1; Client 1; Worker; Worker; Worker; Worker; Client 0; Client 0].

Lemma async_fifo_witness :
  ∃ f, run sched (start Check [[a; b]; [c; a]]) = Some f ∧ sink f = [c] ∧ log_pool_ f = [a] ∧
    ∃ done, merged done [c; a].
Proof.
  eexists. split; [vm_compute; reflexivity|]. split; [reflexivity|]. split; [reflexivity|].
  destruct (async_fifo Check [[a; b]; [c; a]] sched _ (or_intror eq_refl) ltac:(vm_compute; reflexivity))
    as (_ & done & Hd & _). eauto.
Defined.

Definition stop_sched : list agent := [Worker; Client 0; Client 0; Client 0; Worker; Destructor; Destructor].

(** The destructor stops a flusher with one message pooled; its thread takes the
    mutex, and while it writes another client has to wait. *)
Lemma async_delivers_witness :
  ∃ f g h, run stop_sched (start Check [[a]; [b]]) = Some f ∧ log_pool_ f = [a] ∧
    step Destructor f = Some g ∧
    run [Worker; Client 1; Client 1; Worker; Worker; Worker; Worker; Client 1; Worker; Destructor] g = Some h ∧
    destr h = Destroyed ∧ [a] `prefix_of` sink h.
Proof.
  eexists. edestruct (async_delivers Check [[a]; [b]] stop_sched) as (_ & Hd);
    [by right|vm_compute; reflexivity|reflexivity|].
  destruct (Hd eq_refl) as (g & Hg & Hr). exists g. vm_compute in Hg. injection Hg as <-.
  edestruct (Hr [Worker; Client 1; Client 1; Worker; Worker; Worker; Worker; Client 1; Worker; Destructor])
    as (_ & Hh); [vm_compute; reflexivity|]. eexists.
  split; [vm_compute; reflexivity|]. split; [reflexivity|]. split; [reflexivity|].
  split; [vm_compute; reflexivity|]. split; [reflexivity|].
  destruct Hh as [[_ Hp]|[[? Hx]|[[? Hx]|(? & Hx & _)]]]; [exact Hp|vm_compute in Hx; done..].
Defined.
End FlusherEx.
