(* ===== verification/Random.v ===== *)
(** * Random numbers (include/base/random.h)

    The numbers the balancers draw.  The random device and the distribution of
    the C++ library are a class. *)

From S2P Require Import Prelude.
From stdpp Require Import options.

(** [std::random_device] is a stream of seeds; a seeded [std::mt19937] through a
    [std::uniform_int_distribution] on a range gives a number of that range. *)
Class Random := {
  random_device : nat → Z;
  uniform_int : Z → Z → Z → Z;           (* the seed, then the range *)
  uniform_int_range seed a b : a <= b → a <= uniform_int seed a b <= b
}.

(** Each call takes a new seed; [call] is its number. *)
Definition mt19937RandomGen `{Random} (call : nat) (begin end_ : Z) : Z :=
  uniform_int (random_device call) begin end_.

Lemma mt19937_range `{Random} call a b : a <= b → a <= mt19937RandomGen call a b <= b.
Proof. apply uniform_int_range. Qed.

Module RandomEx.
(** The upper bound is always drawn. *)
#[export] Program Instance highest : Random := {
  random_device n := Z.of_nat n;
  uniform_int _ _ b := b
}.
Next Obligation. intros seed a b Hab. simpl. lia. Qed.

Example draws : mt19937RandomGen 3 0 7 = 7.
Proof. reflexivity. Qed.
End RandomEx.
