(* ===== verification/Balancer.v ===== *)
(** * Balancers (include/balancer/io, src/balancer/io)

    A balancer owns threads, each running an IO manager, and hands a task to one
    of them.  The balancers only need what [RemoteSink] states of a manager;
    IOManager.v's manager is an instance.  The managers are shared objects:
    [store] maps a manager's address to its state. *)

From S2P Require Import Prelude Timer FdManager Sys Executor Scheduler SchedulerInv IOManager IOManagerThm.
From S2P Require Import Random.
From stdpp Require Import options.
Set Default Proof Using "Type*".

(** What a balancer relies on: a manager with room for a task takes it. *)
Class RemoteSink (M : Type) := {
  sink_add : option eid → M → outcome M;
  sink_tasks : M → list (option eid);      (* latest first *)
  sink_room : M → Z;
  sink_add_ok e m : 0 < sink_room m →
    ∃ m', sink_add e m = Ok m' ∧ sink_tasks m' = e :: sink_tasks m ∧ sink_room m' = sink_room m - 1
}.

(** [std::any] as far as the balancers look into it. *)
Inductive any := AnyInt (i : Z) | AnyOther.

Section Balancer.
Context {M : Type} `{RemoteSink M}.

Definition address := nat.
Notation store := (gmap address M).

(** [manager->addRemoteTask(executor)] *)
Definition hand (p : address) (e : option eid) (st : store) : outcome store :=
  m ← of_option UseAfterFree (st !! p);
  m' ← sink_add e m;
  Ok (<[p := m']> st).

(** [RandomIOBalancer], [SequenceIOBalancer] *)
Record AvgBalancer := mkAvg {
  managers_ : list address;
  threads_ : nat              (* the number of threads *)
}.

(** The constructor: [before] and [after] are the managers the threads have
    appended, in the order they ran, before and after the constructor appended
    the caller's ([current], when [use_current_thread]). *)
Definition AvgBalancer_new (threads_count : nat) (before after : list address) (current : option address)
    : AvgBalancer :=
  mkAvg (before ++ option_list current ++ after) threads_count.

(** [RandomIOBalancer::schedule]: [managers_[...]] is unchecked. *)
Definition random_schedule `{Random} (call : nat) (executor : option eid) (b : AvgBalancer) (st : store) : outcome store :=
  let i := mt19937RandomGen call 0 (u64 (Z.of_nat (threads_ b) - 1)) in
  p ← of_option OutOfBounds (managers_ b !! Z.to_nat i);
  hand p executor st.

(** [SequenceIOBalancer::schedule]; [count] is the function's static counter. *)
Definition sequence_schedule (executor : option eid) (b : AvgBalancer) (s : Z * store)
    : outcome (Z * store) :=
  let '(count, st) := s in
  if decide (threads_ b = 0%nat) then Fault DivByZero
  else
    p ← of_option OutOfBounds (managers_ b !! Z.to_nat (count mod Z.of_nat (threads_ b)));
    st ← hand p executor st;
    Ok (u64 (count + 1), st).

(** [SimpleIOBalancer::schedule]: the current thread's scheduler. *)
Definition simple_schedule (executor : option eid) (s : Scheduler) : Scheduler :=
  (addExecutor executor s).2.

(** ** PrioBlancer *)

(** A thread of priority [i] registers its manager. *)
Definition prio_register (i : nat) (p : address) (prio_workers : list (list address)) : list (list address) :=
  alter (λ l, l ++ [p]) i prio_workers.

(** [while (prio_workers[prio].size() == 0 && prio >= 0) --prio;] for
    [prio = n - 1]: the vector is indexed before the bound is tested. *)
Fixpoint descend (prio_workers : list (list address)) (n : nat) : outcome Z :=
  match n with
  | O => Fault OutOfBounds
  | S prio =>
      ws ← of_option OutOfBounds (prio_workers !! prio);
      match ws with
      | [] => descend prio_workers prio
      | _ => Ok (Z.of_nat prio)
      end
  end.

Definition prio_schedule `{Random} (call : nat) (executor : option eid) (arg : any)
    (prio_workers : list (list address)) (st : store) : outcome store :=
  match arg with
  | AnyOther => Ok st          (* an error is logged *)
  | AnyInt prio =>
      let top := i32 (u64 (Z.of_nat (length prio_workers) - 1)) in
      let prio := if top <? prio then top else prio in
      prio ← (if prio <? 0 then Fault OutOfBounds else descend prio_workers (S (Z.to_nat prio)));
      if prio =? -1 then Ok st
      else
        ws ← of_option OutOfBounds (prio_workers !! Z.to_nat prio);
        let i := mt19937RandomGen call 0 (u64 (Z.of_nat (length ws) - 1)) in
        p ← of_option OutOfBounds (ws !! Z.to_nat i);
        hand p executor st
  end.

(** ** Handing a task over *)

Definition room (n : Z) (l : list address) (st : store) : Prop :=
  ∀ p, p ∈ l → ∃ m, st !! p = Some m ∧ n <= sink_room m.

Definition tasks_of (p : address) (st : store) : list (option eid) :=
  match st !! p with Some m => sink_tasks m | None => [] end.

Lemma hand_ok n p e l st :
  room n l st → p ∈ l → 0 < n →
  ∃ st', hand p e st = Ok st' ∧ room (n - 1) l st' ∧
    (∀ q, tasks_of q st' = (if decide (q = p) then [e] else []) ++ tasks_of q st) ∧
    (∀ q, q ≠ p → st' !! q = st !! q).
Proof.
  intros Hr Hp Hn. destruct (Hr p Hp) as (m & Hm & Hroom).
  destruct (sink_add_ok e m) as (m' & Ha & Ht & Hm'); [lia|].
  exists (<[p := m']> st). unfold hand. rewrite Hm. simpl. rewrite Ha. split; [done|]. split_and!.
  - intros q Hq. destruct (Hr q Hq) as (mq & Hmq & Hrq). destruct (decide (q = p)) as [->|Hne].
    + exists m'. rewrite lookup_insert_eq. split; [done|]. simplify_eq. lia.
    + exists mq. rewrite lookup_insert_ne by done. split; [done|lia].
  - intros q. unfold tasks_of. destruct (decide (q = p)) as [->|Hne].
    + by rewrite lookup_insert_eq, Hm, Ht.
    + by rewrite lookup_insert_ne.
  - intros q Hq. by rewrite lookup_insert_ne.
Qed.

(** ** Round robin *)

(** The tasks that position [k] gets of [es] when the counter is [c]. *)
Fixpoint share (n k c : Z) (es : list (option eid)) : list (option eid) :=
  match es with
  | [] => []
  | e :: es => (if decide (c mod n = k) then [e] else []) ++ share n k (c + 1) es
  end.

Lemma div_step n x : 0 < n → (x + 1) / n = x / n + (if decide ((x + 1) mod n = 0) then 1 else 0).
Proof.
  intros Hn. destruct (decide _) as [Hd|Hd].
  - apply Z.mod_divide in Hd as [q Hq]; [|lia]. rewrite Hq, Z.div_mul by lia.
    replace x with ((q - 1) * n + (n - 1)) by lia. rewrite Z.div_add_l, (Z.div_small (n - 1)) by lia. lia.
  - rewrite Z.add_0_r. pose proof (Z.div_mod (x + 1) n ltac:(lia)). pose proof (Z.mod_pos_bound (x + 1) n Hn).
    apply (Z.div_unique x n _ ((x + 1) mod n - 1)); [lia|]. lia.
Qed.

Lemma share_length n k c es :
  0 <= k < n →
  Z.of_nat (length (share n k c es)) = (c + Z.of_nat (length es) - 1 - k) / n - (c - 1 - k) / n.
Proof.
  intros Hk. revert c. induction es as [|e es IH]; intros c; simpl share; simpl length.
  { replace (c + Z.of_nat 0 - 1 - k) with (c - 1 - k) by lia. lia. }
  rewrite length_app, Nat2Z.inj_add, IH.
  pose proof (div_step n (c - 1 - k) ltac:(lia)) as Hs. replace (c - 1 - k + 1) with (c - k) in Hs by lia.
  replace (c + 1 + Z.of_nat (length es) - 1 - k) with (c + Z.of_nat (S (length es)) - 1 - k) by lia.
  replace (c + 1 - 1 - k) with (c - k) by lia. rewrite Hs.
  assert (Hm : (c - k) mod n = 0 ↔ c mod n = k).
  { rewrite Zminus_mod, (Z.mod_small k) by lia. pose proof (Z.mod_pos_bound c n ltac:(lia)). split.
    - intros Hz. apply Z.mod_divide in Hz as [q Hq]; [|lia]. assert (q = 0) by nia. lia.
    - intros ->. by rewrite Z.sub_diag, Z.mod_0_l by lia. }
  destruct (decide (c mod n = k)), (decide ((c - k) mod n = 0)); simpl length; try tauto; lia.
Qed.

(** Every position gets its fair part. *)
Lemma share_fair n k c es :
  0 <= k < n →
  Z.of_nat (length es) / n <= Z.of_nat (length (share n k c es)) <= Z.of_nat (length es) / n + 1.
Proof.
  intros Hk. rewrite share_length by done. set (L := Z.of_nat (length es)). set (x := c - 1 - k).
  replace (c + L - 1 - k) with (x + L) by lia.
  pose proof (Z.div_mod L n ltac:(lia)) as HL. pose proof (Z.mod_pos_bound L n ltac:(lia)) as HbL.
  pose proof (Z.div_mod x n ltac:(lia)) as Hx. pose proof (Z.mod_pos_bound x n ltac:(lia)) as Hbx.
  pose proof (Z.div_mod (x + L) n ltac:(lia)) as Hy. pose proof (Z.mod_pos_bound (x + L) n ltac:(lia)) as Hby.
  set (a := L / n) in *. set (b := x / n) in *. set (d := (x + L) / n) in *. nia.
Qed.

Lemma sequence_run b es : ∀ c st,
  (0 < threads_ b)%nat → (threads_ b <= length (managers_ b))%nat → NoDup (managers_ b) →
  0 <= c → c + Z.of_nat (length es) < 2 ^ 64 → room (Z.of_nat (length es)) (managers_ b) st →
  ∃ st', ofold (λ e, sequence_schedule e b) es (c, st) = Ok (c + Z.of_nat (length es), st') ∧
    ∀ k p, managers_ b !! k = Some p →
      tasks_of p st' = rev (share (Z.of_nat (threads_ b)) (Z.of_nat k) c es) ++ tasks_of p st.
Proof.
  induction es as [|e es IH]; intros c st Hn Hlen Hnd Hc Hbound Hroom.
  { exists st. simpl. by rewrite Z.add_0_r. }
  cbn [length] in Hbound, Hroom. set (i := Z.to_nat (c mod Z.of_nat (threads_ b))).
  assert (Hi : (i < threads_ b)%nat).
  { pose proof (Z.mod_pos_bound c (Z.of_nat (threads_ b)) ltac:(lia)). lia. }
  destruct (lookup_lt_is_Some_2 (managers_ b) i) as (p & Hp); [lia|].
  destruct (hand_ok (Z.of_nat (S (length es))) p e (managers_ b) st) as (st1 & Hh & Hr1 & Ht1 & _);
    [done|by eapply list_elem_of_lookup_2|lia|].
  assert (H1 : sequence_schedule e b (c, st) = Ok (c + 1, st1)).
  { unfold sequence_schedule. rewrite decide_False by lia. fold i. rewrite Hp. cbn [of_option mbind outcome_bind].
    rewrite Hh. cbn [mbind outcome_bind]. unfold u64. by rewrite Z.mod_small by lia. }
  destruct (IH (c + 1) st1) as (st' & Hs & Ht); try done; [lia|lia| |].
  { by replace (Z.of_nat (length es)) with (Z.of_nat (S (length es)) - 1) by lia. }
  exists st'. split; [cbn [ofold]; rewrite H1; cbn [mbind outcome_bind]; rewrite Hs; cbn [length]; do 2 f_equal; lia|].
  intros k q Hq. rewrite (Ht k q Hq), Ht1. cbn [share]. rewrite rev_app_distr, <- app_assoc. f_equal.
  assert (Heq : q = p ↔ c mod Z.of_nat (threads_ b) = Z.of_nat k).
  { split.
    - intros ->. pose proof (NoDup_lookup _ _ _ _ Hnd Hq Hp) as ->. unfold i.
      pose proof (Z.mod_pos_bound c (Z.of_nat (threads_ b)) ltac:(lia)). lia.
    - intros Hk. assert (k = i) by (unfold i; lia). congruence. }
  destruct (decide (q = p)), (decide (c mod _ = _)); try tauto; done.
Qed.

(** ** Choice by priority *)

Lemma descend_highest ws n : ∀ k l,
  (n <= length ws)%nat → (k < n)%nat → ws !! k = Some l → l ≠ [] →
  (∀ j, (k < j < n)%nat → ws !! j = Some []) → descend ws n = Ok (Z.of_nat k).
Proof.
  induction n as [|n IH]; intros k l Hlen Hk Hl Hne Hup; [lia|]. cbn [descend].
  destruct (decide (k = n)) as [->|].
  - rewrite Hl. simpl. by destruct l.
  - rewrite Hup by lia. simpl. apply (IH k l); try done; try lia. intros j Hj. apply Hup. lia.
Qed.

Lemma descend_none ws n :
  (∀ j, (j < n)%nat → ws !! j = Some []) → descend ws n = Fault OutOfBounds.
Proof.
  induction n as [|n IH]; intros Hup; [done|]. simpl. rewrite Hup by lia. simpl. apply IH.
  intros j Hj. apply Hup. lia.
Qed.

Section Random.
Context {rand : Random}.

Lemma random_pick call (l : list address) :
  l ≠ [] → Z.of_nat (length l) < 2 ^ 64 →
  ∃ p, l !! Z.to_nat (mt19937RandomGen call 0 (u64 (Z.of_nat (length l) - 1))) = Some p ∧ p ∈ l.
Proof.
  intros Hne Hlen. destruct l as [|a l]; [done|]. cbn [length] in *. unfold u64. rewrite Z.mod_small by lia.
  pose proof (mt19937_range call 0 (Z.of_nat (S (length l)) - 1) ltac:(lia)).
  destruct (lookup_lt_is_Some_2 (a :: l)
    (Z.to_nat (mt19937RandomGen call 0 (Z.of_nat (S (length l)) - 1)))) as (p & Hp); [simpl; lia|].
  exists p. split; [done|]. by eapply list_elem_of_lookup_2.
Qed.

Lemma prio_top (ws : list (list address)) :
  (0 < length ws)%nat → Z.of_nat (length ws) < 2 ^ 31 →
  i32 (u64 (Z.of_nat (length ws) - 1)) = Z.of_nat (length ws) - 1.
Proof.
  intros H0 H1. unfold i32, u64, u32. rewrite (Z.mod_small _ (2 ^ 64)) by lia. rewrite Z.mod_small by lia.
  destruct (_ <? _) eqn:E; lia.
Qed.

(** ** Properties *)

(** C34: round robin: scheduling the tasks [es] gives the manager at position
    [k] exactly the tasks whose number is [k] modulo the number of threads, in
    order, and every one of the threads' positions gets the floor of its part or
    one more; managers behind the first [threads_] positions get nothing. *)
Theorem sequence_fair b es c st :
  (0 < threads_ b)%nat → (threads_ b <= length (managers_ b))%nat → NoDup (managers_ b) →
  0 <= c → c + Z.of_nat (length es) < 2 ^ 64 → room (Z.of_nat (length es)) (managers_ b) st →
  ∃ st', ofold (λ e, sequence_schedule e b) es (c, st) = Ok (c + Z.of_nat (length es), st') ∧
    ∀ k p, managers_ b !! k = Some p →
      ∃ l, tasks_of p st' = rev l ++ tasks_of p st ∧
        l = share (Z.of_nat (threads_ b)) (Z.of_nat k) c es ∧
        ((k < threads_ b)%nat →
           Z.of_nat (length es) / Z.of_nat (threads_ b) <= Z.of_nat (length l) <=
             Z.of_nat (length es) / Z.of_nat (threads_ b) + 1) ∧
        ((threads_ b <= k)%nat → l = []).
Proof.
  intros Hn Hlen Hnd Hc Hb Hr. destruct (sequence_run b es c st) as (st' & Hs & Ht); try done.
  exists st'. split; [done|]. intros k p Hp. eexists. split; [by apply Ht|]. split; [done|]. split.
  - intros Hk. apply share_fair. lia.
  - intros Hk. clear -Hk Hn. revert c. induction es as [|e es IH]; intros c; [done|]. simpl.
    rewrite decide_False; [by rewrite IH|]. pose proof (Z.mod_pos_bound c (Z.of_nat (threads_ b)) ltac:(lia)). lia.
Qed.

(** C35: a task of priority [prio] goes to one of the managers of the highest
    priority that is not above [prio] (nor above the highest known) and has any
    manager; every other manager is left alone; and an argument that is no int
    changes nothing. *)
Theorem prio_selects call e prio ws st k l :
  Z.of_nat (length ws) < 2 ^ 31 → Z.of_nat k <= prio → ws !! k = Some l → l ≠ [] →
  Z.of_nat (length l) < 2 ^ 64 →
  (∀ j l', Z.of_nat j <= prio → (k < j)%nat → ws !! j = Some l' → l' = []) →
  room 1 l st →
  (∃ p st', prio_schedule call e (AnyInt prio) ws st = Ok st' ∧ p ∈ l ∧
     tasks_of p st' = e :: tasks_of p st ∧ ∀ q, q ≠ p → st' !! q = st !! q) ∧
  prio_schedule call e AnyOther ws st = Ok st.
Proof.
  intros Hlen Hk Hl Hne Hll Hup Hroom. split; [|done]. pose proof (lookup_lt_Some _ _ _ Hl) as Hkl.
  unfold prio_schedule. rewrite prio_top by lia. cbv zeta.
  set (pr := if _ <? prio then _ else prio).
  assert (Hpr : Z.of_nat k <= pr <= Z.of_nat (length ws) - 1 ∧ pr <= prio).
  { unfold pr. destruct (_ <? prio) eqn:E; lia. }
  rewrite (proj2 (Z.ltb_ge pr 0)) by lia.
  rewrite (descend_highest ws _ k l); try done; try lia.
  2:{ intros j Hj. destruct (lookup_lt_is_Some_2 ws j) as (l' & Hl'); [lia|].
      by rewrite Hl', (Hup j l') by (done || lia). }
  cbn [mbind outcome_bind]. rewrite (proj2 (Z.eqb_neq _ (-1))) by lia. rewrite Nat2Z.id, Hl.
  cbn [of_option mbind outcome_bind]. destruct (random_pick call l Hne Hll) as (p & Hp & Hin). rewrite Hp.
  cbn [of_option mbind outcome_bind].
  destruct (hand_ok 1 p e l st Hroom Hin ltac:(lia)) as (st' & Hh & _ & Ht & Ho).
  exists p, st'. split; [done|]. split; [done|]. split; [|done]. by rewrite Ht, decide_True.
Qed.

(** The random balancer hands the task to one of the threads' managers. *)
Lemma random_selects call e b st :
  (0 < threads_ b)%nat → (threads_ b <= length (managers_ b))%nat → Z.of_nat (threads_ b) < 2 ^ 64 →
  room 1 (managers_ b) st →
  ∃ p st', random_schedule call e b st = Ok st' ∧ p ∈ take (threads_ b) (managers_ b) ∧
    tasks_of p st' = e :: tasks_of p st ∧ ∀ q, q ≠ p → st' !! q = st !! q.
Proof.
  intros Hn Hlen Hb Hr. unfold random_schedule.
  destruct (random_pick call (take (threads_ b) (managers_ b))) as (p & Hp & Hin).
  { intros Ht%(f_equal length). rewrite length_take in Ht. simpl in Ht. lia. }
  { rewrite length_take. lia. }
  rewrite length_take, Nat.min_l in Hp by lia.
  pose proof (proj1 (lookup_take_Some _ _ _ _) Hp) as (Hp' & _). rewrite Hp'. cbn [of_option mbind outcome_bind].
  destruct (hand_ok 1 p e (managers_ b) st Hr) as (st' & Hh & _ & Ht & Ho);
    [by eapply list_elem_of_lookup_2|lia|].
  exists p, st'. split; [done|]. split; [done|]. split; [|done]. by rewrite Ht, decide_True.
Qed.
End Random.

(** When no priority up to the requested one has a manager, the loop indexes the
    vector with -1 before it tests the bound. *)
Lemma prio_no_worker {rand : Random} call e prio ws st :
  Z.of_nat (length ws) < 2 ^ 31 → (0 < length ws)%nat →
  (∀ j l', Z.of_nat j <= prio → ws !! j = Some l' → l' = []) →
  prio_schedule call e (AnyInt prio) ws st = Fault OutOfBounds.
Proof.
  intros Hlen H0 Hup. unfold prio_schedule. rewrite prio_top by done. cbv zeta.
  set (pr := if _ <? prio then _ else prio).
  assert (Hpr : pr <= Z.of_nat (length ws) - 1 ∧ pr <= prio).
  { unfold pr. destruct (_ <? prio) eqn:E; lia. }
  destruct (pr <? 0) eqn:E; [done|]. rewrite descend_none; [done|].
  intros j Hj. destruct (lookup_lt_is_Some_2 ws j) as (l' & Hl'); [lia|].
  by rewrite Hl', (Hup j l') by (done || lia).
Qed.

(** Scheduling before the threads have registered their managers reads past the
    vector. *)
Lemma schedule_before_start e n c st :
  (0 < n)%nat → sequence_schedule e (AvgBalancer_new n [] [] None) (c, st) = Fault OutOfBounds.
Proof. intros Hn. unfold sequence_schedule. simpl. by rewrite decide_False by lia. Qed.

(** Without threads the number of the manager is a division by zero. *)
Lemma schedule_no_threads e c st m :
  sequence_schedule e (AvgBalancer_new 0 [] [] (Some m)) (c, st) = Fault DivByZero.
Proof. done. Qed.
End Balancer.

(** ** The IO manager as a sink *)

Section IOManagerSink.
Context {K : Type} `{EpollLaws K}.

Definition io_room (io : @IOManager K) : Z :=
  if decide (pipe_end (kernel_ io) (wakeup_pipe_fd_ io).2 = Some (wakeup_pipe_fd_ io).1)
  then pipe_capacity - Z.of_nat (readable (kernel_ io) (wakeup_pipe_fd_ io).1) else 0.

#[global] Program Instance IOManager_sink : RemoteSink (@IOManager K) := {
  sink_add := addRemoteTask;
  sink_tasks io := remote_tasks_ (scheduler_ io);
  sink_room := io_room
}.
Next Obligation.
  intros e io Hroom. unfold io_room in Hroom. destruct (decide _) as [Hp|]; [|lia].
  destruct (addRemoteTask_ok e io Hp) as (io' & H1 & H2 & _ & H3 & _ & _ & H4 & H5); [lia|].
  exists io'. split; [done|]. split; [done|]. unfold io_room. rewrite H4, H5.
  rewrite !decide_True by done. lia.
Qed.
End IOManagerSink.

Module BalancerEx.
(** Managers that are lists of tasks. *)
#[local] Program Instance list_sink : RemoteSink (list (option eid)) := {
  sink_add e m := Ok (e :: m);
  sink_tasks m := m;
  sink_room m := 100 - Z.of_nat (length m)
}.
Next Obligation. intros e m Hm. exists (e :: m). simpl in *. split_and!; [done|done|lia]. Qed.

Definition st0 : gmap address (list (option eid)) := {[ 1%nat := []; 2%nat := []; 3%nat := [] ]}.
Definition b0 := AvgBalancer_new 2 [1; 2]%nat [] (Some 3%nat).
Import RandomEx.

Lemma st0_room n l : n <= 100 → Forall (λ p, p ∈ [1; 2; 3]%nat) l → room n l st0.
Proof.
  intros Hn Hl p Hp. exists []. rewrite Forall_forall in Hl. specialize (Hl p Hp). split; [|simpl; lia].
  rewrite !elem_of_cons in Hl. destruct Hl as [-> |[-> |[-> |Hl]]]; try reflexivity. by apply elem_of_nil in Hl.
Qed.

Lemma sequence_fair_witness :
  ∃ st', ofold (λ e, sequence_schedule e b0) [Some 7; Some 8; Some 9]%nat (5, st0) = Ok (8, st') ∧
    tasks_of 1%nat st' = [Some 8]%nat ∧ tasks_of 2%nat st' = [Some 9; Some 7]%nat ∧ tasks_of 3%nat st' = [].
Proof.
  destruct (sequence_fair b0 [Some 7; Some 8; Some 9]%nat 5 st0) as (st' & H1 & H2);
    [simpl; lia|simpl; lia|apply (bool_decide_unpack _); reflexivity|lia|simpl; lia| |].
  - apply st0_room; [simpl; lia|apply (bool_decide_unpack _); reflexivity].
  - exists st'. split; [exact H1|].
    destruct (H2 0%nat 1%nat eq_refl) as (l1 & -> & -> & _).
    destruct (H2 1%nat 2%nat eq_refl) as (l2 & -> & -> & _).
    destruct (H2 2%nat 3%nat eq_refl) as (l3 & -> & -> & _). done.
Defined.

Lemma prio_selects_witness :
  ∃ p st', prio_schedule 0%nat (Some 7%nat) (AnyInt 9) [[1]; [2; 3]; []]%nat st0 = Ok st' ∧
    p ∈ [2; 3]%nat ∧ tasks_of p st' = [Some 7%nat].
Proof.
  destruct prio_selects with (call := 0%nat) (e := Some 7%nat) (prio := 9) (ws := [[1]; [2; 3]; []]%nat)
    (st := st0) (k := 1%nat) (l := [2; 3]%nat) as ((p & st' & H1 & H2 & H3 & _) & _).
  - simpl. lia.
  - lia.
  - reflexivity.
  - done.
  - simpl. lia.
  - intros [|[|[|j]]] l' Hj Hk Hl; try lia; simpl in Hl; by simplify_eq.
  - apply st0_room; [lia|apply (bool_decide_unpack _); reflexivity].
  - exists p, st'. split; [exact H1|]. split; [exact H2|]. rewrite H3. 
    rewrite !elem_of_cons in H2. destruct H2 as [-> |[-> |H2]]; try reflexivity. by apply elem_of_nil in H2.
Defined.
End BalancerEx.
