(* ===== verification/Base.v ===== *)
(** * Base headers

    include/base/singleton.h, include/base/expection.h,
    include/base/typedef.h, include/coroutine/blancer.h and src/initer.cpp:
    objects that are made by their first use,
    exceptions with a text, units, the queue of the abstract balancer and the
    initialisation at load time.  The headers of macros and the class that
    forbids copying have no behaviour of their own. *)

From S2P Require Import Prelude Executor Hook.
From stdpp Require Import options.
Set Default Proof Using "Type*".

(** ** Singletons *)

(** [static T instance;] is constructed by the first call; a constructor that
    throws is tried again by the next. *)
Definition Singleton_getInstance {T} (make : outcome T) (instance : option T) : outcome (T * option T) :=
  match instance with
  | Some t => Ok (t, instance)
  | None => t ← make; Ok (t, Some t)
  end.

(** All calls after the first that succeeds give the same object, whatever the
    constructor would do by then. *)
Lemma singleton_unique {T} (make : outcome T) i t i' :
  Singleton_getInstance make i = Ok (t, i') →
  ∀ make', Singleton_getInstance make' i' = Ok (t, i').
Proof.
  destruct i as [x|]; simpl; [intros [= -> <-]; done|]. intros Hm make'.
  apply bind_Ok in Hm as (x & _ & [= -> <-]). done.
Qed.

(** ** Exceptions *)

Record Exception := mkException { what_ : cstr }.

(** [what_.c_str()], read as a C string: up to the first NUL. *)
Fixpoint c_str (s : cstr) : cstr :=
  match s with
  | [] => []
  | c :: s => if decide (c = "000"%char) then [] else c :: c_str s
  end.

Definition what (e : Exception) : cstr := c_str (what_ e).

Lemma what_whole s : "000"%char ∉ s → what (mkException s) = s.
Proof.
  unfold what. simpl. induction s as [|c s IH]; intros Hs; [done|]. simpl.
  rewrite not_elem_of_cons in Hs. destruct Hs as (Hc & Hs). rewrite decide_False by congruence. by rewrite IH.
Qed.

(** ** Units *)

Definition data_K : Z := 1024.
Definition data_M : Z := u32 (data_K * data_K).
Definition data_G : Z := u32 (data_M * data_K).

(** Nothing wraps, and stacks have 64 K. *)
Lemma units : data_M = 2 ^ 20 ∧ data_G = 2 ^ 30 ∧ DefaultStackSize = 64 * data_K.
Proof. done. Qed.

(** ** The abstract balancer *)

Record Blancer := mkBlancer { tasks_ : list coro }.

Definition Blancer_push (task : coro) (b : Blancer) : Blancer := mkBlancer (tasks_ b ++ [task]).
Definition pendingTaskCount (b : Blancer) : nat := length (tasks_ b).

(** Nothing takes a task out again: there is no other operation. *)
Lemma tasks_stay l : ∀ b,
  tasks_ (foldl (λ b t, Blancer_push t b) b l) = tasks_ b ++ l ∧
  pendingTaskCount (foldl (λ b t, Blancer_push t b) b l) = (pendingTaskCount b + length l)%nat.
Proof.
  induction l as [|t l IH]; intros b; cbn [foldl]; [rewrite app_nil_r; split; [done|simpl; lia]|].
  destruct (IH (Blancer_push t b)) as (-> & ->). unfold pendingTaskCount. simpl.
  rewrite length_app, <- app_assoc. simpl. split; [done|lia].
Qed.

(** ** Load time *)

(** [void hook_init();] in the constructor only declares the function. *)
Definition GlobalIniter_new (h : hooks) : hooks := h.

(** So a program starts with the pointers to the original functions null; what
    uses one of them before any hooked call has looked them up crashes, where
    [hook_init] would have found it. *)
Lemma initer_does_nothing dlsym c p :
  dlsym (call_fun c) = Some p →
  call_sys (call_fun c) c (GlobalIniter_new hooks_init) = Fault NullDeref ∧
  ∃ h, call_sys (call_fun c) c (hook_init dlsym hooks_init) = Ok (Original p c, h).
Proof.
  intros Hd. split; [done|]. eexists. unfold call_sys. by rewrite hook_init_table, Hd.
Qed.
