(* ===== verification/Config.v ===== *)
(** * Configuration (include/config.h)

    [JsonConfig] and [YamlConfig] look a dotted key up in a document that was
    loaded before, and remember the defaults of keys that were missing.  The
    documents, nlohmann::json and yaml-cpp, are parameters: a class says how a
    node is indexed and converted, and a text parsed.  [BaseMainConfig]
    (include/base.h) is the configuration every component shares. *)

From S2P Require Import Prelude Text.
From stdpp Require Import options.
Set Default Proof Using "Type*".

(** [ty] are the types a value can be asked for as, [val] the values. *)
Section Config.
Context {ty : Type} `{EqDecision ty} {val : Type}.

(** [std::any] *)
Record any := mkAny { any_type : ty; any_value : val }.

Definition any_cast (T : ty) (a : any) : outcome val :=
  if decide (any_type a = T) then Ok (any_value a) else Throw BadAnyCast.

Notation miss_map := (gmap cstr any).

(** ** Documents *)

(** nlohmann::json: [find] on a value that is no object finds nothing; [get<T>]
    throws [type_error] (here [None]) when the value has another type. *)
Class JsonDoc (J : Type) := {
  json_find : J → cstr → option J;
  json_get : ty → J → option val
}.

(** yaml-cpp: what [operator[]] of a constant node gives.  For a missing key it is
    an invalid node, and indexing or assigning that one throws [InvalidNode];
    indexing a scalar throws [BadSubscript]. *)
Inductive indexed (Y : Type) := Found (n : Y) | Zombie | ScalarIndexed.
#[local] Arguments Found {Y} _.
#[local] Arguments Zombie {Y}.
#[local] Arguments ScalarIndexed {Y}.

(** [as<T>] throws [BadConversion] (here [None]); a node made by the default
    constructor is null. *)
Class YamlDoc (Y : Type) := {
  yaml_index : Y → cstr → indexed Y;
  yaml_null : Y;
  yaml_IsNull : Y → bool;
  yaml_as : ty → Y → option val;
  yaml_null_IsNull : yaml_IsNull yaml_null = true
}.

Record Config (D : Type) := mkConfig { miss_map_ : miss_map; doc_ : D }.
#[local] Arguments mkConfig {D} _ _.
#[local] Arguments miss_map_ {D} _.
#[local] Arguments doc_ {D} _.

Definition dot : ascii := ".".

(** ** JsonConfig *)

Section Json.
Context {J : Type} `{JsonDoc J}.

(** [for (auto& _key : keys)] *)
Fixpoint json_walk (keys : list cstr) (obj : J) : outcome J :=
  match keys with
  | [] => Ok obj
  | _key :: keys =>
      match json_find obj _key with
      | Some o => json_walk keys o
      | None => Throw KeyNotFound
      end
  end.

Definition json_config_get (T : ty) (key : cstr) (c : Config J) : outcome val :=
  match miss_map_ c !! key with
  | Some a => any_cast T a
  | None =>
      keys ← splitStringPiece key [dot];
      obj ← json_walk keys (doc_ c);
      match json_get T obj with
      | Some v => Ok v
      | None => Throw ConvertFailed
      end
  end.
End Json.

(** ** YamlConfig *)

Section Yaml.
Context {Y : Type} `{YamlDoc Y}.

(** [node = node_[k1][k2]...] inside the try block, which catches [InvalidNode]
    and nothing else *)
Fixpoint yaml_path (keys : list cstr) (node : Y) : outcome Y :=
  match keys with
  | [] => Ok node
  | k :: keys =>
      match yaml_index node k with
      | Found n => yaml_path keys n
      | Zombie => Throw KeyNotFound
      | ScalarIndexed => Throw BadSubscript
      end
  end.

Definition yaml_config_get (T : ty) (key : cstr) (c : Config Y) : outcome val :=
  match miss_map_ c !! key with
  | Some a => any_cast T a
  | None =>
      keys ← splitStringPiece key [dot];
      node ← (match keys with
              | [] => Throw KeyNotFound
              | [_] => yaml_path [key] (doc_ c)
              | [_; _] | [_; _; _] | [_; _; _; _] | [_; _; _; _; _] => yaml_path keys (doc_ c)
              | _ => Ok yaml_null
              end);
      if yaml_IsNull node then Throw KeyNotFound
      else match yaml_as T node with
           | Some v => Ok v
           | None => Throw ConvertFailed
           end
  end.
End Yaml.

(** ** getIfExists *)

(** The same code in both classes; [get] is the class's own. *)
Definition getIfExists {D} (get : ty → cstr → Config D → outcome val) (T : ty) (key : cstr)
    (default_value : val) (c : Config D) : outcome (val * Config D) :=
  match get T key c with
  | Ok v => Ok (v, c)
  | Throw KeyNotFound =>
      let c := mkConfig (<[key := mkAny T default_value]> (miss_map_ c)) (doc_ c) in
      a ← of_option OutOfBounds (miss_map_ c !! key);
      v ← any_cast T a;
      Ok (v, c)
  | Throw e => Throw e
  | Fault f => Fault f
  end.

(** ** Loading *)

(** nlohmann::json: [parse] throws [parse_error] (here [None]); a value made by the
    default constructor is null. *)
Class JsonLoad (J : Type) := {
  json_parse : cstr → option J;
  json_null : J
}.

(** yaml-cpp: [YAML::Load] throws a [ParserException] (here [None]). *)
Class YamlLoad (Y : Type) := {
  yaml_load : cstr → option Y
}.

Section Load.
Context {J Y : Type} `{JsonLoad J} `{YamlLoad Y}.
(** The text of a file that can be opened. *)
Variable file : cstr → option cstr.

(** [JsonConfig(String)] *)
Definition JsonConfig_str (s : cstr) : outcome (Config J) :=
  match json_parse s with Some d => Ok (mkConfig ∅ d) | None => Throw ParseError end.

(** The constructor from a file name: a file that cannot be opened reads as empty. *)
Definition JsonConfig_file (filename : cstr) : outcome (Config J) :=
  JsonConfig_str (default [] (file filename)).

(** [JsonConfig()] *)
Definition JsonConfig_default : Config J := mkConfig ∅ json_null.

(** [YamlConfig(String)] *)
Definition YamlConfig_str (s : cstr) : outcome (Config Y) :=
  match yaml_load s with Some d => Ok (mkConfig ∅ d) | None => Throw ParseError end.

(** The constructor from a file name: [LoadFile] throws [BadFile]. *)
Definition YamlConfig_file (filename : cstr) : outcome (Config Y) :=
  match file filename with Some s => YamlConfig_str s | None => Throw ParseError end.

(** [detail::JsonConfigLoader], [detail::YamlConfigLoader] *)
Definition JsonConfigLoader (s : cstr) : outcome (Config J) := JsonConfig_str s.
Definition YamlConfigLoader (s : cstr) : outcome (Config Y) := YamlConfig_str s.

(** The two static objects of [BaseMainConfig::getInstance]. *)
Record main_statics := mkStatics { st_main : option (Config J); st_fallback : option (Config J) }.

Definition statics_init : main_statics := mkStatics None None.

(** Which of the two a pointer refers to. *)
Inductive main_ptr := MainInstance | FallbackInstance.

Definition main_file : cstr := str "conf/main.json".

(** A static object whose constructor throws is constructed again by the next
    call. *)
Definition getInstance (st : main_statics) : outcome (main_ptr * main_statics) :=
  match st_main st with
  | Some _ => Ok (MainInstance, st)
  | None =>
      match JsonConfig_file main_file with
      | Ok c => Ok (MainInstance, mkStatics (Some c) (st_fallback st))
      | Throw _ =>
          Ok (FallbackInstance, mkStatics None (Some (default JsonConfig_default (st_fallback st))))
      | Fault f => Fault f
      end
  end.

Definition instance_at (p : main_ptr) (st : main_statics) : option (Config J) :=
  match p with MainInstance => st_main st | FallbackInstance => st_fallback st end.

Definition set_instance (p : main_ptr) (c : Config J) (st : main_statics) : main_statics :=
  match p with
  | MainInstance => mkStatics (Some c) (st_fallback st)
  | FallbackInstance => mkStatics (st_main st) (Some c)
  end.
End Load.

(** ** Correctness *)

(** What [getIfExists] relies on: remembered keys come first, other entries of
    the map do not matter. *)
Class ConfigGet {D} (get : ty → cstr → Config D → outcome val) : Prop := {
  get_missed T key c a : miss_map_ c !! key = Some a → get T key c = any_cast T a;
  get_frame T key c c' :
    miss_map_ c !! key = miss_map_ c' !! key → doc_ c = doc_ c' → get T key c = get T key c';
  get_answers T key c :
    match get T key c with
    | Ok _ | Throw KeyNotFound | Throw ConvertFailed | Throw BadAnyCast | Throw BadSubscript => True
    | _ => False
    end
}.

Lemma split_dot key : ∃ ps, splitStringPiece key [dot] = Ok ps.
Proof. unfold splitStringPiece. rewrite split_loop_ref by lia. by eexists. Qed.

Lemma json_walk_answers {J} `{JsonDoc J} keys : ∀ obj,
  match json_walk keys obj with Ok _ | Throw KeyNotFound => True | _ => False end.
Proof. induction keys as [|k keys IH]; intros obj; simpl; [done|]. destruct (json_find obj k); [apply IH|done]. Qed.

#[global] Instance json_ConfigGet {J} `{JsonDoc J} : ConfigGet (@json_config_get J _).
Proof.
  split; unfold json_config_get.
  - by intros T key c a ->.
  - by intros T key c c' -> ->.
  - intros T key c. destruct (miss_map_ c !! key) as [a|]; [unfold any_cast; by destruct (decide _)|].
    destruct (split_dot key) as (ps & ->). simpl. pose proof (json_walk_answers ps (doc_ c)) as Hw.
    destruct (json_walk ps (doc_ c)) as [o|e|f]; simpl; [by destruct (json_get T o)|by destruct e|done].
Qed.

Lemma yaml_path_answers {Y} `{YamlDoc Y} keys : ∀ node,
  match yaml_path keys node with Ok _ | Throw KeyNotFound | Throw BadSubscript => True | _ => False end.
Proof. induction keys as [|k keys IH]; intros node; simpl; [done|]. destruct (yaml_index node k); [apply IH|done..]. Qed.

#[global] Instance yaml_ConfigGet {Y} `{YamlDoc Y} : ConfigGet (@yaml_config_get Y _).
Proof.
  split; unfold yaml_config_get.
  - by intros T key c a ->.
  - by intros T key c c' -> ->.
  - intros T key c. destruct (miss_map_ c !! key) as [a|]; [unfold any_cast; by destruct (decide _)|].
    destruct (split_dot key) as (ps & ->). cbn [mbind outcome_bind].
    set (n := match ps with [] => _ | _ => _ end).
    assert (Hn : match n with Ok _ | Throw KeyNotFound | Throw BadSubscript => True | _ => False end).
    { unfold n. destruct ps as [|? [|? [|? [|? [|? [|? ?]]]]]]; try done; apply yaml_path_answers. }
    destruct n as [o|e|f]; simpl; [|by destruct e|done].
    destruct (yaml_IsNull o); [done|]. by destruct (yaml_as T o).
Qed.

Section Instance.
Context {J : Type} `{JsonLoad J}.

(** There is always an instance, and as long as the file stays as it is every call
    gives the same one, with what was stored in it. *)
Lemma getInstance_ok file (st : @main_statics J) :
  ∃ p st' c, getInstance file st = Ok (p, st') ∧ instance_at p st' = Some c ∧
    ∀ c', getInstance file (set_instance p c' st') = Ok (p, set_instance p c' st').
Proof using Type*.
  unfold getInstance, JsonConfig_file, JsonConfig_str. destruct st as [[c|] fb]; cbn [st_main st_fallback]; [by eauto 10|].
  destruct (json_parse (default [] (file main_file))) as [d|]; [by eauto 10|].
  do 3 eexists. split; [reflexivity|]. split; [reflexivity|]. by intros c'.
Qed.

(** The first instance holds the file, or null when it cannot be loaded. *)
Lemma getInstance_first file :
  ∃ p st, getInstance file (statics_init (J := J)) = Ok (p, st) ∧
    instance_at p st = Some (mkConfig ∅ (default json_null (json_parse (default [] (file main_file))))).
Proof using Type*.
  unfold getInstance, JsonConfig_file, JsonConfig_str. cbn [statics_init st_main st_fallback].
  destruct (json_parse (default [] (file main_file))); by do 2 eexists.
Qed.

(** Without the file the fallback is empty at first; when the file appears later
    the next call changes over to it. *)
Lemma instance_changes file file' d :
  json_parse (default [] (file main_file)) = None →
  json_parse (default [] (file' main_file)) = Some d →
  ∃ st, getInstance file statics_init = Ok (FallbackInstance, st) ∧ instance_at FallbackInstance st = Some JsonConfig_default ∧
    ∀ c, ∃ st', getInstance file' (set_instance FallbackInstance c st) = Ok (MainInstance, st') ∧
      instance_at MainInstance st' = Some (mkConfig ∅ d).
Proof using Type*.
  intros Hf Hf'. unfold getInstance, JsonConfig_file, JsonConfig_str. cbn [statics_init st_main st_fallback]. rewrite Hf.
  eexists. split; [reflexivity|]. split; [reflexivity|]. intros c. cbn [set_instance st_main st_fallback]. rewrite Hf'. by eexists.
Qed.
End Instance.

Section Defaults.
Context {D : Type} (get : ty → cstr → Config D → outcome val) `{!ConfigGet get}.

Lemma getIfExists_missing T key d c :
  get T key c = Throw KeyNotFound →
  ∃ c', getIfExists get T key d c = Ok (d, c') ∧ doc_ c' = doc_ c ∧
    (∀ d2, getIfExists get T key d2 c' = Ok (d, c')) ∧
    (∀ T' key', key' ≠ key → get T' key' c' = get T' key' c).
Proof.
  intros Hg. set (c' := mkConfig (<[key := mkAny T d]> (miss_map_ c)) (doc_ c)).
  exists c'. unfold getIfExists at 1. rewrite Hg. cbn [miss_map_]. rewrite lookup_insert_eq.
  cbn [of_option mbind outcome_bind]. unfold any_cast. simpl. rewrite decide_True by done. split_and!; try done.
  - intros d2. unfold getIfExists. rewrite (get_missed T key c' (mkAny T d)) by apply lookup_insert_eq.
    unfold any_cast. simpl. by rewrite decide_True.
  - intros T' key' Hne. apply get_frame; [|done]. simpl. by rewrite lookup_insert_ne.
Qed.

(** The default of a missing key is remembered with its type: asking for the
    key as another type fails with an exception the interface does not name. *)
Lemma default_other_type T T' key d c :
  T' ≠ T → get T key c = Throw KeyNotFound →
  ∃ c', getIfExists get T key d c = Ok (d, c') ∧ get T' key c' = Throw BadAnyCast.
Proof.
  intros HT Hg. exists (mkConfig (<[key := mkAny T d]> (miss_map_ c)) (doc_ c)). split.
  - unfold getIfExists. rewrite Hg. simpl. rewrite lookup_insert_eq. simpl. unfold any_cast.
    simpl. by rewrite decide_True.
  - rewrite (get_missed T' key _ (mkAny T d)) by apply lookup_insert_eq. unfold any_cast. simpl.
    by rewrite decide_False.
Qed.
End Defaults.

(** ** Paths *)

Definition json_follow {J} `{JsonDoc J} (path : list cstr) (obj : J) : option J :=
  foldl (λ o k, o ≫= λ o, json_find o k) (Some obj) path.

(** The first key that is missing, or that is asked of a scalar, decides. *)
Definition yaml_follow {Y} `{YamlDoc Y} (path : list cstr) (node : Y) : indexed Y :=
  foldl (λ o k, match o with Found n => yaml_index n k | _ => o end) (Found node) path.

Lemma foldl_bind_None {A B} (f : A → B → option A) l : foldl (λ o k, o ≫= λ o, f o k) None l = None.
Proof. by induction l. Qed.

Lemma json_walk_follow {J} `{JsonDoc J} path : ∀ obj,
  json_walk path obj = match json_follow path obj with Some o => Ok o | None => Throw KeyNotFound end.
Proof.
  induction path as [|k path IH]; intros obj; [done|]. unfold json_follow in *. simpl.
  destruct (json_find obj k); [apply IH|]. by rewrite foldl_bind_None.
Qed.

Lemma yaml_path_follow {Y} `{YamlDoc Y} path : ∀ node,
  yaml_path path node =
    match yaml_follow path node with
    | Found o => Ok o
    | Zombie => Throw KeyNotFound
    | ScalarIndexed => Throw BadSubscript
    end.
Proof.
  induction path as [|k path IH]; intros node; [done|]. unfold yaml_follow in *. simpl.
  destruct (yaml_index node k); [apply IH|clear IH; by induction path..].
Qed.

Definition answer (T : ty) (v : option val) : outcome val :=
  match v with Some v => Ok v | None => Throw ConvertFailed end.

(** Keys as they are written: pieces without dots, the last one not empty. *)
Definition wf_path (path : list cstr) : Prop :=
  path ≠ [] ∧ Forall (λ p, dot ∉ p) path ∧ last path ≠ Some [].

Lemma json_get_path {J} `{JsonDoc J} T path (c : Config J) :
  wf_path path → miss_map_ c !! join [dot] path = None →
  json_config_get T (join [dot] path) c =
    match json_follow path (doc_ c) with Some o => answer T (json_get T o) | None => Throw KeyNotFound end.
Proof.
  intros (_ & Hf & Hl) Hm. unfold json_config_get. rewrite Hm, splitStringPiece_join by done. simpl.
  rewrite json_walk_follow. by destruct (json_follow path (doc_ c)).
Qed.

(** What [YamlConfig::get] makes of a key: [KeyNotFound] beyond five pieces. *)
Definition yaml_answer {Y} `{YamlDoc Y} (T : ty) (path : list cstr) (node : Y) : outcome val :=
  if (5 <? length path)%nat then Throw KeyNotFound
  else match yaml_follow path node with
       | Found o => if yaml_IsNull o then Throw KeyNotFound else answer T (yaml_as T o)
       | Zombie => Throw KeyNotFound
       | ScalarIndexed => Throw BadSubscript
       end.

Lemma yaml_get_path {Y} `{YamlDoc Y} T path (c : Config Y) :
  wf_path path → miss_map_ c !! join [dot] path = None →
  yaml_config_get T (join [dot] path) c = yaml_answer T path (doc_ c).
Proof.
  intros (Hne & Hf & Hl) Hm. unfold yaml_config_get, yaml_answer.
  rewrite Hm, splitStringPiece_join by done. cbn [mbind outcome_bind].
  destruct (Nat.ltb_spec 5 (length path)) as [Hlen|Hlen].
  { destruct path as [|? [|? [|? [|? [|? [|? ?]]]]]]; simpl in Hlen; try lia.
    cbn [mbind outcome_bind]. by rewrite yaml_null_IsNull. }
  assert (Hn : (match path with
                | [] => Throw KeyNotFound
                | [_] => yaml_path [join [dot] path] (doc_ c)
                | [_; _] | [_; _; _] | [_; _; _; _] | [_; _; _; _; _] => yaml_path path (doc_ c)
                | _ => Ok yaml_null
                end) = yaml_path path (doc_ c)).
  { by destruct path as [|? [|? [|? [|? [|? [|? ?]]]]]]; try done; simpl in Hlen; lia. }
  rewrite Hn, yaml_path_follow. by destruct (yaml_follow path (doc_ c)).
Qed.

(** A key of more than five pieces is never found in a YAML document. *)
Lemma yaml_too_deep {Y} `{YamlDoc Y} T path (c : Config Y) :
  wf_path path → miss_map_ c !! join [dot] path = None → (5 < length path)%nat →
  yaml_config_get T (join [dot] path) c = Throw KeyNotFound.
Proof.
  intros Hp Hm Hlen. rewrite yaml_get_path by done. unfold yaml_answer.
  by destruct (Nat.ltb_spec 5 (length path)); [|lia].
Qed.

(** A key that goes through a scalar: the exception of the library leaves [get],
    and [getIfExists] too, whatever the default. *)
Lemma yaml_through_scalar {Y} `{YamlDoc Y} T path d (c : Config Y) :
  wf_path path → miss_map_ c !! join [dot] path = None → (length path <= 5)%nat →
  yaml_follow path (doc_ c) = ScalarIndexed →
  getIfExists yaml_config_get T (join [dot] path) d c = Throw BadSubscript.
Proof.
  intros Hp Hm Hlen Hs. unfold getIfExists. rewrite yaml_get_path by done. unfold yaml_answer.
  destruct (Nat.ltb_spec 5 (length path)); [lia|]. by rewrite Hs.
Qed.

(** ** Properties *)

(** C40: [getIfExists] of both kinds of configuration, for a dotted key that is
    well-formed and was not asked for before: the value at the path when it
    converts, whatever the default; [ConvertFailed] when it does not; and when
    the path does not exist, the default, which later calls keep returning,
    whatever default they pass, while all other keys answer as before.  In a YAML
    document a null value and a path of more than five pieces count as missing,
    and a path through a scalar throws the library's [BadSubscript]. *)
Theorem config_get_or_default {J Y} `{JsonDoc J} `{YamlDoc Y} T path d (cj : Config J) (cy : Config Y) :
  wf_path path → miss_map_ cj !! join [dot] path = None → miss_map_ cy !! join [dot] path = None →
  let key := join [dot] path in
  let missing {D} (get : ty → cstr → Config D → outcome val) (c : Config D) :=
    ∃ c', getIfExists get T key d c = Ok (d, c') ∧ doc_ c' = doc_ c ∧
      (∀ d2, getIfExists get T key d2 c' = Ok (d, c')) ∧
      (∀ T' key', key' ≠ key → get T' key' c' = get T' key' c) in
  (match json_follow path (doc_ cj) with
   | Some o => getIfExists json_config_get T key d cj = v ← answer T (json_get T o); Ok (v, cj)
   | None => missing json_config_get cj
   end) ∧
  (if (5 <? length path)%nat then missing yaml_config_get cy
   else match yaml_follow path (doc_ cy) with
        | Found o =>
            if yaml_IsNull o then missing yaml_config_get cy
            else getIfExists yaml_config_get T key d cy = v ← answer T (yaml_as T o); Ok (v, cy)
        | Zombie => missing yaml_config_get cy
        | ScalarIndexed => getIfExists yaml_config_get T key d cy = Throw BadSubscript
        end).
Proof.
  intros Hp Hj Hy key missing. split.
  - pose proof (json_get_path T path cj Hp Hj) as Hg.
    destruct (json_follow path (doc_ cj)) as [o|]; [|by apply getIfExists_missing; [apply _|]].
    unfold getIfExists. fold key in Hg. rewrite Hg. by destruct (json_get T o).
  - pose proof (yaml_get_path T path cy Hp Hy) as Hg. fold key in Hg. unfold yaml_answer in Hg.
    destruct (5 <? length path)%nat; [by apply getIfExists_missing; [apply _|]|].
    destruct (yaml_follow path (doc_ cy)) as [o| |]; [|by apply getIfExists_missing; [apply _|]|].
    + destruct (yaml_IsNull o); [by apply getIfExists_missing; [apply _|]|].
      unfold getIfExists. rewrite Hg. by destruct (yaml_as T o).
    + unfold getIfExists. by rewrite Hg.
Qed.
End Config.

Module ConfigEx.
(** Documents that are trees of strings; values are asked for as text. *)
Inductive tree := Leaf (s : cstr) | Tree (l : list (cstr * tree)).

Definition tree_find (t : tree) (k : cstr) : option tree :=
  match t with
  | Leaf _ => None
  | Tree l => match list_find (λ p : cstr * tree, p.1 = k) l with Some (_, p) => Some p.2 | None => None end
  end.
Definition tree_get (_ : unit) (t : tree) : option cstr := match t with Leaf s => Some s | Tree _ => None end.

#[local] Instance tree_json : JsonDoc (ty := unit) (val := cstr) tree := { json_find := tree_find; json_get := tree_get }.
#[local] Instance tree_yaml : YamlDoc (ty := unit) (val := cstr) tree := {
  yaml_index t k :=
    match t, tree_find t k with
    | Leaf _, _ => ScalarIndexed _
    | _, Some t => Found _ t
    | _, None => Zombie _
    end;
  yaml_null := Tree [];
  yaml_IsNull t := match t with Tree [] => true | _ => false end;
  yaml_as := tree_get;
  yaml_null_IsNull := eq_refl
}.

Definition doc := Tree [(str "server", Tree [(str "port", Leaf (str "80"))])].
Definition c0 : Config (ty := unit) (val := cstr) tree := mkConfig _ ∅ doc.

Lemma wf_demo p : wf_path [str "server"; p] ↔ dot ∉ p ∧ p ≠ [].
Proof.
  unfold wf_path. rewrite !Forall_cons, Forall_nil. simpl. split; [naive_solver|]. intros (Hp & Hne).
  split_and!; try done; [apply (bool_decide_unpack _); vm_compute; exact I|congruence].
Defined.

Lemma config_get_or_default_witness :
  getIfExists json_config_get tt (str "server.port") (str "1") c0 = Ok (str "80", c0) ∧
  (∃ c', getIfExists yaml_config_get tt (str "server.host") (str "localhost") c0 = Ok (str "localhost", c')) ∧
  getIfExists yaml_config_get tt (str "server.port.tcp") (str "1") c0 = Throw BadSubscript.
Proof.
  split; [|split].
  - destruct (config_get_or_default tt [str "server"; str "port"] (str "1") c0 c0) as (H & _);
      [apply wf_demo; split; [apply (bool_decide_unpack _); vm_compute; exact I|done]|reflexivity|reflexivity|].
    exact H.
  - destruct (config_get_or_default tt [str "server"; str "host"] (str "localhost") c0 c0) as (_ & c' & H & _);
      [apply wf_demo; split; [apply (bool_decide_unpack _); vm_compute; exact I|done]|reflexivity|reflexivity|].
    exists c'. exact H.
  - destruct (config_get_or_default tt [str "server"; str "port"; str "tcp"] (str "1") c0 c0) as (_ & H);
      [|reflexivity|reflexivity|exact H].
    split; [done|]. split; [apply (bool_decide_unpack _); vm_compute; exact I|discriminate].
Defined.
End ConfigEx.
