(* ===== verification/RunnerConfig.v ===== *)
(** * The configuration example (src/runner/runner_config.cpp)

    The two cases that read a configuration file through [YamlConfig] and
    [JsonConfig], with the values they print.  [raw_yaml], [raw2] and the helper
    [get] use yaml-cpp directly, through its mutable nodes, and are left out. *)

From S2P Require Import Prelude Text Print Config.
From stdpp Require Import options.
Set Default Proof Using "Type*".

Section RunnerConfig.
Context {ty : Type} `{EqDecision ty} {val : Type}.
Context {J Y : Type} `{!JsonDoc (ty := ty) (val := val) J} `{!YamlDoc (ty := ty) (val := val) Y}.
Context `{JsonLoad J} `{YamlLoad Y}.
(** The text of files, [std::to_string], the types that are asked for, and 100. *)
Variable file : cstr → option cstr.
Variable to_string : Z → cstr.
Variable int_ vector_int map_string_int : ty.
Variable hundred : val.

Definition port : list cstr := [str "system"; str "port"].
Definition int_vec : list cstr := [str "system"; str "int_vec"].
Definition str_int_map : list cstr := [str "system"; str "str_int_map"].
Definition absent : list cstr := [str "__not_exists_key"].
Definition key_of (path : list cstr) : cstr := join [dot] path.

(** What is written: text of the marker, values in their format. *)
Inductive output := Written (s : cstr) | Value (v : val).

Definition in_case (name : cstr) (body : outcome (list val)) : outcome (list output) :=
  p ← CaseMarker_named name;
  vs ← body;
  Ok (Written p.2 :: (Value <$> vs) ++ [Written (CaseMarker_destroy to_string p.1)]).

Definition yamlConfig : outcome (list output) :=
  in_case (str "yaml-config") (
    config ← YamlConfig_file file (str "conf/test.yml");
    a ← yaml_config_get int_ (key_of port) config;
    b ← yaml_config_get vector_int (key_of int_vec) config;
    p ← getIfExists yaml_config_get int_ (key_of absent) hundred config;
    d ← yaml_config_get int_ (key_of absent) p.2;
    Ok [a; b; p.1; d]).

Definition jsonConfig : outcome (list output) :=
  in_case (str "json-config") (
    config ← JsonConfig_file file (str "conf/test.json");
    a ← json_config_get int_ (key_of port) config;
    b ← json_config_get vector_int (key_of int_vec) config;
    c ← json_config_get map_string_int (key_of str_int_map) config;
    p ← getIfExists json_config_get int_ (key_of absent) hundred config;
    d ← json_config_get int_ (key_of absent) p.2;
    Ok [a; b; c; p.1; d]).

(** ** What they print *)

Lemma paths_wf : wf_path port ∧ wf_path int_vec ∧ wf_path str_int_map ∧ wf_path absent.
Proof using Type.
  split_and!; (split; [done|split; [apply (bool_decide_unpack _); vm_compute; exact I|discriminate]]).
Qed.

(** The default that [getIfExists] has given is what [get] then finds. *)
Lemma default_found {D} (get : ty → cstr → Config D → outcome val) `{!ConfigGet get} T key d c :
  get T key c = Throw KeyNotFound →
  ∃ c', getIfExists get T key d c = Ok (d, c') ∧ get T key c' = Ok d.
Proof using EqDecision0.
  intros Hg. destruct (getIfExists_missing get T key d c Hg) as (c' & H1 & _ & H2 & _). exists c'. split; [done|].
  specialize (H2 d). unfold getIfExists in H2. pose proof (get_answers T key c') as Ha.
  destruct (get T key c') as [v|e|f] eqn:Hv; [by injection H2 as ->| |done].
  destruct e; try done. exfalso. unfold getIfExists in H1. rewrite Hg in H1. simpl in H1. rewrite lookup_insert_eq in H1.
  simpl in H1. unfold any_cast in H1. simpl in H1. rewrite decide_True in H1 by done. simpl in H1. injection H1 as <-.
  rewrite (get_missed T key _ (mkAny T d)) in Hv by apply lookup_insert_eq. unfold any_cast in Hv. simpl in Hv.
  by rewrite decide_True in Hv.
Qed.

Lemma in_case_prints name body vs :
  name ≠ [] → body = Ok vs →
  ∃ start end_, in_case name body = Ok (Written start :: (Value <$> vs) ++ [Written end_]).
Proof using Type. intros Hn ->. destruct name as [|a name]; [done|]. eexists _, _. reflexivity. Qed.

Lemma yamlConfig_prints text d o1 o2 v1 v2 :
  file (str "conf/test.yml") = Some text → yaml_load text = Some d →
  yaml_follow port d = Found _ o1 → yaml_IsNull o1 = false → yaml_as int_ o1 = Some v1 →
  yaml_follow int_vec d = Found _ o2 → yaml_IsNull o2 = false → yaml_as vector_int o2 = Some v2 →
  yaml_follow absent d = Zombie _ →
  ∃ start end_, yamlConfig = Ok (Written start :: (Value <$> [v1; v2; hundred; hundred]) ++ [Written end_]).
Proof.
  intros Hf Hl Hp Hpn Hpv Hi Hin Hiv Ha. destruct paths_wf as (W1 & W2 & _ & W4).
  apply in_case_prints; [done|]. unfold YamlConfig_file, YamlConfig_str. rewrite Hf, Hl.
  cbn [mbind outcome_bind]. set (c := mkConfig Y ∅ d). unfold key_of.
  assert (Hm : ∀ k, miss_map_ Y c !! k = None) by (intros k; apply lookup_empty).
  rewrite (yaml_get_path int_ port c W1 (Hm _)). unfold yaml_answer. simpl doc_. simpl length. rewrite Hp, Hpn, Hpv.
  cbn [mbind outcome_bind answer]. rewrite (yaml_get_path vector_int int_vec c W2 (Hm _)).
  unfold yaml_answer. simpl doc_. simpl length. rewrite Hi, Hin, Hiv. cbn [mbind outcome_bind answer].
  destruct (default_found yaml_config_get int_ (join [dot] absent) hundred c) as (c' & H1 & H2).
  { rewrite (yaml_get_path int_ absent c W4 (Hm _)). unfold yaml_answer. simpl doc_. simpl length. by rewrite Ha. }
  rewrite H1. cbn [mbind outcome_bind fst snd]. by rewrite H2.
Qed.

Lemma jsonConfig_prints text d o1 o2 o3 v1 v2 v3 :
  file (str "conf/test.json") = Some text → json_parse text = Some d →
  json_follow port d = Some o1 → json_get int_ o1 = Some v1 →
  json_follow int_vec d = Some o2 → json_get vector_int o2 = Some v2 →
  json_follow str_int_map d = Some o3 → json_get map_string_int o3 = Some v3 →
  json_follow absent d = None →
  ∃ start end_, jsonConfig = Ok (Written start :: (Value <$> [v1; v2; v3; hundred; hundred]) ++ [Written end_]).
Proof.
  intros Hf Hl Hp Hpv Hi Hiv Hs Hsv Ha. destruct paths_wf as (W1 & W2 & W3 & W4).
  apply in_case_prints; [done|]. unfold JsonConfig_file, JsonConfig_str. rewrite Hf. simpl default. rewrite Hl.
  cbn [mbind outcome_bind]. set (c := mkConfig J ∅ d). unfold key_of.
  assert (Hm : ∀ k, miss_map_ J c !! k = None) by (intros k; apply lookup_empty).
  rewrite (json_get_path int_ port c W1 (Hm _)). simpl doc_. rewrite Hp, Hpv. cbn [mbind outcome_bind answer].
  rewrite (json_get_path vector_int int_vec c W2 (Hm _)). simpl doc_. rewrite Hi, Hiv. cbn [mbind outcome_bind answer].
  rewrite (json_get_path map_string_int str_int_map c W3 (Hm _)). simpl doc_. rewrite Hs, Hsv. cbn [mbind outcome_bind answer].
  destruct (default_found json_config_get int_ (join [dot] absent) hundred c) as (c' & H1 & H2).
  { rewrite (json_get_path int_ absent c W4 (Hm _)). simpl doc_. by rewrite Ha. }
  rewrite H1. cbn [mbind outcome_bind fst snd]. by rewrite H2.
Qed.
End RunnerConfig.
