(* ===== verification/LogConvert.v ===== *)
(** * Configuration converters (include/logging/logger_data_convert.h,
      include/config/yaml_convert_def.h) and the loggers of the main configuration
      (include/base.h, src/logger.cpp)

    The converters read nodes of nlohmann::json and of yaml-cpp, which are
    parameters: the classes [JsonNode] and [YamlNode] have the queries the
    converters make.  [None] is an exception of the library. *)

From S2P Require Import Prelude Text LogStream Pattern Logger LogManager Config.
From stdpp Require Import options.
Set Default Proof Using "Type*".

(** nlohmann::json: [find] (nothing is found in a value that is no object),
    [get<String>], the elements of an array. *)
Class JsonNode (J : Type) := {
  j_find : J → cstr → option J;
  j_string : J → option cstr;
  j_array : J → option (list J)
}.

(** yaml-cpp: [operator[]] of a constant node with a key (a scalar throws; the
    inner [None] is an undefined node) and with an index, [as<String>], the
    elements of a sequence, [size], and the pairs an iterator visits. *)
Class YamlNode (Y : Type) := {
  y_at : Y → cstr → option (option Y);
  y_string : Y → option cstr;
  y_sequence : Y → option (list Y);
  y_size : Y → nat;
  y_index : Y → nat → option Y;
  y_pairs : Y → list (Y * Y)
}.

(** ** JSON *)

Definition default_name_pattern : cstr := str "%H-%p.log".

Section Json.
Context {J : Type} `{JsonNode J}.

Definition from_json_flusher (j : J) (rhs : LogFlusherConfigData) : option LogFlusherConfigData :=
  match j_find j (str "type") with
  | None => Some rhs
  | Some t =>
      type ← j_string t;
      match j_find j (str "pattern") with
      | None => Some (mkFlusherData type default_name_pattern)
      | Some p => pattern ← j_string p; Some (mkFlusherData type pattern)
      end
  end.

(** [get<std::vector<T>>]: every element is converted into a new [T]. *)
Definition get_vector {T} (from_json : J → T → option T) (t0 : T) (j : J) : option (list T) :=
  l ← j_array j; mapM (λ e, from_json e t0) l.

(** A value-initialised [LogFlusherConfigData] and [LogConfigData]. *)
Definition flusher_data_init : LogFlusherConfigData := mkFlusherData [] [].
Definition log_data_init : LogConfigData := mkLogData [] DEBUG [] [].

Definition from_json_item (j : J) (rhs : LogConfigData) : option LogConfigData :=
  match j_find j (str "name") with
  | None => Some rhs
  | Some n =>
      name ← j_string n;
      level ← (match j_find j (str "level") with
               | Some l => levelFromString <$> j_string l
               | None => Some DEBUG
               end);
      formatter ← (match j_find j (str "formatter") with
                   | Some f => j_string f
                   | None => Some (cfg_formatter rhs)
                   end);
      flushers ← (match j_find j (str "flusher") with
                  | Some l => get_vector from_json_flusher flusher_data_init l
                  | None => Some (cfg_flushers rhs)
                  end);
      Some (mkLogData name level formatter flushers)
  end.
End Json.

(** ** YAML *)

Section Yaml.
Context {Y : Type} `{YamlNode Y}.

(** [node.as<T>()]: a conversion that answers false throws. *)
Definition yaml_as_by {T} (decode : Y → T → option (bool * T)) (t0 : T) (node : Y) : option T :=
  p ← decode node t0; if p.1 : bool then Some p.2 else None.

Definition yaml_vector {T} (decode : Y → T → option (bool * T)) (t0 : T) (node : Y) : option (list T) :=
  l ← y_sequence node; mapM (yaml_as_by decode t0) l.

(** The type is stored where the pattern goes, and overwritten there. *)
Definition decode_flusher (node : Y) (rhs : LogFlusherConfigData) : option (bool * LogFlusherConfigData) :=
  t ← y_at node (str "type");
  match t with
  | None => Some (false, rhs)
  | Some t =>
      s ← y_string t;
      let rhs := mkFlusherData (type rhs) s in
      p ← y_at node (str "pattern");
      match p with
      | None => Some (true, mkFlusherData (type rhs) default_name_pattern)
      | Some p => s ← y_string p; Some (true, mkFlusherData (type rhs) s)
      end
  end.

Definition decode_item (node : Y) (rhs : LogConfigData) : option (bool * LogConfigData) :=
  n ← y_at node (str "name");
  match n with
  | None => Some (false, rhs)
  | Some n =>
      name ← y_string n;
      l ← y_at node (str "level");
      level ← (match l with Some l => levelFromString <$> y_string l | None => Some DEBUG end);
      f ← y_at node (str "formatter");
      formatter ← (match f with Some f => y_string f | None => Some (cfg_formatter rhs) end);
      fl ← y_at node (str "flusher");
      flushers ← (match fl with
                  | Some fl => yaml_vector decode_flusher flusher_data_init fl
                  | None => Some (cfg_flushers rhs)
                  end);
      Some (true, mkLogData name level formatter flushers)
  end.

(** [rhs.insert(node[i].as<T>())] *)
Definition set_step {T} `{Countable T} (as_T : Y → option T) (node : Y) (acc : option (gset T)) (i : nat)
    : option (gset T) :=
  rhs ← acc; n ← y_index node i; t ← as_T n; Some ({[t]} ∪ rhs).

(** [convert<std::set<T>>] and [convert<std::unordered_set<T>>] *)
Definition decode_set {T} `{Countable T} (as_T : Y → option T) (node : Y) (rhs : gset T) : option (bool * gset T) :=
  s ← foldl (set_step as_T node) (Some rhs) (seq 0 (y_size node));
  Some (true, s).

(** [convert<std::unordered_map<K, V>>] *)
Definition decode_map {K V} `{Countable K} (as_K : Y → option K) (as_V : Y → option V) (node : Y) (rhs : gmap K V)
    : option (bool * gmap K V) :=
  m ← foldl (λ acc it, rhs ← acc; k ← as_K it.1; v ← as_V it.2; Some (<[k := v]> rhs)) (Some rhs) (y_pairs node);
  Some (true, m).
End Yaml.

(** ** The main configuration *)

Section Main.
Context {J : Type} `{JsonNode J}.

(** The document as [JsonConfig] sees it when it is asked for the loggers. *)
#[local] Instance logs_doc : JsonDoc (ty := unit) (val := list LogConfigData) J := {
  json_find := j_find;
  json_get _ := get_vector from_json_item log_data_init
}.

Variable strftime : cstr → Z → cstr.
Variable host pid : cstr.
Variable now : Z.
Variable file_opens : cstr → bool.

Notation main_config := (Config (ty := unit) (val := list LogConfigData) J).

(** [BaseMainConfig::getInstance()->getIfExists<...>("logs", {})] *)
Definition main_logs (c : main_config) : outcome (list LogConfigData * main_config) :=
  getIfExists json_config_get tt (str "logs") [] c.

(** [_LogManager::_LogManager] with the configuration it reads. *)
Definition LogManager_main (c : main_config) : outcome (LogManager * main_config) :=
  m ← initDefaultLogger strftime host pid now file_opens (mkManager [] None ∅);
  p ← main_logs c;
  m ← initLoggerFromConfig strftime host pid now file_opens p.1 m;
  Ok (m, p.2).

(** The same from the start of the program: the configuration is the instance of
    [BaseMainConfig], and keeps the default it was asked for. *)
Definition LogManager_boot `{!JsonLoad J} (file : cstr → option cstr) (st : main_statics)
    : outcome (LogManager * main_statics) :=
  p ← getInstance file st;
  c ← of_option NullDeref (instance_at p.1 p.2);
  q ← LogManager_main c;
  Ok (q.1, set_instance p.1 q.2 p.2).

Lemma boot_with `{!JsonLoad J} file st p st' c m c' :
  getInstance file st = Ok (p, st') → instance_at p st' = Some c → LogManager_main c = Ok (m, c') →
  LogManager_boot file st = Ok (m, set_instance p c' st').
Proof.
  intros Hg Hi Hm. unfold LogManager_boot. etrans; [apply (bind_step _ _ _ Hg)|].
  etrans; [apply (bind_step _ _ c); by apply (f_equal (of_option NullDeref)) in Hi|].
  exact (bind_step _ _ _ Hm).
Qed.
End Main.

(** ** Documents that describe loggers *)

Definition level_name (l : Level) : cstr := match levelToString l with Ok s => s | _ => [] end.

(** A text stands for the level whose name it is, in any case; [SIZE] stands for
    texts that are no level's name. *)
Definition level_text (s : cstr) (l : Level) : Prop :=
  if decide (l = SIZE) then ∀ k, k ≠ SIZE → map toupper s ≠ level_name k else map toupper s = level_name l.

Lemma level_text_read s l : level_text s l → levelFromString s = l.
Proof.
  unfold level_text, levelFromString. destruct (decide (l = SIZE)) as [->|Hl].
  - intros Hs. repeat rewrite decide_False by (first [exact (Hs DEBUG ltac:(done))|exact (Hs INFO ltac:(done))|
      exact (Hs WARN ltac:(done))|exact (Hs ERROR ltac:(done))|exact (Hs FATAL ltac:(done))]). done.
  - intros ->. by destruct l.
Qed.

Section Described.
Context {J : Type} `{JsonNode J}.

(** A field that may be missing. *)
Definition field {T} (j : J) (key : cstr) (has : J → T → Prop) (missing x : T) : Prop :=
  match j_find j key with Some v => has v x | None => x = missing end.

Definition holds_text (v : J) (s : cstr) : Prop := j_string v = Some s.

(** An object with a type, and a pattern unless it is the default one. *)
Definition flusher_described (j : J) (f : LogFlusherConfigData) : Prop :=
  (∃ t, j_find j (str "type") = Some t ∧ holds_text t (type f)) ∧
  field j (str "pattern") holds_text (str "%H-%p.log") (name_pattern f).

(** An object with a name; a level, DEBUG when it is missing; a pattern and an
    array of flushers, both empty when they are missing. *)
Definition item_described (j : J) (i : LogConfigData) : Prop :=
  (∃ n, j_find j (str "name") = Some n ∧ holds_text n (cfg_name i)) ∧
  field j (str "level") (λ v l, ∃ s, holds_text v s ∧ level_text s l) DEBUG (cfg_level i) ∧
  field j (str "formatter") holds_text [] (cfg_formatter i) ∧
  field j (str "flusher") (λ v l, ∃ js, j_array v = Some js ∧ Forall2 flusher_described js l) [] (cfg_flushers i).

Lemma flusher_read j f rhs : flusher_described j f → from_json_flusher j rhs = Some f.
Proof.
  intros ((t & Ht & Hs) & Hp). unfold from_json_flusher, field, holds_text in *. rewrite Ht. cbn [mbind option_bind].
  rewrite Hs. cbn [mbind option_bind]. destruct (j_find j (str "pattern")); [rewrite Hp|unfold default_name_pattern; rewrite <- Hp];
    by destruct f.
Qed.

Lemma vector_read {T} (from : J → T → option T) (P : J → T → Prop) t0 v js l :
  (∀ j x, P j x → from j t0 = Some x) → j_array v = Some js → Forall2 P js l → get_vector from t0 v = Some l.
Proof.
  intros HP Hv Hl. unfold get_vector. rewrite Hv. cbn [mbind option_bind]. apply mapM_Some.
  eapply Forall2_impl; [exact Hl|]. intros j x. apply HP.
Qed.

Lemma item_read j i : item_described j i → from_json_item j log_data_init = Some i.
Proof.
  intros ((n & Hn & Hs) & Hl & Hf & Hfl). unfold from_json_item, field, holds_text in *. rewrite Hn. cbn [mbind option_bind].
  rewrite Hs. cbn [mbind option_bind].
  assert (Hlv : (match j_find j (str "level") with Some l => levelFromString <$> j_string l | None => Some DEBUG end) =
    Some (cfg_level i)).
  { destruct (j_find j (str "level")); [|by rewrite Hl]. destruct Hl as (s & -> & Ht). simpl. f_equal. by apply level_text_read. }
  rewrite Hlv. cbn [mbind option_bind].
  assert (Hfm : (match j_find j (str "formatter") with Some f => j_string f | None => Some (cfg_formatter log_data_init) end) =
    Some (cfg_formatter i)) by (destruct (j_find j (str "formatter")); [done|by rewrite Hf]).
  rewrite Hfm. cbn [mbind option_bind].
  assert (Hv : (match j_find j (str "flusher") with
                | Some l => get_vector from_json_flusher flusher_data_init l
                | None => Some (cfg_flushers log_data_init)
                end) = Some (cfg_flushers i)).
  { destruct (j_find j (str "flusher")) as [v|]; [|by rewrite Hfl]. destruct Hfl as (js & Hjs & H2).
    eapply vector_read; [|done|done]. intros j' f. apply flusher_read. }
  rewrite Hv. by destruct i.
Qed.

(** An entry without a name is not dropped: it becomes a logger without a name. *)
Lemma nameless_item j : j_find j (str "name") = None → from_json_item j log_data_init = Some log_data_init.
Proof. intros Hj. unfold from_json_item. by rewrite Hj. Qed.

(** ** Properties *)

Variable strftime : cstr → Z → cstr.
Variable host pid : cstr.
Variable now : Z.
Variable file_opens : cstr → bool.

(** The value of "logs" describes the entries; without it there are none. *)
Definition logs_described (d : J) (items : list LogConfigData) : Prop :=
  field d (str "logs") (λ v l, ∃ js, j_array v = Some js ∧ Forall2 item_described js l) [] items.

Lemma main_logs_read items (c : Config (ty := unit) (val := list LogConfigData) J) :
  miss_map_ _ c !! str "logs" = None → logs_described (doc_ _ c) items → ∃ c', main_logs c = Ok (items, c').
Proof.
  intros Hm Hf. unfold logs_described, field in Hf. unfold main_logs, getIfExists, json_config_get. rewrite Hm.
  assert (Hs : splitStringPiece (str "logs") [dot] = Ok [str "logs"]) by (vm_compute; reflexivity).
  rewrite Hs. cbn [mbind outcome_bind json_walk logs_doc json_find].
  destruct (j_find (doc_ _ c) (str "logs")) as [v|].
  - destruct Hf as (js & Hjs & H2).
    change (json_get tt ?j) with (get_vector from_json_item log_data_init j). cbn [mbind outcome_bind].
    rewrite (vector_read from_json_item item_described log_data_init v js items item_read Hjs H2). by eexists.
  - subst items. cbn [miss_map_ doc_]. rewrite lookup_insert_eq. cbn [of_option mbind outcome_bind]. by eexists.
Qed.

(** The manager for the entries a configuration describes. *)
Lemma main_loggers items (c : Config (ty := unit) (val := list LogConfigData) J) :
  opens strftime host pid now file_opens root_file →
  Forall (λ p, wf_item strftime host pid now file_opens p.1 p.2) items →
  miss_map_ _ c !! str "logs" = None → logs_described (doc_ _ c) items.*1 →
  ∃ m c', LogManager_main strftime host pid now file_opens c = Ok (m, c') ∧
    (∀ name, logger_at (getLogger name m) m =
       last_item name items (if decide (name = str "root" ∨ name = str "system") then Some builtin else None)) ∧
    logger_at (getDefault m) m = logger_at (getLogger (str "root") m) m.
Proof.
  intros Ho Hw Hm Hf.
  destruct (log_manager_spec strftime host pid now file_opens items Ho Hw) as (m & Hnew & Hat & Hd).
  destruct (main_logs_read items.*1 c Hm Hf) as (c' & Hlogs). exists m, c'. split; [|by split].
  unfold LogManager_new in Hnew. apply bind_Ok in Hnew as (m0 & G0 & G1).
  unfold LogManager_main. rewrite G0. cbn [mbind outcome_bind]. rewrite Hlogs. cbn [mbind outcome_bind fst snd].
  by rewrite G1.
Qed.


(** The levels that the entries give are not used: every logger has DEBUG. *)
Lemma configured_levels_dropped `{!JsonLoad J} items file d :
  opens strftime host pid now file_opens root_file →
  Forall (λ p, wf_item strftime host pid now file_opens p.1 p.2) items →
  d = default json_null (json_parse (default [] (file main_file))) → logs_described d items.*1 →
  ∃ m st, LogManager_boot strftime host pid now file_opens file statics_init = Ok (m, st) ∧
    ∀ name lg, logger_at (getLogger name m) m = Some lg → level_ lg = DEBUG.
Proof.
  intros Ho Hw Hd Hf. destruct (main_loggers items (mkConfig _ ∅ d) Ho Hw) as (m & c' & Hm & Hat & _); [done..|].
  destruct (getInstance_first (ty := unit) (val := list LogConfigData) file) as (p & st & Hg & Hi).
  exists m, (set_instance p c' st). split; [subst d; by eapply boot_with|]. intros name lg. rewrite Hat.
  assert (Hb : ∀ l, (if decide (name = str "root" ∨ name = str "system") then Some builtin else None) = Some l →
    level_ l = DEBUG) by (intros l; case_decide; [by intros [= <-]|done]).
  revert Hb. generalize (if decide (name = str "root" ∨ name = str "system") then Some builtin else None).
  clear. induction items as [|[i ts] items IH]; intros o Hb Hl; [by apply Hb|]. simpl in Hl. revert Hl. apply IH.
  case_decide; [by intros l [= <-]|done].
Qed.
End Described.

(** ** YAML documents *)

Section YamlThm.
Context {Y : Type} `{YamlNode Y}.

(** A flusher read from YAML has no type: the registry does not know it. *)
Lemma yaml_type_lost (node : Y) r :
  yaml_as_by decode_flusher flusher_data_init node = Some r → type r = [] ∧ known r = false.
Proof.
  intros Hr. assert (Ht : type r = []).
  { unfold yaml_as_by, decode_flusher in Hr.
    destruct (y_at node (str "type")) as [[t|]|]; cbn [mbind option_bind] in Hr; [|discriminate Hr|discriminate Hr].
    destruct (y_string t); cbn [mbind option_bind] in Hr; [|discriminate Hr].
    destruct (y_at node (str "pattern")) as [[q|]|]; cbn [mbind option_bind] in Hr; [| |discriminate Hr].
    - destruct (y_string q); cbn [mbind option_bind fst snd] in Hr; [|discriminate Hr]. by injection Hr as <-.
    - cbn [fst snd] in Hr. by injection Hr as <-. }
  split; [done|]. unfold known. rewrite Ht. vm_compute. reflexivity.
Qed.

(** A sequence is read as the set of its elements. *)
Lemma decode_set_sequence {T} `{Countable T} (as_T : Y → option T) (node : Y) l rhs :
  y_size node = length l → (∀ i, (i < length l)%nat → y_index node i ≫= as_T = l !! i) →
  decode_set as_T node rhs = Some (true, list_to_set l ∪ rhs).
Proof.
  intros Hn Hi. unfold decode_set. rewrite Hn.
  assert (Hf : ∀ k m, (k + m = length l)%nat → ∀ s,
    foldl (set_step as_T node) (Some s) (seq k m) = Some (list_to_set (drop k l) ∪ s)).
  { intros k m. revert k. induction m as [|m IH]; intros k Hk s; cbn [seq foldl].
    - rewrite drop_ge by lia. f_equal. set_solver.
    - destruct (lookup_lt_is_Some_2 l k ltac:(lia)) as [x Hx]. pose proof (Hi k ltac:(lia)) as Hy. rewrite Hx in Hy.
      unfold set_step at 2. destruct (y_index node k) as [n|]; [|done]. simpl in Hy |- *. rewrite Hy. simpl. rewrite IH by lia.
      rewrite (drop_S l x k Hx). f_equal. set_solver. }
  rewrite (Hf 0%nat (length l) eq_refl). done.
Qed.

(** A map is read entry by entry; the last value of a key counts. *)
Lemma decode_map_pairs {K V} `{Countable K} (as_K : Y → option K) (as_V : Y → option V) (node : Y) l rhs :
  mapM (λ it, k ← as_K it.1; v ← as_V it.2; Some (k, v)) (y_pairs node) = Some l →
  decode_map as_K as_V node rhs = Some (true, foldl (λ m kv, <[kv.1 := kv.2]> m) rhs l).
Proof.
  unfold decode_map. revert l rhs. induction (y_pairs node) as [|[a b] ps IH]; intros l rhs Hl.
  { simpl in Hl. by injection Hl as <-. }
  simpl in Hl |- *. destruct (as_K a) as [k|]; [|done]. destruct (as_V b) as [v|]; [|done]. simpl in Hl |- *.
  destruct (mapM _ ps) as [l'|] eqn:Hm; [|done]. simpl in Hl. injection Hl as <-. simpl. by apply IH.
Qed.
End YamlThm.

Module LogConvertEx.
Inductive json := JString (s : cstr) | JArray (l : list json) | JObject (l : list (cstr * json)).

#[local] Instance json_node : JsonNode json := {
  j_find j k := match j with JObject l => (list_to_map l : gmap cstr json) !! k | _ => None end;
  j_string j := match j with JString s => Some s | _ => None end;
  j_array j := match j with JArray l => Some l | _ => None end
}.

(** bin/conf/main.json *)
Definition flushers_doc : json :=
  JArray [JObject [(str "type", JString (str "ProtectedFileFlusher")); (str "pattern", JString (str "./logs/%H-root.log"))];
          JObject [(str "type", JString (str "ProtectedStdoutFlusher"))]].
Definition root_doc : json := JObject [
  (str "name", JString (str "root")); (str "level", JString (str "info"));
  (str "formatter", JString (str "%d{%Y-%m-%d %H:%M:%S}%T%t%T%E%T[%p]%T[%c]%T<%f:%l>%T%m%n"));
  (str "flusher", flushers_doc)].
Definition system_doc : json := JObject [
  (str "name", JString (str "system")); (str "level", JString (str "debug"));
  (str "formatter", JString (str "%d [%c]%T%m%n")); (str "flusher", flushers_doc)].
Definition main_json : json := JObject [(str "logs", JArray [root_doc; system_doc])].

Definition flushers_data : list LogFlusherConfigData :=
  [mkFlusherData (str "ProtectedFileFlusher") (str "./logs/%H-root.log");
   mkFlusherData (str "ProtectedStdoutFlusher") (str "%H-%p.log")].
Definition system_tokens : list token :=
  [TKey (str "d") None; TText (str " ["); TKey (str "c") None; TText (str "]"); TKey (str "T") None;
   TKey (str "m") None; TKey (str "n") None].
Definition items : list (LogConfigData * list token) :=
  [(mkLogData (str "root") INFO default_pattern flushers_data, builtin_tokens);
   (mkLogData (str "system") DEBUG (str "%d [%c]%T%m%n") flushers_data, system_tokens)].

Definition system_logger : Logger :=
  configured (mkLogData (str "system") DEBUG (str "%d [%c]%T%m%n") flushers_data) system_tokens.

(** A parser that knows one text. *)
#[local] Instance json_load : JsonLoad json := {
  json_parse s := if decide (s = str "main.json") then Some main_json else None;
  json_null := JArray []
}.

Lemma flushers_described : field root_doc (str "flusher")
  (λ v l, ∃ js, j_array v = Some js ∧ Forall2 flusher_described js l) [] flushers_data.
Proof.
  eexists. split; [reflexivity|]. constructor; [|constructor; [|constructor]]; (split; [by eexists|reflexivity]).
Qed.

End LogConvertEx.
