(* ===== verification/Socket.v ===== *)
(** * Sockets (include/net/socket.h, src/net/socket.cpp, include/net/socket_opt.h,
      src/net/socket_opt.cpp, include/net/tcp/connection.h, src/net/tcp/connection.cpp)

    [Socket] is a descriptor number with the address it was bound to, copied
    freely; the descriptor itself belongs to the kernel.  The socket calls, as
    the program is linked against them, are the class [NetCalls] over a type of
    states that has the kernel's sockets and, because the program is linked
    against the hooked calls, the descriptor manager [net_fds]; [NetLaws] are
    their documented effects on the table of open sockets.  Only close is the
    system's: [socket_close] goes through the hooked close of
    src/io/co_io_function.cpp, which is written out, because that involves the IO
    manager.  A small network at the end of the file is an instance. *)

From S2P Require Import Prelude Text Address Timer FdManager Sys Executor Scheduler SchedulerInv IOManager.
From stdpp Require Import options.
Set Default Proof Using "Type*".

Definition AF_UNIX := 1.
Definition SOCK_STREAM := 1.
Definition SHUT_WR := 1.
Definition IPPROTO_TCP := 6.
Definition TCP_NODELAY := 1.
Definition SOL_SOCKET := 1.
Definition SO_REUSEADDR := 2.
Definition SO_TYPE := 3.
Definition SO_KEEPALIVE := 9.
Definition SO_REUSEPORT := 15.

(** ** The kernel's sockets *)

Record sock := mkSock {
  s_family : Z;
  s_type : Z;
  s_bound : option SockAddress;
  s_listening : bool;
  s_opts : gmap (Z * Z) Z
}.

(** [struct msghdr] as the wrappers fill it, over zeroes. *)
Record msghdr := mkMsg { msg_name : option SockAddress; msg_iov : list cstr }.

Class NetCalls (N : Type) := {
  net_socket : Z → Z → Z → N → sysres * N;
  net_bind : Z → SockAddress → N → sysres * N;
  net_listen : Z → Z → N → sysres * N;
  (* the address object the peer's address is written to, and as the call leaves it *)
  net_accept : Z → SockAddress → N → (sysres * SockAddress) * N;
  net_connect : Z → SockAddress → N → sysres * N;
  (* [close_sys] *)
  net_close : Z → N → sysres * N;
  net_shutdown : Z → Z → N → sysres * N;
  net_setsockopt : Z → Z → Z → Z → N → sysres * N;
  net_getsockopt : Z → Z → Z → N → (sysres * Z) * N;
  net_send : Z → cstr → Z → N → sysres * N;
  net_sendto : Z → cstr → Z → SockAddress → N → sysres * N;
  net_sendmsg : Z → msghdr → Z → N → sysres * N;
  (* received bytes; for [recvmsg] and [recvfrom] also the sender's address *)
  net_recv : Z → nat → Z → N → (sysres * cstr) * N;
  net_recvfrom : Z → nat → Z → SockAddress → N → (sysres * cstr * SockAddress) * N;
  net_recvmsg : Z → msghdr → Z → N → (sysres * msghdr) * N;
  (* the open sockets *)
  socks : N → gmap Z sock;
  (* the descriptor manager *)
  net_fds : N → FdManager;
  net_set_fds : FdManager → N → N
}.

Definition with_bound (a : SockAddress) (s : sock) : sock :=
  mkSock (s_family s) (s_type s) (Some a) (s_listening s) (s_opts s).
Definition with_listening (s : sock) : sock :=
  mkSock (s_family s) (s_type s) (s_bound s) true (s_opts s).
Definition with_opt (l o v : Z) (s : sock) : sock :=
  mkSock (s_family s) (s_type s) (s_bound s) (s_listening s) (<[(l, o) := v]> (s_opts s)).

(** socket(2), bind(2), listen(2), accept(2), close(2), shutdown(2), setsockopt(2). *)
Class NetLaws (N : Type) `{NetCalls N} := {
  socket_ok d t p n fd n' : net_socket d t p n = (Ret fd, n') →
    0 <= fd ∧ socks n !! fd = None ∧ socks n' = <[fd := mkSock d t None false ∅]> (socks n);
  socket_err d t p n e n' : net_socket d t p n = (Err e, n') → socks n' = socks n;
  bind_ok fd a n r n' : net_bind fd a n = (Ret r, n') → r = 0 ∧ socks n' = alter (with_bound a) fd (socks n);
  bind_err fd a n e n' : net_bind fd a n = (Err e, n') → socks n' = socks n;
  bind_open fd a n r n' : net_bind fd a n = (Ret r, n') → is_Some (socks n !! fd);
  listen_ok fd b n r n' : net_listen fd b n = (Ret r, n') → r = 0 ∧ socks n' = alter with_listening fd (socks n);
  listen_err fd b n e n' : net_listen fd b n = (Err e, n') → socks n' = socks n;
  accept_ok fd a n c a' n' : net_accept fd a n = ((Ret c, a'), n') →
    0 <= c ∧ socks n !! c = None ∧ ∃ s, socks n' = <[c := s]> (socks n);
  close_frees fd n r n' : net_close fd n = (r, n') → socks n' = delete fd (socks n) ∧ net_fds n' = net_fds n;
  shutdown_table fd h n r n' : net_shutdown fd h n = (r, n') → socks n' = socks n ∧ net_fds n' = net_fds n;
  set_fds_table m n : socks (net_set_fds m n) = socks n ∧ net_fds (net_set_fds m n) = m;
  setsockopt_ok fd l o v n r n' :
    net_setsockopt fd l o v n = (Ret r, n') → r = 0 ∧ socks n' = alter (with_opt l o v) fd (socks n);
  setsockopt_err fd l o v n e n' : net_setsockopt fd l o v n = (Err e, n') → socks n' = socks n
}.

(** ** sockopt *)

Section Sockopt.
Context {N : Type} `{NetCalls N}.

(** [LON_ERROR_INVOKE_ASSERT(ret == 0, ...)] and [(ret != -1, ...)] *)
Definition check_zero (p : sysres * N) : outcome N :=
  match p.1 with
  | Ret 0 => Ok p.2
  | _ => Fault AssertFailed
  end.

Definition sockopt_connect (sock_fd : Z) (a : SockAddress) (n : N) : sysres * N := net_connect sock_fd a n.

(** The address object for a family. *)
Definition new_address (family : Z) : outcome SockAddress :=
  if family =? AF_INET then Ok (IPV4Address in_init)
  else if family =? AF_INET6 then Ok (IPV6Address in6_init)
  else if family =? AF_UNIX then Ok un_init
  else Throw InvalidArgument.

Definition sockopt_accept (sock_fd family : Z) (n : N) : outcome (SockAddress * Z * N) :=
  result ← new_address family;
  let '((ret, result), n) := net_accept sock_fd result n in
  match ret with
  | Ret fd => Ok (result, fd, n)
  | Err _ => Fault AssertFailed
  end.

(** The overload without a family asks for SO_TYPE; the two bytes that are read
    are those of the type. *)
Definition sockopt_accept_any (sock_fd : Z) (n : N) : outcome (SockAddress * Z * N) :=
  let '((_, type), n) := net_getsockopt sock_fd SOL_SOCKET SO_TYPE n in
  sockopt_accept sock_fd (u16 type) n.

Definition sockopt_shutdownWrite (sock_fd : Z) (n : N) : outcome N := check_zero (net_shutdown sock_fd SHUT_WR n).

Definition opval (on : bool) : Z := if on then 1 else 0.

Definition sockopt_setTcpNoDelay (sock_fd : Z) (on : bool) (n : N) : outcome N :=
  check_zero (net_setsockopt sock_fd IPPROTO_TCP TCP_NODELAY (opval on) n).
Definition sockopt_setReuseAddr (sock_fd : Z) (on : bool) (n : N) : outcome N :=
  check_zero (net_setsockopt sock_fd SOL_SOCKET SO_REUSEADDR (opval on) n).
Definition sockopt_setReusePort (sock_fd : Z) (on : bool) (n : N) : outcome N :=
  check_zero (net_setsockopt sock_fd SOL_SOCKET SO_REUSEPORT (opval on) n).
Definition sockopt_setKeepAlive (sock_fd : Z) (on : bool) (n : N) : outcome N :=
  check_zero (net_setsockopt sock_fd SOL_SOCKET SO_KEEPALIVE (opval on) n).

Definition sockopt_send (sock_fd : Z) (message : cstr) (flags : Z) (n : N) : sysres * N :=
  net_send sock_fd message flags n.
Definition sockopt_send_iov (sock_fd : Z) (buffers : list cstr) (flags : Z) (n : N) : sysres * N :=
  net_sendmsg sock_fd (mkMsg None buffers) flags n.
Definition sockopt_sendTo (sock_fd : Z) (buffer : cstr) (peer_addr : SockAddress) (flags : Z) (n : N) : sysres * N :=
  net_sendto sock_fd buffer flags peer_addr n.
Definition sockopt_sendTo_iov (sock_fd : Z) (buffers : list cstr) (peer_addr : SockAddress) (flags : Z) (n : N)
    : sysres * N :=
  net_sendmsg sock_fd (mkMsg (Some peer_addr) buffers) flags n.
Definition sockopt_recv (sock_fd : Z) (buffers : list cstr) (flags : Z) (n : N) : (sysres * msghdr) * N :=
  net_recvmsg sock_fd (mkMsg None buffers) flags n.
Definition sockopt_recvFrom (sock_fd : Z) (length : nat) (peer_addr : SockAddress) (flags : Z) (n : N)
    : (sysres * cstr * SockAddress) * N :=
  net_recvfrom sock_fd length flags peer_addr n.
Definition sockopt_recvFrom_iov (sock_fd : Z) (buffers : list cstr) (peer_addr : SockAddress) (flags : Z) (n : N)
    : (sysres * msghdr) * N :=
  net_recvmsg sock_fd (mkMsg (Some peer_addr) buffers) flags n.
End Sockopt.

(** ** Socket and TcpConnection *)

Record Socket := mkSocket { fd_ : Z; local_address : option SockAddress }.

Definition Socket_default : Socket := mkSocket (-1) None.
Definition Socket_of (fd : Z) : Socket := mkSocket fd None.
Definition setFd (fd : Z) (s : Socket) : Socket := mkSocket fd (local_address s).

Record TcpConnection := mkConn {
  connected_ : bool;
  socket_ : Socket;
  peer_addr_ : option SockAddress
}.

Definition TcpConnection_of (s : Socket) (peer : SockAddress) : TcpConnection := mkConn true s (Some peer).

Definition sys_int (r : sysres) : Z := match r with Ret v => v | Err _ => -1 end.

Section Socket.
Context {N : Type} `{NetCalls N}.

Definition Socket_new (domain type protocol : Z) (n : N) : outcome (Socket * N) :=
  let '(r, n) := net_socket domain type protocol n in
  match r with
  | Ret fd => Ok (Socket_of fd, n)
  | Err _ => Throw ExecFailed
  end.

(** The socket remembers the address even when binding fails. *)
Definition socket_bind (local_addr : option SockAddress) (s : Socket) (n : N) : Z * Socket * N :=
  let s := mkSocket (fd_ s) local_addr in
  match local_addr with
  | None => (-1, s, n)
  | Some a => let '(r, n) := net_bind (fd_ s) a n in (sys_int r, s, n)
  end.

Definition socket_listen (backlog : Z) (s : Socket) (n : N) : Z * N :=
  let '(r, n) := net_listen (fd_ s) backlog n in (sys_int r, n).

Definition socket_accept (s : Socket) (n : N) : outcome (option TcpConnection * N) :=
  match local_address s with
  | None => Ok (None, n)
  | Some a =>
      if fd_ s =? -1 then Ok (None, n)
      else
        p ← sockopt_accept (fd_ s) (getFamily a) n;
        let '(peer_addr, accept_fd, n) := p in
        Ok (Some (TcpConnection_of (mkSocket accept_fd (local_address s)) peer_addr), n)
  end.

Definition socket_connect (peer_addr : option SockAddress) (s : Socket) (n : N)
    : outcome (option TcpConnection * N) :=
  if fd_ s =? -1 then Ok (None, n)
  else match peer_addr with
       | None => Ok (None, n)
       | Some a =>
           match net_connect (fd_ s) a n with
           | (Ret _, n) => Ok (Some (TcpConnection_of s a), n)
           | (Err _, _) => Fault AssertFailed
           end
       end.

Definition setTcpNoDelay (on : bool) (s : Socket) (n : N) : outcome N := sockopt_setTcpNoDelay (fd_ s) true n.
Definition setReuseAddr (on : bool) (s : Socket) (n : N) : outcome N := sockopt_setReuseAddr (fd_ s) on n.
Definition setReusePort (on : bool) (s : Socket) (n : N) : outcome N := sockopt_setReusePort (fd_ s) on n.
Definition setKeepAlive (on : bool) (s : Socket) (n : N) : outcome N := sockopt_setKeepAlive (fd_ s) on n.

Definition setOption (level option value : Z) (s : Socket) (n : N) : bool * N :=
  let '(r, n) := net_setsockopt (fd_ s) level option value n in (sys_int r =? 0, n).

(** TcpConnection *)
Definition conn_send (message : cstr) (flags : Z) (c : TcpConnection) (n : N) : sysres * N :=
  sockopt_send (fd_ (socket_ c)) message flags n.
Definition conn_send_iov (buffers : list cstr) (flags : Z) (c : TcpConnection) (n : N) : sysres * N :=
  sockopt_send_iov (fd_ (socket_ c)) buffers flags n.
Definition conn_recv (length : nat) (flags : Z) (c : TcpConnection) (n : N) : (sysres * cstr) * N :=
  net_recv (fd_ (socket_ c)) length flags n.
Definition conn_recv_iov (buffers : list cstr) (flags : Z) (c : TcpConnection) (n : N) : (sysres * msghdr) * N :=
  sockopt_recv (fd_ (socket_ c)) buffers flags n.

(** *** Operations that involve the thread's IO manager *)

Context {K : Type} `{EpollKernel K}.
Variable fuel : nat.

Definition stopRead (s : Socket) (io : @IOManager K) : outcome IOManager := removeEvent fuel (fd_ s) Read io.
Definition stopWrite (s : Socket) (io : @IOManager K) : outcome IOManager := removeEvent fuel (fd_ s) Write io.

Definition socket_shutdownWrite (s : Socket) (n : N) (io : @IOManager K) : outcome (N * IOManager) :=
  n ← sockopt_shutdownWrite (fd_ s) n; io ← stopWrite s io; Ok (n, io).

(** The hooked close. *)
Definition hooked_close (fd : Z) (n : N) (io : @IOManager K) : outcome (sysres * N * IOManager) :=
  h ← hasFd fd (net_fds n);
  p ← (if h : bool then
         io ← removeEvent fuel fd (Z.lor Read Write) io;
         m ← delContext fd (net_fds n); Ok (net_set_fds m n, io)
       else Ok (n, io));
  Ok (net_close fd p.1, p.2).

Definition socket_close (s : Socket) (n : N) (io : @IOManager K) : outcome (Socket * N * IOManager) :=
  p ← hooked_close (fd_ s) n io; Ok (mkSocket (-1) (local_address s), p.1.2, p.2).
End Socket.

(** ** What the wrappers do *)

Section Wrappers.
Context {N : Type} `{NetLaws N}.

(** [accept] without a family takes the socket's type for its family: for a TCP
    socket the peer's address is written to a UNIX address. *)
Lemma accept_any_wrong_family fd n n' r :
  net_getsockopt fd SOL_SOCKET SO_TYPE n = ((r, SOCK_STREAM), n') →
  sockopt_accept_any fd n = sockopt_accept fd AF_UNIX n'.
Proof. intros Hg. unfold sockopt_accept_any. by rewrite Hg. Qed.

(** [Socket::setTcpNoDelay] cannot switch the option off. *)
Lemma setTcpNoDelay_always_on s n : setTcpNoDelay false s n = sockopt_setTcpNoDelay (fd_ s) true n.
Proof. done. Qed.

(** The other options are set as asked, or the assertion fails. *)
Lemma sockopt_set_spec fd on n l o :
  match check_zero (net_setsockopt fd l o (opval on) n) with
  | Ok n' => socks n' = alter (with_opt l o (opval on)) fd (socks n)
  | Throw _ => False
  | Fault f => f = AssertFailed
  end.
Proof.
  unfold check_zero. destruct (net_setsockopt fd l o (opval on) n) as [[r|e] n'] eqn:Hs; simpl; [|done].
  apply setsockopt_ok in Hs as (-> & Hs). done.
Qed.
End Wrappers.

(** ** A small network *)

Module SimpleNet.
(** The open sockets, the peers that are waiting to be accepted, and the
    descriptors the program knows. *)
Record net := mkNet { table : gmap Z sock; peers : list SockAddress; fdm : FdManager }.

Definition known (fd : Z) (m : FdManager) : FdManager :=
  match setContext fd (mkFdContext true true false true size_max size_max) m with
  | Ok m => m
  | _ => m
  end.

Definition on_open (fd : Z) (f : sock → sock) (n : net) : sysres * net :=
  match table n !! fd with
  | Some s => (Ret 0, mkNet (<[fd := f s]> (table n)) (peers n) (fdm n))
  | None => (Err EPERM, n)
  end.

#[export] Instance simple_net : NetCalls net := {
  net_socket d t p n :=
    let fd := next_fd (table n) in (Ret fd, mkNet (<[fd := mkSock d t None false ∅]> (table n)) (peers n) (known fd (fdm n)));
  net_bind fd a := on_open fd (with_bound a);
  net_listen fd b := on_open fd with_listening;
  net_accept fd a n :=
    match peers n with
    | p :: ps => let c := next_fd (table n) in
                 ((Ret c, p), mkNet (<[c := mkSock (getFamily p) SOCK_STREAM None false ∅]> (table n)) ps (known c (fdm n)))
    | [] => ((Err EAGAIN, a), n)
    end;
  net_connect fd a := on_open fd id;
  net_close fd n := (Ret 0, mkNet (delete fd (table n)) (peers n) (fdm n));
  net_shutdown fd h n := (if table n !! fd then Ret 0 else Err EPERM, n);
  net_setsockopt fd l o v := on_open fd (with_opt l o v);
  net_getsockopt fd l o n := ((Ret 0, match table n !! fd with Some s => s_type s | None => 0 end), n);
  net_send fd m f n := (Ret (Z.of_nat (length m)), n);
  net_sendto fd m f a n := (Ret (Z.of_nat (length m)), n);
  net_sendmsg fd m f n := (Ret (Z.of_nat (length (concat (msg_iov m)))), n);
  net_recv fd l f n := ((Ret 0, []), n);
  net_recvfrom fd l f a n := ((Ret 0, [], a), n);
  net_recvmsg fd m f n := ((Ret 0, m), n);
  socks := table;
  net_fds := fdm;
  net_set_fds m n := mkNet (table n) (peers n) m
}.

Lemma on_open_ok fd f n r n' : on_open fd f n = (Ret r, n') → r = 0 ∧ table n' = alter f fd (table n).
Proof.
  unfold on_open. rewrite alter_alt. destruct (table n !! fd); intros [= <- <-]. done.
Qed.

Lemma on_open_err fd f n e n' : on_open fd f n = (Err e, n') → table n' = table n.
Proof. unfold on_open. destruct (table n !! fd); intros [= <- <-]. done. Qed.

#[export] Instance simple_net_laws : NetLaws net.
Proof.
  split; simpl; intros; try (by simplify_eq); try (eapply on_open_ok; eassumption);
    try (eapply on_open_err; eassumption).
  - simplify_eq. split; [apply next_fd_pos|]. split; [apply next_fd_fresh|done].
  - unfold on_open in *. destruct (table n !! fd); by simplify_eq.
  - destruct (peers n); simplify_eq. split; [apply next_fd_pos|]. split; [apply next_fd_fresh|by eexists].
Qed.
End SimpleNet.
