(* ===== verification/WorkBalancer.v ===== *)
(** * The balancer interface (include/balancer/io/balancer.h)

    [IOWorkBalancer] as the TCP server sees it: something that takes every task it
    is given while it has room.  The four balancers of Balancer.v are instances.
    A balancer may also use the scheduler of the calling thread
    ([SimpleIOBalancer] does nothing else). *)

From S2P Require Import Prelude Timer FdManager Sys Executor Scheduler SchedulerInv IOManager IOManagerThm Random Balancer.
From stdpp Require Import options.
Set Default Proof Using "Type*".

Class IOWorkBalancer (B : Type) := {
  schedule : option eid → any → Scheduler → B → outcome (Scheduler * B);
  (* all tasks that are waiting to be run, here or in the balancer's threads *)
  handed : Scheduler → B → list (option eid);
  (* [n] more tasks can be taken *)
  has_room : nat → Scheduler → B → Prop;
  schedule_ok e n s b : has_room (S n) s b →
    ∃ s' b', schedule e (AnyInt 0) s b = Ok (s', b') ∧ has_room n s' b' ∧
      handed s' b' ≡ₚ e :: handed s b ∧ stopping_ s' = stopping_ s ∧
      ∀ x, x ∈ ready_executors_ s → x ∈ ready_executors_ s';
  room_less n s b : has_room (S n) s b → has_room n s b
}.

(** ** SimpleIOBalancer *)

#[export] Program Instance simple_balancer : IOWorkBalancer unit := {
  schedule e _ s b := Ok (simple_schedule e s, b);
  handed s _ := ready_executors_ s;
  has_room _ s _ := stopping_ s = false
}.
Next Obligation.
  intros e n s b Hs. do 2 eexists. split; [done|]. unfold simple_schedule, addExecutor. rewrite Hs. simpl.
  split_and!; try done; [symmetry; apply Permutation_cons_append|].
  intros x Hx. apply elem_of_app. by left.
Qed.
Next Obligation. done. Qed.

(** ** The balancers with threads *)

Section Threads.
Context {M : Type} `{RemoteSink M}.

(** The tasks of a list of managers. *)
Definition tasks_in (l : list address) (st : gmap address M) : list (option eid) := l ≫= λ p, tasks_of p st.

Lemma tasks_in_hand l p e st st' :
  NoDup l → p ∈ l →
  (∀ q, tasks_of q st' = (if decide (q = p) then [e] else []) ++ tasks_of q st) →
  tasks_in l st' ≡ₚ e :: tasks_in l st.
Proof.
  intros Hnd Hp Ht. unfold tasks_in. induction l as [|q l IH]; [by apply elem_of_nil in Hp|].
  apply NoDup_cons in Hnd as [Hq Hnd]. cbn [mbind list_bind]. rewrite Ht.
  destruct (decide (q = p)) as [->|Hne].
  - cbn [app]. constructor. f_equiv. assert (Heq : (l ≫= λ q, tasks_of q st') = (l ≫= λ q, tasks_of q st)); [|by rewrite Heq].
    clear IH Hnd Hp. induction l as [|r l IHl]; [done|]. cbn [mbind list_bind]. apply not_elem_of_cons in Hq as [Hr Hq].
    rewrite Ht, decide_False by congruence. cbn [app]. f_equal. by apply IHl.
  - apply elem_of_cons in Hp as [->|Hp]; [done|]. cbn [app]. rewrite IH by done.
    by rewrite <- Permutation_middle.
Qed.

(** Managers that take [n] more tasks, none of them listed twice. *)
Definition staffed (n : nat) (l : list address) (st : gmap address M) : Prop :=
  NoDup l ∧ room (Z.of_nat n) l st.

Lemma staffed_less n l st : staffed (S n) l st → staffed n l st.
Proof. intros [Hnd Hr]. split; [done|]. intros p Hp. destruct (Hr p Hp) as (m & Hm & Hle). exists m. split; [done|lia]. Qed.

Lemma hand_staffed n l p e st :
  staffed (S n) l st → p ∈ l →
  ∃ st', hand p e st = Ok st' ∧ staffed n l st' ∧ tasks_in l st' ≡ₚ e :: tasks_in l st.
Proof.
  intros [Hnd Hr] Hp. destruct (hand_ok (Z.of_nat (S n)) p e l st Hr Hp ltac:(lia)) as (st' & Hh & Hr' & Ht & _).
  exists st'. split; [done|]. split; [|by eapply tasks_in_hand].
  split; [done|]. by replace (Z.of_nat n) with (Z.of_nat (S n) - 1) by lia.
Qed.

(** SequenceIOBalancer, with its static counter and the managers. *)
Record seq_balancer := mkSeq { sq_avg : AvgBalancer; sq_count : Z; sq_store : gmap address M }.

Definition seq_staffed (n : nat) (b : seq_balancer) : Prop :=
  (0 < threads_ (sq_avg b) <= length (managers_ (sq_avg b)))%nat ∧ 0 <= sq_count b ∧
  staffed n (managers_ (sq_avg b)) (sq_store b).

#[export] Program Instance sequence_balancer : IOWorkBalancer seq_balancer := {
  schedule e _ s b :=
    p ← sequence_schedule e (sq_avg b) (sq_count b, sq_store b);
    Ok (s, mkSeq (sq_avg b) p.1 p.2);
  handed s b := ready_executors_ s ++ tasks_in (managers_ (sq_avg b)) (sq_store b);
  has_room n _ b := seq_staffed n b
}.
Next Obligation.
  intros e n s [a c st] (Hn & Hc & Hs). cbn [sq_avg sq_count sq_store] in *. unfold sequence_schedule.
  rewrite decide_False by lia. set (i := Z.to_nat (c mod Z.of_nat (threads_ a))).
  assert (Hi : (i < length (managers_ a))%nat).
  { pose proof (Z.mod_pos_bound c (Z.of_nat (threads_ a)) ltac:(lia)). lia. }
  destruct (lookup_lt_is_Some_2 _ _ Hi) as (p & Hp). rewrite Hp. cbn [of_option mbind outcome_bind].
  destruct (hand_staffed n (managers_ a) p e st Hs) as (st' & Hh & Hs' & Ht); [by eapply list_elem_of_lookup_2|].
  rewrite Hh. cbn [mbind outcome_bind fst snd]. do 2 eexists. split; [done|].
  split; [split; [done|split; [unfold u64; by apply Z.mod_pos_bound|done]]|]. split; [|done].
  cbn [sq_avg sq_store]. rewrite Ht. by rewrite Permutation_middle.
Qed.
Next Obligation. intros n s b (Hn & Hc & Hs). split; [done|]. split; [done|]. by apply staffed_less. Qed.

Section Random.
Context {rand : Random}.

(** RandomIOBalancer, with the number of calls of its generator. *)
Record rnd_balancer := mkRnd { rn_avg : AvgBalancer; rn_calls : nat; rn_store : gmap address M }.

Definition rnd_staffed (n : nat) (b : rnd_balancer) : Prop :=
  (0 < threads_ (rn_avg b) <= length (managers_ (rn_avg b)))%nat ∧ Z.of_nat (threads_ (rn_avg b)) < 2 ^ 64 ∧
  staffed n (managers_ (rn_avg b)) (rn_store b).

Program Definition random_balancer : IOWorkBalancer rnd_balancer := {|
  schedule e _ s b :=
    st ← random_schedule (rn_calls b) e (rn_avg b) (rn_store b);
    Ok (s, mkRnd (rn_avg b) (S (rn_calls b)) st);
  handed s b := ready_executors_ s ++ tasks_in (managers_ (rn_avg b)) (rn_store b);
  has_room n _ b := rnd_staffed n b
|}.
Next Obligation.
  intros e n s [a c st] (Hn & Hc & Hs). cbn [rn_avg rn_calls rn_store] in *. unfold random_schedule.
  set (i := mt19937RandomGen c 0 _).
  assert (Hi : (Z.to_nat i < length (managers_ a))%nat).
  { unfold i, u64. rewrite Z.mod_small by lia.
    pose proof (mt19937_range c 0 (Z.of_nat (threads_ a) - 1) ltac:(lia)). lia. }
  destruct (lookup_lt_is_Some_2 _ _ Hi) as (p & Hp). rewrite Hp. cbn [of_option mbind outcome_bind].
  destruct (hand_staffed n (managers_ a) p e st Hs) as (st' & Hh & Hs' & Ht); [by eapply list_elem_of_lookup_2|].
  rewrite Hh. cbn [mbind outcome_bind]. do 2 eexists. split; [done|]. split; [by split|]. split; [|done].
  cbn [rn_avg rn_store]. rewrite Ht. by rewrite Permutation_middle.
Qed.
Next Obligation. intros n s b (Hn & Hc & Hs). split; [done|]. split; [done|]. by apply staffed_less. Qed.

(** PrioBlancer; the server asks for priority 0. *)
Record pri_balancer := mkPri { pr_workers : list (list address); pr_calls : nat; pr_store : gmap address M }.

Definition pri_staffed (n : nat) (b : pri_balancer) : Prop :=
  ∃ l ls, pr_workers b = l :: ls ∧ l ≠ [] ∧ Z.of_nat (length l) < 2 ^ 64 ∧
    Z.of_nat (length (pr_workers b)) < 2 ^ 31 ∧ staffed n l (pr_store b).

Program Definition prio_balancer : IOWorkBalancer pri_balancer := {|
  schedule e arg s b :=
    st ← prio_schedule (pr_calls b) e arg (pr_workers b) (pr_store b);
    Ok (s, mkPri (pr_workers b) (S (pr_calls b)) st);
  handed s b := ready_executors_ s ++ tasks_in (hd [] (pr_workers b)) (pr_store b);
  has_room n _ b := pri_staffed n b
|}.
Next Obligation.
  intros e n s [ws c st] (l & ls & Hw & Hne & Hl & Hws & Hs). cbn [pr_workers pr_calls pr_store] in *. subst ws.
  unfold prio_schedule. rewrite prio_top by (done || simpl; lia). cbv zeta.
  rewrite (proj2 (Z.ltb_ge (Z.of_nat (length (l :: ls)) - 1) 0)) by (simpl length; lia).
  cbn [Z.ltb Z.compare]. change (Z.to_nat 0) with 0%nat.
  rewrite (descend_highest (l :: ls) 1 0 l); try done; [|simpl; lia|lia|lia].
  cbn [mbind outcome_bind]. change (Z.of_nat 0 =? -1) with false. cbv iota. change (Z.to_nat (Z.of_nat 0)) with 0%nat.
  cbn [lookup list_lookup of_option mbind outcome_bind].
  destruct (random_pick c l Hne Hl) as (p & Hp & Hin). rewrite Hp.
  cbn [of_option mbind outcome_bind].
  destruct (hand_staffed n l p e st Hs Hin) as (st' & Hh & Hs' & Ht). rewrite Hh. cbn [mbind outcome_bind].
  do 2 eexists. split; [done|]. split; [by exists l, ls|]. split; [|done].
  cbn [pr_workers pr_store hd]. rewrite Ht. by rewrite Permutation_middle.
Qed.
Next Obligation.
  intros n s b (l & ls & Hw & Hne & Hl & Hws & Hs). exists l, ls. split_and!; try done. by apply staffed_less.
Qed.
End Random.
End Threads.
