(* ===== verification/TcpServer.v ===== *)
(** * The TCP server (include/net/tcp/tcp_server.h, src/net/tcp/tcp_server.cpp)

    A server owns listening sockets.  [startServe] creates one coroutine per
    socket that accepts connections and hands each to the balancer; [stopServe]
    creates one that closes the sockets.  The coroutines the server creates are
    numbered, [w_jobs] says what each of them runs; the accepting coroutine is
    given turn by turn ([accept_turn]), since other coroutines run while it
    waits in [accept].  The sockets' part and the epoll part of the kernel's
    state are kept apart. *)

From S2P Require Import Prelude Text Address Timer FdManager Sys Executor Scheduler SchedulerInv IOManager.
From S2P Require Import IOManagerThm Balancer Socket WorkBalancer.
From stdpp Require Import options.
Set Default Proof Using "Type*".

Inductive job :=
| AcceptLoop (s : Socket)          (* the socket is captured by value *)
| CloseSockets
| Connection (c : TcpConnection).  (* [on_connection(connection)] *)

Section TcpServer.
Context {N : Type} `{NetCalls N} {K : Type} `{EpollKernel K} {B : Type} `{IOWorkBalancer B}.
Variable fuel : nat.
(** The header's constant. *)
Variable SOMAXCONN : Z.

Record world := mkWorld {
  w_net : N;
  w_io : @IOManager K;
  w_bal : B;                   (* [balancer_] *)
  w_jobs : gmap eid job;
  w_next : eid
}.

Record TcpServer := mkServer {
  serving_ : bool;
  listen_sockets_ : list Socket;
  socket_initer_ : option (Socket → N → Socket * N)
}.

Definition TcpServer_new : TcpServer := mkServer false [] None.

Definition setSocketIniter (f : Socket → N → Socket * N) (srv : TcpServer) : TcpServer :=
  mkServer (serving_ srv) (listen_sockets_ srv) (Some f).

Definition set_net (n : N) (w : world) : world := mkWorld n (w_io w) (w_bal w) (w_jobs w) (w_next w).

(** [IOManager::getThreadLocal()->addExecutor(make_shared<Executor>(...))] *)
Definition spawn (j : job) (w : world) : world :=
  mkWorld (w_net w)
    (set_scheduler (addExecutor (Some (w_next w)) (scheduler_ (w_io w))).2 (w_io w))
    (w_bal w) (<[w_next w := j]> (w_jobs w)) (S (w_next w)).

(** ** Binding *)

Definition bindOne (local_address : option SockAddress) (srv : TcpServer) (n : N)
    : outcome (bool * TcpServer * N) :=
  a ← of_option NullDeref local_address;
  match net_socket (getFamily a) SOCK_STREAM 0 n with
  | (Err _, n) => Ok (false, srv, n)
  | (Ret fd, n) =>
      let '(socket, n) := match socket_initer_ srv with
                          | Some f => f (Socket_of fd) n
                          | None => (Socket_of fd, n)
                          end in
      let '(bind_ret, socket, n) := socket_bind (Some a) socket n in
      if bind_ret =? -1 then Ok (false, srv, n)
      else
        let '(listen_ret, n) := socket_listen SOMAXCONN socket n in
        if listen_ret =? -1 then Ok (false, srv, n)
        else Ok (true, mkServer (serving_ srv) (listen_sockets_ srv ++ [socket]) (socket_initer_ srv), n)
  end.

Definition server_bind (local_address : option SockAddress) (srv : TcpServer) (n : N)
    : outcome (bool * TcpServer * N) :=
  match listen_sockets_ srv with
  | [] => bindOne local_address srv n
  | _ => Ok (false, srv, n)
  end.

(** The loop of the second [bind]: stops at the first address that cannot be
    bound; the list that is returned holds the ones that could. *)
Fixpoint bind_loop (local_addresses : list (option SockAddress)) (acc : list (option SockAddress))
    (srv : TcpServer) (n : N) : outcome (list (option SockAddress) * TcpServer * N) :=
  match local_addresses with
  | [] => Ok (acc, srv, n)
  | a :: rest =>
      p ← bindOne a srv n;
      let '(b, srv, n) := p in
      if b : bool then bind_loop rest (acc ++ [a]) srv n else Ok (acc, srv, n)
  end.

Definition server_bind_all (local_addresses : list (option SockAddress)) (srv : TcpServer) (n : N)
    : outcome (option (list (option SockAddress)) * TcpServer * N) :=
  match listen_sockets_ srv with
  | [] =>
      p ← bind_loop local_addresses [] srv n;
      let '(l, srv, n) := p in
      Ok (match l with [] => None | _ => Some l end, srv, n)
  | _ => Ok (Some local_addresses, srv, n)
  end.

Definition addBindAddr (local_address : option SockAddress) (srv : TcpServer) (n : N)
    : outcome (bool * TcpServer * N) := bindOne local_address srv n.

(** ** Serving *)

Definition startServe (srv : TcpServer) (w : world) : TcpServer * world :=
  if serving_ srv then (srv, w)
  else (mkServer true (listen_sockets_ srv) (socket_initer_ srv),
        foldl (λ w s, spawn (AcceptLoop s) w) w (listen_sockets_ srv)).

Definition stopServe (srv : TcpServer) (w : world) : TcpServer * world :=
  if serving_ srv then (mkServer false (listen_sockets_ srv) (socket_initer_ srv), spawn CloseSockets w)
  else (srv, w).

(** The body of the closing coroutine. *)
Fixpoint close_sockets (l : list Socket) (n : N) (io : @IOManager K) : outcome (list Socket * N * IOManager) :=
  match l with
  | [] => Ok ([], n, io)
  | s :: l =>
      p ← socket_shutdownWrite fuel s n io;
      io ← stopRead fuel s p.2;
      c ← socket_close fuel s p.1 io;
      q ← close_sockets l c.1.2 c.2;
      let '(l, n, io) := q in
      Ok (c.1.1 :: l, n, io)
  end.

Definition run_close (srv : TcpServer) (w : world) : outcome (TcpServer * world) :=
  p ← close_sockets (listen_sockets_ srv) (w_net w) (w_io w);
  let '(l, n, io) := p in
  Ok (mkServer (serving_ srv) l (socket_initer_ srv), mkWorld n io (w_bal w) (w_jobs w) (w_next w)).

(** The default [onAccept]. *)
Definition onAccept (connection : TcpConnection) (w : world) : outcome world :=
  p ← schedule (Some (w_next w)) (AnyInt 0) (scheduler_ (w_io w)) (w_bal w);
  Ok (mkWorld (w_net w) (set_scheduler p.1 (w_io w)) p.2
        (<[w_next w := Connection connection]> (w_jobs w)) (S (w_next w))).

(** One round of the accepting coroutine; [false] when it has left its loop.  The
    warning prints the socket's address. *)
Definition accept_turn (socket : Socket) (srv : TcpServer) (w : world) : outcome (bool * world) :=
  if serving_ srv then
    p ← socket_accept socket (w_net w);
    match p.1 with
    | Some connection => w ← onAccept connection (set_net p.2 w); Ok (true, w)
    | None => _ ← of_option NullDeref (local_address socket); Ok (true, set_net p.2 w)
    end
  else Ok (false, w).

(** The destructor.  While the server is serving it calls [stopServe], whose
    [shared_from_this] throws: no shared pointer is left. *)
Definition TcpServer_destroy (srv : TcpServer) (n : N) (io : @IOManager K) : outcome (N * IOManager) :=
  if serving_ srv then Fault ProcessExit
  else ofold (λ s p, c ← socket_close fuel s p.1 p.2; Ok (c.1.2, c.2)) (listen_sockets_ srv) (n, io).
End TcpServer.
