(* ===== verification/TcpServerThm.v ===== *)
(** * What the TCP server guarantees

    Its listening sockets are distinct, open, bound and listening as long as it
    is not stopped; every accepted connection is handed to the balancer once;
    stopping closes every socket if no coroutine waits for a connection, and
    fails an assertion if one does. *)

From S2P Require Import Prelude Text Address Timer FdManager Sys Executor Scheduler SchedulerInv IOManager.
From S2P Require Import IOManagerThm Balancer Socket WorkBalancer TcpServer.
From stdpp Require Import options.
Set Default Proof Using "Type*".

Section Binding.
Context {N : Type} `{NetLaws N}.
Variable SOMAXCONN : Z.

(** ** The invariant *)

(** An open socket that listens at the address it remembers. *)
Definition listening (n : N) (s : Socket) : Prop :=
  0 <= fd_ s ∧ ∃ k a, local_address s = Some a ∧ socks n !! fd_ s = Some k ∧
    s_bound k = Some a ∧ s_listening k = true.

Record srv_inv (srv : TcpServer (N := N)) (n : N) : Prop := mkSrvInv {
  si_nodup : NoDup (fd_ <$> listen_sockets_ srv);
  si_listening : Forall (listening n) (listen_sockets_ srv)
}.

(** A socket initialiser sets options of the socket it is given. *)
Definition initer_ok (f : Socket → N → Socket * N) : Prop :=
  ∀ s n, (f s n).1 = s ∧
    ∃ g, (∀ k, s_bound (g k) = s_bound k ∧ s_listening (g k) = s_listening k) ∧
      socks (f s n).2 = alter g (fd_ s) (socks n).

Definition server_ok (srv : TcpServer (N := N)) (n : N) : Prop :=
  srv_inv srv n ∧ ∀ f, socket_initer_ srv = Some f → initer_ok f.

Lemma listening_frame n n' s : socks n' !! fd_ s = socks n !! fd_ s → listening n s → listening n' s.
Proof. intros He (Hp & k & a & H1 & H2 & H3 & H4). split; [done|]. exists k, a. by rewrite He. Qed.

(** Nothing changes but the entry of a descriptor that was not open. *)
Lemma srv_inv_frame srv n n' fd :
  srv_inv srv n → socks n !! fd = None → (∀ fd', fd' ≠ fd → socks n' !! fd' = socks n !! fd') → srv_inv srv n'.
Proof.
  intros [Hnd Hl] Hfd Ho. split; [done|]. eapply Forall_impl; [exact Hl|]. intros s Hs.
  eapply listening_frame, Hs. apply Ho. intros He. destruct Hs as (_ & k & a & _ & Hk & _). congruence.
Qed.

Lemma srv_inv_add srv n s :
  srv_inv srv n → listening n s → fd_ s ∉ fd_ <$> listen_sockets_ srv →
  srv_inv (mkServer (serving_ srv) (listen_sockets_ srv ++ [s]) (socket_initer_ srv)) n.
Proof.
  intros [Hnd Hl] Hs Hn. split; simpl.
  - rewrite fmap_app. apply NoDup_app. split; [done|]. split; [|apply NoDup_singleton].
    intros x Hx ->%list_elem_of_singleton. done.
  - apply Forall_app. split; [done|]. by constructor.
Qed.

Lemma srv_inv_fresh srv n fd : srv_inv srv n → socks n !! fd = None → fd ∉ fd_ <$> listen_sockets_ srv.
Proof.
  intros [_ Hl] Hfd (s & -> & Hs)%list_elem_of_fmap. rewrite Forall_forall in Hl.
  destruct (Hl s Hs) as (_ & k & a & _ & Hk & _). congruence.
Qed.

(** ** bindOne *)

(** What binding [a] did: a new listening socket, or nothing to the server. *)
Definition bound_one (a : SockAddress) (b : bool) (srv srv' : TcpServer (N := N)) (n n' : N) : Prop :=
  serving_ srv' = serving_ srv ∧ socket_initer_ srv' = socket_initer_ srv ∧
  (if b then ∃ s, listen_sockets_ srv' = listen_sockets_ srv ++ [s] ∧ local_address s = Some a ∧
               socks n !! fd_ s = None
   else listen_sockets_ srv' = listen_sockets_ srv) ∧
  dom (socks n) ⊆ dom (socks n').

(** The socket after the initialiser. *)
Lemma initer_run srv fd n k :
  (∀ f, socket_initer_ srv = Some f → initer_ok f) → socks n !! fd = Some k →
  ∃ n' k', match socket_initer_ srv with Some f => f (Socket_of fd) n | None => (Socket_of fd, n) end
             = (Socket_of fd, n') ∧
    socks n' = <[fd := k']> (socks n) ∧ s_bound k' = s_bound k ∧ s_listening k' = s_listening k.
Proof.
  intros Hf Hk. destruct (socket_initer_ srv) as [f|].
  - destruct (Hf f eq_refl (Socket_of fd) n) as (H1 & g & Hg & H2).
    exists (f (Socket_of fd) n).2, (g k). destruct (f (Socket_of fd) n) as [s n']. simpl in *. subst s.
    split; [done|]. split; [|apply Hg]. by rewrite H2, alter_alt, Hk.
  - exists n, k. split; [done|]. split; [|done]. by rewrite insert_id.
Qed.

(** A change of the entry of the new descriptor only. *)
Lemma fresh_entry srv n n' fd k :
  srv_inv srv n → socks n !! fd = None → socks n' = <[fd := k]> (socks n) →
  srv_inv srv n' ∧ dom (socks n) ⊆ dom (socks n').
Proof.
  intros Hi Hfd He. split.
  - apply (srv_inv_frame srv n n' fd); [done|done|]. intros fd' Hne. by rewrite He, lookup_insert_ne.
  - rewrite He, dom_insert_L. set_solver.
Qed.

Lemma bindOne_ok a srv n :
  server_ok srv n →
  ∃ b srv' n', bindOne SOMAXCONN (Some a) srv n = Ok (b, srv', n') ∧ server_ok srv' n' ∧
    bound_one a b srv srv' n n'.
Proof.
  intros [Hi Hf]. unfold bindOne. cbn [of_option mbind outcome_bind].
  destruct (net_socket (getFamily a) SOCK_STREAM 0 n) as [[fd|e] n1] eqn:Hs.
  2:{ apply socket_err in Hs. do 3 eexists. split; [reflexivity|]. split.
      - split; [|done]. destruct Hi as [Hnd Hl]. split; [done|]. eapply Forall_impl; [exact Hl|].
        intros s. apply listening_frame. by rewrite Hs.
      - split_and!; try done. by rewrite Hs. }
  apply socket_ok in Hs as (Hpos & Hfree & Hs).
  destruct (initer_run srv fd n1 (mkSock (getFamily a) SOCK_STREAM None false ∅) Hf) as (n2 & k2 & Hrun & Hk2 & Hb2 & Hl2).
  { by rewrite Hs, lookup_insert_eq. }
  rewrite Hrun. rewrite Hs, insert_insert_eq in Hk2. unfold socket_bind. cbn [fd_ Socket_of local_address].
  assert (Hfail : ∀ n' k, socks n' = <[fd := k]> (socks n) → server_ok srv n' ∧ bound_one a false srv srv n n').
  { intros n' k He. destruct (fresh_entry srv n n' fd k Hi Hfree He) as (? & ?).
    split; [by split|]. by split_and!. }
  destruct (net_bind fd a n2) as [[r|e] n3] eqn:Hb.
  2:{ apply bind_err in Hb. do 3 eexists. split; [reflexivity|]. eapply Hfail. by rewrite Hb. }
  apply bind_ok in Hb as (-> & Hb). rewrite Hk2, alter_alt, lookup_insert_eq, insert_insert_eq in Hb.
  cbn [sys_int Z.eqb]. unfold socket_listen. cbn [fd_].
  destruct (net_listen fd SOMAXCONN n3) as [[r|e] n4] eqn:Hl.
  2:{ apply listen_err in Hl. do 3 eexists. split; [reflexivity|]. eapply Hfail. by rewrite Hl. }
  apply listen_ok in Hl as (-> & Hl). rewrite Hb, alter_alt, lookup_insert_eq, insert_insert_eq in Hl.
  cbn [sys_int Z.eqb]. do 3 eexists. split; [reflexivity|].
  destruct (fresh_entry srv n n4 fd _ Hi Hfree Hl) as (Hi4 & Hdom).
  split; [split; [|done]|split_and!; try done; by eexists].
  apply srv_inv_add; [done| |exact (srv_inv_fresh srv n fd Hi Hfree)].
  split; [done|]. do 2 eexists. split; [done|]. cbn [fd_]. rewrite Hl, lookup_insert_eq. done.
Qed.

Lemma bind_loop_ok l : ∀ acc srv n,
  server_ok srv n →
  ∃ k srv' n', bind_loop SOMAXCONN (Some <$> l) acc srv n = Ok (acc ++ (Some <$> take k l), srv', n') ∧
    server_ok srv' n' ∧ serving_ srv' = serving_ srv ∧
    (local_address <$> listen_sockets_ srv') = (local_address <$> listen_sockets_ srv) ++ (Some <$> take k l) ∧
    (k <= length l)%nat ∧
    (∀ a, l !! k = Some a → ∃ n0, bindOne SOMAXCONN (Some a) srv' n0 = Ok (false, srv', n')).
Proof.
  induction l as [|a l IH]; intros acc srv n Hi.
  { exists 0%nat, srv, n. simpl. rewrite !app_nil_r. done. }
  cbn [fmap list_fmap bind_loop]. destruct (bindOne_ok a srv n Hi) as (b & srv1 & n1 & He & Hi1 & Hs & Hin & Hb & _).
  rewrite He. cbn [mbind outcome_bind]. destruct b.
  - destruct (IH (acc ++ [Some a]) srv1 n1 Hi1) as (k & srv' & n' & -> & Hi' & Hs' & Hl' & Hk & Hfail).
    exists (S k), srv', n'. cbn [take fmap list_fmap]. rewrite <- app_assoc. split; [done|]. split; [done|].
    split; [congruence|]. destruct Hb as (s & Hb & Ha & _). rewrite Hl', Hb, fmap_app. cbn [fmap list_fmap].
    split; [by rewrite Ha, <- app_assoc|]. split; [simpl; lia|done].
  - assert (srv1 = srv) as -> by (destruct srv, srv1; simpl in *; congruence).
    exists 0%nat, srv, n1. cbn [take fmap list_fmap]. rewrite !app_nil_r. split_and!; try done; [simpl; lia|].
    intros a' [= <-]. by exists n.
Qed.
End Binding.

(** ** Leaving epoll *)

Section Epoll.
Context {K : Type} `{EpollLaws K}.
Variable fuel : nat.

(** Nothing is registered for the descriptor. *)
Definition idle (io : @IOManager K) (fd : Z) : Prop :=
  ∀ x, at_fd (fd_events_ io) fd = Some x → registered_events x = 0.

(** A coroutine waits for the descriptor to become readable, as in [accept]. *)
Definition waiting (io : @IOManager K) (fd : Z) : Prop :=
  ∃ x, at_fd (fd_events_ io) fd = Some x ∧ registered_events x = Read ∧
    interest (kernel_ io) (epoll_fd_ io) fd ≠ None.

Lemma in_table fd (io : @IOManager K) :
  0 <= fd < 2 ^ 31 → beyond fd io = false → is_Some (at_fd (fd_events_ io) fd).
Proof.
  intros Hr Hb. unfold beyond in Hb. rewrite u64_small in Hb by lia. apply Z.leb_gt in Hb.
  destruct (lookup_lt_is_Some_2 (fd_events_ io) (Z.to_nat fd)) as (x & Hx); [lia|].
  exists x. apply at_fd_Some. split; [lia|done].
Qed.

Lemma removeEvent_absent fd t io :
  0 <= fd < 2 ^ 31 → (∀ x, at_fd (fd_events_ io) fd = Some x → has (registered_events x) t = false) →
  removeEvent fuel fd t io = Ok io.
Proof.
  intros Hr Hx. unfold removeEvent. destruct (beyond fd io) eqn:Hb; [done|].
  destruct (in_table fd io Hr Hb) as (x & Hat). rewrite (fd_event_Ok _ _ _ Hat). cbn [mbind outcome_bind].
  by rewrite (Hx x Hat).
Qed.

Lemma removeEvent_idle fd t io : 0 <= fd < 2 ^ 31 → idle io fd → removeEvent fuel fd t io = Ok io.
Proof. intros Hr Hi. apply removeEvent_absent; [done|]. intros x Hx. by rewrite (Hi x Hx). Qed.

(** The descriptor of a waiting coroutine leaves epoll, but its events stay in
    the table, so that removing both directions afterwards modifies a
    registration that is gone. *)
Lemma removeEvent_twice fd io :
  0 <= fd < 2 ^ 31 → (0 < fuel)%nat → waiting io fd →
  removeEvent fuel fd Write io = Ok io ∧
  ∃ io', removeEvent fuel fd Read io = Ok io' ∧
    removeEvent fuel fd (Z.lor Read Write) io' = Fault AssertFailed.
Proof.
  intros Hr Hf (x & Hx & Hreg & Hin). split.
  { apply removeEvent_absent; [done|]. intros y Hy. rewrite Hx in Hy. injection Hy as <-. by rewrite Hreg. }
  pose proof Hx as (_ & Hlt)%at_fd_Some. apply lookup_lt_Some in Hlt.
  unfold removeEvent at 1, beyond. rewrite u64_small by lia. rewrite (proj2 (Z.leb_gt _ _)) by lia.
  rewrite (fd_event_Ok _ _ _ Hx). cbn [mbind outcome_bind]. rewrite Hreg.
  change (has Read Read) with true. change (u32 (Z.land (Z.lnot Read) Read)) with 0. cbn [negb Z.eqb].
  unfold epollDel. destruct (ctl_del (epoll_fd_ io) fd EPOLLET (kernel_ io) Hin) as (r & Hd & Hgone).
  rewrite (epoll_do_Ret _ _ _ _ _ _ r) by done. cbn [mbind outcome_bind].
  change (has 0 Read) with false. change (has 0 Write) with false. cbv iota.
  set (k := (epoll_ctl _ _ _ _ _).2) in *. rewrite (update_fd_Ok fd _ (set_kernel k io) x Hx). cbn [mbind outcome_bind].
  set (io1 := set_fd_events _ _).
  assert (Hy : at_fd (fd_events_ io1) fd = Some (set_read None (read_call_once x) x)).
  { simpl. rewrite (at_fd_insert _ _ _ _ _ Hx). by rewrite decide_True. }
  rewrite (update_fd_Ok fd _ io1 _ Hy). eexists. split; [reflexivity|]. set (io2 := set_fd_events _ io1).
  eassert (Hz : at_fd (fd_events_ io2) fd = Some _).
  { simpl. rewrite (at_fd_insert _ _ _ _ _ Hy). by rewrite decide_True. }
  pose proof Hz as (_ & Hlt2)%at_fd_Some. apply lookup_lt_Some in Hlt2.
  unfold removeEvent, beyond. rewrite u64_small by lia. rewrite (proj2 (Z.leb_gt _ _)) by lia.
  rewrite (fd_event_Ok _ _ _ Hz). cbn [mbind outcome_bind registered_events set_write set_read]. rewrite Hreg.
  change (has Read (Z.lor Read Write)) with true.
  change (u32 (Z.land (Z.lnot Read) (Z.lor Read Write))) with Write. cbn [negb Z.eqb].
  unfold epollMod. rewrite (epoll_do_Err _ _ _ _ _ _ ENOENT); [done|done| |done].
  by apply ctl_absent.
Qed.
End Epoll.

(** ** Serving *)

Section Serving.
Context {N : Type} `{NetLaws N} {K : Type} `{EpollLaws K} {B : Type} `{IOWorkBalancer B}.
Variable fuel : nat.

Notation world := (@world N K B).
Notation scheduler w := (scheduler_ (w_io w)).

(** [n] coroutines from number [e] on. *)
Definition ids (e : eid) (n : nat) : list (option eid) := Some <$> seq e n.

Lemma spawn_loops l : ∀ (w : world),
  stopping_ (scheduler w) = false →
  let w' := foldl (λ w s, spawn (AcceptLoop s) w) w l in
  w_net w' = w_net w ∧ w_bal w' = w_bal w ∧ w_next w' = (w_next w + length l)%nat ∧
  ready_executors_ (scheduler w') = ready_executors_ (scheduler w) ++ ids (w_next w) (length l) ∧
  (∀ i s, l !! i = Some s → w_jobs w' !! (w_next w + i)%nat = Some (AcceptLoop s)) ∧
  (∀ e, (e < w_next w)%nat → w_jobs w' !! e = w_jobs w !! e) ∧
  stopping_ (scheduler w') = false.
Proof.
  induction l as [|s l IH]; intros w Hs; simpl.
  { rewrite Nat.add_0_r, app_nil_r. done. }
  set (w1 := spawn (AcceptLoop s) w).
  assert (Hsch : scheduler w1 = set_ready (ready_executors_ (scheduler w) ++ [Some (w_next w)]) (scheduler w)).
  { unfold w1, spawn, addExecutor. simpl. by rewrite Hs. }
  destruct (IH w1) as (G1 & G2 & G3 & G4 & G5 & G6 & G7); [by rewrite Hsch|].
  split_and!; try done.
  - rewrite G3. simpl. lia.
  - rewrite G4, Hsch. simpl. by rewrite <- app_assoc.
  - intros [|i] s' Hi; simpl in Hi.
    + simplify_eq. rewrite Nat.add_0_r, G6 by (simpl; lia). apply lookup_insert_eq.
    + specialize (G5 i s' Hi). simpl in G5. by rewrite <- plus_n_Sm.
  - intros e He. rewrite G6 by (simpl; lia). apply lookup_insert_ne. lia.
Qed.

(** [k] connections accepted in a row on [fd]. *)
Fixpoint net_accepts (fd : Z) (obj : SockAddress) (k : nat) (n : N) : option (list (Z * SockAddress) * N) :=
  match k with
  | O => Some ([], n)
  | S k =>
      match net_accept fd obj n with
      | ((Ret c, peer), n) => '(l, n) ← net_accepts fd obj k n; Some ((c, peer) :: l, n)
      | _ => None
      end
  end.

(** [k] rounds of an accepting coroutine. *)
Fixpoint turns (k : nat) (s : Socket) (srv : TcpServer (N := N)) (w : world) : outcome (bool * world) :=
  match k with
  | O => Ok (true, w)
  | S k => p ← accept_turn s srv w; if p.1 : bool then turns k s srv p.2 else Ok p
  end.

Lemma turns_ok s a obj srv k : ∀ (w : world) cs n',
  serving_ srv = true → local_address s = Some a → fd_ s ≠ -1 → new_address (getFamily a) = Ok obj →
  net_accepts (fd_ s) obj k (w_net w) = Some (cs, n') → has_room k (scheduler w) (w_bal w) →
  ∃ w', turns k s srv w = Ok (true, w') ∧ w_net w' = n' ∧ w_next w' = (w_next w + k)%nat ∧
    handed (scheduler w') (w_bal w') ≡ₚ ids (w_next w) k ++ handed (scheduler w) (w_bal w) ∧
    (∀ i c peer, cs !! i = Some (c, peer) →
       w_jobs w' !! (w_next w + i)%nat = Some (Connection (mkConn true (mkSocket c (Some a)) (Some peer)))) ∧
    (∀ e, (e < w_next w)%nat → w_jobs w' !! e = w_jobs w !! e).
Proof.
  induction k as [|k IH]; intros w cs n' Hs Ha Hfd Hobj Hacc Hroom.
  { simpl in Hacc. simplify_eq. exists w. split; [done|]. rewrite Nat.add_0_r. done. }
  simpl in Hacc. destruct (net_accept (fd_ s) obj (w_net w)) as [[[c|e] peer] n1] eqn:Hc; [|done].
  apply bind_Some in Hacc as ([l n2] & Hacc & [= <- <-]).
  destruct (schedule_ok (Some (w_next w)) k (scheduler w) (w_bal w) Hroom) as (s1 & b1 & Hsch & Hr1 & Hh1 & _).
  set (conn := Connection (mkConn true (mkSocket c (Some a)) (Some peer))).
  set (w1 := mkWorld n1 (set_scheduler s1 (w_io w)) b1 (<[w_next w := conn]> (w_jobs w)) (S (w_next w))).
  assert (Hturn : accept_turn s srv w = Ok (true, w1)).
  { unfold accept_turn. rewrite Hs. unfold socket_accept. rewrite Ha.
    rewrite (proj2 (Z.eqb_neq _ _) Hfd). unfold sockopt_accept. rewrite Hobj. cbn [mbind outcome_bind].
    rewrite Hc. cbn [mbind outcome_bind fst snd]. unfold onAccept. cbn [w_next set_net w_io w_bal].
    rewrite Hsch. done. }
  destruct (IH w1 l n2 Hs Ha Hfd Hobj Hacc Hr1) as (w' & Ht & Hn & Hnext & Hh & Hj & Hold).
  exists w'. cbn [turns]. rewrite Hturn. cbn [mbind outcome_bind fst snd]. split; [done|]. split; [done|].
  split; [rewrite Hnext; simpl; lia|]. split; [|split].
  - rewrite Hh. cbn [w_io set_scheduler w1 scheduler_ w_bal w_next]. rewrite Hh1. unfold ids. cbn [seq fmap list_fmap].
    symmetry. apply Permutation_middle.
  - intros [|i] c' peer' Hi; simpl in Hi.
    + simplify_eq. rewrite Nat.add_0_r, Hold by (simpl; lia). apply lookup_insert_eq.
    + rewrite <- plus_n_Sm. by apply (Hj i).
  - intros e He. rewrite Hold by (simpl; lia). apply lookup_insert_ne. lia.
Qed.

(** ** Stopping *)

(** shutdown(2) of the sockets succeeds, though they are not connected. *)
Definition can_shutdown (l : list Socket) : Prop :=
  ∀ s n, s ∈ l → is_Some (socks n !! fd_ s) → (net_shutdown (fd_ s) SHUT_WR n).1 = Ret 0.

(** Closing a socket nobody waits for. *)
Lemma close_idle s n (io : @IOManager K) :
  0 <= fd_ s < 2 ^ 31 → fd_inv (net_fds n) → idle io (fd_ s) →
  ∃ n', socket_close fuel s n io = Ok (mkSocket (-1) (local_address s), n', io) ∧
    socks n' = delete (fd_ s) (socks n) ∧ fd_inv (net_fds n') ∧
    ∀ fd, ctx_of (net_fds n') fd = if decide (fd = fd_ s) then None else ctx_of (net_fds n) fd.
Proof.
  intros Hr Hi Hid. unfold socket_close, hooked_close.
  destruct (getContext_map (fd_ s) (net_fds n) Hi (proj1 Hr)) as (o & _ & Hh & _ & Hn). rewrite Hh.
  destruct o as [q|]; cbn [mbind outcome_bind].
  - rewrite removeEvent_idle by done. cbn [mbind outcome_bind].
    destruct (delContext_map (fd_ s) (net_fds n) Hi (proj1 Hr)) as (m & Hd & Him & Hc). rewrite Hd.
    cbn [mbind outcome_bind fst snd]. destruct (net_close (fd_ s) (net_set_fds m n)) as [r n'] eqn:Hcl.
    apply close_frees in Hcl as (Hs & Hf). destruct (set_fds_table m n) as (G1 & G2).
    exists n'. rewrite Hs, Hf, G1, G2. done.
  - cbn [fst snd]. destruct (net_close (fd_ s) n) as [r n'] eqn:Hcl. apply close_frees in Hcl as (Hs & Hf).
    exists n'. rewrite Hs, Hf. split_and!; try done. intros fd. case_decide as Hfd; [|done]. subst fd. by apply Hn.
Qed.

Lemma close_sockets_ok l : ∀ n (io : @IOManager K),
  NoDup (fd_ <$> l) → can_shutdown l → fd_inv (net_fds n) →
  Forall (λ s, 0 <= fd_ s < 2 ^ 31 ∧ is_Some (socks n !! fd_ s) ∧ idle io (fd_ s)) l →
  ∃ n', close_sockets fuel l n io = Ok ((λ s, mkSocket (-1) (local_address s)) <$> l, n', io) ∧
    fd_inv (net_fds n') ∧
    ∀ fd, (socks n' !! fd = if decide (fd ∈ fd_ <$> l) then None else socks n !! fd) ∧
      ctx_of (net_fds n') fd = if decide (fd ∈ fd_ <$> l) then None else ctx_of (net_fds n) fd.
Proof.
  induction l as [|s l IH]; intros n io Hnd Hsh Hfi Hl.
  { exists n. done. }
  cbn [fmap list_fmap] in Hnd. apply NoDup_cons in Hnd as [Hs Hnd].
  apply Forall_cons in Hl as [(Hr & Hopen & Hid) Hl].
  pose proof (Hsh s n ltac:(left) Hopen) as Hz.
  destruct (net_shutdown (fd_ s) SHUT_WR n) as [r1 n1] eqn:Hsd. simpl in Hz. subst r1.
  pose proof (shutdown_table _ _ _ _ _ Hsd) as (Hn1 & Hm1). rewrite <- Hm1 in Hfi.
  destruct (close_idle s n1 io Hr Hfi Hid) as (n2 & Hcl & Hn2 & Hfi2 & Hc2).
  destruct (IH n2 io) as (n' & Hrun & Hfi' & Htab); [done| |done| |].
  { intros s' n0 Hs'. apply Hsh. by right. }
  { apply Forall_forall. intros s' Hs'. rewrite Forall_forall in Hl. destruct (Hl s' Hs') as (G1 & G2 & G3).
    assert (Hne : fd_ s' ≠ fd_ s) by (intros He; apply Hs; rewrite <- He; by apply list_elem_of_fmap_2).
    split; [done|]. split; [rewrite Hn2, Hn1; by rewrite lookup_delete_ne|done]. }
  exists n'. split.
  { cbn [close_sockets]. unfold socket_shutdownWrite, sockopt_shutdownWrite, check_zero, stopWrite, stopRead.
    rewrite Hsd. cbn [fst snd mbind outcome_bind]. rewrite !removeEvent_idle by done.
    cbn [fst snd mbind outcome_bind]. rewrite removeEvent_idle by done. cbn [mbind outcome_bind].
    rewrite Hcl. cbn [fst snd mbind outcome_bind]. by rewrite Hrun. }
  split; [done|]. intros fd. destruct (Htab fd) as (-> & ->). rewrite Hn2, Hn1, Hc2, Hm1, fmap_cons.
  destruct (decide (fd = fd_ s)) as [->|Hne];
    [rewrite lookup_delete_eq|rewrite lookup_delete_ne by done]; split; repeat case_decide; try done; exfalso; set_solver.
Qed.

(** Closing fails when shutdown does, and when a coroutine waits for the socket. *)
Lemma close_sockets_fails s l n (io : @IOManager K) :
  ((net_shutdown (fd_ s) SHUT_WR n).1 ≠ Ret 0 → close_sockets fuel (s :: l) n io = Fault AssertFailed) ∧
  ((net_shutdown (fd_ s) SHUT_WR n).1 = Ret 0 → 0 <= fd_ s < 2 ^ 31 → (0 < fuel)%nat →
   hasFd (fd_ s) (net_fds n) = Ok true → waiting io (fd_ s) →
   close_sockets fuel (s :: l) n io = Fault AssertFailed).
Proof.
  cbn [close_sockets]. unfold socket_shutdownWrite, sockopt_shutdownWrite, check_zero, stopWrite, stopRead.
  destruct (net_shutdown (fd_ s) SHUT_WR n) as [r1 n1] eqn:Hsd. cbn [fst snd]. split.
  { destruct r1 as [[| |]|]; [done|done|done|done]. }
  intros -> Hr Hf Hh Hw. destruct (shutdown_table _ _ _ _ _ Hsd) as (_ & Hm).
  destruct (removeEvent_twice fuel (fd_ s) io Hr Hf Hw) as (G1 & io' & G2 & G3).
  cbn [mbind outcome_bind]. rewrite G1. cbn [fst snd mbind outcome_bind]. rewrite G2. cbn [mbind outcome_bind].
  unfold socket_close, hooked_close. rewrite Hm, Hh. cbn [mbind outcome_bind]. by rewrite G3.
Qed.
End Serving.

(** ** Properties *)

Section Theorems.
Context {N : Type} `{NetLaws N} {K : Type} `{EpollLaws K} {B : Type} `{IOWorkBalancer B}.
Variable fuel : nat.
Variable SOMAXCONN : Z.

Notation world := (@world N K B).

(** C19: binding a list of addresses on a server without sockets always returns
    and binds a prefix of the list, up to the first address that the kernel
    refuses: the server then holds one socket per bound address, in order, all
    of them distinct, open, bound and listening there; a server that has sockets
    refuses, and one more address adds at most one socket. *)
Theorem server_binds l srv n :
  server_ok srv n → listen_sockets_ srv = [] →
  ∃ ret k srv' n', (k <= length l)%nat ∧
    server_bind_all SOMAXCONN (Some <$> l) srv n = Ok (ret, srv', n') ∧
    server_ok srv' n' ∧ (local_address <$> listen_sockets_ srv') = Some <$> take k l ∧
    (∀ a, l !! k = Some a → ∃ n0, bindOne SOMAXCONN (Some a) srv' n0 = Ok (false, srv', n')) ∧
    ((0 < k)%nat → ∀ a, server_bind SOMAXCONN (Some a) srv' n' = Ok (false, srv', n')) ∧
    (∀ a, ∃ b srv'' n'', addBindAddr SOMAXCONN (Some a) srv' n' = Ok (b, srv'', n'') ∧ server_ok srv'' n'' ∧
       bound_one a b srv' srv'' n' n'').
Proof.
  intros Hok He. destruct (bind_loop_ok SOMAXCONN l [] srv n Hok) as (k & srv' & n' & Hr & Hok' & _ & Hl & Hk & Hf).
  rewrite He in Hl. simpl in Hl.
  exists (match Some <$> take k l with [] => None | l => Some l end), k, srv', n'. split; [done|]. split.
  { unfold server_bind_all. rewrite He, Hr. cbn [mbind outcome_bind app]. by destruct (Some <$> take k l). }
  split; [done|]. split; [done|]. split; [done|]. split.
  - intros Hk0 a. unfold server_bind. destruct (listen_sockets_ srv'); [|done]. destruct k; [lia|].
    destruct l; simpl in *; [lia|done].
  - intros a. apply bindOne_ok. done.
Qed.

(** C20: serving: [startServe] queues one accepting coroutine per socket, each for
    its own socket; when the kernel then accepts [k] connections on one of them,
    [k] rounds of its coroutine hand exactly these connections, once each, to
    the balancer, every one as a new coroutine that holds the accepted
    descriptor, the server's local address and the peer's address. *)
Theorem server_serves srv (w : world) s i k obj a cs n' :
  serving_ srv = false → server_ok srv (w_net w) → stopping_ (scheduler_ (w_io w)) = false →
  listen_sockets_ srv !! i = Some s → local_address s = Some a → new_address (getFamily a) = Ok obj →
  net_accepts (fd_ s) obj k (w_net w) = Some (cs, n') →
  let '(srv1, w1) := startServe srv w in
  has_room k (scheduler_ (w_io w1)) (w_bal w1) →
  ready_executors_ (scheduler_ (w_io w1)) =
    ready_executors_ (scheduler_ (w_io w)) ++ ids (w_next w) (length (listen_sockets_ srv)) ∧
  w_jobs w1 !! (w_next w + i)%nat = Some (AcceptLoop s) ∧
  ∃ w2, turns k s srv1 w1 = Ok (true, w2) ∧ w_net w2 = n' ∧
    handed (scheduler_ (w_io w2)) (w_bal w2) ≡ₚ ids (w_next w1) k ++ handed (scheduler_ (w_io w1)) (w_bal w1) ∧
    ∀ j c peer, cs !! j = Some (c, peer) →
      w_jobs w2 !! (w_next w1 + j)%nat = Some (Connection (mkConn true (mkSocket c (Some a)) (Some peer))).
Proof.
  intros Hs [[_ Hl] _] Hst Hi Ha Hobj Hacc. unfold startServe. rewrite Hs.
  set (w1 := foldl _ _ _).
  destruct (spawn_loops (listen_sockets_ srv) w Hst) as (Hn & Hb & _ & Hr & Hj & _). fold w1 in Hn, Hb, Hr, Hj.
  intros Hroom. split; [done|]. split; [by apply Hj|].
  destruct (turns_ok s a obj (mkServer true (listen_sockets_ srv) (socket_initer_ srv)) k w1 cs n')
    as (w2 & Ht & Hn2 & _ & Hh & Hj2 & _); try done; [|by rewrite Hn|].
  - rewrite Forall_forall in Hl. destruct (Hl s) as (Hp & _); [by eapply list_elem_of_lookup_2|lia].
  - exists w2. auto.
Qed.

(** C21: [stopServe] ends every accepting coroutine at its next round and queues a
    coroutine that closes the sockets.  If no coroutine waits for one of them and
    shutdown succeeds, that closes exactly the server's sockets: their
    descriptors are free again and forgotten by the descriptor manager, no other
    descriptor is touched, and destroying a server that had sockets then reads
    before the start of the descriptor table.  If shutdown of the first socket
    fails, as it is documented to for a socket that is not connected, or if a
    coroutine waits in accept on it, the closing coroutine fails an
    assertion. *)
Theorem server_stops srv (w : world) :
  serving_ srv = true → server_ok srv (w_net w) → (0 < fuel)%nat →
  Forall (λ s, fd_ s < 2 ^ 31) (listen_sockets_ srv) →
  let '(srv1, w1) := stopServe srv w in
  w_jobs w1 !! w_next w = Some CloseSockets ∧
  (∀ s (w' : world), accept_turn s srv1 w' = Ok (false, w')) ∧
  (can_shutdown (listen_sockets_ srv) → fd_inv (net_fds (w_net w)) →
   Forall (λ s, idle (w_io w) (fd_ s)) (listen_sockets_ srv) →
   ∃ srv2 w2, run_close fuel srv1 w1 = Ok (srv2, w2) ∧ w_io w2 = w_io w1 ∧
     (∀ fd, (socks (w_net w2) !! fd =
               if decide (fd ∈ fd_ <$> listen_sockets_ srv) then None else socks (w_net w) !! fd) ∧
            (ctx_of (net_fds (w_net w2)) fd =
               if decide (fd ∈ fd_ <$> listen_sockets_ srv) then None else ctx_of (net_fds (w_net w)) fd)) ∧
     Forall (λ s, fd_ s = -1) (listen_sockets_ srv2) ∧
     (listen_sockets_ srv ≠ [] → TcpServer_destroy fuel srv2 (w_net w2) (w_io w2) = Fault OutOfBounds)) ∧
  (∀ s l, listen_sockets_ srv = s :: l →
     (net_shutdown (fd_ s) SHUT_WR (w_net w)).1 ≠ Ret 0 ∨
     (hasFd (fd_ s) (net_fds (w_net w)) = Ok true ∧ waiting (w_io w) (fd_ s)) →
     run_close fuel srv1 w1 = Fault AssertFailed).
Proof.
  intros Hs [[Hnd Hl] _] Hf Hlt. unfold stopServe. rewrite Hs. split; [apply lookup_insert_eq|]. split; [done|].
  set (w1 := spawn CloseSockets w). rewrite Forall_forall in Hl, Hlt. split.
  - intros Hsh Hfi Hid. rewrite Forall_forall in Hid.
    destruct (close_sockets_ok fuel (listen_sockets_ srv) (w_net w) (w_io w1) Hnd Hsh Hfi) as (n' & Hc & Hfi' & Ht).
    { apply Forall_forall. intros s Hin. specialize (Hlt s Hin).
      destruct (Hl s Hin) as (Hp & k & a & _ & Hk & _). split; [lia|]. split; [by eexists|exact (Hid s Hin)]. }
    exists (mkServer false ((λ s, mkSocket (-1) (local_address s)) <$> listen_sockets_ srv) (socket_initer_ srv)),
      (mkWorld n' (w_io w1) (w_bal w1) (w_jobs w1) (w_next w1)).
    split; [unfold run_close; cbn [listen_sockets_]; change (w_net w1) with (w_net w); by rewrite Hc|].
    split; [done|]. split; [done|]. split; [by apply Forall_fmap, Forall_true|]. intros Hne.
    destruct (listen_sockets_ srv) as [|s l]; [done|]. unfold TcpServer_destroy, socket_close, hooked_close.
    cbn [serving_ listen_sockets_ fmap list_fmap ofold fd_ fst w_net].
    destruct (getContext_negative (-1) (net_fds n') Hfi') as (_ & -> & _); [lia|done].
  - intros s l He Hor. unfold run_close. cbn [listen_sockets_]. rewrite He. change (w_net w1) with (w_net w).
    assert (Hin : s ∈ listen_sockets_ srv) by (rewrite He; left). specialize (Hlt s Hin).
    destruct (Hl s Hin) as (Hp & _). destruct (close_sockets_fails fuel s l (w_net w) (w_io w1)) as (G1 & G2).
    destruct (decide ((net_shutdown (fd_ s) SHUT_WR (w_net w)).1 = Ret 0)) as [Hz|Hz]; [|by rewrite G1].
    destruct Hor as [?|(Hh & Hw)]; [done|]. by rewrite G2.
Qed.
End Theorems.

(** A stopped server keeps its closed sockets: it cannot be bound again, and when
    it is started again its coroutines find no descriptor and never wait. *)
Lemma restart_spins {N} `{NetCalls N} {K} `{EpollKernel K} {B} `{IOWorkBalancer B}
    s a srv (w : @world N K B) :
  fd_ s = -1 → local_address s = Some a → serving_ srv = true → accept_turn s srv w = Ok (true, w).
Proof.
  intros Hfd Ha Hs. unfold accept_turn, socket_accept. rewrite Hs, Ha, Hfd. simpl. by destruct w.
Qed.

(** The list [bind] returns holds the addresses that were bound, and it returns
    nothing when the first could not be. *)
Lemma server_bind_all_returns {N} `{NetLaws N} SOMAXCONN l srv n ret srv' n' :
  server_ok srv n → listen_sockets_ srv = [] →
  server_bind_all SOMAXCONN (Some <$> l) srv n = Ok (ret, srv', n') →
  ret = match local_address <$> listen_sockets_ srv' with [] => None | bound => Some bound end.
Proof.
  intros Hok He. destruct (bind_loop_ok SOMAXCONN l [] srv n Hok) as (k & s1 & n1 & Hr & _ & _ & Hl & _).
  unfold server_bind_all. rewrite He, Hr. cbn [mbind outcome_bind app]. intros [= <- <- <-].
  rewrite He in Hl. rewrite Hl. cbn [fmap list_fmap app]. by destruct (Some <$> take k l).
Qed.

(** An address that could not be bound costs a descriptor. *)
Lemma bindOne_leaks {N} `{NetLaws N} SOMAXCONN a srv n fd n1 e n2 :
  net_socket (getFamily a) SOCK_STREAM 0 n = (Ret fd, n1) → socket_initer_ srv = None →
  net_bind fd a n1 = (Err e, n2) →
  bindOne SOMAXCONN (Some a) srv n = Ok (false, srv, n2) ∧ is_Some (socks n2 !! fd).
Proof.
  intros Hs Hi Hb. unfold bindOne. cbn [of_option mbind outcome_bind]. rewrite Hs, Hi. unfold socket_bind. simpl.
  rewrite Hb. split; [done|]. apply socket_ok in Hs as (_ & _ & Hs). apply bind_err in Hb.
  rewrite Hb, Hs, lookup_insert_eq. by eexists.
Qed.

Module TcpServerEx.
Import SimpleNet.
#[local] Existing Instances SimpleKernel.simple_kernel SimpleKernel.simple_laws.

Definition addr (port : Z) : SockAddress := IPV4Address (mkIn AF_INET (htons port) 0 (replicate 8 0)).
Definition n0 : net := mkNet ∅ [addr 5000; addr 5001] FdManager_init.
Definition srv0 : TcpServer (N := net) := TcpServer_new.

Lemma srv0_ok : server_ok srv0 n0.
Proof. split; [split; simpl; constructor|]. intros f Hf. discriminate Hf. Qed.

Lemma server_binds_witness :
  ∃ srv n, server_bind_all 128 [Some (addr 80); Some (addr 81)] srv0 n0 =
      Ok (Some [Some (addr 80); Some (addr 81)], srv, n) ∧
    (local_address <$> listen_sockets_ srv) = [Some (addr 80); Some (addr 81)] ∧ server_ok srv n.
Proof.
  destruct (server_binds 128 [addr 80; addr 81] srv0 n0 srv0_ok eq_refl) as (ret & k & srv & n & Hk & Hb & Hok & Hl & Hf & _).
  exists srv, n. vm_compute in Hb. injection Hb as <- <- <-. split; [vm_compute; reflexivity|].
  split; [vm_compute; reflexivity|exact Hok].
Defined.

Definition bound : TcpServer (N := net) * net :=
  match bindOne 128 (Some (addr 80)) srv0 n0 with Ok (_, srv, n) => (srv, n) | _ => (srv0, n0) end.

Lemma bound_ok : server_ok bound.1 bound.2.
Proof.
  destruct (bindOne_ok 128 (addr 80) srv0 n0 srv0_ok) as (b & srv & n & Hb & Hok & _).
  unfold bound. rewrite Hb. exact Hok.
Qed.

Definition s0 : Socket := mkSocket 3 (Some (addr 80)).
Definition io0 : IOManager := IOManagerEx.io1.
Definition w0 : @world net SimpleKernel.kernel unit := mkWorld bound.2 io0 tt ∅ 100.

Definition n1 : net :=
  match net_accepts 3 (IPV4Address in_init) 2 bound.2 with Some (_, n) => n | None => n0 end.

Lemma server_serves_witness :
  ∃ w2, turns 2 s0 (startServe bound.1 w0).1 (startServe bound.1 w0).2 = Ok (true, w2) ∧
    w_jobs w2 !! 102%nat = Some (Connection (mkConn true (mkSocket 5 (Some (addr 80))) (Some (addr 5001)))).
Proof.
  pose proof (server_serves bound.1 w0 s0 0 2 (IPV4Address in_init) (addr 80) [(4, addr 5000); (5, addr 5001)]
    n1 eq_refl bound_ok eq_refl eq_refl eq_refl eq_refl ltac:(vm_compute; reflexivity)) as Hthm.
  destruct (startServe bound.1 w0) as [srv1 w1] eqn:Hst.
  assert (Hroom : has_room 2 (scheduler_ (w_io w1)) (w_bal w1)).
  { replace w1 with (startServe bound.1 w0).2 by by rewrite Hst. vm_compute. reflexivity. }
  destruct (Hthm Hroom) as (_ & _ & w2 & Ht & _ & _ & Hj). exists w2. split; [exact Ht|].
  replace 102%nat with (w_next w1 + 1)%nat.
  - exact (Hj 1%nat 5 (addr 5001) eq_refl).
  - replace w1 with (startServe bound.1 w0).2 by by rewrite Hst. vm_compute. reflexivity.
Defined.

Definition srv1 : TcpServer (N := net) := mkServer true (listen_sockets_ bound.1) None.

Lemma srv1_ok : server_ok srv1 bound.2.
Proof.
  destruct bound_ok as [[Hnd Hl] _]. split; [split; [exact Hnd|exact Hl]|]. intros f Hf. discriminate Hf.
Qed.

Lemma bound_fds : fd_inv (net_fds bound.2).
Proof.
  destruct (setContext_map 3 (mkFdContext true true false true size_max size_max) FdManager_init)
    as (m & Hm & Hi & _); [apply fd_inv_init|lia|right; lia|].
  replace (net_fds bound.2) with m; [exact Hi|]. vm_compute in Hm. injection Hm as <-. vm_compute. reflexivity.
Qed.

(** Executor 9 waits in accept on the listening socket. *)
Definition io2 : IOManager :=
  mkIO false 2 (30, 31) (scheduler_ io0) (timer_manager_ io0)
    (<[3%nat := mkFdEvents Read true true (Some 9%nat) None]> (fd_events_ io0))
    (SimpleKernel.mkKernel {[(2, 3) := 1]} [3] [] ∅ [] ∅) (io_rt io0).
Definition w2 : @world net SimpleKernel.kernel unit := mkWorld bound.2 io2 tt ∅ 100.

(** Nobody waits in [w0]; executor 9 does in [w2]. *)
Lemma server_stops_witness :
  (∃ srv2 w', run_close 1 (stopServe srv1 w0).1 (stopServe srv1 w0).2 = Ok (srv2, w') ∧
    socks (w_net w') !! 3 = None ∧ TcpServer_destroy 1 srv2 (w_net w') (w_io w') = Fault OutOfBounds) ∧
  run_close 1 (stopServe srv1 w2).1 (stopServe srv1 w2).2 = Fault AssertFailed.
Proof.
  split.
  - destruct (server_stops 1 srv1 w0) as (_ & _ & Hc & _); [reflexivity|apply srv1_ok|lia| |].
    { constructor; [vm_compute; reflexivity|constructor]. }
    destruct Hc as (srv2 & w' & Hc & _ & Ht & _ & Hd).
    + intros s n _ [x Hx]. simpl in Hx |- *. rewrite Hx. reflexivity.
    + exact bound_fds.
    + constructor; [|constructor]. intros x Hx. vm_compute in Hx. injection Hx as <-. reflexivity.
    + exists srv2, w'. split; [exact Hc|]. split; [rewrite (proj1 (Ht 3)); vm_compute; reflexivity|].
      apply Hd. discriminate.
  - destruct (server_stops 1 srv1 w2) as (_ & _ & _ & Hc); [reflexivity|apply srv1_ok|lia| |].
    { constructor; [vm_compute; reflexivity|constructor]. }
    apply (Hc s0 []); [vm_compute; reflexivity|]. right. split; [vm_compute; reflexivity|].
    eexists. split; [vm_compute; reflexivity|]. split; [reflexivity|]. vm_compute. discriminate.
Defined.
End TcpServerEx.
